(* ===== verification/_CoqProject ===== *)
-Q . S2P
Prelude.v
ODict.v
Window.v
Dedup.v
Queue.v
Pipeline.v
PyText.v
Logs.v
Sha256.v
IpAddress.v
Events.v
PyRe.v
Rules.v
Evaluator.v
Engine.v
Loader.v
Alerting.v
Storage.v
Persist.v
Calendar.v
NetParse.v
Normalizer.v
Base.v
Collector.v
Process.v
Network.v
Integrity.v
AuthParse.v
AuthTail.v
Sinks.v
Settings.v
Metrics.v
Runtime.v
System.v
Service.v
Observe.v
Database.v
Api.v
Lifecycle.v
Library.v
Demo.v
Cli.v
LogConfig.v
Migrations.v
Scripts.v
CollectorRun.v
Columns.v
