(* ===== verification/Prelude.v ===== *)
(** * Sentinel-Linux 2.0: verification library

    A model of the host intrusion detection service under [src/src/sentinel/]
    and the theorems that make it correct.  This file holds what every other
    uses: exceptions and fallible computations, lists, the notations, tactics
    and hint databases.

    ** The program

    Collectors watch a source each (auth log, processes, sockets, files) and
    put normalized events on one bounded queue.  The pipeline's consumer drops
    duplicates and hands each event to [Runtime._consume], which has the
    detection engine evaluate the rules, the alert manager turn detections into
    alerts for the sinks' lanes, and the write-behind buffer take event and
    alerts for the database.  A flusher writes the buffer, a pruner deletes what
    outlived its retention, an HTTP API reads the database.

    ** Files, parts and operations

    - [ODict], [Window], [PyText], [Sha256], [IpAddress], [PyRe], [Calendar]:
      the parts of Python and its library the source relies on (insertion
      ordered dicts, sliding windows, [str], [hashlib]/[hmac], [ipaddress],
      [re], [datetime]).
    - [Events] ([events.py]): event models, constraints, JSON view, content ids.
    - [Dedup] ([pipeline/dedup.py]), [Queue] ([pipeline/queue.py]), [Pipeline]
      ([pipeline/runner.py]): [seen], [put]/[get]/[task_done], wiring, consumer
      loop, supervision.
    - [Rules], [Evaluator], [Engine], [Loader] ([detection/]): rule schema,
      condition evaluation, action index and threshold windows, loading.
    - [Alerting] ([alerting/manager.py], [model.py], [sinks/base.py]) and
      [Sinks] ([alerting/sinks/]): gates, throttle, delivery lanes; console,
      email and webhook.
    - [Storage] ([storage/repository.py], [models.py]) and [Persist]
      ([runtime.py], [storage/database.py]): rows, paging, idempotent writes;
      the write-behind buffer with outages, refusals and late commits.
      [Migrations] ([storage/models.py], [migrations/]): tables, indexes, the
      four revisions both ways; [Columns]: rows against column widths.
    - [NetParse], [Normalizer] ([collectors/netparse.py], [normalizer/]), [Base]
      and [Collector] ([collectors/base.py]), [Process], [Network], [Integrity], [AuthParse],
      [AuthTail] ([collectors/]): the four collectors; [CollectorRun]: their
      [run] loops, [stop] and [stats].
    - [Settings] ([settings.py]), [Runtime] ([runtime.py]): validation,
      composition, consumption of an event, pruning.
    - [System]: an event's way from the queue to stored evidence; [Service]: the
      running service as one labelled system, and [Runtime.stop]; [Observe]:
      [Runtime.snapshot] and what a scrape shows of it ([Metrics], [metrics.py]).
    - [Database] ([storage/database.py]): the private database file, calls with a
      deadline.
    - [Api] ([api/]): authentication, rate limit, headers, paging, readiness;
      [Lifecycle]: [get_app], [Runtime.start], the application's life span, the
      flusher's and the pruner's loops.
    - [Logs], [LogConfig] ([logging.py]): redaction and control-character
      stripping; the levels, and which records are written.
    - [Library] ([rules/*.yml]): the shipped rules without regular expressions;
      [Demo] ([demo.py]): the scripted intrusion, its replay through the
      runtime, the recap; [Cli] ([cli.py]): the commands and their exit codes;
      [Scripts] ([src/scripts/]): the coverage matrix, the benchmarks' events,
      runs and median.

    Interfaces: [DuplicateFilter] (what pipeline and alert manager need of the
    dedup window), [SqlTable] (what the repository needs of a SQL table),
    [RegexEngine] (the third-party [regex] package), [Telling] (what makes a
    snapshot collector's reports complete), [SchemaTool] (the effect of each
    schema operation on a database, as Alembic and SQL document it).

    ** How it is modelled

    A Python exception is a [result]; a dict an association list in insertion
    order; time an integer (microseconds, nanoseconds in [Integrity]) read from
    the caller; a string a list of characters below 256.  A coroutine runs alone
    between two awaits: its code there is one function, and interleavings are
    sequences of labels of a step function.  Loops over data recurse on it; the
    others have fuel: [read_new_lines] opens at most two files a call (fuel 2);
    [PyRe] repetitions have the text's length; [digest_loop] one step more than
    the file has bytes; [prune_batches] and [Service.join] get as much as
    their theorems show to be enough (a batch more than the expired rows fill;
    twice the queue plus one); [finish_flush] one step per save left;
    [poll_loop], [prune_periodically] and [flush_periodically] a step per period,
    or per microsecond, until they are asked to stop; a collector's [run] gets
    the steps its theorem shows to be enough.

    ** What the theorems show

    - End to end: a matching event becomes a stored alert
      ([System.matching_event_becomes_alert]); no event is lost unnoticed and
      nothing raises ([Service.every_event_accounted_for]), nor is an alert
      ([Observe.every_detection_accounted_for]); shutdown ends and leaves nothing
      behind ([Service.shutdown_accounts_for_every_event]); from configuration
      files to the released database ([Lifecycle.service_life]); the exported
      counters add up ([Observe.scrape_adds_up]).
    - Detection: nothing that matches is missed, timeouts and index included;
      thresholds fire exactly at their count; state stays bounded; the schema
      accepts exactly the well-formed rules.
    - Pipeline, queue, dedup: conservation, order, exact counters, refinement of
      the dedup window's specification, draining.
    - Alerting and sinks: refinement of the manager's specification, every
      notification accounted for, no login without TLS, no request to an
      unchecked address.
    - Persistence and API: at most one row per record, nothing lost silently,
      recovery after outages, stable paging, retention, a private database file,
      calls that end on time; no data without the key, exact rate limiting,
      readiness that is fresh and cheap.
    - Collectors: replaying what a collector reports gives what it last saw;
      log lines are read once; listeners are not hidden by floods; content
      changes are found whatever the time stamps say; kernel rows and sshd lines
      parse back; names that are not UTF-8 become text; a collector asked to
      stop drains once more and ends, the integrity collector within its budget.
    - Schema: upgrades and downgrades lose nothing; the revisions end where the
      models say; what the service stores fits its columns.
    - Logging: no control character in a value, no secret; the libraries that
      log URLs write warnings only.
    - Demonstration and scripts: the replay ends with its whole story analysed, the repeated
      transition once, and the recap's numbers; the rules find four of its
      attack steps and no benign event; an invalid library ends a command; the
      coverage matrix has every rule; the benchmarks measure what they say.

    Examples and lemmas beside them show where the code does not do what its
    documentation says (a spoofable address in a certificate's key id, lines lost
    when a lookup fails, an alert buffer beyond its cap, and others).

    ** Not modelled

    Code outside the source is a parameter with its documented contract as a
    hypothesis: the [regex] package, pydantic's field parsing and JSON
    rendering, YAML, SQL and SQLAlchemy's reading of a URL, HTTP and SMTP
    answers, name resolution, UTF-8 decoding with replacement, the CORS
    middleware, the kernel's files.  Left out: the latency histogram and the text
    format of [metrics.py], SQLAlchemy's engine, sessions and pragmas
    ([storage/database.py]), FastAPI's routing ([api/app.py]), structlog's
    renderers, [argparse] and what uvicorn does ([cli.py]), the offline run of the
    migrations (Alembic prints their operations), the scripts' clocks, temporary
    directories and printing, and the packages' re-exports: they call the
    libraries above or the modelled parts and keep no state of their own.  The
    ten rules of the library that use regular expressions are not in [Library],
    since the engine that decides them is a parameter. *)

From stdpp Require Export base tactics sets list strings numbers option sorting gmap.
From Stdlib Require Export ZArith Lia.

(** ** Python exceptions and fallible computations

    An operation of the source that can raise is a [result]: [Ok v] when it
    returns, [Raise e] when it raises an exception of class [e].  Only the
    classes the modelled code distinguishes are listed. *)
Inductive exn : Type :=
  | ValueError
  | RuntimeError
  | TimeoutError
  | KeyError
  | StopIteration
  | OSError
  | OverflowError
  | QueueFull
  | QueueEmpty
  | ValidationError
  | EvaluationIncomplete
  | RuleLoadError
  | ConfigurationError
  | DestinationBlockedError
  | WebhookError.

#[export] Instance exn_eq_dec : EqDecision exn.
Proof. solve_decision. Defined.

Inductive result (A : Type) : Type :=
  | Ok (a : A)
  | Raise (e : exn).
Arguments Ok {A} _.
Arguments Raise {A} _.

#[export] Instance result_eq_dec {A} `{EqDecision A} : EqDecision (result A).
Proof. solve_decision. Defined.

#[export] Instance result_ret : MRet result := fun A a => Ok a.
#[export] Instance result_bind : MBind result := fun A B f r =>
  match r with Ok a => f a | Raise e => Raise e end.
#[export] Instance result_fmap : FMap result := fun A B f r =>
  match r with Ok a => Ok (f a) | Raise e => Raise e end.

Definition is_ok {A} (r : result A) : bool :=
  match r with Ok _ => true | Raise _ => false end.

(** [raise_if b e] is the guard [if b: raise e]. *)
Definition raise_if (b : bool) (e : exn) : result unit :=
  if b then Raise e else Ok tt.

Lemma raise_if_ok b e u : raise_if b e = Ok u <-> b = false.
Proof. destruct b, u; simpl; split; congruence. Qed.

Lemma result_bind_ok {A B} (r : result A) (f : A → result B) b :
  r ≫= f = Ok b ↔ ∃ a, r = Ok a ∧ f a = Ok b.
Proof.
  destruct r as [a|e]; simpl; unfold mbind, result_bind.
  - split; [intros Hf; by exists a|]. intros (? & ? & ?). congruence.
  - split; [done|]. intros (? & ? & ?). congruence.
Qed.

Lemma result_bind_raise {A B} (r : result A) (f : A → result B) e :
  r ≫= f = Raise e ↔ r = Raise e ∨ ∃ a, r = Ok a ∧ f a = Raise e.
Proof.
  destruct r as [a|e']; simpl; unfold mbind, result_bind.
  - split; [intros Hf; right; by exists a|]. intros [?|(? & ? & ?)]; congruence.
  - split; [left; congruence|]. intros [?|(? & ? & ?)]; congruence.
Qed.

(** Run a check on every element of a list, left to right, stopping at the
    first exception: [for x in l: f(x)]. *)
Section check_each.
Context {A : Type} (f : A → result unit).

Fixpoint check_each (l : list A) : result unit :=
  match l with
  | [] => Ok tt
  | x :: l' => _ ← f x; check_each l'
  end.

Lemma check_each_ok l : check_each l = Ok tt ↔ Forall (λ x, f x = Ok tt) l.
Proof.
  induction l as [|x l IH]; simpl; [by split|].
  rewrite result_bind_ok, Forall_cons, <-IH. split.
  - intros (u & Hu & ?). destruct u. by rewrite Hu.
  - intros [-> ?]. by exists tt.
Qed.

Lemma check_each_raise l e :
  check_each l = Raise e →
  ∃ pre x post, l = pre ++ x :: post ∧ f x = Raise e ∧ Forall (λ y, f y = Ok tt) pre.
Proof.
  induction l as [|x l IH]; simpl; [done|].
  rewrite result_bind_raise. intros [Hx|(u & Hx & Hl)]; [|destruct u].
  - exists [], x, l. by split_and!.
  - destruct (IH Hl) as (pre & y & post & -> & Hy & Hpre).
    exists (x :: pre), y, post. split_and!; [done|done|by constructor].
Qed.
End check_each.

(** ** Time

    Instants and durations are integers counting microseconds, the resolution
    of Python's [datetime]; a literal [s] in seconds in the source is
    [s * SECOND] here.  The order, sums and differences the code computes are
    kept; rounding of binary floating point is not modelled. *)
Definition SECOND : Z := 1000000.

(** A sequence of clock readings that never goes back. *)
Abbreviation nondecreasing := (StronglySorted Z.le).

(** Python's [len] of a list, as an unbounded integer. *)
Definition len {A} (l : list A) : Z := Z.of_nat (length l).

Lemma len_nonneg {A} (l : list A) : (0 <= len l)%Z.
Proof. unfold len. lia. Qed.

Lemma len_app {A} (l1 l2 : list A) : len (l1 ++ l2) = (len l1 + len l2)%Z.
Proof. unfold len. rewrite length_app. lia. Qed.

Lemma len_cons {A} (x : A) l : len (x :: l) = (1 + len l)%Z.
Proof. unfold len. simpl length. lia. Qed.

Lemma len_nil {A} : len (@nil A) = 0%Z.
Proof. done. Qed.

(** ** Lists *)

(** [l[-n:]] for [n >= 1]: the last [n] elements. *)
Definition lastn {A} (n : nat) (l : list A) : list A := drop (length l - n) l.

Section lists.
Context {A : Type}.
Implicit Types l : list A.

Lemma lastn_length n l : length (lastn n l) = min n (length l).
Proof. unfold lastn. rewrite length_drop. lia. Qed.

Lemma lastn_all n l : length l ≤ n → lastn n l = l.
Proof. intros. unfold lastn. by replace (length l - n) with 0 by lia. Qed.

Lemma lastn_snoc n l x : lastn (S n) (l ++ [x]) = lastn n l ++ [x].
Proof.
  unfold lastn. rewrite length_app; simpl.
  replace (length l + 1 - S n) with (length l - n) by lia.
  rewrite drop_app_le by lia. done.
Qed.

Lemma lastn_S n l : n < length l → ∃ x, lastn (S n) l = x :: lastn n l.
Proof.
  intros Hn. unfold lastn.
  destruct (lookup_lt_is_Some_2 l (length l - S n)) as [x Hx]; [lia|].
  exists x. rewrite (drop_S _ x _ Hx). by replace (S (length l - S n)) with (length l - n) by lia.
Qed.

Lemma lastn_suffix n l : ∃ p, l = p ++ lastn n l.
Proof. exists (take (length l - n) l). unfold lastn. by rewrite take_drop. Qed.

Lemma StronglySorted_suffix (R : A → A → Prop) l1 l2 :
  StronglySorted R (l1 ++ l2) → StronglySorted R l2.
Proof. induction l1; simpl; [done|]. inversion 1; auto. Qed.

Lemma StronglySorted_snoc (R : A → A → Prop) l x :
  StronglySorted R (l ++ [x]) ↔ StronglySorted R l ∧ Forall (λ y, R y x) l.
Proof.
  induction l as [|y l IH]; simpl.
  - split; intros _; repeat constructor.
  - split.
    + inversion 1 as [|?? Hs Hf]; subst. apply IH in Hs as [??].
      apply Forall_app in Hf as [? Hf]. apply Forall_cons in Hf as [? _].
      split; [by constructor|]. by constructor.
    + intros [Hs Hf]. inversion Hs; subst. inversion Hf; subst.
      constructor; [by apply IH|]. apply Forall_app. split; [done|]. by apply Forall_singleton.
Qed.

Lemma StronglySorted_sublist (R : A → A → Prop) l1 l2 :
  l1 `sublist_of` l2 → StronglySorted R l2 → StronglySorted R l1.
Proof.
  induction 1 as [|x l1 l2 Hsub IH|x l1 l2 Hsub IH]; [done| |].
  - inversion 1; subst. constructor; [by apply IH|].
    apply Forall_forall. intros y Hy. eapply Forall_forall; [done|].
    by eapply elem_of_sublist.
  - inversion 1; subst. by apply IH.
Qed.

Lemma filter_length_le (P : A → Prop) `{∀ x, Decision (P x)} l :
  length (filter P l) ≤ length l.
Proof. apply sublist_length, sublist_filter. Qed.

Lemma lastn_sublist n l : lastn n l `sublist_of` l.
Proof. apply sublist_drop. Qed.

Lemma filter_weaken_in (P Q : A → Prop) `{∀ x, Decision (P x), ∀ x, Decision (Q x)} l :
  (∀ x, x ∈ l → P x → Q x) → filter P (filter Q l) = filter P l.
Proof.
  induction l as [|x l IH]; intros HPQ; [done|].
  assert (filter P (filter Q l) = filter P l) as IHl by (apply IH; intros; apply HPQ; [by right|done]).
  rewrite !filter_cons. destruct (decide (Q x)) as [?|Hq]; [rewrite filter_cons; by rewrite IHl|].
  case_decide as Hp; [|done]. destruct Hq. apply HPQ; [by left|done].
Qed.

Lemma filter_weaken (P Q : A → Prop) `{∀ x, Decision (P x), ∀ x, Decision (Q x)} l :
  (∀ x, P x → Q x) → filter P (filter Q l) = filter P l.
Proof. intros HPQ. apply filter_weaken_in. eauto. Qed.

Lemma filter_split_length (P : A → Prop) `{∀ x, Decision (P x)} l :
  length (filter P l) + length (filter (λ x, ¬ P x) l) = length l.
Proof. induction l as [|x l IH]; [done|]. rewrite !filter_cons. repeat case_decide; simpl; lia || done. Qed.

Lemma NoDup_submseteq_l (l k : list A) : l ⊆+ k → NoDup k → NoDup l.
Proof.
  intros (k' & Hk)%submseteq_Permutation Hnd. rewrite Hk in Hnd. by apply NoDup_app in Hnd as (? & _).
Qed.

Lemma filter_all (P : A → Prop) `{∀ x, Decision (P x)} l : Forall P l → filter P l = l.
Proof. induction 1; [done|]. rewrite filter_cons_True by done. by f_equal. Qed.

Lemma filter_none (P : A → Prop) `{∀ x, Decision (P x)} l :
  Forall (λ x, ¬ P x) l → filter P l = [].
Proof. induction 1; [done|]. by rewrite filter_cons_False by done. Qed.
End lists.

Lemma filter_fmap {A B} (f : A → B) (P : B → Prop) `{∀ x, Decision (P x)} (l : list A) :
  filter P (f <$> l) = f <$> filter (λ x, P (f x)) l.
Proof.
  induction l as [|x l IH]; [done|]. rewrite fmap_cons, !filter_cons, IH.
  by repeat case_decide.
Qed.

Lemma nondecreasing_head (l : list Z) :
  nondecreasing l → nondecreasing (default 0%Z (head l) :: l).
Proof.
  destruct l as [|t l]; simpl; [repeat constructor|]. intros Hs.
  pose proof Hs as Hs'. inversion Hs'; subst. constructor; [done|]. constructor; [lia|done].
Qed.

Lemma nondecreasing_from (last : Z) (l : list Z) :
  nondecreasing l → (last <= default 0%Z (head l))%Z → nondecreasing (last :: l).
Proof.
  intros Hs Hle. constructor; [done|]. destruct l as [|t l]; [constructor|]. simpl in Hle.
  inversion Hs as [|?? _ Hall]; subst. constructor; [done|].
  eapply Forall_impl; [exact Hall|]. simpl; lia.
Qed.

(** ** Shared tactics *)

(** Split every boolean test of the code that occurs in the goal or in a
    hypothesis, recording what it decides as a proposition. *)
Ltac reflect_bools :=
  repeat match goal with
  | H : (_ && _)%bool = true |- _ => apply andb_true_iff in H; destruct H
  | H : (_ || _)%bool = false |- _ => apply orb_false_iff in H; destruct H
  | H : (_ || _)%bool = true |- _ => apply orb_true_iff in H
  | H : (_ && _)%bool = false |- _ => apply andb_false_iff in H
  | H : negb _ = true |- _ => apply negb_true_iff in H
  | H : negb _ = false |- _ => apply negb_false_iff in H
  | H : (_ <? _)%Z = true |- _ => apply Z.ltb_lt in H
  | H : (_ <? _)%Z = false |- _ => apply Z.ltb_ge in H
  | H : (_ <=? _)%Z = true |- _ => apply Z.leb_le in H
  | H : (_ <=? _)%Z = false |- _ => apply Z.leb_gt in H
  | H : (_ =? _)%Z = true |- _ => apply Z.eqb_eq in H
  | H : (_ =? _)%Z = false |- _ => apply Z.eqb_neq in H
  | H : bool_decide _ = true |- _ => apply bool_decide_eq_true in H
  | H : bool_decide _ = false |- _ => apply bool_decide_eq_false in H
  | H : String.eqb _ _ = true |- _ => apply String.eqb_eq in H
  | H : String.eqb _ _ = false |- _ => apply String.eqb_neq in H
  end.

(** Case analysis on the [if]s and [match]es of the goal, the tests turned
    into propositions, closed branches discharged. *)
Ltac branches := repeat (case_match; simplify_eq/=); reflect_bools.

(** Goals about lengths and counters. *)
Ltac lengths :=
  repeat (rewrite ?length_app, ?length_cons, ?length_drop, ?length_take,
            ?length_fmap in *; simpl in *); lia.
