(* ===== verification/ODict.v ===== *)
(** * Python dictionaries

    A [dict] keeps its insertion order: assigning to a key that is present
    updates it in place, assigning to a new key appends it, and
    [next(iter(d))] is the oldest key.  The dedup window, the detection
    engine's threshold windows, the alert throttle and the rate limiter all
    depend on that order (they evict the oldest entry), so a dict is modelled
    as an association list, oldest entry first. *)

From S2P Require Import Prelude.

Abbreviation odict K V := (list (K * V)).

Section odict.
Context {K V : Type} `{EqDecision K}.
Implicit Types (d : odict K V) (k : K) (v : V).

(** [d.get(k)] *)
Fixpoint od_get d k : option V :=
  match d with
  | [] => None
  | (k', v) :: d' => if decide (k = k') then Some v else od_get d' k
  end.

(** [k in d] *)
Definition od_mem d k : bool :=
  match od_get d k with Some _ => true | None => false end.

(** [d[k] = v] *)
Fixpoint od_set d k v : odict K V :=
  match d with
  | [] => [(k, v)]
  | (k', v') :: d' =>
      if decide (k = k') then (k', v) :: d' else (k', v') :: od_set d' k v
  end.

(** [del d[k]] (the callers check membership first) *)
Fixpoint od_del d k : odict K V :=
  match d with
  | [] => []
  | (k', v') :: d' => if decide (k = k') then d' else (k', v') :: od_del d' k
  end.

(** [del d[next(iter(d))]]: drop the oldest entry *)
Definition od_pop_oldest d : result (odict K V) :=
  match d with
  | [] => Raise StopIteration
  | _ :: d' => Ok d'
  end.

Definition od_keys d : list K := d.*1.

(** *** Lookup laws *)

Lemma od_get_set_eq d k v : od_get (od_set d k v) k = Some v.
Proof.
  induction d as [|[k' v'] d IH]; csimpl; [by rewrite decide_True|].
  case_decide; csimpl; [by rewrite decide_True | by rewrite decide_False].
Qed.

Lemma od_get_set_ne d k k' v : k ≠ k' → od_get (od_set d k v) k' = od_get d k'.
Proof.
  intros Hne. induction d as [|[k0 v0] d IH]; csimpl; [by rewrite decide_False|].
  case_decide; simplify_eq/=; case_decide; by simplify_eq/=.
Qed.

Lemma od_get_set d k k' v :
  od_get (od_set d k v) k' = if decide (k = k') then Some v else od_get d k'.
Proof. case_decide; subst; auto using od_get_set_eq, od_get_set_ne. Qed.

Lemma od_get_app d1 d2 k :
  od_get (d1 ++ d2) k = match od_get d1 k with Some v => Some v | None => od_get d2 k end.
Proof. induction d1 as [|[??] ? IH]; csimpl; [done|]. by case_decide. Qed.

Lemma od_get_None d k : od_get d k = None ↔ k ∉ od_keys d.
Proof.
  unfold od_keys. induction d as [|[k' v'] d IH]; csimpl; [set_solver|].
  case_decide; rewrite not_elem_of_cons; naive_solver.
Qed.

Lemma od_get_is_Some d k : is_Some (od_get d k) ↔ k ∈ od_keys d.
Proof.
  rewrite <-not_eq_None_Some, od_get_None.
  split; [apply dec_stable|]. intros Hin Hnin. by apply Hnin.
Qed.

Lemma od_get_elem_of d k v : od_get d k = Some v → (k, v) ∈ d.
Proof.
  induction d as [|[k' v'] d IH]; csimpl; [done|].
  case_decide; simplify_eq; rewrite elem_of_cons; naive_solver.
Qed.

Lemma od_elem_of_get d k v : NoDup (od_keys d) → (k, v) ∈ d → od_get d k = Some v.
Proof.
  unfold od_keys. induction d as [|[k' v'] d IH]; csimpl; [by rewrite elem_of_nil|].
  rewrite NoDup_cons, elem_of_cons. intros [Hnin Hnd] [?|Hin]; simplify_eq.
  - by rewrite decide_True.
  - rewrite decide_False; [auto|]. intros ->. apply Hnin.
    apply list_elem_of_fmap. by exists (k', v).
Qed.

Lemma od_mem_true d k : od_mem d k = true ↔ k ∈ od_keys d.
Proof. unfold od_mem. rewrite <-od_get_is_Some. case_match; naive_solver. Qed.

Lemma od_mem_false d k : od_mem d k = false ↔ k ∉ od_keys d.
Proof. rewrite <-od_mem_true. by destruct (od_mem d k). Qed.

(** *** Order and size *)

Lemma od_set_fresh d k v : k ∉ od_keys d → od_set d k v = d ++ [(k, v)].
Proof.
  unfold od_keys. induction d as [|[k' v'] d IH]; csimpl; [done|].
  rewrite not_elem_of_cons. intros [??]. rewrite decide_False by done.
  by rewrite IH.
Qed.

Lemma od_keys_set_present d k v : k ∈ od_keys d → od_keys (od_set d k v) = od_keys d.
Proof.
  unfold od_keys. induction d as [|[k' v'] d IH]; csimpl; [by rewrite elem_of_nil|].
  rewrite elem_of_cons. case_decide; csimpl; [done|].
  intros [?|?]; [done|]. by rewrite IH.
Qed.

Lemma od_keys_set d k v :
  od_keys (od_set d k v) = if decide (k ∈ od_keys d) then od_keys d else od_keys d ++ [k].
Proof.
  case_decide; [by apply od_keys_set_present|].
  rewrite od_set_fresh by done. unfold od_keys. by rewrite fmap_app.
Qed.

Lemma od_keys_set_elem d k v k' : k' ∈ od_keys (od_set d k v) ↔ k' = k ∨ k' ∈ od_keys d.
Proof. rewrite od_keys_set. case_decide; [naive_solver|]. rewrite elem_of_app. set_solver. Qed.

Lemma od_set_NoDup d k v : NoDup (od_keys d) → NoDup (od_keys (od_set d k v)).
Proof.
  rewrite od_keys_set. case_decide; [done|]. intros Hnd.
  apply NoDup_app; split_and!; [done| |apply NoDup_singleton].
  intros x Hx ?%list_elem_of_singleton. by subst.
Qed.

Lemma od_set_length d k v :
  length (od_set d k v) = length d + (if decide (k ∈ od_keys d) then 0 else 1).
Proof.
  assert (length (od_keys (od_set d k v)) = length (od_set d k v)) as <-
    by apply length_fmap.
  rewrite od_keys_set. unfold od_keys. case_decide; lengths.
Qed.

Lemma od_del_keys_subset d k : ∀ k', k' ∈ od_keys (od_del d k) → k' ∈ od_keys d.
Proof.
  unfold od_keys. induction d as [|[k0 v0] d IH]; csimpl; [done|].
  intros k'. case_decide; csimpl; rewrite !elem_of_cons; naive_solver.
Qed.

Lemma od_del_NoDup d k : NoDup (od_keys d) → NoDup (od_keys (od_del d k)).
Proof.
  unfold od_keys. induction d as [|[k0 v0] d IH]; csimpl; [done|].
  rewrite NoDup_cons. intros [Hnin Hnd]. case_decide; csimpl; [done|].
  apply NoDup_cons. split; [|auto]. intros Hin. apply Hnin.
  by apply (od_del_keys_subset d k).
Qed.

Lemma od_get_del_ne d k k' : k ≠ k' → od_get (od_del d k) k' = od_get d k'.
Proof.
  intros Hne. induction d as [|[k0 v0] d IH]; csimpl; [done|].
  case_decide; simplify_eq/=; case_decide; by simplify_eq.
Qed.

Lemma od_get_del_eq d k : NoDup (od_keys d) → od_get (od_del d k) k = None.
Proof.
  unfold od_keys. induction d as [|[k0 v0] d IH]; csimpl; [done|].
  rewrite NoDup_cons. intros [Hnin Hnd]. case_decide; simplify_eq/=.
  - by apply od_get_None.
  - rewrite decide_False by done. auto.
Qed.

Lemma od_del_length d k : k ∈ od_keys d → S (length (od_del d k)) = length d.
Proof.
  unfold od_keys. induction d as [|[k0 v0] d IH]; csimpl; [by rewrite elem_of_nil|].
  rewrite elem_of_cons. case_decide; csimpl; [done|]. intros [?|?]; [done|].
  by rewrite IH.
Qed.

Lemma od_set_Forall (P : K * V → Prop) d k v : Forall P d → P (k, v) → Forall P (od_set d k v).
Proof.
  induction 1 as [|[k' v'] d Hd Hl IH]; csimpl; intros Hk; [by constructor|].
  case_decide; simplify_eq; constructor; auto.
Qed.

(** Deleting a prefix of distinct keys one by one is dropping the prefix:
    this is how the loops [for key in to_drop: del d[key]] act. *)
Lemma od_del_prefix d1 d2 :
  foldl od_del (d1 ++ d2) (od_keys d1) = d2.
Proof.
  induction d1 as [|[k v] d1 IH]; csimpl; [done|].
  by rewrite decide_True.
Qed.
End odict.

#[export] Hint Resolve od_set_NoDup od_del_NoDup : odict.
#[export] Hint Rewrite @od_get_set_eq : odict.
