(* ===== verification/Window.v ===== *)
(** * Sliding windows of instants

    Three parts of the system keep a [deque] of instants per key and prune it
    from the left with the same loop,
    [while window and window[0] < cutoff: window.popleft()]: the detection
    engine's thresholds, the alert throttle and the API rate limiter.  The
    throttle and the rate limiter also share what they do next (refuse when
    the window is full, otherwise record the instant); [rate_step] is that step.
    The bound they enforce is proved here once, for any sequence of
    non-decreasing clock readings. *)

From S2P Require Import Prelude.
Local Open Scope Z_scope.

(** [while window and window[0] < cutoff: window.popleft()] *)
Fixpoint drop_stale (cutoff : Z) (window : list Z) : list Z :=
  match window with
  | [] => []
  | t :: window' => if t <? cutoff then drop_stale cutoff window' else window
  end.

Section drop_stale.
Implicit Types (w : list Z).

Lemma drop_stale_suffix c w : ∃ p, w = p ++ drop_stale c w ∧ Forall (λ t, t < c) p.
Proof.
  induction w as [|t w (p & Hw & Hp)]; simpl; [by exists []|]. branches.
  - exists (t :: p). split; [by rewrite Hw at 1|by constructor].
  - by exists [].
Qed.

Lemma drop_stale_length c w : (length (drop_stale c w) ≤ length w)%nat.
Proof. destruct (drop_stale_suffix c w) as (p & Hw & _). rewrite Hw at 2. lengths. Qed.

Lemma drop_stale_sorted c w :
  nondecreasing w → drop_stale c w = filter (λ t, c ≤ t) w.
Proof.
  induction 1 as [|t w Hs IH Hall]; simpl; [done|]. branches.
  - by rewrite IH, filter_cons_False by lia.
  - symmetry. apply filter_all. constructor; [done|].
    eapply Forall_impl; [done|]. simpl; lia.
Qed.

Lemma drop_stale_keeps_sorted c w : nondecreasing w → nondecreasing (drop_stale c w).
Proof.
  intros Hs. destruct (drop_stale_suffix c w) as (p & Hw & _).
  rewrite Hw in Hs. by eapply StronglySorted_suffix.
Qed.

Lemma drop_stale_drop_stale c c' w :
  c ≤ c' → drop_stale c' (drop_stale c w) = drop_stale c' w.
Proof.
  intros Hc. induction w as [|t w IH]; simpl; [done|].
  destruct (t <? c) eqn:?; reflect_bools; simpl; [|done].
  rewrite IH. by replace (t <? c') with true by (symmetry; apply Z.ltb_lt; lia).
Qed.

Lemma drop_stale_live c w : Forall (λ t, c ≤ t) w → drop_stale c w = w.
Proof. destruct 1; simpl; [done|]. branches; [lia|done]. Qed.
End drop_stale.

(** ** The shared rate-limiting step *)

(** One request at instant [now]: prune, refuse when [limit] instants are
    still inside the window, otherwise record [now].  The boolean is true when
    the request is admitted. *)
Definition rate_step (limit period now : Z) (window : list Z) : bool * list Z :=
  let window := drop_stale (now - period) window in
  if limit <=? len window then (false, window) else (true, window ++ [now]).

(** [admitted] is the sequence of admitted instants, oldest first: no period
    that ends at an admitted instant holds more than [limit] of them. *)
Definition within_rate (limit period : Z) (admitted : list Z) : Prop :=
  ∀ pre t post, admitted = pre ++ t :: post →
    len (filter (λ s, t - period ≤ s) (pre ++ [t])) ≤ limit.

(** The window kept by the limiter is the part of the admitted instants no
    older than one period before the last pruning at [last]. *)
Record tracks (period last : Z) (admitted window : list Z) : Prop := {
  tracks_sorted : nondecreasing admitted;
  tracks_past : Forall (λ t, t ≤ last) admitted;
  tracks_window : window = drop_stale (last - period) admitted;
}.

Section rate_step.
Context (limit period : Z).

Lemma tracks_nil last : tracks period last [] [].
Proof. split; [constructor|constructor|done]. Qed.

Lemma rate_step_tracks last now admitted w :
  0 ≤ period → last ≤ now → tracks period last admitted w →
  let '(ok, w') := rate_step limit period now w in
  tracks period now (if ok then admitted ++ [now] else admitted) w'.
Proof.
  intros Hp Hnow [Hs Hpast ->]. unfold rate_step.
  rewrite drop_stale_drop_stale by lia.
  assert (Forall (λ t, t ≤ now) admitted) as Hpast'
    by (eapply Forall_impl; [exact Hpast|simpl; lia]).
  destruct (limit <=? _); [by split|].
  assert (nondecreasing (admitted ++ [now])) as Hs'
    by (apply StronglySorted_snoc; split; [done|exact Hpast']).
  split; [done| |].
  - apply Forall_app. split; [done|]. by repeat constructor.
  - rewrite !drop_stale_sorted by done. rewrite filter_app.
    f_equal. rewrite filter_cons_True by lia. done.
Qed.

Lemma rate_step_within_rate last now admitted w :
  0 ≤ period → last ≤ now → tracks period last admitted w →
  within_rate limit period admitted →
  within_rate limit period
    (if (rate_step limit period now w).1 then admitted ++ [now] else admitted).
Proof.
  intros Hp Hnow Ht Hrate. pose proof Ht as [Hs Hpast Hw].
  unfold rate_step. destruct (limit <=? _) eqn:Hfull; reflect_bools; simpl; [done|].
  intros pre t post Heq.
  destruct post as [|t' post _] using rev_ind.
  - apply app_inj_tail in Heq as [<- <-].
    rewrite filter_app, len_app, filter_cons_True by lia.
    rewrite Hw, drop_stale_drop_stale, drop_stale_sorted in Hfull by (done || lia).
    rewrite (len_cons now). rewrite filter_nil, len_nil. lia.
  - rewrite app_comm_cons, app_assoc in Heq. apply app_inj_tail in Heq as [-> <-].
    by eapply Hrate.
Qed.

(** The rate bound for an arbitrary period, not only those ending at an
    admitted instant. *)
Lemma within_rate_any admitted t :
  0 ≤ limit → nondecreasing admitted → within_rate limit period admitted →
  len (filter (λ s, t - period ≤ s ≤ t) admitted) ≤ limit.
Proof.
  intros Hl. induction admitted as [|s admitted IH] using rev_ind; [done|].
  rewrite StronglySorted_snoc. intros [Hs Hall] Hrate.
  destruct (decide (s ≤ t)) as [Hst|Hst].
  - specialize (Hrate admitted s [] eq_refl).
    etrans; [|exact Hrate]. clear IH Hrate. unfold len.
    apply Nat2Z.inj_le.
    apply submseteq_length, sublist_submseteq.
    rewrite !filter_app. apply sublist_app.
    + clear Hs Hall. induction admitted as [|x l IHl]; simpl; [done|].
      rewrite !filter_cons. repeat case_decide; try lia; solve [done | by constructor].
    + rewrite !filter_cons. repeat case_decide; try lia; by repeat constructor.
  - rewrite filter_app, filter_cons_False, filter_nil, app_nil_r by lia.
    apply IH; [done|]. intros pre u post ->. apply (Hrate pre u (post ++ [s])).
    by rewrite <-app_assoc.
Qed.
End rate_step.
