(* ===== verification/Dedup.v ===== *)
(** * The dedup window ([pipeline/dedup.py])

    [DedupWindow] is a TTL- and size-bounded set of keys; [seen] is an atomic
    check-and-record.  The window is modelled with its insertion-ordered dict
    of expiry times, the prefix walk that drops expired entries, the eviction
    of the oldest entry at the size cap, and its four counters.

    The abstract specification ([Spec]) forgets the dict: its state is the
    history of admissions (keys answered "fresh", with the instant), and a key
    is a duplicate when it is among the last [max_entries] admissions and was
    admitted less than one TTL ago.  [seen_refines] is the simulation between
    the two, for any clock that does not go back; it is the [DuplicateFilter]
    interface the pipeline and the alert manager are verified against. *)

From S2P Require Import Prelude ODict.
Local Open Scope Z_scope.

Record DedupWindow := mkDedupWindow {
  _ttl : Z;
  _max_entries : Z;
  _entries : odict string Z;
  _hits : Z;
  _misses : Z;
  _evictions_ttl : Z;
  _evictions_cap : Z;
}.

(** [__init__]: both bounds are checked; the window starts empty. *)
Definition new_window (ttl_seconds max_entries : Z) : result DedupWindow :=
  _ ← raise_if (ttl_seconds <=? 0) ValueError;
  _ ← raise_if (max_entries <? 1) ValueError;
  Ok (mkDedupWindow ttl_seconds max_entries [] 0 0 0 0).

(** The [for] loop of [_evict_expired]: collect the expired keys from the
    oldest on, stopping at the first live entry. *)
Fixpoint to_drop (now : Z) (entries : odict string Z) : list string :=
  match entries with
  | [] => []
  | (key, expiry) :: entries' => if now <? expiry then [] else key :: to_drop now entries'
  end.

(** [_evict_expired] *)
Definition evict_expired (now : Z) (w : DedupWindow) : DedupWindow :=
  let dropped := to_drop now (_entries w) in
  mkDedupWindow (_ttl w) (_max_entries w) (foldl od_del (_entries w) dropped)
    (_hits w) (_misses w) (_evictions_ttl w + len dropped) (_evictions_cap w).

(** [_evict_to_cap] *)
Definition evict_to_cap (w : DedupWindow) : result DedupWindow :=
  entries ← od_pop_oldest (_entries w);
  Ok (mkDedupWindow (_ttl w) (_max_entries w) entries
        (_hits w) (_misses w) (_evictions_ttl w) (_evictions_cap w + 1)).

(** [seen], called at instant [now]. *)
Definition seen (now : Z) (key : string) (w : DedupWindow) : result (bool * DedupWindow) :=
  let w := evict_expired now w in
  if od_mem (_entries w) key then
    Ok (true, mkDedupWindow (_ttl w) (_max_entries w) (_entries w)
                (_hits w + 1) (_misses w) (_evictions_ttl w) (_evictions_cap w))
  else
    w ← (if _max_entries w <=? len (_entries w) then evict_to_cap w else Ok w);
    Ok (false, mkDedupWindow (_ttl w) (_max_entries w)
                 (od_set (_entries w) key (now + _ttl w))
                 (_hits w) (_misses w + 1) (_evictions_ttl w) (_evictions_cap w)).

(** [__contains__] of a string key: expires entries, counts nothing. *)
Definition contains (now : Z) (key : string) (w : DedupWindow) : bool * DedupWindow :=
  let w := evict_expired now w in (od_mem (_entries w) key, w).

(** [__len__] *)
Definition window_len (w : DedupWindow) : Z := len (_entries w).

(** A run of [seen] over a sequence of timed keys. *)
Fixpoint seen_run (calls : list (Z * string)) (w : DedupWindow)
    : result (list bool * DedupWindow) :=
  match calls with
  | [] => Ok ([], w)
  | (now, key) :: calls' =>
      r ← seen now key w;
      rs ← seen_run calls' r.2;
      Ok (r.1 :: rs.1, rs.2)
  end.

(** ** The abstract specification *)

Module Spec.
(** An admission: the key and the instant it was recorded. *)
Abbreviation admission := (string * Z)%type.

(** The admissions that still count at [now]: among the last [cap], younger
    than [ttl]. *)
Definition live (cap : nat) (ttl now : Z) (h : list admission) : list admission :=
  filter (λ a, now < a.2 + ttl) (lastn cap h).

Definition duplicate (cap : nat) (ttl now : Z) (key : string) (h : list admission) : bool :=
  bool_decide (key ∈ (live cap ttl now h).*1).

(** The history after one call. *)
Definition observe (cap : nat) (ttl now : Z) (key : string) (h : list admission)
    : list admission :=
  if duplicate cap ttl now key h then h else h ++ [(key, now)].

Fixpoint run (cap : nat) (ttl : Z) (calls : list (Z * string)) (h : list admission)
    : list bool * list admission :=
  match calls with
  | [] => ([], h)
  | (now, key) :: calls' =>
      let rs := run cap ttl calls' (observe cap ttl now key h) in
      (duplicate cap ttl now key h :: rs.1, rs.2)
  end.
End Spec.

(** What a duplicate filter promises to the components that call it: related
    to an admission history, [df_seen] never raises, answers what the
    specification answers, and stays related. *)
Class DuplicateFilter (W : Type) := {
  df_seen : Z → string → W → result (bool * W);
  df_tracks : nat → Z → Z → list Spec.admission → W → Prop;
  df_seen_spec cap ttl last h w now key :
    df_tracks cap ttl last h w → last ≤ now →
    ∃ w', df_seen now key w = Ok (Spec.duplicate cap ttl now key h, w') ∧
          df_tracks cap ttl now (Spec.observe cap ttl now key h) w';
}.

(** ** The well-formed window and its relation to the specification *)

(** [refines cap ttl last h w]: [w] last ran at [last] and holds exactly the
    live admissions of [h], oldest first, with their expiry instants. *)
Record refines (cap : nat) (ttl last : Z) (h : list Spec.admission) (w : DedupWindow) : Prop := {
  ref_ttl : _ttl w = ttl;
  ref_cap : _max_entries w = Z.of_nat cap;
  ref_ttl_pos : 0 < ttl;
  ref_cap_pos : (1 ≤ cap)%nat;
  ref_sorted : nondecreasing h.*2;
  ref_past : Forall (λ a, a.2 ≤ last) h;
  ref_entries : _entries w = (λ a, (a.1, a.2 + ttl)) <$> Spec.live cap ttl last h;
  ref_nodup : NoDup (od_keys (_entries w));
}.

(** Well-formed windows: bounded, no key twice, expiries in order. *)
Record window_wf (w : DedupWindow) : Prop := {
  wf_ttl : 0 < _ttl w;
  wf_cap : 1 ≤ _max_entries w;
  wf_size : len (_entries w) ≤ _max_entries w;
  wf_nodup : NoDup (od_keys (_entries w));
}.

(** *** Eviction of expired entries *)

Fixpoint drop_expired (now : Z) (entries : odict string Z) : odict string Z :=
  match entries with
  | [] => []
  | (key, expiry) :: entries' => if now <? expiry then entries else drop_expired now entries'
  end.

Lemma to_drop_split now d : ∃ pre, d = pre ++ drop_expired now d ∧ to_drop now d = od_keys pre.
Proof.
  induction d as [|[k e] d (pre & Hd & Hk)]; simpl; [by exists []|]. case_match.
  - by exists [].
  - exists ((k, e) :: pre). split; [by rewrite Hd at 1|]. by rewrite Hk.
Qed.

Lemma evict_expired_entries now w :
  _entries (evict_expired now w) = drop_expired now (_entries w).
Proof.
  unfold evict_expired; simpl.
  destruct (to_drop_split now (_entries w)) as (pre & Hd & ->).
  rewrite Hd at 1. apply od_del_prefix.
Qed.

Lemma evict_expired_count now w :
  _evictions_ttl (evict_expired now w) + len (_entries (evict_expired now w))
  = _evictions_ttl w + len (_entries w).
Proof.
  rewrite evict_expired_entries. unfold evict_expired; simpl.
  destruct (to_drop_split now (_entries w)) as (pre & Hd & ->).
  rewrite Hd at 2. unfold od_keys, len. lengths.
Qed.

Lemma drop_expired_sublist now d : drop_expired now d `sublist_of` d.
Proof.
  destruct (to_drop_split now d) as (pre & Hd & _). rewrite Hd at 2. by apply sublist_inserts_l.
Qed.

Lemma drop_expired_NoDup now d : NoDup (od_keys d) → NoDup (od_keys (drop_expired now d)).
Proof.
  intros Hd. destruct (to_drop_split now d) as (pre & Hpre & _).
  rewrite Hpre in Hd. unfold od_keys in *. rewrite fmap_app in Hd.
  by apply NoDup_app in Hd as (_ & _ & ?).
Qed.

Lemma drop_expired_length now d : (length (drop_expired now d) ≤ length d)%nat.
Proof. apply sublist_length, drop_expired_sublist. Qed.

(** Under sorted expiries the prefix walk finds every expired entry. *)
Lemma drop_expired_sorted now d :
  nondecreasing d.*2 → drop_expired now d = filter (λ e, now < e.2) d.
Proof.
  induction d as [|[k e] d IH]; csimpl; [done|].
  inversion 1 as [|?? Hs Hall]; subst.
  destruct (now <? e) eqn:?; reflect_bools.
  - symmetry. apply filter_all. constructor; [done|].
    apply (Forall_fmap snd) in Hall. eapply Forall_impl; [exact Hall|]. simpl; lia.
  - rewrite filter_cons_False by (simpl; lia). auto.
Qed.

(** *** [seen] on well-formed windows *)

Lemma evict_expired_wf now w : window_wf w → window_wf (evict_expired now w).
Proof.
  intros [Ht Hc Hs Hn]. split; simpl; try done.
  - etrans; [|exact Hs]. pose proof (evict_expired_entries now w) as He; simpl in He.
    rewrite He. unfold len. pose proof (drop_expired_length now (_entries w)). lia.
  - pose proof (evict_expired_entries now w) as He; simpl in He. rewrite He.
    by apply drop_expired_NoDup.
Qed.

Lemma evict_to_cap_some w :
  window_wf w → _max_entries w ≤ len (_entries w) →
  ∃ e d, _entries w = e :: d ∧
    evict_to_cap w = Ok (mkDedupWindow (_ttl w) (_max_entries w) d
        (_hits w) (_misses w) (_evictions_ttl w) (_evictions_cap w + 1)).
Proof.
  intros [_ Hc _ _] Hfull. unfold evict_to_cap.
  destruct (_entries w) as [|e d] eqn:He.
  - rewrite len_nil in Hfull. lia.
  - by exists e, d.
Qed.

(** What one call does, branch by branch, on a well-formed window. *)
Variant seen_result (now : Z) (key : string) (w : DedupWindow) : bool → DedupWindow → Prop :=
  | Seen_duplicate w1 :
      w1 = evict_expired now w → key ∈ od_keys (_entries w1) →
      seen_result now key w true
        (mkDedupWindow (_ttl w) (_max_entries w) (_entries w1) (_hits w + 1) (_misses w)
           (_evictions_ttl w1) (_evictions_cap w))
  | Seen_fresh w1 dropped kept :
      w1 = evict_expired now w → key ∉ od_keys (_entries w1) →
      _entries w1 = dropped ++ kept →
      length dropped = (if _max_entries w <=? len (_entries w1) then 1%nat else 0%nat) →
      len kept < _max_entries w →
      seen_result now key w false
        (mkDedupWindow (_ttl w) (_max_entries w) (kept ++ [(key, now + _ttl w)])
           (_hits w) (_misses w + 1) (_evictions_ttl w1)
           (_evictions_cap w + len dropped)).

Lemma seen_inv now key w :
  window_wf w → ∃ b w', seen now key w = Ok (b, w') ∧ seen_result now key w b w'.
Proof.
  intros Hwf. pose proof (evict_expired_wf now w Hwf) as Hwf1.
  unfold seen. destruct (od_mem _ key) eqn:Hmem.
  - apply od_mem_true in Hmem. do 2 eexists. split; [done|].
    exact (Seen_duplicate now key w _ eq_refl Hmem).
  - apply od_mem_false in Hmem. destruct (_ <=? _) eqn:Hfull; simpl in Hfull.
    + apply Z.leb_le in Hfull as Hle.
      destruct (evict_to_cap_some _ Hwf1 Hle) as ([k0 e0] & d & He & ->).
      do 2 eexists. split; [done|]. simpl.
      rewrite He in Hmem. unfold od_keys in Hmem; csimpl in Hmem.
      apply not_elem_of_cons in Hmem as [Hk0 Hmem].
      rewrite od_set_fresh by done.
      pose proof (wf_size _ Hwf1) as Hsz. rewrite He, len_cons in Hsz.
      apply (Seen_fresh now key w (evict_expired now w) [(k0, e0)] d); [done| |done| |simpl in Hsz; lia].
      * rewrite He. unfold od_keys; csimpl. rewrite not_elem_of_cons. done.
      * simpl in Hfull |- *. by rewrite Hfull.
    + do 2 eexists. split; [done|]. simpl. rewrite od_set_fresh by done.
      rewrite <-(Z.add_0_r (_evictions_cap w)).
      apply (Seen_fresh now key w (evict_expired now w) [] (_entries (evict_expired now w))); [done..| |].
      * simpl in Hfull |- *. by rewrite Hfull.
      * apply Z.leb_gt in Hfull. done.
Qed.

Lemma seen_result_wf now key w b w' :
  window_wf w → seen_result now key w b w' → window_wf w'.
Proof.
  intros Hwf Hres. pose proof (evict_expired_wf now w Hwf) as [Ht Hc Hs Hn].
  destruct Hres as [w1 -> Hin|w1 dropped kept -> Hnin Hsplit Hd Hk]; split; simpl in *; try done.
  - rewrite len_app, len_cons, len_nil. lia.
  - rewrite Hsplit in Hn, Hnin. unfold od_keys in *. rewrite fmap_app in *.
    apply NoDup_app in Hn as (_ & _ & Hn). rewrite elem_of_app in Hnin.
    apply NoDup_app. split_and!; [done| |apply NoDup_singleton].
    intros x Hx ?%list_elem_of_singleton. naive_solver.
Qed.

(** Every key admitted is still held, expired or evicted. *)
Definition accounted (w : DedupWindow) : Prop :=
  _misses w = _evictions_ttl w + _evictions_cap w + len (_entries w).

Lemma seen_result_accounted now key w b w' :
  accounted w → seen_result now key w b w' → accounted w'.
Proof.
  unfold accounted. intros Hacc Hres. pose proof (evict_expired_count now w) as Hev.
  destruct Hres as [w1 -> Hin|w1 dropped kept -> Hnin Hsplit Hd Hk]; simpl in *; [lia|].
  rewrite Hsplit in Hev. rewrite !len_app, ?len_cons, ?len_nil in *. lia.
Qed.

(** *** The refinement *)

Lemma live_sublist cap ttl now h : Spec.live cap ttl now h `sublist_of` h.
Proof. unfold Spec.live. etrans; [apply sublist_filter|apply lastn_sublist]. Qed.

Lemma live_later cap ttl last now h :
  last ≤ now →
  filter (λ a : Spec.admission, now < a.2 + ttl) (Spec.live cap ttl last h)
  = Spec.live cap ttl now h.
Proof. intros. unfold Spec.live. apply filter_weaken. lia. Qed.

(** Shrinking the cap by one forgets at most the oldest admission, and only
    when the window is full of live admissions. *)
Lemma live_S c ttl now h :
  nondecreasing h.*2 →
  (Spec.live (S c) ttl now h = Spec.live c ttl now h ∧
     (length (Spec.live (S c) ttl now h) ≤ c)%nat) ∨
  (∃ a, Spec.live (S c) ttl now h = a :: Spec.live c ttl now h ∧
     length (Spec.live (S c) ttl now h) = S c).
Proof.
  intros Hs. unfold Spec.live. destruct (decide (length h ≤ c)%nat) as [Hle|Hgt].
  - left. rewrite !lastn_all by lia. split; [done|].
    etrans; [apply filter_length_le|done].
  - destruct (lastn_S c h) as [a Ha]; [lia|]. rewrite Ha.
    assert (StronglySorted (λ a b : Spec.admission, a.2 ≤ b.2) (a :: lastn c h)) as Hs'.
    { rewrite <-Ha. apply (StronglySorted_sublist _ _ h); [apply lastn_sublist|].
      clear Hgt Ha. induction h as [|b h IH]; [constructor|]. csimpl in Hs.
      inversion Hs as [|?? Hs' Hf]; subst. constructor; [auto|].
      by apply (Forall_fmap snd) in Hf. }
    inversion Hs' as [|?? _ Hall]; subst.
    destruct (decide (now < a.2 + ttl)) as [Hlive|Hdead].
    + right. exists a. rewrite filter_cons_True by done. split; [done|].
      rewrite filter_all.
      * simpl. rewrite lastn_length. lia.
      * eapply Forall_impl; [exact Hall|]. simpl; lia.
    + left. rewrite filter_cons_False by done. split; [done|].
      etrans; [apply filter_length_le|]. rewrite lastn_length. lia.
Qed.

Lemma live_observe c ttl now key h :
  0 < ttl → Spec.live (S c) ttl now (h ++ [(key, now)]) = Spec.live c ttl now h ++ [(key, now)].
Proof.
  intros. unfold Spec.live. rewrite lastn_snoc, filter_app.
  by rewrite (filter_cons_True _ (key, now)) by (simpl; lia).
Qed.

Lemma refines_evict cap ttl last now h w :
  refines cap ttl last h w → last ≤ now →
  _entries (evict_expired now w) = (λ a, (a.1, a.2 + ttl)) <$> Spec.live cap ttl now h.
Proof.
  intros [_ _ _ _ Hs _ He _] Hnow. rewrite evict_expired_entries, He, drop_expired_sorted.
  - rewrite filter_fmap. f_equal. by apply live_later.
  - rewrite <-list_fmap_compose.
    assert (StronglySorted (λ a b : Spec.admission, a.2 ≤ b.2) (Spec.live cap ttl last h)) as Hl.
    { eapply StronglySorted_sublist; [apply live_sublist|]. clear He Hnow.
      induction h as [|b h IH]; [constructor|]. csimpl in Hs.
      inversion Hs as [|?? Hs' Hf]; subst. constructor; [auto|].
      by apply (Forall_fmap snd) in Hf. }
    clear He. induction Hl as [|a l Hl IH Hall]; csimpl; [constructor|]. constructor; [done|].
    apply Forall_fmap. eapply Forall_impl; [exact Hall|]. simpl; lia.
Qed.

Lemma refines_wf cap ttl last h w : refines cap ttl last h w → window_wf w.
Proof.
  intros [Ht Hc Htp Hcp _ _ He Hn]. split; [lia|lia| |done].
  rewrite He, Hc. unfold len, Spec.live. rewrite length_fmap.
  apply Nat2Z.inj_le. etrans; [apply filter_length_le|]. rewrite lastn_length. lia.
Qed.

Lemma keys_of_live cap ttl now h :
  od_keys ((λ a : Spec.admission, (a.1, a.2 + ttl)) <$> Spec.live cap ttl now h)
  = (Spec.live cap ttl now h).*1.
Proof. unfold od_keys. by rewrite <-list_fmap_compose. Qed.

Lemma refines_seen cap ttl last now key h w :
  refines cap ttl last h w → last ≤ now →
  ∃ w', seen now key w = Ok (Spec.duplicate cap ttl now key h, w') ∧
        refines cap ttl now (Spec.observe cap ttl now key h) w'.
Proof.
  intros Href Hnow. pose proof (refines_wf _ _ _ _ _ Href) as Hwf.
  pose proof (refines_evict _ _ _ _ _ _ Href Hnow) as Hev.
  pose proof Href as [Ht Hc Htp Hcp Hs Hp _ _].
  destruct (seen_inv now key w Hwf) as (b & w' & -> & Hres).
  pose proof (seen_result_wf _ _ _ _ _ Hwf Hres) as Hwf'.
  exists w'. unfold Spec.observe, Spec.duplicate.
  assert (Forall (λ a : Spec.admission, a.2 ≤ now) h) as Hp'
    by (eapply Forall_impl; [exact Hp|simpl; lia]).
  inversion Hres as [w1 -> Hin|w1 dropped kept -> Hnin Hsplit Hd Hk]; subst b w'.
  - rewrite Hev, keys_of_live in Hin. rewrite bool_decide_true by done.
    split; [done|]. split; simpl; try done. apply (wf_nodup _ Hwf').
  - rewrite Hev, keys_of_live in Hnin. rewrite bool_decide_false by done.
    split; [done|]. split; simpl; try done; [| | |apply (wf_nodup _ Hwf')].
    + rewrite fmap_app. apply StronglySorted_snoc. split; [done|]. by apply Forall_fmap.
    + apply Forall_app. split; [done|]. by apply Forall_singleton.
    + destruct cap as [|c]; [lia|]. rewrite live_observe, fmap_app, Ht by done.
      f_equal. rewrite Hsplit in Hev. rewrite Hsplit, Hc in Hd. unfold len in Hd.
      destruct (live_S c ttl now h Hs) as [[Heq Hlen]|(a & Heq & Hlen)];
        apply (f_equal length) in Hev as Hlen'; rewrite length_fmap in Hlen';
        rewrite Hlen' in Hd.
      * rewrite (proj2 (Z.leb_gt _ _)) in Hd by lia.
        destruct dropped; [|done]. by rewrite Heq in Hev.
      * rewrite (proj2 (Z.leb_le _ _)) in Hd by lia.
        destruct dropped as [|d [|??]]; [done| |done]. rewrite Heq in Hev. by simplify_eq/=.
Qed.

Lemma new_window_ok ttl max_entries w :
  new_window ttl max_entries = Ok w ↔
  0 < ttl ∧ 1 ≤ max_entries ∧ w = mkDedupWindow ttl max_entries [] 0 0 0 0.
Proof.
  unfold new_window. rewrite !result_bind_ok. setoid_rewrite result_bind_ok.
  setoid_rewrite raise_if_ok. split.
  - intros (_ & ? & _ & ? & ?). reflect_bools. split_and!; [lia|lia|congruence].
  - intros (? & ? & ->). exists tt. split; [by apply Z.leb_gt|].
    exists tt. split; [by apply Z.ltb_ge|done].
Qed.

Lemma refines_new ttl max_entries last w :
  new_window ttl max_entries = Ok w → refines (Z.to_nat max_entries) ttl last [] w.
Proof.
  rewrite new_window_ok. intros (? & ? & ->).
  split; simpl; try done; try lia; try constructor.
Qed.

#[export] Instance DedupWindow_filter : DuplicateFilter DedupWindow := {
  df_seen := seen;
  df_tracks := refines;
  df_seen_spec := λ cap ttl last h w now key, refines_seen cap ttl last now key h w;
}.

(** *** Runs of the specification *)

(** The number of "fresh" answers. *)
Definition fresh_count (answers : list bool) : nat := length (filter (λ b, b = false) answers).

Lemma spec_run_app cap ttl c1 c2 h :
  Spec.run cap ttl (c1 ++ c2) h =
    let r1 := Spec.run cap ttl c1 h in
    let r2 := Spec.run cap ttl c2 r1.2 in
    (r1.1 ++ r2.1, r2.2).
Proof.
  revert h. induction c1 as [|[now key] c1 IH]; intros h; simpl; [by destruct (Spec.run _ _ _ _)|].
  by rewrite IH.
Qed.

Lemma spec_run_length cap ttl calls h : length (Spec.run cap ttl calls h).1 = length calls.
Proof. revert h. induction calls as [|[??] ? IH]; intros h; simpl; [done|]. by rewrite IH. Qed.

Lemma spec_run_history cap ttl calls h :
  ∃ adm, (Spec.run cap ttl calls h).2 = h ++ adm ∧
    length adm = fresh_count (Spec.run cap ttl calls h).1 ∧
    ∀ a, a ∈ adm → (a.2, a.1) ∈ calls.
Proof.
  revert h. induction calls as [|[now key] calls IH]; intros h; simpl.
  - exists []. rewrite app_nil_r. split_and!; [done|done|]. by intros a ?%elem_of_nil.
  - unfold Spec.observe. destruct (Spec.duplicate cap ttl now key h) eqn:Hd.
    + destruct (IH h) as (adm & -> & Hlen & Hin). exists adm. split_and!; [done| |].
      * rewrite Hlen. unfold fresh_count. by rewrite filter_cons_False by done.
      * intros a ?%Hin. by right.
    + destruct (IH (h ++ [(key, now)])) as (adm & -> & Hlen & Hin).
      exists ((key, now) :: adm). split_and!.
      * by rewrite <-app_assoc.
      * unfold fresh_count in *. rewrite filter_cons_True by done. simpl. by rewrite Hlen.
      * intros a [->|?%Hin]%elem_of_cons; [by left|by right].
Qed.

Lemma spec_duplicate_recent cap ttl now key t h adm :
  (length adm < cap)%nat → now < t + ttl →
  Spec.duplicate cap ttl now key (h ++ (key, t) :: adm) = true.
Proof.
  intros Hlen Hnow. apply bool_decide_eq_true_2, list_elem_of_fmap.
  exists (key, t). split; [done|]. unfold Spec.live. apply list_elem_of_filter.
  split; [done|]. unfold lastn. rewrite length_app; simpl.
  assert (length h + S (length adm) - cap ≤ length h)%nat as Hle by lia.
  rewrite drop_app_le by done. apply elem_of_app. right. by left.
Qed.

Lemma spec_duplicate_expired cap ttl now key h :
  (∀ t, (key, t) ∈ h → t + ttl ≤ now) → Spec.duplicate cap ttl now key h = false.
Proof.
  intros Hold. apply bool_decide_eq_false_2. intros ([k t] & -> & Hin)%list_elem_of_fmap.
  apply list_elem_of_filter in Hin as [Hlive Hin]. simpl in *.
  assert (t + ttl ≤ now); [|lia]. apply Hold.
  eapply elem_of_sublist; [exact Hin|apply lastn_sublist].
Qed.

Section filter_runs.
Context {W : Type} `{DuplicateFilter W}.

(** A run through the interface. *)
Fixpoint df_run (calls : list (Z * string)) (w : W) : result (list bool * W) :=
  match calls with
  | [] => Ok ([], w)
  | (now, key) :: calls' =>
      r ← df_seen now key w;
      rs ← df_run calls' r.2;
      Ok (r.1 :: rs.1, rs.2)
  end.

Lemma df_run_spec cap ttl last h w calls :
  df_tracks cap ttl last h w → nondecreasing (last :: calls.*1) →
  ∃ w' last', df_run calls w = Ok ((Spec.run cap ttl calls h).1, w') ∧
    df_tracks cap ttl last' (Spec.run cap ttl calls h).2 w'.
Proof.
  revert last h w. induction calls as [|[now key] calls IH]; intros last h w Hw Hs; csimpl in *.
  - by exists w, last.
  - inversion Hs as [|?? Hs' Hall]; subst. apply Forall_cons in Hall as [Hnow _].
    destruct (df_seen_spec cap ttl last h w now key Hw Hnow) as (w1 & -> & Hw1); simpl.
    destruct (IH _ _ _ Hw1 Hs') as (w' & last' & -> & Hw'). simpl. eauto.
Qed.
End filter_runs.

Lemma seen_run_df calls w : seen_run calls w = df_run calls w.
Proof. revert w. induction calls as [|[??] ? IH]; intros w; simpl; [done|].
  destruct (seen _ _ _) as [[??]|]; simpl; [|done]. by rewrite IH. Qed.

Lemma seen_run_spec ttl max_entries w calls :
  new_window ttl max_entries = Ok w → nondecreasing calls.*1 →
  ∃ w', seen_run calls w = Ok ((Spec.run (Z.to_nat max_entries) ttl calls []).1, w').
Proof.
  intros Hw Hs. rewrite seen_run_df.
  destruct (df_run_spec (Z.to_nat max_entries) ttl (default 0 (head calls.*1)) [] w calls)
    as (w' & last' & Hrun & _).
  - by apply refines_new.
  - by apply nondecreasing_head.
  - by exists w'.
Qed.

Lemma seen_run_wf calls w :
  window_wf w → accounted w →
  ∃ answers w', seen_run calls w = Ok (answers, w') ∧ window_wf w' ∧ accounted w' ∧
    _hits w' + _misses w' = _hits w + _misses w + len calls ∧
    _max_entries w' = _max_entries w.
Proof.
  revert w. induction calls as [|[now key] calls IH]; intros w Hwf Hacc; simpl.
  - exists [], w. rewrite len_nil. split_and!; [done..|lia|done].
  - destruct (seen_inv now key w Hwf) as (b & w1 & -> & Hres); simpl.
    pose proof (seen_result_wf _ _ _ _ _ Hwf Hres) as Hwf1.
    pose proof (seen_result_accounted _ _ _ _ _ Hacc Hres) as Hacc1.
    destruct (IH w1 Hwf1 Hacc1) as (answers & w' & -> & ? & ? & Hcount & Hmax); simpl.
    do 2 eexists. split; [done|]. rewrite len_cons.
    assert (_hits w1 + _misses w1 = _hits w + _misses w + 1 ∧ _max_entries w1 = _max_entries w)
      as [??] by (destruct Hres; simpl; lia).
    split_and!; [done..|lia|congruence].
Qed.

(** ** Properties *)

(** C9: for every sequence of calls under a clock that never goes back, the
    window built by the constructor answers exactly what the specification
    answers: a key is a duplicate iff it is among the last [max_entries]
    admissions and was admitted less than one TTL ago. *)
Theorem seen_refines_spec ttl max_entries w calls :
  new_window ttl max_entries = Ok w →
  nondecreasing calls.*1 →
  ∃ w', seen_run calls w =
    Ok ((Spec.run (Z.to_nat max_entries) ttl calls []).1, w').
Proof. apply seen_run_spec. Qed.

Lemma seen_refines_spec_witness :
  ∃ w w', new_window 10 2 = Ok w ∧
    seen_run [(0, "a"%string); (5, "a"%string); (6, "b"%string); (10, "a"%string)] w
      = Ok ([false; true; false; false], w').
Proof.
  exists (mkDedupWindow 10 2 [] 0 0 0 0).
  destruct (seen_refines_spec 10 2 (mkDedupWindow 10 2 [] 0 0 0 0)
              [(0, "a"%string); (5, "a"%string); (6, "b"%string); (10, "a"%string)]
              eq_refl) as [w' Hw'].
  - repeat constructor; discriminate.
  - exists w'. split; [reflexivity|]. exact Hw'.
Defined.

(** Whatever the clock does, no call raises, the window never holds more
    than [max_entries] keys nor the same key twice, every call is counted
    once as a hit or a miss, and every admitted key is still held, was
    dropped on expiry or was evicted at the cap. *)
Theorem window_bounded_any_clock ttl max_entries w calls :
  new_window ttl max_entries = Ok w →
  ∃ answers w', seen_run calls w = Ok (answers, w') ∧
    window_len w' ≤ max_entries ∧
    NoDup (od_keys (_entries w')) ∧
    _hits w' + _misses w' = len calls ∧
    _misses w' = _evictions_ttl w' + _evictions_cap w' + window_len w'.
Proof.
  intros Hnew. pose proof (refines_wf _ _ _ _ _ (refines_new _ _ 0 _ Hnew)) as Hwf.
  apply new_window_ok in Hnew as (? & ? & ->).
  destruct (seen_run_wf calls _ Hwf eq_refl) as (answers & w' & Hrun & Hwf' & Hacc & Hcount & Hmax).
  exists answers, w'. simpl in *. pose proof (wf_size _ Hwf'). unfold window_len.
  split_and!; [done|lia|apply Hwf'|lia|done].
Qed.

Lemma window_bounded_any_clock_witness :
  ∃ answers w', seen_run [(9, "a"%string); (3, "b"%string); (1, "c"%string)]
                  (mkDedupWindow 10 2 [] 0 0 0 0) = Ok (answers, w') ∧ window_len w' ≤ 2.
Proof.
  destruct (window_bounded_any_clock 10 2 (mkDedupWindow 10 2 [] 0 0 0 0)
              [(9, "a"%string); (3, "b"%string); (1, "c"%string)] eq_refl)
    as (answers & w' & Hrun & Hlen & _).
  exists answers, w'. split; [exact Hrun|exact Hlen].
Defined.

(** A key seen for the first time is fresh, and a second sighting less
    than one TTL later is a duplicate unless [max_entries] other keys were
    admitted in between. *)
Theorem duplicate_once_within_ttl ttl max_entries w pre t key mid t' :
  new_window ttl max_entries = Ok w →
  nondecreasing ((pre ++ (t, key) :: mid ++ [(t', key)]).*1) →
  key ∉ pre.*2 →
  t' < t + ttl →
  ∃ w' a1 a2 b,
    seen_run (pre ++ (t, key) :: mid ++ [(t', key)]) w = Ok (a1 ++ false :: a2 ++ [b], w') ∧
    length a1 = length pre ∧ length a2 = length mid ∧
    (Z.of_nat (fresh_count a2) < max_entries → b = true).
Proof.
  intros Hnew Hs Hfirst Ht.
  destruct (seen_run_spec _ _ _ _ Hnew Hs) as [w' Hrun]. rewrite Hrun. clear Hrun.
  apply new_window_ok in Hnew as (Httl & Hmax & _).
  set (cap := Z.to_nat max_entries). rewrite spec_run_app; simpl.
  destruct (spec_run_history cap ttl pre []) as (adm & Hadm & _ & Hin). rewrite Hadm; simpl.
  assert (Spec.duplicate cap ttl t key adm = false) as Hfresh.
  { apply spec_duplicate_expired. intros t0 Ht0%Hin. destruct Hfirst.
    apply list_elem_of_fmap. by exists (t0, key). }
  rewrite spec_run_app; simpl. unfold Spec.observe. rewrite Hfresh.
  destruct (spec_run_history cap ttl mid (adm ++ [(key, t)])) as (adm' & Hadm' & Hlen & _).
  rewrite Hadm'. eexists w', _, _, _. split; [done|].
  rewrite !spec_run_length. split_and!; [done..|]. intros Hfew.
  rewrite <-app_assoc. apply spec_duplicate_recent; [|done]. rewrite Hlen.
  assert (Z.of_nat cap = max_entries) by (unfold cap; lia). lia.
Qed.

Lemma duplicate_once_within_ttl_witness :
  ∃ w' a1 a2 b,
    seen_run [(0, "x"%string); (1, "a"%string); (2, "y"%string); (9, "a"%string)]
      (mkDedupWindow 10 3 [] 0 0 0 0) = Ok (a1 ++ false :: a2 ++ [b], w') ∧
    length a1 = 1%nat ∧ length a2 = 1%nat ∧ (Z.of_nat (fresh_count a2) < 3 → b = true).
Proof.
  apply (duplicate_once_within_ttl 10 3 (mkDedupWindow 10 3 [] 0 0 0 0)
           [(0, "x"%string)] 1 "a"%string [(2, "y"%string)] 9 eq_refl).
  - repeat constructor; discriminate.
  - apply (bool_decide_eq_true_1 _). reflexivity.
  - reflexivity.
Defined.

(** Content repeated at least one TTL after every earlier sighting is a
    new event, never a duplicate. *)
Theorem fresh_again_after_ttl ttl max_entries w pre key t' :
  new_window ttl max_entries = Ok w →
  nondecreasing ((pre ++ [(t', key)]).*1) →
  (∀ t, (t, key) ∈ pre → t + ttl ≤ t') →
  ∃ w' answers, seen_run (pre ++ [(t', key)]) w = Ok (answers ++ [false], w').
Proof.
  intros Hnew Hs Hold. destruct (seen_run_spec _ _ _ _ Hnew Hs) as [w' ->].
  exists w'. rewrite spec_run_app; simpl.
  destruct (spec_run_history (Z.to_nat max_entries) ttl pre []) as (adm & Hadm & _ & Hin).
  rewrite Hadm; simpl. rewrite spec_duplicate_expired; [by eexists|].
  intros t Ht. by apply Hold, (Hin (key, t)).
Qed.
