(* ===== verification/Queue.v ===== *)
(** * The bounded event queue ([pipeline/queue.py])

    [BoundedEventQueue] wraps an [asyncio.Queue]; the part of the standard
    library class it relies on ([put_nowait], [get], [task_done], [join],
    [qsize]) is modelled first.  Between two [await]s a coroutine runs alone,
    so an operation that does not suspend is one function on the state; a
    [put] under BLOCK on a full queue suspends, which is the outcome
    [Waits]: the state is unchanged and the call is tried again when a slot is
    free (asyncio re-tests [full()] before it inserts). *)

From S2P Require Import Prelude.
Local Open Scope Z_scope.

(** ** [asyncio.Queue] *)

Record Queue (E : Type) := mkQueue {
  q_maxsize : Z;
  q_items : list E;
  q_unfinished : Z;
}.
Arguments mkQueue {E} _ _ _.
Arguments q_maxsize {E} _.
Arguments q_items {E} _.
Arguments q_unfinished {E} _.

Section asyncio_queue.
Context {E : Type}.
Implicit Types (q : Queue E) (e : E).

Definition new_queue (maxsize : Z) : Queue E := mkQueue maxsize [] 0.

Definition q_size q : Z := len (q_items q).

(** [full()]: a [maxsize] of zero or less means unbounded. *)
Definition q_full q : bool :=
  if q_maxsize q <=? 0 then false else q_maxsize q <=? q_size q.

Definition put_nowait e q : result (Queue E) :=
  if q_full q then Raise QueueFull
  else Ok (mkQueue (q_maxsize q) (q_items q ++ [e]) (q_unfinished q + 1)).

Definition get_nowait q : result (E * Queue E) :=
  match q_items q with
  | [] => Raise QueueEmpty
  | e :: items => Ok (e, mkQueue (q_maxsize q) items (q_unfinished q))
  end.

Definition q_task_done q : result (Queue E) :=
  if q_unfinished q <=? 0 then Raise ValueError
  else Ok (mkQueue (q_maxsize q) (q_items q) (q_unfinished q - 1)).

(** [join()] returns once no fetched or queued item is unfinished. *)
Definition q_join_returns q : bool := q_unfinished q =? 0.
End asyncio_queue.

(** ** [BoundedEventQueue] *)

(** [settings.BackpressurePolicy] *)
Inductive BackpressurePolicy := BLOCK | DROP_NEWEST.

#[export] Instance BackpressurePolicy_eq_dec : EqDecision BackpressurePolicy.
Proof. solve_decision. Defined.

Record BoundedEventQueue (E : Type) := mkBounded {
  _maxsize : Z;
  _policy : BackpressurePolicy;
  _queue : Queue E;
  _dropped : Z;
  _accepted : Z;
}.
Arguments mkBounded {E} _ _ _ _ _.
Arguments _maxsize {E} _.
Arguments _policy {E} _.
Arguments _queue {E} _.
Arguments _dropped {E} _.
Arguments _accepted {E} _.

(** How a call of [put] ends: it returns [True], returns [False], or suspends. *)
Inductive put_outcome (E : Type) :=
  | Accepted (q : BoundedEventQueue E)
  | Refused (q : BoundedEventQueue E)
  | Waits.
Arguments Accepted {E} _.
Arguments Refused {E} _.
Arguments Waits {E}.

Section bounded_queue.
Context {E : Type}.
Implicit Types (b : BoundedEventQueue E) (e : E).

(** [__init__] *)
Definition new_bounded (maxsize : Z) (policy : BackpressurePolicy)
    : result (BoundedEventQueue E) :=
  _ ← raise_if (maxsize <? 1) ValueError;
  Ok (mkBounded maxsize policy (new_queue maxsize) 0 0).

Definition accept b (q : Queue E) : BoundedEventQueue E :=
  mkBounded (_maxsize b) (_policy b) q (_dropped b) (_accepted b + 1).

(** [put] *)
Definition put e b : put_outcome E :=
  match _policy b, put_nowait e (_queue b) with
  | BLOCK, Ok q => Accepted (accept b q)
  | BLOCK, Raise _ => Waits
  | DROP_NEWEST, Ok q => Accepted (accept b q)
  | DROP_NEWEST, Raise _ =>
      Refused (mkBounded (_maxsize b) (_policy b) (_queue b) (_dropped b + 1) (_accepted b))
  end.

(** [qsize] and [empty] *)
Definition qsize b : Z := q_size (_queue b).
Definition queue_empty b : bool := qsize b =? 0.

(** [get], when an event is available; with an empty queue it suspends, here
    [None]. *)
Definition get b : option (E * BoundedEventQueue E) :=
  match get_nowait (_queue b) with
  | Ok (e, q) => Some (e, mkBounded (_maxsize b) (_policy b) q (_dropped b) (_accepted b))
  | Raise _ => None
  end.

(** [task_done] *)
Definition task_done b : result (BoundedEventQueue E) :=
  q ← q_task_done (_queue b);
  Ok (mkBounded (_maxsize b) (_policy b) q (_dropped b) (_accepted b)).

(** [join] returns *)
Definition join_returns b : bool := q_join_returns (_queue b).

(** ** Well-formed queues *)

(** The wrapper's bound is the inner queue's, the bound holds, and no more
    items are queued than are unfinished. *)
Record queue_wf b : Prop := {
  qwf_bound : q_maxsize (_queue b) = _maxsize b;
  qwf_pos : 1 ≤ _maxsize b;
  qwf_size : qsize b ≤ _maxsize b;
  qwf_unfinished : qsize b ≤ q_unfinished (_queue b);
}.

Lemma new_bounded_ok maxsize policy b :
  new_bounded maxsize policy = Ok b ↔
  1 ≤ maxsize ∧ b = mkBounded maxsize policy (new_queue maxsize) 0 0.
Proof.
  unfold new_bounded. rewrite result_bind_ok. setoid_rewrite raise_if_ok. split.
  - intros (_ & ? & ?). reflect_bools. split; [lia|congruence].
  - intros [? ->]. exists tt. split; [by apply Z.ltb_ge|done].
Qed.

Lemma new_bounded_wf maxsize policy b : new_bounded maxsize policy = Ok b → queue_wf b.
Proof.
  rewrite new_bounded_ok. intros [? ->].
  split; unfold qsize, q_size; simpl; rewrite ?len_nil; lia.
Qed.

(** What [put] does on each branch. *)
Variant put_spec e b : put_outcome E → Prop :=
  | Put_accepted b' :
      qsize b < _maxsize b → q_items (_queue b') = q_items (_queue b) ++ [e] →
      q_unfinished (_queue b') = q_unfinished (_queue b) + 1 →
      _accepted b' = _accepted b + 1 → _dropped b' = _dropped b →
      _maxsize b' = _maxsize b → _policy b' = _policy b →
      queue_wf b' → put_spec e b (Accepted b')
  | Put_refused b' :
      qsize b = _maxsize b → _policy b = DROP_NEWEST →
      b' = mkBounded (_maxsize b) (_policy b) (_queue b) (_dropped b + 1) (_accepted b) →
      queue_wf b' → put_spec e b (Refused b')
  | Put_waits :
      qsize b = _maxsize b → _policy b = BLOCK → put_spec e b Waits.

Lemma put_inv e b : queue_wf b → put_spec e b (put e b).
Proof.
  intros Hwf. pose proof Hwf as [Hb Hp Hs Hu]. unfold put, put_nowait.
  destruct (q_full (_queue b)) eqn:Hfull; unfold q_full in Hfull; rewrite Hb in Hfull;
    rewrite (proj2 (Z.leb_gt _ _)) in Hfull by lia; reflect_bools; fold (qsize b) in Hfull.
  - destruct (_policy b) eqn:Hpol; [apply Put_waits; [lia|done]|].
    apply Put_refused; [lia|done|by rewrite Hpol|]. by split.
  - assert (queue_wf (accept b (mkQueue (q_maxsize (_queue b)) (q_items (_queue b) ++ [e])
              (q_unfinished (_queue b) + 1)))).
    { split; unfold accept, qsize, q_size in *; simpl; rewrite ?len_app, ?len_cons, ?len_nil;
        unfold qsize, q_size in *; try lia; done. }
    destruct (_policy b); apply Put_accepted; done || (unfold accept; simpl; done).
Qed.

Lemma get_inv b :
  queue_wf b →
  match get b with
  | None => q_items (_queue b) = []
  | Some (e, b') =>
      q_items (_queue b) = e :: q_items (_queue b') ∧
      q_unfinished (_queue b') = q_unfinished (_queue b) ∧
      _accepted b' = _accepted b ∧ _dropped b' = _dropped b ∧
      _maxsize b' = _maxsize b ∧ _policy b' = _policy b ∧ queue_wf b'
  end.
Proof.
  intros [Hb Hp Hs Hu]. unfold get, get_nowait, qsize, q_size in *.
  destruct (q_items (_queue b)) as [|e items] eqn:Hitems; [done|]; simpl.
  rewrite len_cons in *. split_and!; try done.
  split; unfold qsize, q_size; simpl; lia.
Qed.

Lemma task_done_inv b :
  queue_wf b → qsize b < q_unfinished (_queue b) →
  ∃ b', task_done b = Ok b' ∧
    q_items (_queue b') = q_items (_queue b) ∧
    q_unfinished (_queue b') = q_unfinished (_queue b) - 1 ∧
    _accepted b' = _accepted b ∧ _dropped b' = _dropped b ∧
    _maxsize b' = _maxsize b ∧ _policy b' = _policy b ∧ queue_wf b'.
Proof.
  intros [Hb Hp Hs Hu] Hlt. pose proof (len_nonneg (q_items (_queue b))) as Hn.
  unfold task_done, q_task_done, qsize, q_size in *.
  rewrite (proj2 (Z.leb_gt _ _)) by lia. simpl. eexists. split; [done|].
  split_and!; try done. split; unfold qsize, q_size; simpl; lia.
Qed.

(** ** Any interleaving of producers and consumers

    An operation on the queue is a [put] by some producer, a [get] by a
    consumer or a [task_done]; a call that suspends leaves the queue
    unchanged, so a sequence of operations covers every schedule. *)
Inductive queue_op :=
  | Op_put (e : E)
  | Op_get
  | Op_task_done.

(** The queue with the events accepted and fetched so far. *)
Record queue_trace := mkTrace {
  tr_queue : BoundedEventQueue E;
  tr_accepted : list E;
  tr_refused : list E;
  tr_fetched : list E;
}.

Definition queue_step (t : queue_trace) (op : queue_op) : queue_trace :=
  match op with
  | Op_put e =>
      match put e (tr_queue t) with
      | Accepted b => mkTrace b (tr_accepted t ++ [e]) (tr_refused t) (tr_fetched t)
      | Refused b => mkTrace b (tr_accepted t) (tr_refused t ++ [e]) (tr_fetched t)
      | Waits => t
      end
  | Op_get =>
      match get (tr_queue t) with
      | Some (e, b) => mkTrace b (tr_accepted t) (tr_refused t) (tr_fetched t ++ [e])
      | None => t
      end
  | Op_task_done =>
      match task_done (tr_queue t) with
      | Ok b => mkTrace b (tr_accepted t) (tr_refused t) (tr_fetched t)
      | Raise _ => t
      end
  end.

Definition queue_run (b : BoundedEventQueue E) (ops : list queue_op) : queue_trace :=
  foldl queue_step (mkTrace b [] [] []) ops.

Record trace_ok (policy : BackpressurePolicy) (maxsize : Z) (t : queue_trace) : Prop := {
  tok_bound : q_maxsize (_queue (tr_queue t)) = maxsize ∧ _maxsize (tr_queue t) = maxsize;
  tok_policy : _policy (tr_queue t) = policy;
  tok_size : qsize (tr_queue t) ≤ maxsize;
  tok_fifo : tr_accepted t = tr_fetched t ++ q_items (_queue (tr_queue t));
  tok_counted : _accepted (tr_queue t) = len (tr_accepted t)
                ∧ _dropped (tr_queue t) = len (tr_refused t);
  tok_lossless : policy = BLOCK → tr_refused t = [];
}.

Lemma queue_step_ok policy maxsize t op :
  1 ≤ maxsize → trace_ok policy maxsize t → trace_ok policy maxsize (queue_step t op).
Proof.
  intros Hmax [[Hb Hm] Hpol Hsz Hfifo [Hacc Hdrop] Hless]. destruct t as [b acc ref fet].
  simpl in *. destruct op as [e| |]; simpl.
  - unfold put, put_nowait. destruct (q_full (_queue b)) eqn:Hfull.
    + destruct (_policy b) eqn:Hpol'; subst policy; [by split|]. split; simpl; try done.
      rewrite len_app, len_cons, len_nil. lia.
    + unfold q_full in Hfull. rewrite Hb in Hfull.
      rewrite (proj2 (Z.leb_gt _ _)) in Hfull by lia. reflect_bools.
      assert (trace_ok policy maxsize
        (mkTrace (accept b (mkQueue (q_maxsize (_queue b)) (q_items (_queue b) ++ [e])
            (q_unfinished (_queue b) + 1))) (acc ++ [e]) ref fet)).
      { split; simpl; try done.
        - unfold qsize, q_size in *; simpl. rewrite len_app, len_cons, len_nil. lia.
        - by rewrite Hfifo, app_assoc.
        - rewrite len_app, len_cons, len_nil. lia. }
      by destruct (_policy b).
  - unfold get, get_nowait. destruct (q_items (_queue b)) as [|e items] eqn:Hi.
    { split; simpl; rewrite ?Hi; done. }
    split; simpl; try done.
    + unfold qsize, q_size in *; simpl in *. rewrite Hi, len_cons in Hsz. lia.
    + by rewrite Hfifo, <-app_assoc.
  - unfold task_done, q_task_done. destruct (_ <=? 0); split; simpl; done.
Qed.

Lemma queue_run_ok maxsize policy b ops :
  new_bounded maxsize policy = Ok b → trace_ok policy maxsize (queue_run b ops).
Proof.
  rewrite new_bounded_ok. intros [Hmax ->]. unfold queue_run.
  assert (trace_ok policy maxsize (mkTrace (mkBounded maxsize policy (new_queue maxsize) 0 0)
            [] [] [])) as Hok
    by (split; unfold qsize, q_size; simpl; rewrite ?len_nil; solve [done | lia]).
  revert Hok. generalize (mkTrace (mkBounded maxsize policy (new_queue maxsize) 0 0) [] [] []).
  induction ops as [|op ops IH]; intros t Hok; simpl; [done|].
  by apply IH, queue_step_ok.
Qed.
End bounded_queue.

Arguments queue_op : clear implicits.
Arguments queue_trace : clear implicits.

(** ** Properties *)

(** Under any interleaving of producers and consumers the queue never
    holds more than [maxsize] events, delivers accepted events in order,
    without loss or repetition, counts every accepted and every refused event,
    and refuses none under BLOCK. *)
Theorem bounded_queue_fifo {E} maxsize policy (b : BoundedEventQueue E) ops :
  new_bounded maxsize policy = Ok b →
  let t := queue_run b ops in
  qsize (tr_queue t) ≤ maxsize ∧
  tr_accepted t = tr_fetched t ++ q_items (_queue (tr_queue t)) ∧
  _accepted (tr_queue t) = len (tr_accepted t) ∧
  _dropped (tr_queue t) = len (tr_refused t) ∧
  (policy = BLOCK → tr_refused t = []).
Proof.
  intros Hnew t. destruct (queue_run_ok maxsize policy b ops Hnew) as [_ _ Hs Hf [Ha Hd] Hl].
  done.
Qed.

Lemma bounded_queue_fifo_witness :
  let t := queue_run (mkBounded 2 DROP_NEWEST (new_queue 2) 0 0)
             [Op_put 1; Op_put 2; Op_put 3; Op_get; Op_put 4] in
  tr_refused t = [3] ∧ tr_fetched t = [1] ∧
  tr_accepted t = tr_fetched t ++ q_items (_queue (tr_queue t)).
Proof.
  destruct (bounded_queue_fifo 2 DROP_NEWEST (mkBounded 2 DROP_NEWEST (new_queue 2) 0 0)
              [Op_put 1; Op_put 2; Op_put 3; Op_get; Op_put 4] eq_refl) as (_ & Hf & _).
  split; [reflexivity|]. split; [reflexivity|]. exact Hf.
Defined.
