(* ===== verification/Pipeline.v ===== *)
(** * The pipeline orchestrator ([pipeline/runner.py])

    [Pipeline] wires collectors, one bounded queue, the dedup window and one
    consumer.  A coroutine runs alone between two [await]s, so the consumer
    loop is cut at its awaits: [consume_take] runs from the arrival of an
    event to the call of the user callback (or to the end of the iteration for
    a duplicate), [consume_return] from the callback's end to the next [get].
    Every interleaving of producers and consumer is then a sequence of labels
    of [pl_step].  The dedup window is used through its interface
    [DuplicateFilter] only.

    [_supervise] is modelled as a function of the sequence of collector runs
    (how long each ran, and how it ended). *)

From S2P Require Import Prelude ODict Dedup Queue.
Local Open Scope Z_scope.

(** The asyncio tasks [run] creates. *)
Inductive task := CollectorTask (name : string) | ConsumerTask.

#[export] Instance task_eq_dec : EqDecision task.
Proof. solve_decision. Defined.

(** [E] is the event type, [W] the dedup window's. *)
Record Pipeline (E W : Type) := mkPipeline {
  pl_queue : BoundedEventQueue E;
  pl_dedup : W;
  pl_collectors : list string;
  pl_consumer : bool;
  pl_tasks : list task;
  pl_processed : Z;
  pl_deduped : Z;
  pl_consumer_errors : Z;
  pl_restarts : odict string Z;
  pl_stop_requested : bool;
}.
Arguments mkPipeline {E W} _ _ _ _ _ _ _ _ _ _.
Arguments pl_queue {E W} _.
Arguments pl_dedup {E W} _.
Arguments pl_collectors {E W} _.
Arguments pl_consumer {E W} _.
Arguments pl_tasks {E W} _.
Arguments pl_processed {E W} _.
Arguments pl_deduped {E W} _.
Arguments pl_consumer_errors {E W} _.
Arguments pl_restarts {E W} _.
Arguments pl_stop_requested {E W} _.

(** [__init__] *)
Definition new_pipeline {E} (queue_maxsize : Z) (policy : BackpressurePolicy)
    (dedup_window_seconds dedup_max_entries : Z) : result (Pipeline E DedupWindow) :=
  q ← new_bounded queue_maxsize policy;
  w ← new_window dedup_window_seconds dedup_max_entries;
  Ok (mkPipeline q w [] false [] 0 0 0 [] false).

(** ** Wiring and start *)

Section wiring.
Context {E W : Type}.
Implicit Types p : Pipeline E W.

(** [register] *)
Definition register (name : string) p : result (Pipeline E W) :=
  _ ← raise_if (bool_decide (name ∈ pl_collectors p)) ValueError;
  Ok (mkPipeline (pl_queue p) (pl_dedup p) (pl_collectors p ++ [name]) (pl_consumer p)
        (pl_tasks p) (pl_processed p) (pl_deduped p) (pl_consumer_errors p)
        (pl_restarts p) (pl_stop_requested p)).

(** [set_consumer] *)
Definition set_consumer p : Pipeline E W :=
  mkPipeline (pl_queue p) (pl_dedup p) (pl_collectors p) true
    (pl_tasks p) (pl_processed p) (pl_deduped p) (pl_consumer_errors p)
    (pl_restarts p) (pl_stop_requested p).

(** [run], up to its [gather]: the tasks it has created. *)
Definition run_start p : result (Pipeline E W) :=
  _ ← raise_if (negb (pl_consumer p)) RuntimeError;
  _ ← raise_if (bool_decide (pl_collectors p = [])) RuntimeError;
  if pl_stop_requested p then Ok p
  else Ok (mkPipeline (pl_queue p) (pl_dedup p) (pl_collectors p) (pl_consumer p)
             (pl_tasks p ++ (CollectorTask <$> pl_collectors p) ++ [ConsumerTask])
             (pl_processed p) (pl_deduped p) (pl_consumer_errors p)
             (pl_restarts p) (pl_stop_requested p)).

(** [stop], its first step: the request is recorded. *)
Definition request_stop p : Pipeline E W :=
  mkPipeline (pl_queue p) (pl_dedup p) (pl_collectors p) (pl_consumer p)
    (pl_tasks p) (pl_processed p) (pl_deduped p) (pl_consumer_errors p)
    (pl_restarts p) true.

(** [stop], its drain: it goes on to cancel the consumer once [join] returns. *)
Definition drained p : bool := join_returns (pl_queue p).

Fixpoint register_all (names : list string) p : result (Pipeline E W) :=
  match names with
  | [] => Ok p
  | n :: names' => p' ← register n p; register_all names' p'
  end.

Lemma register_ok name p p' :
  register name p = Ok p' →
  name ∉ pl_collectors p ∧ pl_collectors p' = pl_collectors p ++ [name] ∧
  pl_tasks p' = pl_tasks p ∧ pl_consumer p' = pl_consumer p ∧
  pl_stop_requested p' = pl_stop_requested p.
Proof.
  unfold register. rewrite result_bind_ok. setoid_rewrite raise_if_ok.
  intros (_ & Hnin & [= <-]). by reflect_bools.
Qed.

Lemma register_all_collectors names p p' :
  register_all names p = Ok p' →
  pl_collectors p' = pl_collectors p ++ names ∧ pl_tasks p' = pl_tasks p ∧
  pl_stop_requested p' = pl_stop_requested p ∧
  (NoDup (pl_collectors p) → NoDup (pl_collectors p')).
Proof.
  revert p. induction names as [|n names IH]; intros p; simpl.
  - intros [= <-]. by rewrite app_nil_r.
  - rewrite result_bind_ok. intros (p1 & Hreg & Hall).
    apply register_ok in Hreg as (Hnin & Hc & Ht & _ & Hs).
    destruct (IH p1 Hall) as (-> & -> & -> & Hnd).
    rewrite Hc, <-app_assoc in *. split_and!; [done..|]. intros Hp. apply Hnd.
    apply NoDup_app. split_and!; [done| |apply NoDup_singleton].
    intros x Hx ?%list_elem_of_singleton. by subst.
Qed.
End wiring.

(** ** The consumer loop *)

(** How the consumer loop ended with an event. *)
Inductive fate := Deduped | Processed | Errored.

#[export] Instance fate_eq_dec : EqDecision fate.
Proof. solve_decision. Defined.

Section consume.
Context {E W : Type} `{DuplicateFilter W} (dedup_key : E → string).
Implicit Types p : Pipeline E W.

Definition with_queue_dedup (q : BoundedEventQueue E) (w : W) p : Pipeline E W :=
  mkPipeline q w (pl_collectors p) (pl_consumer p) (pl_tasks p) (pl_processed p)
    (pl_deduped p) (pl_consumer_errors p) (pl_restarts p) (pl_stop_requested p).

Definition count_fate (f : fate) p : Pipeline E W :=
  mkPipeline (pl_queue p) (pl_dedup p) (pl_collectors p) (pl_consumer p) (pl_tasks p)
    (pl_processed p + if decide (f = Processed) then 1 else 0)
    (pl_deduped p + if decide (f = Deduped) then 1 else 0)
    (pl_consumer_errors p + if decide (f = Errored) then 1 else 0)
    (pl_restarts p) (pl_stop_requested p).

(** [_consume], from [get] to the callback: the event handed to the callback,
    or [None] when it was a duplicate and the iteration is over. *)
Definition consume_take (now : Z) p : option (result (option E * E * Pipeline E W)) :=
  match get (pl_queue p) with
  | None => None
  | Some (event, q) =>
      Some (match df_seen now (dedup_key event) (pl_dedup p) with
            | Ok (true, w) =>
                q' ← task_done q;
                Ok (None, event, count_fate Deduped (with_queue_dedup q' w p))
            | Ok (false, w) => Ok (Some event, event, with_queue_dedup q w p)
            | Raise e =>  (* the [finally] clause runs, the exception propagates *)
                _ ← task_done q; Raise e
            end)
  end.

(** [_consume], after the callback returned ([ok]) or raised. *)
Definition consume_return (ok : bool) p : result (Pipeline E W) :=
  let p := count_fate (if ok then Processed else Errored) p in
  q ← task_done (pl_queue p);
  Ok (with_queue_dedup q (pl_dedup p) p).

(** [stats] (the dedup window's own counters are in [Dedup]). *)
Record stats := mkStats {
  st_queue_size : Z; st_queue_capacity : Z; st_queue_accepted : Z; st_queue_dropped : Z;
  st_processed : Z; st_deduped : Z; st_consumer_errors : Z;
}.

Definition pl_stats p : stats :=
  mkStats (qsize (pl_queue p)) (_maxsize (pl_queue p)) (_accepted (pl_queue p))
    (_dropped (pl_queue p)) (pl_processed p) (pl_deduped p) (pl_consumer_errors p).

(** *** The running system *)

(** The pipeline, the consumer's control point (the event whose callback is
    running), and the history: accepted events, finished events with their
    fate, events given to the callback, the timed keys looked up. *)
Record system := mkSystem {
  sys_pl : Pipeline E W;
  sys_handling : option E;
  sys_accepted : list E;
  sys_handled : list (E * fate);
  sys_dispatched : list E;
  sys_lookups : list (Z * string);
}.

Inductive label :=
  | Put (e : E)
  | Take (now : Z)
  | Return (ok : bool).

Definition pl_step (s : system) (l : label) : result system :=
  let p := sys_pl s in
  match l with
  | Put e =>
      match put e (pl_queue p) with
      | Accepted q => Ok (mkSystem (with_queue_dedup q (pl_dedup p) p) (sys_handling s)
            (sys_accepted s ++ [e]) (sys_handled s) (sys_dispatched s) (sys_lookups s))
      | Refused q => Ok (mkSystem (with_queue_dedup q (pl_dedup p) p) (sys_handling s)
            (sys_accepted s) (sys_handled s) (sys_dispatched s) (sys_lookups s))
      | Waits => Ok s
      end
  | Take now =>
      match sys_handling s, consume_take now p with
      | None, Some step =>
          r ← step;
          let '(handed, e, p') := r in
          let lookups := sys_lookups s ++ [(now, dedup_key e)] in
          match handed with
          | Some _ => Ok (mkSystem p' (Some e) (sys_accepted s) (sys_handled s)
                            (sys_dispatched s ++ [e]) lookups)
          | None => Ok (mkSystem p' None (sys_accepted s) (sys_handled s ++ [(e, Deduped)])
                          (sys_dispatched s) lookups)
          end
      | _, _ => Ok s
      end
  | Return ok =>
      match sys_handling s with
      | Some e =>
          p' ← consume_return ok p;
          Ok (mkSystem p' None (sys_accepted s)
                (sys_handled s ++ [(e, if ok then Processed else Errored)])
                (sys_dispatched s) (sys_lookups s))
      | None => Ok s
      end
  end.

Fixpoint pl_run (ls : list label) (s : system) : result system :=
  match ls with
  | [] => Ok s
  | l :: ls' => s' ← pl_step s l; pl_run ls' s'
  end.

Definition start (p : Pipeline E W) : system := mkSystem p None [] [] [] [].

(** The clock readings of a schedule. *)
Definition times (ls : list label) : list Z :=
  omap (λ l, match l with Take now => Some now | _ => None end) ls.

Definition fates (f : fate) (l : list (E * fate)) : Z := len (filter (λ x, x.2 = f) l).

(** Events taken so far, oldest first. *)
Definition taken (s : system) : list E :=
  (sys_handled s).*1 ++ option_list (sys_handling s).
End consume.

Arguments system : clear implicits.
Arguments label : clear implicits.

(** ** The invariant of the running system *)

Section invariant.
Context {E W : Type} `{DuplicateFilter W} (dedup_key : E → string).
Context (cap : nat) (ttl : Z).
Implicit Types (s : system E W) (p : Pipeline E W).

(** The admissions the specification records for the lookups so far. *)
Definition history s : list Spec.admission := (Spec.run cap ttl (sys_lookups s) []).2.

(** Every accepted event is finished, in the callback or queued, in that
    order; the counters and the queue's unfinished count say so; the dedup
    window tracks the lookups; the callback got exactly the fresh events. *)
Record sys_ok (last : Z) s : Prop := {
  so_queue : queue_wf (pl_queue (sys_pl s));
  so_fifo : sys_accepted s = taken s ++ q_items (_queue (pl_queue (sys_pl s)));
  so_accepted : _accepted (pl_queue (sys_pl s)) = len (sys_accepted s);
  so_unfinished : q_unfinished (_queue (pl_queue (sys_pl s)))
                  = qsize (pl_queue (sys_pl s)) + len (option_list (sys_handling s));
  so_processed : pl_processed (sys_pl s) = fates Processed (sys_handled s);
  so_deduped : pl_deduped (sys_pl s) = fates Deduped (sys_handled s);
  so_errors : pl_consumer_errors (sys_pl s) = fates Errored (sys_handled s);
  so_dedup : df_tracks cap ttl last (history s) (pl_dedup (sys_pl s));
  so_lookups : (sys_lookups s).*2 = dedup_key <$> taken s;
  so_history : (history s).*1 = dedup_key <$> sys_dispatched s;
  so_dispatched : sys_dispatched s =
    (filter (λ x, x.2 ≠ Deduped) (sys_handled s)).*1 ++ option_list (sys_handling s);
}.

Lemma fates_app f l1 l2 : fates f (l1 ++ l2) = fates (E:=E) f l1 + fates f l2.
Proof. unfold fates. by rewrite filter_app, len_app. Qed.

Lemma fates_one f e g : fates (E:=E) f [(e, g)] = if decide (g = f) then 1 else 0.
Proof. unfold fates. rewrite filter_cons. simpl. by case_decide. Qed.

Lemma history_snoc lookups now key :
  (Spec.run cap ttl (lookups ++ [(now, key)]) []).2
  = Spec.observe cap ttl now key (Spec.run cap ttl lookups []).2.
Proof. by rewrite spec_run_app. Qed.

Lemma fates_total (l : list (E * fate)) :
  fates Processed l + fates Deduped l + fates Errored l = len l.
Proof.
  induction l as [|[e f] l IH]; [done|]. unfold fates in *. rewrite !filter_cons, len_cons.
  destruct f; simpl; rewrite ?len_cons; lia.
Qed.

Lemma put_ok last s e : sys_ok last s → ∃ s', pl_step dedup_key s (Put e) = Ok s' ∧ sys_ok last s'.
Proof.
  intros [Hq Hf Ha Hu Hp Hd He Hw Hl Hh Hx]. simpl.
  destruct (put_inv e _ Hq) as [q Hlt Hit Hun Hac _ _ _ Hwf|q _ _ -> Hwf|_ _];
    (eexists; split; [done|]); split; simpl; try done.
  - rewrite Hit, app_assoc. by f_equal.
  - rewrite len_app, len_cons, len_nil. lia.
  - unfold qsize, q_size in *. rewrite Hit, len_app, len_cons, len_nil. lia.
Qed.

(** What is left to the consumer, counted in steps. *)
Definition backlog s : Z :=
  2 * qsize (pl_queue (sys_pl s)) + len (option_list (sys_handling s)).

(** [s'] is [s] after a consumer step: nothing is accepted, the backlog shrinks. *)
Definition progress s s' : Prop :=
  sys_accepted s' = sys_accepted s ∧ backlog s' ≤ Z.max 0 (backlog s - 1).

(** The part of the invariant that the lookups determine, after one more. *)
Lemma observe_fresh now key h :
  Spec.duplicate cap ttl now key h = false → (Spec.observe cap ttl now key h).*1 = h.*1 ++ [key].
Proof. unfold Spec.observe. intros ->. by rewrite fmap_app. Qed.

Lemma observe_dup now key h :
  Spec.duplicate cap ttl now key h = true → Spec.observe cap ttl now key h = h.
Proof. unfold Spec.observe. by intros ->. Qed.

Lemma take_ok last now s :
  sys_ok last s → last ≤ now →
  ∃ s' last', pl_step dedup_key s (Take now) = Ok s' ∧ sys_ok last' s' ∧ last' ≤ now ∧
    (sys_handling s = None → progress s s').
Proof.
  destruct s as [p [e0|] acc hand disp look]; intros Hok Hnow; unfold pl_step; simpl;
    [by eexists _, last|].
  pose proof Hok as [Hq Hf Ha Hu Hp Hd He Hw Hl Hh Hx]. unfold taken, history in *. simpl in *.
  rewrite app_nil_r in *. unfold consume_take. pose proof (get_inv _ Hq) as Hget.
  destruct (get (pl_queue p)) as [[e q]|].
  2:{ eexists _, last. split_and!; [done..|]. intros _. split; [done|].
      unfold backlog, qsize, q_size; simpl. rewrite Hget; unfold len; simpl; lia. }
  destruct Hget as (Hit & Hun & Hac & _ & _ & _ & Hwf).
  assert (Hsz : qsize (pl_queue p) = 1 + qsize q)
    by (unfold qsize, q_size; by rewrite Hit, len_cons).
  rewrite len_nil in *.
  destruct (df_seen_spec cap ttl last _ _ now (dedup_key e) Hw Hnow) as (w' & -> & Hw').
  destruct (Spec.duplicate _ _ _ _ _) eqn:Hdup; simpl.
  - destruct (task_done_inv q Hwf) as (q' & -> & Hit' & Hun' & Hac' & _ & _ & _ & Hwf'); [lia|].
    simpl. eexists _, now. split; [done|]. rewrite observe_dup in Hw' by done.
    assert (Hsz' : qsize q' = qsize q) by (unfold qsize, q_size; by rewrite Hit').
    split; [|split; [lia|intros _; split; [done|unfold backlog, len in *; simpl in *; lia]]].
    split; simpl; unfold taken, history; simpl;
      rewrite ?fates_app, ?fates_one, ?history_snoc, ?app_nil_r, ?fmap_app, ?observe_dup,
        ?len_nil by done; simpl; try (done || lia).
    + by rewrite Hf, Hit, Hit', <-app_assoc.
    + by rewrite Hl.
    + by rewrite filter_app, fmap_app, (filter_cons_False _ (e, Deduped)), app_nil_r by naive_solver.
  - eexists _, now. split; [done|].
    split; [|split; [lia|intros _; split; [done|unfold backlog, len in *; simpl in *; lia]]].
    split; simpl; unfold taken, history; simpl;
      rewrite ?history_snoc, ?fmap_app, ?observe_fresh, ?len_cons, ?len_nil by done;
      simpl; try (done || lia).
    + by rewrite Hf, Hit, <-app_assoc.
    + by rewrite Hl.
    + by rewrite Hh.
    + by rewrite Hx.
Qed.

Lemma return_ok last ok s :
  sys_ok last s → ∃ s', pl_step dedup_key s (Return ok) = Ok s' ∧ sys_ok last s' ∧
    (sys_handling s ≠ None → progress s s').
Proof.
  destruct s as [p [e|] acc hand disp look]; intros Hok; unfold pl_step; simpl; [|by eexists].
  destruct Hok as [Hq Hf Ha Hu Hp Hd He Hw Hl Hh Hx]. unfold taken, history in *. simpl in *.
  rewrite len_cons, len_nil in *. unfold consume_return; simpl.
  destruct (task_done_inv _ Hq) as (q & -> & Hit & Hun & Hac & _ & _ & _ & Hwf); [lia|].
  simpl. eexists. split; [done|].
  assert (Hsz : qsize q = qsize (pl_queue p)) by (unfold qsize, q_size; by rewrite Hit).
  split; [|intros _; split; [done|unfold backlog, len in *; simpl in *; lia]].
  split; simpl; unfold taken, history; simpl;
    rewrite ?fates_app, ?fates_one, ?app_nil_r, ?fmap_app, ?len_nil by done; simpl;
    try (done || (destruct ok; simpl; lia)).
  - rewrite Hf, Hit. by destruct ok.
  - by rewrite Hl, fmap_app.
  - rewrite Hx, filter_app, fmap_app, filter_cons_True by (destruct ok; naive_solver).
    done.
Qed.

Lemma nondecreasing_later last last' now rest :
  nondecreasing (last :: now :: rest) → last' ≤ now → nondecreasing (last' :: rest).
Proof.
  intros Hs Hle. inversion Hs as [|?? Hs' _]; subst. inversion Hs' as [|?? Hs'' Hall]; subst.
  constructor; [done|]. eapply Forall_impl; [exact Hall|]. simpl; lia.
Qed.

Lemma pl_run_ok ls rest last s :
  sys_ok last s → nondecreasing (last :: times ls ++ rest) →
  ∃ s' last', pl_run dedup_key ls s = Ok s' ∧ sys_ok last' s' ∧ nondecreasing (last' :: rest).
Proof.
  revert last s. induction ls as [|l ls IH]; intros last s Hok Hs; simpl; [by eexists _, _|].
  destruct l as [e|now|ok]; simpl in Hs.
  - destruct (put_ok last s e Hok) as (s' & -> & Hok'). simpl. eauto.
  - pose proof Hs as Hs'. inversion Hs' as [|?? _ Hall]; subst.
    apply Forall_cons in Hall as [Hnow _].
    destruct (take_ok last now s Hok Hnow) as (s' & last' & -> & Hok' & Hle & _). simpl.
    apply (IH last'); [done|]. by eapply nondecreasing_later.
  - destruct (return_ok last ok s Hok) as (s' & -> & Hok' & _). simpl. eauto.
Qed.

Lemma start_ok last p :
  queue_wf (pl_queue p) → q_items (_queue (pl_queue p)) = [] →
  q_unfinished (_queue (pl_queue p)) = 0 → _accepted (pl_queue p) = 0 →
  pl_processed p = 0 → pl_deduped p = 0 → pl_consumer_errors p = 0 →
  df_tracks cap ttl last [] (pl_dedup p) → sys_ok last (start p).
Proof.
  intros Hq Hi Hu Ha ????. unfold start. split; simpl; try done.
  unfold qsize, q_size. by rewrite Hu, Hi.
Qed.

(** *** Draining

    With no producer left, the consumer alternates deterministically; only the
    clock and the callback's outcomes are inputs. *)
Definition consumer_label (i : Z * bool) s : label E :=
  match sys_handling s with Some _ => Return i.2 | None => Take i.1 end.

Fixpoint drain_run (inputs : list (Z * bool)) s : result (system E W) :=
  match inputs with
  | [] => Ok s
  | i :: inputs' => s' ← pl_step dedup_key s (consumer_label i s); drain_run inputs' s'
  end.

Lemma drained_iff last s :
  sys_ok last s → drained (sys_pl s) = true ↔ backlog s = 0.
Proof.
  intros [Hq _ _ Hu _ _ _ _ _ _ _]. unfold drained, join_returns, q_join_returns, backlog.
  rewrite Z.eqb_eq, Hu. pose proof (len_nonneg (option_list (sys_handling s))).
  pose proof (len_nonneg (q_items (_queue (pl_queue (sys_pl s))))).
  unfold qsize, q_size. lia.
Qed.

Lemma consumer_step_ok last now ok s :
  sys_ok last s → last ≤ now →
  ∃ s' last', pl_step dedup_key s (consumer_label (now, ok) s) = Ok s' ∧ sys_ok last' s' ∧
    last' ≤ now ∧ progress s s'.
Proof.
  intros Hok Hnow. unfold consumer_label. destruct (sys_handling s) as [e|] eqn:Hh.
  - destruct (return_ok last ok s Hok) as (s' & Hstep & Hok' & Hp). exists s', last.
    split_and!; try done; apply Hp; by rewrite Hh.
  - destruct (take_ok last now s Hok Hnow) as (s' & last' & Hstep & Hok' & Hle & Hp).
    exists s', last'. split_and!; try done; by apply Hp.
Qed.

Lemma drain_run_ok inputs last s :
  sys_ok last s → nondecreasing (last :: inputs.*1) →
  ∃ s' last', drain_run inputs s = Ok s' ∧ sys_ok last' s' ∧
    sys_accepted s' = sys_accepted s ∧ backlog s' ≤ Z.max 0 (backlog s - len inputs).
Proof.
  revert last s. induction inputs as [|[now ok] inputs IH]; intros last s Hok Hs; simpl.
  - exists s, last. split_and!; [done..|]. unfold len; simpl. lia.
  - csimpl in Hs. pose proof Hs as Hs'. inversion Hs' as [|?? _ Hall]; subst.
    apply Forall_cons in Hall as [Hnow _].
    destruct (consumer_step_ok last now ok s Hok Hnow) as (s1 & last1 & -> & Hok1 & Hle & Hacc & Hb).
    simpl. destruct (IH last1 s1 Hok1) as (s' & last' & -> & Hok' & Hacc' & Hb').
    { by eapply nondecreasing_later. }
    exists s', last'. rewrite len_cons. pose proof (len_nonneg inputs).
    split_and!; [done..|congruence|lia].
Qed.
End invariant.

(** ** Launching *)

(** Construction and wiring as [runtime.build_pipeline] does them, up to the
    start of the tasks. *)
Definition launch {E} (queue_maxsize : Z) (policy : BackpressurePolicy)
    (dedup_window_seconds dedup_max_entries : Z) (names : list string)
    : result (Pipeline E DedupWindow) :=
  p ← new_pipeline queue_maxsize policy dedup_window_seconds dedup_max_entries;
  p ← register_all names p;
  run_start (set_consumer p).

Lemma register_all_keeps {E W} names (p p' : Pipeline E W) :
  register_all names p = Ok p' →
  pl_queue p' = pl_queue p ∧ pl_dedup p' = pl_dedup p ∧ pl_processed p' = pl_processed p ∧
  pl_deduped p' = pl_deduped p ∧ pl_consumer_errors p' = pl_consumer_errors p.
Proof.
  revert p. induction names as [|n names IH]; intros p; simpl; [by intros [= <-]|].
  rewrite result_bind_ok. intros (p1 & Hreg & Hall).
  destruct (IH p1 Hall) as (-> & -> & -> & -> & ->).
  unfold register in Hreg. apply result_bind_ok in Hreg as (_ & _ & [= <-]). done.
Qed.

Lemma launch_inv {E} qmax policy ttl dmax names (p : Pipeline E DedupWindow) :
  launch qmax policy ttl dmax names = Ok p →
  1 ≤ qmax ∧ 0 < ttl ∧ 1 ≤ dmax ∧ names ≠ [] ∧ NoDup names ∧
  pl_tasks p = (CollectorTask <$> names) ++ [ConsumerTask] ∧
  ∀ (dedup_key : E → string) last, sys_ok dedup_key (Z.to_nat dmax) ttl last (start p).
Proof.
  unfold launch. rewrite result_bind_ok. intros (p0 & Hp0 & Hp).
  apply result_bind_ok in Hp as (p1 & Hp1 & Hp).
  unfold new_pipeline in Hp0. apply result_bind_ok in Hp0 as (q & Hq & Hp0).
  apply result_bind_ok in Hp0 as (w & Hw & [= <-]).
  pose proof (new_bounded_wf _ _ _ Hq) as Hwf.
  apply new_bounded_ok in Hq as [Hqmax ->].
  pose proof Hw as Hw'. apply new_window_ok in Hw' as (Httl & Hdmax & _).
  pose proof (register_all_keeps _ _ _ Hp1) as (Hk1 & Hk2 & Hk3 & Hk4 & Hk5).
  apply register_all_collectors in Hp1 as (Hc & Ht & Hs & Hnd). simpl in *.
  unfold run_start in Hp. apply result_bind_ok in Hp as (_ & _ & Hp).
  apply result_bind_ok in Hp as ([] & Hne & Hp). apply raise_if_ok in Hne. reflect_bools.
  simpl in *. rewrite Hs in Hp. injection Hp as <-. simpl.
  rewrite Hc in *. split_and!; [done..| |by rewrite Ht|]; [apply Hnd; constructor|].
  intros dedup_key last. apply start_ok; simpl; rewrite ?Hk1, ?Hk2; try done.
  by apply refines_new.
Qed.

(** Why a launch fails. *)
Lemma register_all_raises {E W} names (p : Pipeline E W) e :
  register_all names p = Raise e → e = ValueError ∧ ¬ NoDup (pl_collectors p ++ names).
Proof.
  revert p. induction names as [|n names IH]; intros p; simpl; [done|].
  rewrite result_bind_raise. intros [Hreg|(p1 & Hreg & Hall)].
  - unfold register in Hreg. apply result_bind_raise in Hreg as [Hr|(? & ? & ?)]; [|done].
    unfold raise_if in Hr. case_bool_decide as Hin; [|done]. injection Hr as <-. split; [done|].
    intros (_ & Hdisj & _)%NoDup_app. apply (Hdisj n Hin). by left.
  - apply register_ok in Hreg as (_ & Hc & _). destruct (IH p1 Hall) as [-> Hnd]. split; [done|].
    by rewrite Hc, <-app_assoc in Hnd.
Qed.

Lemma launch_raises {E} qmax policy ttl dmax names e :
  launch (E:=E) qmax policy ttl dmax names = Raise e →
  match e with
  | ValueError => qmax < 1 ∨ ttl ≤ 0 ∨ dmax < 1 ∨ ¬ NoDup names
  | RuntimeError => names = []
  | _ => False
  end.
Proof.
  unfold launch. rewrite result_bind_raise. intros [Hp|(p & Hp & Hl)].
  { unfold new_pipeline, new_bounded, new_window, raise_if in Hp.
    destruct (qmax <? 1) eqn:?; [|destruct (ttl <=? 0) eqn:?; [|destruct (dmax <? 1) eqn:?]];
      reflect_bools; simpl in Hp; simplify_eq; auto. }
  unfold new_pipeline in Hp. apply result_bind_ok in Hp as (q & _ & Hp).
  apply result_bind_ok in Hp as (w & _ & [= <-]).
  apply result_bind_raise in Hl as [Hreg|(p1 & Hreg & Hrun)].
  { apply register_all_raises in Hreg as [-> Hnd]. auto. }
  apply register_all_collectors in Hreg as (Hc & _ & Hs & _). unfold run_start in Hrun.
  simpl in *. rewrite Hs, Hc in Hrun. unfold raise_if in Hrun.
  case_bool_decide as Hn; simpl in Hrun; [|done]. by injection Hrun as <-.
Qed.

(** ** Exactly-once dispatch within one TTL *)

Lemma spec_history_new cap ttl lo (calls : list (Z * string)) (keys : list string) :
  Forall (λ c, lo ≤ c.1 < lo + ttl ∧ c.2 ∈ keys) calls → (length keys ≤ cap)%nat →
  let h := (Spec.run cap ttl calls []).2 in
  NoDup h.*1 ∧ (∀ k, k ∈ h.*1 ↔ k ∈ calls.*2) ∧ Forall (λ a, lo ≤ a.2 ∧ a.1 ∈ keys) h.
Proof.
  intros Hall Hcap h. subst h. induction calls as [|[now key] calls IH] using rev_ind; simpl.
  { split_and!; [constructor|done|constructor]. }
  apply Forall_app in Hall as [Hall [[Ht Hk] _]%Forall_cons]. simpl in Ht, Hk.
  destruct (IH Hall) as (Hnd & Hin & Hfa). rewrite history_snoc.
  set (h := (Spec.run cap ttl calls []).2) in *.
  assert (Hlive : Spec.live cap ttl now h = h).
  { unfold Spec.live. rewrite lastn_all.
    - apply filter_all. eapply Forall_impl; [exact Hfa|]. simpl; lia.
    - rewrite <-(length_fmap fst h). etrans; [|exact Hcap].
      apply submseteq_length, NoDup_submseteq; [done|].
      intros k (a & -> & Ha)%list_elem_of_fmap. by apply (proj1 (Forall_forall _ _) Hfa). }
  unfold Spec.observe, Spec.duplicate. rewrite Hlive. rewrite fmap_app. csimpl.
  case_bool_decide as Hdup.
  - split_and!; [done| |done]. intros k. rewrite Hin, elem_of_app, list_elem_of_singleton.
    split; [by left|]. intros [?| ->]; [done|]. by apply Hin.
  - rewrite fmap_app. csimpl. split_and!.
    + apply NoDup_app. split_and!; [done| |apply NoDup_singleton].
      intros k Hk' ?%list_elem_of_singleton. by subst.
    + intros k. by rewrite !elem_of_app, Hin.
    + apply Forall_app. split; [done|]. repeat constructor; simpl; [lia|done].
Qed.

(** ** Supervision of collectors *)

Definition RESTART_MIN_S : Z := 1 * SECOND.
Definition RESTART_MAX_S : Z := 60 * SECOND.
Definition STABLE_RUN_S : Z := 60 * SECOND.

(** One execution of [collector.run]: it returned, or it raised after running
    for [elapsed]; [stopped] is what [wait_stop(timeout=delay)] then answers. *)
Inductive collector_run :=
  | Returned
  | Crashed (elapsed : Z) (stopped : bool).

(** The backoff computed in the [except] branch. *)
Definition next_delay (elapsed delay : Z) : Z :=
  let stable := STABLE_RUN_S <=? elapsed in
  if stable || (delay =? 0) then RESTART_MIN_S else Z.min (delay * 2) RESTART_MAX_S.

(** [_supervise]: the delays waited, the restart counter of the collector, and
    whether the supervising loop is still alive at the end of the given runs. *)
Fixpoint supervise (runs : list collector_run) (delay restarts : Z) : list Z * Z * bool :=
  match runs with
  | [] => ([], restarts, true)
  | Returned :: _ => ([], restarts, false)
  | Crashed elapsed stopped :: runs' =>
      let delay := next_delay elapsed delay in
      let restarts := restarts + 1 in
      if stopped then ([delay], restarts, false)
      else let '(delays, restarts, alive) := supervise runs' delay restarts in
           (delay :: delays, restarts, alive)
  end.

Lemma next_delay_bounds elapsed delay :
  delay = 0 ∨ RESTART_MIN_S ≤ delay ≤ RESTART_MAX_S →
  RESTART_MIN_S ≤ next_delay elapsed delay ≤ RESTART_MAX_S.
Proof.
  unfold next_delay, RESTART_MIN_S, RESTART_MAX_S, SECOND. intros Hd.
  destruct (_ || _) eqn:Hb; [lia|]. apply orb_false_iff in Hb as [_ Hb]. reflect_bools. lia.
Qed.

Lemma supervise_bounds runs delay restarts :
  delay = 0 ∨ RESTART_MIN_S ≤ delay ≤ RESTART_MAX_S →
  let '(delays, restarts', _) := supervise runs delay restarts in
  Forall (λ d, RESTART_MIN_S ≤ d ≤ RESTART_MAX_S) delays ∧
  restarts' = restarts + len delays.
Proof.
  revert delay restarts. induction runs as [|[|elapsed stopped] runs IH];
    intros delay restarts Hd; simpl; [by split; [|unfold len; simpl; lia]..|].
  pose proof (next_delay_bounds elapsed delay Hd) as Hn. destruct stopped.
  - split; [by apply Forall_singleton|]. unfold len; simpl. lia.
  - specialize (IH (next_delay elapsed delay) (restarts + 1) (or_intror Hn)).
    destruct (supervise _ _ _) as [[delays r] alive]. destruct IH as [? ->].
    split; [by constructor|]. rewrite len_cons. lia.
Qed.

Lemma supervise_unstable_from n delay restarts k :
  0 ≤ k → delay = Z.min (RESTART_MIN_S * 2 ^ k) RESTART_MAX_S →
  (supervise (replicate n (Crashed 0 false)) delay restarts).1.1
  = (λ i, Z.min (RESTART_MIN_S * 2 ^ Z.of_nat i) RESTART_MAX_S) <$> seq (S (Z.to_nat k)) n.
Proof.
  revert k delay restarts. induction n as [|n IH]; intros k delay restarts Hk Hd; [done|].
  simpl. destruct (supervise _ _ _) as [[delays r] alive] eqn:Hsup; simpl.
  assert (Hpow : 1 ≤ 2 ^ k) by (apply (Z.pow_le_mono_r 2 0 k); lia).
  assert (Hdel : next_delay 0 delay = Z.min (RESTART_MIN_S * 2 ^ (k + 1)) RESTART_MAX_S).
  { unfold next_delay. rewrite Z.pow_add_r by lia. change (2 ^ 1) with 2.
    unfold RESTART_MIN_S, RESTART_MAX_S, STABLE_RUN_S, SECOND in *. simpl.
    rewrite (proj2 (Z.eqb_neq delay 0)) by lia. lia. }
  f_equal.
  - rewrite Hdel. do 3 f_equal. lia.
  - specialize (IH (k + 1) _ (restarts + 1) ltac:(lia) Hdel). rewrite Hsup in IH. simpl in IH.
    by replace (S (Z.to_nat (k + 1))) with (S (S (Z.to_nat k))) in IH by lia.
Qed.

(** *** Where a run's history comes from *)

Lemma pl_step_origin {E W} `{DuplicateFilter W} (dedup_key : E → string) (s s' : system E W) l :
  pl_step dedup_key s l = Ok s' →
  (∀ c, c ∈ sys_lookups s' → c ∈ sys_lookups s ∨ l = Take c.1) ∧
  (∀ e, e ∈ sys_accepted s' → e ∈ sys_accepted s ∨ l = Put e).
Proof.
  destruct l as [e|now|ok]; simpl.
  - destruct (put e _); intros [= <-]; simpl; split; auto.
    intros e' [?|Heq]%elem_of_app; [by left|]. apply list_elem_of_singleton in Heq as ->. by right.
  - destruct (sys_handling s); [intros [= <-]; by auto|].
    destruct (consume_take _ _ _) as [r|]; [|intros [= <-]; by auto].
    rewrite result_bind_ok. intros ([[handed e] p'] & _ & Heq).
    assert (sys_lookups s' = sys_lookups s ++ [(now, dedup_key e)]
            ∧ sys_accepted s' = sys_accepted s) as [-> ->] by (by destruct handed; injection Heq as <-).
    split; [|by auto]. intros c [?|Hc]%elem_of_app; [by left|].
    apply list_elem_of_singleton in Hc as ->. by right.
  - destruct (sys_handling s); [|intros [= <-]; by auto].
    rewrite result_bind_ok. intros (p' & _ & [= <-]). by auto.
Qed.

Lemma pl_run_origin {E W} `{DuplicateFilter W} (dedup_key : E → string) (s s' : system E W) ls :
  pl_run dedup_key ls s = Ok s' →
  (∀ c, c ∈ sys_lookups s' → c ∈ sys_lookups s ∨ c.1 ∈ times ls) ∧
  (∀ e, e ∈ sys_accepted s' → e ∈ sys_accepted s ∨ Put e ∈ ls).
Proof.
  revert s. induction ls as [|l ls IH]; intros s; simpl; [intros [= <-]; by auto|].
  rewrite result_bind_ok. intros (s1 & Hstep & Hrun).
  destruct (IH s1 Hrun) as [Hlook Hacc].
  apply pl_step_origin in Hstep as [Hlook1 Hacc1]. split.
  - intros c [Hc|Hc]%Hlook.
    + destruct (Hlook1 c Hc) as [?| ->]; [by left|]. right. simpl. by left.
    + right. destruct l; simpl; [done|by right|done].
  - intros e [He|He]%Hacc; [|right; by right].
    destruct (Hacc1 e He) as [?| ->]; [by left|]. right. by left.
Qed.

(** ** Properties *)

(** Whatever the interleaving of collectors and consumer, the pipeline
    loses and repeats nothing: accepted events are finished, in the callback
    or queued, in arrival order, the counters add up to the accepted events,
    no step raises, and [join] would return exactly when all are finished. *)
Theorem pipeline_conserves_events {E} (dedup_key : E → string)
    qmax policy ttl dmax names (p : Pipeline E DedupWindow) ls :
  launch qmax policy ttl dmax names = Ok p → nondecreasing (times ls) →
  ∃ s, pl_run dedup_key ls (start p) = Ok s ∧
    let st := pl_stats (sys_pl s) in
    sys_accepted s = (sys_handled s).*1 ++ option_list (sys_handling s)
                       ++ q_items (_queue (pl_queue (sys_pl s))) ∧
    st_queue_accepted st = st_processed st + st_deduped st + st_consumer_errors st
                           + len (option_list (sys_handling s)) + st_queue_size st ∧
    (drained (sys_pl s) = true ↔ (sys_handled s).*1 = sys_accepted s).
Proof.
  intros Hl Hs. destruct (launch_inv _ _ _ _ _ _ Hl) as (_ & _ & _ & _ & _ & _ & Hok).
  destruct (pl_run_ok dedup_key (Z.to_nat dmax) ttl ls [] (default 0 (head (times ls))) (start p))
    as (s & last & Hrun & Hsys & _); [apply Hok|rewrite app_nil_r; by apply nondecreasing_head|].
  exists s. split; [done|]. pose proof (drained_iff _ _ _ _ _ Hsys) as Hdr.
  destruct Hsys as [Hq Hf Ha Hu Hp Hd He _ _ _ _]. unfold taken in Hf.
  pose proof (fates_total (sys_handled s)) as Htot. simpl.
  split_and!; [by rewrite Hf, <-app_assoc| |].
  - rewrite Ha, Hf, !len_app, Hp, Hd, He. unfold qsize, q_size.
    replace (len (sys_handled s).*1) with (len (sys_handled s)) by (unfold len; by rewrite length_fmap).
    lia.
  - rewrite Hdr. unfold backlog, qsize, q_size. rewrite Hf, <-app_assoc. split.
    + intros Hz. pose proof (len_nonneg (q_items (_queue (pl_queue (sys_pl s))))).
      pose proof (len_nonneg (option_list (sys_handling s))).
      destruct (q_items _), (sys_handling s); unfold len in *; simpl in *; try lia.
      by rewrite !app_nil_r.
    + intros Heq. apply (f_equal length) in Heq. rewrite !length_app in Heq. unfold len. lia.
Qed.

Lemma pipeline_conserves_events_witness :
  ∃ p s, launch 2 BLOCK (300 * SECOND) 10 ["proc"] = Ok p ∧
    pl_run (λ e : string, e) [Put "a"; Put "a"; Put "b"; Take 1; Put "b"; Return true; Take 2]
      (start p) = Ok s ∧
    sys_accepted s = (sys_handled s).*1 ++ option_list (sys_handling s)
                       ++ q_items (_queue (pl_queue (sys_pl s))).
Proof.
  eexists.
  assert (nondecreasing (times (E:=string)
    [Put "a"; Put "a"; Put "b"; Take 1; Put "b"; Return true; Take 2])) as Hs.
  { repeat constructor; discriminate. }
  destruct (pipeline_conserves_events (λ e : string, e) 2 BLOCK (300 * SECOND) 10 ["proc"] _
    _ eq_refl Hs) as (s & Hrun & Hacc & _).
  exists s. split; [reflexivity|]. split; [exact Hrun|exact Hacc].
Defined.

(** As long as the run fits in one TTL and the keys in the window, the
    callback gets every distinct key taken from the queue exactly once. *)
Theorem dispatched_exactly_once {E} (dedup_key : E → string)
    qmax policy ttl dmax names (p : Pipeline E DedupWindow) ls lo (keys : list string) :
  launch qmax policy ttl dmax names = Ok p → nondecreasing (times ls) →
  Forall (λ t, lo ≤ t < lo + ttl) (times ls) →
  (∀ e, Put e ∈ ls → dedup_key e ∈ keys) → len keys ≤ dmax →
  ∃ s, pl_run dedup_key ls (start p) = Ok s ∧
    NoDup (dedup_key <$> sys_dispatched s) ∧
    ∀ k, k ∈ dedup_key <$> sys_dispatched s ↔ k ∈ dedup_key <$> taken s.
Proof.
  intros Hl Hs Hwin Hkeys Hdmax. destruct (launch_inv _ _ _ _ _ _ Hl) as (_ & _ & Hd1 & _ & _ & _ & Hok).
  destruct (pl_run_ok dedup_key (Z.to_nat dmax) ttl ls [] (default 0 (head (times ls))) (start p))
    as (s & last & Hrun & Hsys & _); [apply Hok|rewrite app_nil_r; by apply nondecreasing_head|].
  exists s. split; [done|]. apply pl_run_origin in Hrun as [Hlook Hacc].
  destruct Hsys as [_ Hf _ _ _ _ _ _ Hl2 Hh _].
  destruct (spec_history_new (Z.to_nat dmax) ttl lo (sys_lookups s) keys) as (Hnd & Hin & _).
  - apply Forall_forall. intros c Hc. split.
    + apply (proj1 (Forall_forall _ _) Hwin). destruct (Hlook c Hc) as [Hn|?]; [|done].
      by apply elem_of_nil in Hn.
    + assert (c.2 ∈ (sys_lookups s).*2) as Hc2 by (apply list_elem_of_fmap; eauto).
      rewrite Hl2 in Hc2. apply list_elem_of_fmap in Hc2 as (e & -> & He).
      apply Hkeys. destruct (Hacc e) as [Hn|?]; [|by apply elem_of_nil in Hn|done].
      rewrite Hf. apply elem_of_app. by left.
  - unfold len in Hdmax. lia.
  - unfold history in Hh. rewrite Hh, Hl2 in *. by split.
Qed.

Lemma dispatched_exactly_once_witness :
  ∃ p s, launch 2 BLOCK 300 10 ["proc"] = Ok p ∧
    pl_run (λ e : string, e) [Put "a"; Put "a"; Take 1; Return true; Take 2; Put "b"; Take 3]
      (start p) = Ok s ∧ NoDup (sys_dispatched s) ∧ sys_dispatched s = ["a"; "b"].
Proof.
  eexists.
  destruct (dispatched_exactly_once (λ e : string, e) 2 BLOCK 300 10 ["proc"] _
    [Put "a"; Put "a"; Take 1; Return true; Take 2; Put "b"; Take 3] 0 ["a"; "b"] eq_refl)
    as (s & Hrun & Hnd & _).
  - repeat constructor; discriminate.
  - repeat constructor; discriminate.
  - intros e He. apply (bool_decide_eq_true_1 _).
    repeat (apply elem_of_cons in He as [He|He]; [by (discriminate He || (injection He as ->))|]).
    by apply elem_of_nil in He.
  - discriminate.
  - exists s. split; [reflexivity|]. split; [exact Hrun|]. rewrite list_fmap_id in Hnd.
    split; [exact Hnd|]. vm_compute in Hrun. by injection Hrun as <-.
Defined.

(** Draining terminates: after [stop] has stopped the producers, a
    consumer that takes [2 * qsize + 1] more steps (whatever the clock and the
    callbacks do) lets [join] return, with every accepted event finished. *)
Theorem stop_drains {E} (dedup_key : E → string)
    qmax policy ttl dmax names (p : Pipeline E DedupWindow) ls s inputs :
  launch qmax policy ttl dmax names = Ok p →
  nondecreasing (times ls ++ inputs.*1) →
  pl_run dedup_key ls (start p) = Ok s →
  2 * qsize (pl_queue (sys_pl s)) + 1 ≤ len inputs →
  ∃ s', drain_run dedup_key inputs s = Ok s' ∧ drained (sys_pl s') = true ∧
        sys_accepted s' = sys_accepted s ∧ (sys_handled s').*1 = sys_accepted s.
Proof.
  intros Hl Hs Hrun Hlen. destruct (launch_inv _ _ _ _ _ _ Hl) as (_ & _ & _ & _ & _ & _ & Hok).
  destruct (pl_run_ok dedup_key (Z.to_nat dmax) ttl ls inputs.*1
    (default 0 (head (times ls ++ inputs.*1))) (start p))
    as (s1 & last & Hrun1 & Hsys & Hlast); [apply Hok|by apply nondecreasing_head|].
  rewrite Hrun in Hrun1. injection Hrun1 as <-.
  destruct (drain_run_ok dedup_key _ _ inputs last s Hsys Hlast)
    as (s' & last' & Hdr & Hsys' & Hacc & Hb). exists s'.
  assert (Hzero : backlog s' = 0).
  { assert (0 ≤ backlog s') by (unfold backlog, qsize, q_size, len; lia).
    assert (backlog s ≤ len inputs); [|lia]. unfold backlog.
    destruct (sys_handling s); unfold len in *; simpl in *; lia. }
  split_and!; [done|by eapply drained_iff|done|].
  rewrite <-Hacc. destruct Hsys' as [_ -> _ _ _ _ _ _ _ _ _]. unfold taken.
  unfold backlog, qsize, q_size, len in Hzero.
  destruct (q_items _), (sys_handling s'); simpl in *; try lia. by rewrite !app_nil_r.
Qed.

Lemma stop_drains_witness :
  let p := mkPipeline (mkBounded 4 BLOCK (new_queue 4) 0 0) (mkDedupWindow 300 10 [] 0 0 0 0)
    ["proc"] true [CollectorTask "proc"; ConsumerTask] 0 0 0 [] false in
  let s := mkSystem (mkPipeline (mkBounded 4 BLOCK (mkQueue 4 ["a"; "b"] 3) 0 3)
      (mkDedupWindow 300 10 [("a", 301)] 0 1 0 0) ["proc"] true
      [CollectorTask "proc"; ConsumerTask] 0 0 0 [] false)
    (Some "a") ["a"; "a"; "b"] [] ["a"] [(1, "a")] in
  launch 4 BLOCK 300 10 ["proc"] = Ok p ∧
  pl_run (λ e : string, e) [Put "a"; Put "a"; Put "b"; Take 1] (start p) = Ok s ∧
  ∃ s', drain_run (λ e : string, e)
      [(2, true); (2, false); (3, true); (3, false); (4, true)] s = Ok s' ∧
    drained (sys_pl s') = true.
Proof.
  intros p s.
  assert (nondecreasing (times (E:=string) [Put "a"; Put "a"; Put "b"; Take 1]
    ++ [(2, true); (2, false); (3, true); (3, false); (4, true)].*1)) as Hs.
  { repeat constructor; discriminate. }
  assert (Hp : launch 4 BLOCK 300 10 ["proc"] = Ok p) by (vm_compute; reflexivity).
  assert (Hr : pl_run (λ e : string, e) [Put "a"; Put "a"; Put "b"; Take 1] (start p) = Ok s)
    by (vm_compute; reflexivity).
  destruct (stop_drains (λ e : string, e) 4 BLOCK 300 10 ["proc"] p
    [Put "a"; Put "a"; Put "b"; Take 1] s
    [(2, true); (2, false); (3, true); (3, false); (4, true)] Hp Hs Hr)
    as (s' & Hd & Hdr & _).
  - vm_compute. discriminate.
  - split; [exact Hp|]. split; [exact Hr|]. exists s'. split; [exact Hd|exact Hdr].
Defined.

(** Launching creates exactly one task per registered source and one
    consumer; registering a name twice, or starting without a consumer or a
    collector, fails; a [stop] that wins the race against [run] leaves no
    task behind. *)
Theorem launch_one_task_per_source {E} qmax policy ttl dmax names :
  match launch (E:=E) qmax policy ttl dmax names with
  | Ok p => NoDup names ∧ NoDup (pl_tasks p) ∧
            pl_tasks p = (CollectorTask <$> names) ++ [ConsumerTask]
  | Raise ValueError => qmax < 1 ∨ ttl ≤ 0 ∨ dmax < 1 ∨ ¬ NoDup names
  | Raise RuntimeError => names = []
  | Raise _ => False
  end ∧
  ∀ p p' : Pipeline E DedupWindow, pl_tasks p = [] → run_start (request_stop p) = Ok p' →
    pl_tasks p' = [].
Proof.
  split.
  - pose proof (launch_inv (E:=E) qmax policy ttl dmax names) as Hinv.
    destruct (launch _ _ _ _ _) as [p|e] eqn:Hl.
    + destruct (Hinv p eq_refl) as (_ & _ & _ & _ & Hnd & -> & _). split_and!; [done| |done].
      apply NoDup_app. split_and!; [| |apply NoDup_singleton].
      * apply NoDup_fmap; [|done]. by intros ?? [= ->].
      * by intros t (n & -> & _)%list_elem_of_fmap ?%list_elem_of_singleton.
    + by apply launch_raises in Hl.
  - intros p p' Ht. unfold run_start, request_stop; simpl.
    rewrite result_bind_ok. intros (_ & _ & Hrun). apply result_bind_ok in Hrun as (_ & _ & [= <-]).
    done.
Qed.

Lemma launch_one_task_per_source_witness :
  let p : Pipeline string DedupWindow :=
    mkPipeline (mkBounded 4 BLOCK (new_queue 4) 0 0) (mkDedupWindow 300 10 [] 0 0 0 0)
      ["a"] true [] 0 0 0 [] false in
  launch (E:=string) 4 BLOCK 300 10 ["a"; "a"] = Raise ValueError ∧
  run_start (request_stop p) = Ok (request_stop p) ∧ pl_tasks (request_stop p) = [].
Proof.
  intros p. assert (Hr : run_start (request_stop p) = Ok (request_stop p)) by reflexivity.
  split; [reflexivity|]. split; [exact Hr|].
  exact (proj2 (launch_one_task_per_source (E:=string) 4 BLOCK 300 10 ["a"])
           p (request_stop p) eq_refl Hr).
Defined.

(** Supervision: every restart delay lies between 1 s and 60 s, the
    delay after the n-th consecutive unstable crash is [min (2^(n-1)) 60]
    seconds, a stable run resets it to 1 s, and each crash is counted once. *)
Theorem supervise_backoff runs n :
  let '(delays, restarts, _) := supervise runs 0 0 in
  Forall (λ d, 1 * SECOND ≤ d ≤ 60 * SECOND) delays ∧ restarts = len delays ∧
  (supervise (replicate n (Crashed 0 false)) 0 0).1.1
    = (λ i, Z.min (SECOND * 2 ^ Z.of_nat i) (60 * SECOND)) <$> seq 0 n ∧
  (∀ elapsed delay, 60 * SECOND ≤ elapsed → next_delay elapsed delay = 1 * SECOND).
Proof.
  pose proof (supervise_bounds runs 0 0 (or_introl eq_refl)) as Hb.
  destruct (supervise runs 0 0) as [[delays r] alive]. destruct Hb as [Hb ->].
  split_and!; [done|done| |].
  - destruct n as [|n]; [done|]. simpl. change (next_delay 0 0) with RESTART_MIN_S.
    pose proof (supervise_unstable_from n RESTART_MIN_S (0 + 1) 0) as Hn.
    destruct (supervise _ _ _) as [[ds r] al]; simpl in *. by rewrite Hn.
  - intros elapsed delay He. unfold next_delay, STABLE_RUN_S.
    by rewrite (proj2 (Z.leb_le _ _)) by done.
Qed.
