(* ===== verification/PyText.v ===== *)
(** * Python strings

    The [str] operations the modelled code uses.  A Python string is a
    [string]: one character per code point, so the model's texts are those of
    code points below 256 (Latin-1); nothing below depends on the bound except
    [utf8_encode] and the whitespace and control classes, which are complete for
    that range. *)

From S2P Require Import Prelude.
From Stdlib Require Export Ascii.
From stdpp Require Export pretty.
Local Open Scope string_scope.

Definition code (c : ascii) : N := N_of_ascii c.

(** [len(s)] *)
Definition strlen (s : string) : Z := Z.of_nat (String.length s).

(** [s[:n]] and [s[n:]] for [n >= 0] *)
Fixpoint str_take (n : nat) (s : string) : string :=
  match n, s with
  | S n', String c s' => String c (str_take n' s')
  | _, _ => ""
  end.

Fixpoint str_drop (n : nat) (s : string) : string :=
  match n, s with
  | S n', String _ s' => str_drop n' s'
  | _, _ => s
  end.

(** [s[-n:]] for [n >= 1] *)
Definition str_lastn (n : nat) (s : string) : string := str_drop (String.length s - n) s.

(** [s.startswith(p)] *)
Definition str_startswith (s p : string) : bool := String.prefix p s.

(** [s.endswith(p)] *)
Definition str_endswith (s p : string) : bool :=
  (String.length p <=? String.length s)%nat
    && String.eqb (str_drop (String.length s - String.length p) s) p.

(** [needle in s] *)
Fixpoint str_contains (needle s : string) : bool :=
  String.prefix needle s
  || match s with "" => false | String _ s' => str_contains needle s' end.

(** [s.replace(old, new)] for a non-empty [old]; [skip] characters of a found
    [old] are still to be passed over. *)
Fixpoint replace_from (old new : string) (skip : nat) (s : string) : string :=
  match s with
  | "" => ""
  | String c s' =>
      match skip with
      | S k => replace_from old new k s'
      | O => if String.prefix old s then new ++ replace_from old new (String.length old - 1) s'
             else String c (replace_from old new 0 s')
      end
  end.
Definition str_replace (old new s : string) : string := replace_from old new 0 s.

(** [s.split(sep)] for a one-character separator *)
Fixpoint str_split (sep : ascii) (s : string) : list string :=
  match s with
  | "" => [""]
  | String c s' =>
      if Ascii.eqb c sep then "" :: str_split sep s'
      else match str_split sep s' with
           | [] => [String c ""]
           | w :: ws => String c w :: ws
           end
  end.

(** [sep.join(parts)] *)
Fixpoint str_join (sep : string) (parts : list string) : string :=
  match parts with
  | [] => ""
  | [p] => p
  | p :: parts' => p +:+ sep +:+ str_join sep parts'
  end.

(** The characters satisfying [P] only / all of them *)
Fixpoint str_forall (P : ascii → bool) (s : string) : bool :=
  match s with "" => true | String c s' => P c && str_forall P s' end.

(** [s.partition(sep)] for a one-character separator: text before the first
    occurrence, whether there is one, text after it. *)
Fixpoint str_partition (sep : ascii) (s : string) : string * bool * string :=
  match s with
  | "" => ("", false, "")
  | String c s' =>
      if Ascii.eqb c sep then ("", true, s')
      else let '(a, found, b) := str_partition sep s' in (String c a, found, b)
  end.

Definition str_mem (c : ascii) (s : string) : bool :=
  negb (str_forall (λ d, negb (Ascii.eqb c d)) s).

(** ** Characters *)

Definition in_range (lo hi : N) (c : ascii) : bool := (lo <=? code c)%N && (code c <=? hi)%N.

Definition is_digit : ascii → bool := in_range 48 57.
Definition is_lower : ascii → bool := in_range 97 122.
Definition is_upper : ascii → bool := in_range 65 90.
Definition is_alpha (c : ascii) : bool := is_lower c || is_upper c.
Definition is_hex_lower (c : ascii) : bool := is_digit c || in_range 97 102 c.
Definition is_hex (c : ascii) : bool := is_hex_lower c || in_range 65 70 c.

(** [str.isspace] and the characters [str.strip]/[str.split] treat as blanks. *)
Definition is_space (c : ascii) : bool :=
  in_range 9 13 c || in_range 28 32 c || (code c =? 133)%N || (code c =? 160)%N.

Definition lower_char (c : ascii) : ascii :=
  if is_upper c || (in_range 192 222 c && negb (code c =? 215)%N)
  then ascii_of_N (code c + 32) else c.

(** [s.lower()] *)
Fixpoint str_lower (s : string) : string :=
  match s with "" => "" | String c s' => String (lower_char c) (str_lower s') end.

(** [s.upper()], on ASCII; the letters outside it only meet text they cannot
    turn into (a table of ASCII keys). *)
Definition upper_char (c : ascii) : ascii :=
  if is_lower c then ascii_of_N (code c - 32) else c.

Fixpoint str_upper (s : string) : string :=
  match s with "" => "" | String c s' => String (upper_char c) (str_upper s') end.

Fixpoint str_lstrip (s : string) : string :=
  match s with
  | "" => ""
  | String c s' => if is_space c then str_lstrip s' else s
  end.

Fixpoint str_rstrip (s : string) : string :=
  match s with
  | "" => ""
  | String c s' =>
      let r := str_rstrip s' in
      if String.eqb r "" && is_space c then "" else String c r
  end.

(** [s.strip()] *)
Definition str_strip (s : string) : string := str_rstrip (str_lstrip s).

(** [s.split()]: the maximal runs of non-blank characters *)
Fixpoint str_words (s : string) : list string :=
  match s with
  | "" => []
  | String c s' =>
      if is_space c then str_words s'
      else
        let ws := str_words s' in
        let joined := match s' with String d _ => negb (is_space d) | "" => false end in
        match joined, ws with
        | true, w :: ws' => String c w :: ws'
        | _, _ => String c "" :: ws
        end
  end.

Definition is_line_break (c : ascii) : bool :=
  in_range 10 13 c || in_range 28 30 c || (code c =? 133)%N.

(** [s.splitlines()]: a carriage return with its line feed is one break, and a
    break at the end starts no line. *)
Fixpoint str_splitlines (s : string) : list string :=
  match s with
  | "" => []
  | String c s' =>
      if is_line_break c then
        "" :: match s' with
              | String d s'' => if (code c =? 13)%N && (code d =? 10)%N then str_splitlines s'' else str_splitlines s'
              | "" => []
              end
      else match str_splitlines s' with [] => [String c ""] | w :: ws => String c w :: ws end
  end.

(** [str.encode("utf-8")] *)
Definition utf8_char (c : ascii) : list Z :=
  let n := Z.of_N (code c) in
  if (n <? 128)%Z then [n] else [Z.lor 192 (Z.shiftr n 6); Z.lor 128 (Z.land n 63)].

Fixpoint utf8_encode (s : string) : list Z :=
  match s with "" => [] | String c s' => utf8_char c ++ utf8_encode s' end.

(** ** Numbers in text *)

(** [str(n)] of an integer *)
Definition str_of_int (n : Z) : string := pretty n.

Definition digit_value (c : ascii) : Z :=
  if is_digit c then Z.of_N (code c) - 48
  else if in_range 97 102 c then Z.of_N (code c) - 87
  else Z.of_N (code c) - 55.

(** The value of a string of digits in [base], most significant first. *)
Fixpoint digits_value (base acc : Z) (s : string) : Z :=
  match s with "" => acc | String c s' => digits_value base (acc * base + digit_value c) s' end.

Definition hex_digit (n : Z) : ascii :=
  if (n <? 10)%Z then ascii_of_N (Z.to_N (48 + n)) else ascii_of_N (Z.to_N (87 + n)).

(** ** Lemmas *)

Lemma replace_from_absent old new s : str_contains old s = false → replace_from old new 0 s = s.
Proof.
  induction s as [|c s IH]; [done|]. cbn [str_contains replace_from]. intros [Hp Hs]%orb_false_iff.
  by rewrite Hp, IH.
Qed.

Lemma strlen_nonneg s : (0 ≤ strlen s)%Z.
Proof. unfold strlen. lia. Qed.

Lemma string_app_cons c s t : String c s +:+ t = String c (s +:+ t).
Proof. done. Qed.

Lemma string_app_nil s : s +:+ "" = s.
Proof. induction s as [|c s IH]; [done|]. change (String c s +:+ "") with (String c (s +:+ "")). by rewrite IH. Qed.

Lemma prefix_cons c p d s : String.prefix (String c p) (String d s) = Ascii.eqb c d && String.prefix p s.
Proof.
  simpl. destruct (ascii_dec c d) as [->|Hne]; [by rewrite Ascii.eqb_refl|].
  by destruct (Ascii.eqb_spec c d).
Qed.

Lemma str_take_drop n s : str_take n s +:+ str_drop n s = s.
Proof.
  revert s. induction n as [|n IH]; intros [|c s]; simpl; [done..|].
  by rewrite string_app_cons, IH.
Qed.

Lemma str_take_all n s : (String.length s ≤ n)%nat → str_take n s = s.
Proof.
  revert s. induction n as [|n IH]; intros [|c s]; simpl; try done; [lia|].
  intros. rewrite IH by lia. done.
Qed.

Lemma str_take_length n s : String.length (str_take n s) = (n `min` String.length s)%nat.
Proof. revert s. induction n as [|n IH]; intros [|c s]; simpl; [done..|]. by rewrite IH. Qed.

Lemma str_drop_length n s : String.length (str_drop n s) = (String.length s - n)%nat.
Proof. revert s. induction n as [|n IH]; intros [|c s]; simpl; [done..|]. by rewrite IH. Qed.

Lemma string_length_app s t : String.length (s +:+ t) = (String.length s + String.length t)%nat.
Proof. induction s as [|c s IH]; [done|]. rewrite string_app_cons. simpl. by rewrite IH. Qed.

Lemma string_app_assoc s t u : (s +:+ t) +:+ u = s +:+ (t +:+ u).
Proof. induction s as [|c s IH]; [done|]. by rewrite !string_app_cons, IH. Qed.

Lemma str_forall_app P s t : str_forall P (s +:+ t) = str_forall P s && str_forall P t.
Proof.
  induction s as [|c s IH]; [done|]. rewrite string_app_cons. simpl. by rewrite IH, andb_assoc.
Qed.

Lemma str_mem_app c s t : str_mem c (s +:+ t) = str_mem c s || str_mem c t.
Proof. unfold str_mem. by rewrite str_forall_app, negb_andb. Qed.

Lemma str_mem_cons c d s : str_mem c (String d s) = Ascii.eqb c d || str_mem c s.
Proof. unfold str_mem. simpl. by rewrite negb_andb, negb_involutive. Qed.

(** What the searches answer, as equations between texts *)
Lemma startswith_app s t : str_startswith s t = true ↔ ∃ rest, s = t +:+ rest.
Proof.
  unfold str_startswith. revert s. induction t as [|c t IH]; intros s.
  - destruct s; (split; [intros _; by eexists|done]).
  - destruct s as [|d s]; [split; [done|by intros []]|]. cbn [String.prefix]. destruct (ascii_dec c d) as [->|Hne].
    + rewrite IH. split; intros [rest Hr]; exists rest; [by rewrite Hr|by injection Hr].
    + split; [done|]. intros [rest [= ? _]]. congruence.
Qed.

Lemma contains_app needle s : str_contains needle s = true ↔ ∃ before after, s = before +:+ needle +:+ after.
Proof.
  assert (Hhere : ∀ s, String.prefix needle s = true ↔ ∃ after, s = needle +:+ after) by (intros s'; apply startswith_app).
  induction s as [|c s IH]; cbn [str_contains]; rewrite orb_true_iff, Hhere.
  - split; [intros [[after Ha]|]; [by exists "", after|done]|]. intros (before & after & Hs). left. exists after.
    by destruct before.
  - rewrite IH. split.
    + intros [[after Ha]|(before & after & ->)]; [by exists "", after|by exists (String c before), after].
    + intros ([|d before] & after & Hs); [left; by exists after|]. right. exists before, after. by injection Hs.
Qed.

Lemma partition_before sep s : ∃ rest, s = (str_partition sep s).1.1 +:+ rest.
Proof.
  induction s as [|c s [rest IH]]; [by exists ""|]. cbn [str_partition]. destruct (Ascii.eqb c sep); [by exists (String c s)|].
  destruct (str_partition sep s) as [[a f] b]. cbn [fst] in *. exists rest. exact (f_equal (String c) IH).
Qed.

Lemma str_split_single sep w : str_mem sep w = false → str_split sep w = [w].
Proof.
  induction w as [|c w IH]; [done|]. rewrite str_mem_cons. intros [Hc Hw]%orb_false_iff.
  cbn [str_split]. rewrite Ascii.eqb_sym, Hc. by rewrite IH.
Qed.

Lemma split_mem c sep s : c ≠ sep → str_mem c s = existsb (str_mem c) (str_split sep s).
Proof.
  intros Hc. induction s as [|d s IH]; [done|]. rewrite str_mem_cons, IH. cbn [str_split].
  destruct (Ascii.eqb_spec d sep) as [->|_].
  - by destruct (Ascii.eqb_spec c sep).
  - destruct (str_split sep s) as [|w ws]; cbn [existsb]; rewrite str_mem_cons; [by rewrite !orb_false_r|apply orb_assoc].
Qed.

(** A separator that occurs in neither prefix cuts a text in one way only. *)
Lemma str_cut_unique sep a b s t :
  str_mem sep a = false → str_mem sep b = false →
  a +:+ String sep s = b +:+ String sep t → a = b ∧ s = t.
Proof.
  revert b. induction a as [|c a IH]; intros [|d b];
    rewrite ?string_app_cons, ?str_mem_cons; change ("" +:+ ?x) with x.
  - intros _ _ [= ->]. done.
  - intros _ Hb [= <- _]. by rewrite Ascii.eqb_refl in Hb.
  - intros Ha _ [= -> _]. by rewrite Ascii.eqb_refl in Ha.
  - intros [_ Ha]%orb_false_iff [_ Hb]%orb_false_iff [= -> Heq].
    by destruct (IH b Ha Hb Heq) as [-> ->].
Qed.

(** Joining with a one-character separator no part contains is injective on
    lists of the same length. *)
Lemma str_join_inj sep l1 l2 :
  length l1 = length l2 →
  Forall (λ p, str_mem sep p = false) l1 → Forall (λ p, str_mem sep p = false) l2 →
  str_join (String sep "") l1 = str_join (String sep "") l2 → l1 = l2.
Proof.
  revert l2. induction l1 as [|p l1 IH]; intros [|q l2]; try done.
  intros [= Hlen] [Hp H1]%Forall_cons [Hq H2]%Forall_cons.
  destruct l1 as [|p' l1], l2 as [|q' l2]; try done.
  - simpl. by intros ->.
  - intros Heq. destruct (str_cut_unique sep p q
      (str_join (String sep "") (p' :: l1)) (str_join (String sep "") (q' :: l2)) Hp Hq Heq)
      as [-> Hrest].
    f_equal. by apply IH.
Qed.

Local Close Scope string_scope.

(** A property of all characters, checked by enumeration. *)
Definition all_chars : list ascii := ascii_of_nat <$> seq 0 256.

Lemma all_chars_complete c : In c all_chars.
Proof.
  apply in_map_iff. exists (nat_of_ascii c). split; [apply ascii_nat_embedding|].
  apply in_seq. pose proof (nat_ascii_bounded c). lia.
Qed.

Lemma all_chars_forall (P : ascii → bool) : forallb P all_chars = true → ∀ c, P c = true.
Proof. rewrite forallb_forall. intros Hall c. apply Hall, all_chars_complete. Qed.

(** UTF-8 is a prefix code: the first byte tells the length. *)
Lemma utf8_char_cut c d l l' : utf8_char c ++ l = utf8_char d ++ l' → c = d ∧ l = l'.
Proof.
  assert (Hall : ∀ c d, implb (bool_decide (head (utf8_char c) = head (utf8_char d)))
                    (bool_decide (length (utf8_char c) = length (utf8_char d)))
                  && implb (bool_decide (utf8_char c = utf8_char d)) (Ascii.eqb c d) = true).
  { intros c0. apply all_chars_forall. revert c0. apply (all_chars_forall (λ c0, forallb _ _)).
    vm_compute. reflexivity. }
  assert (Hne : ∀ c, utf8_char c ≠ []) by (intros c0; unfold utf8_char; by destruct (_ <? _)%Z).
  intros Heq. specialize (Hall c d). apply andb_true_iff in Hall as [Hl He].
  assert (head (utf8_char c) = head (utf8_char d)) as Hhd.
  { apply (f_equal head) in Heq. specialize (Hne c) as Hc. specialize (Hne d) as Hd.
    by destruct (utf8_char c), (utf8_char d). }
  rewrite (bool_decide_true _ Hhd) in Hl. simpl in Hl. apply bool_decide_eq_true in Hl.
  apply app_inj_1 in Heq as [Hcd ->]; [|done].
  rewrite (bool_decide_true _ Hcd) in He. simpl in He. by apply Ascii.eqb_eq in He.
Qed.

Lemma utf8_encode_inj s t : utf8_encode s = utf8_encode t → s = t.
Proof.
  revert t. induction s as [|c s IH]; intros [|d t]; simpl; [done| | |].
  - unfold utf8_char. by destruct (_ <? _)%Z.
  - unfold utf8_char. by destruct (_ <? _)%Z.
  - intros [-> Hst]%utf8_char_cut. by rewrite (IH t).
Qed.

(** *** Decimal text *)

Lemma N_div10_pow x k : (x < 10 ^ N.of_nat (S k) → x `div` 10 < 10 ^ N.of_nat k)%N.
Proof. intros Hx. apply N.Div0.div_lt_upper_bound. rewrite Nat2N.inj_succ, N.pow_succ_r' in Hx. lia. Qed.

Lemma pretty_N_length k x s :
  (x < 10 ^ N.of_nat k)%N → (String.length (pretty_N_go x s) ≤ k + String.length s)%nat.
Proof.
  revert x s. induction k as [|k IH]; intros x s Hx.
  - assert (x = 0%N) as -> by (simpl in Hx; lia). by rewrite pretty_N_go_0.
  - destruct (decide (x = 0%N)) as [->|Hne]; [rewrite pretty_N_go_0; lia|].
    rewrite pretty_N_go_step by lia. etrans; [by apply IH, N_div10_pow|simpl; lia].
Qed.

Lemma pretty_N_nonempty k x s : (x < 10 ^ N.of_nat k)%N → s ≠ "" → pretty_N_go x s ≠ "".
Proof.
  revert x s. induction k as [|k IH]; intros x s Hx Hs.
  - assert (x = 0%N) as -> by (simpl in Hx; lia). by rewrite pretty_N_go_0.
  - destruct (decide (x = 0%N)) as [->|Hne]; [by rewrite pretty_N_go_0|].
    rewrite pretty_N_go_step by lia. apply IH; [by apply N_div10_pow|done].
Qed.

Lemma str_of_int_length k n :
  (1 ≤ k)%nat → (0 ≤ n < 10 ^ Z.of_nat k)%Z → (1 ≤ strlen (str_of_int n) ≤ Z.of_nat k)%Z.
Proof.
  intros Hk Hn. unfold strlen, str_of_int. destruct n as [|p|p]; [simpl; lia| |lia].
  change (pretty (Z.pos p)) with (pretty (N.pos p)). unfold pretty, pretty_N.
  rewrite decide_False by done.
  assert (Hp : (N.pos p < 10 ^ N.of_nat k)%N).
  { apply N2Z.inj_lt. rewrite N2Z.inj_pow, nat_N_Z. simpl. lia. }
  pose proof (pretty_N_length k (N.pos p) "" Hp) as Hle. split; [|simpl in *; lia].
  destruct (pretty_N_go (N.pos p) "") as [|c s] eqn:Hs; [|simpl; lia].
  rewrite pretty_N_go_step in Hs by lia. exfalso. revert Hs.
  apply (pretty_N_nonempty k); [|done]. destruct k as [|k]; [lia|].
  apply N_div10_pow in Hp. rewrite Nat2N.inj_succ, N.pow_succ_r'. lia.
Qed.

Lemma pretty_go_digits x s :
  str_forall is_digit s = true → str_forall is_digit (pretty_N_go x s) = true.
Proof.
  revert s. induction (N.lt_wf_0 x) as [x _ IH]. intros s Hs.
  destruct (decide (0 < x)%N) as [Hx|Hx].
  - rewrite pretty_N_go_step by done. apply IH; [apply N.div_lt; lia|]. cbn [str_forall].
    rewrite Hs, andb_true_r. assert (x `mod` 10 < 10)%N as Hm by (apply N.mod_lt; lia).
    revert Hm. generalize (x `mod` 10)%N. intros d Hd.
    assert (d = 0 ∨ d = 1 ∨ d = 2 ∨ d = 3 ∨ d = 4 ∨ d = 5 ∨ d = 6 ∨ d = 7 ∨ d = 8 ∨ d = 9)%N as Hcases by lia.
    by repeat destruct Hcases as [->|Hcases]; [..|subst d].
  - assert (x = 0%N) as -> by lia. by rewrite pretty_N_go_0.
Qed.

Lemma str_of_int_digits n : (0 ≤ n)%Z → str_forall is_digit (str_of_int n) = true.
Proof.
  intros Hn. unfold str_of_int. destruct n as [|p|p]; [done| |lia].
  change (pretty (Z.pos p)) with (pretty (N.pos p)). unfold pretty, pretty_N.
  rewrite decide_False by done. by apply pretty_go_digits.
Qed.
