(* ===== verification/Logs.v ===== *)
(** * What reaches the log ([logging.py])

    The two processors every record passes before it is rendered: control
    characters are replaced, the values of sensitive keys redacted.  Rendering
    and the other processors are structlog's. *)

From S2P Require Import Prelude PyText.
Local Open Scope string_scope.

(** A key of a mapping: a string or something else, and a value: a string, a
    mapping, a list, a tuple or something else. *)
Inductive log_key := KeyStr (s : string) | KeyOther (n : Z).
#[warnings="-register-all"]
Inductive log_value :=
  | LStr (s : string)
  | LMap (items : list (log_key * log_value))
  | LList (items : list log_value)
  | LTuple (items : list log_value)
  | LOther (n : Z).

Abbreviation event_dict := (list (log_key * log_value)).

#[export] Instance log_key_eq_dec : EqDecision log_key.
Proof. solve_decision. Defined.

(** ** Operations *)

Definition SENSITIVE_KEY_PATTERNS : list string := [
  "password"; "passwd"; "secret"; "token"; "api_key"; "apikey"; "authorization"; "auth_header"; "cookie";
  "session"; "credential"; "private_key"; "hmac"; "smtp_pass"].

Definition REDACTED_PLACEHOLDER : string := "***REDACTED***".

(** [_CONTROL_CHARS_RE] *)
Definition is_log_control (c : ascii) : bool := in_range 0 8 c || in_range 11 31 c || (code c =? 127)%N.

(** [_CONTROL_CHARS_RE.sub("?", value)] *)
Fixpoint strip_controls (s : string) : string :=
  match s with
  | "" => ""
  | String c s' => String (if is_log_control c then "?"%char else c) (strip_controls s')
  end.

(** [_is_sensitive] *)
Definition is_sensitive (k : log_key) : bool :=
  match k with
  | KeyStr s => existsb (λ pattern, str_contains pattern (str_lower s)) SENSITIVE_KEY_PATTERNS
  | KeyOther _ => false
  end.

(** [_redact_value] *)
Fixpoint redact_value (v : log_value) : log_value :=
  match v with
  | LMap items => LMap (map (λ '(k, v), (k, if is_sensitive k then LStr REDACTED_PLACEHOLDER else redact_value v)) items)
  | LList items => LList (map redact_value items)
  | LTuple items => LTuple (map redact_value items)
  | _ => v
  end.

(** [_strip_value] *)
Fixpoint strip_value (v : log_value) : log_value :=
  match v with
  | LStr s => LStr (strip_controls s)
  | LMap items => LMap (map (λ '(k, v), (k, strip_value v)) items)
  | LList items => LList (map strip_value items)
  | LTuple items => LTuple (map strip_value items)
  | LOther _ => v
  end.

(** [redact_sensitive_processor] and [strip_control_chars_processor] *)
Definition redact_sensitive_processor (d : event_dict) : event_dict :=
  map (λ '(k, v), (k, if is_sensitive k then LStr REDACTED_PLACEHOLDER else redact_value v)) d.

Definition strip_control_chars_processor (d : event_dict) : event_dict := map (λ '(k, v), (k, strip_value v)) d.

(** [_shared_processors], from the stripping on *)
Definition shared_processors (d : event_dict) : event_dict :=
  redact_sensitive_processor (strip_control_chars_processor d).

(** ** What a renderer may get *)

(** The characters that forge log lines and drive terminals: every ASCII control
    character but tab and newline, which the program keeps. *)
Definition harmful (c : ascii) : Prop := ((code c < 32)%N ∧ code c ≠ 9%N ∧ code c ≠ 10%N) ∨ code c = 127%N.

Definition harmless (s : string) : Prop := Forall (λ c, ¬ harmful c) (String.list_ascii_of_string s).

(** A character as it may be shown *)
Inductive shown_char (c : ascii) : ascii → Prop :=
  | shown_replaced : harmful c → shown_char c "?"
  | shown_kept : ¬ harmful c → shown_char c c.

Definition shown_text (s s' : string) : Prop :=
  Forall2 shown_char (String.list_ascii_of_string s) (String.list_ascii_of_string s').

(** Two characters that differ in case at most *)
Definition same_letter (c d : ascii) : Prop :=
  c = d ∨ ((65 <= code c <= 90)%N ∧ code d = (code c + 32)%N).

(** A key names a secret when it contains one of these words in any case. *)
Definition secret_words : list string := [
  "password"; "passwd"; "secret"; "token"; "api_key"; "apikey"; "authorization"; "auth_header"; "cookie";
  "session"; "credential"; "private_key"; "hmac"; "smtp_pass"].

Definition secret_key (k : log_key) : Prop :=
  ∃ s before word text after, k = KeyStr s ∧ s = before +:+ text +:+ after ∧ word ∈ secret_words ∧
    Forall2 same_letter (String.list_ascii_of_string text) (String.list_ascii_of_string word).

(** A value and what the renderer may get of it *)
#[warnings="-register-all"]
Inductive shown_value : log_value → log_value → Prop :=
  | shown_str s s' : shown_text s s' → shown_value (LStr s) (LStr s')
  | shown_other n : shown_value (LOther n) (LOther n)
  | shown_list l l' : Forall2 shown_value l l' → shown_value (LList l) (LList l')
  | shown_tuple l l' : Forall2 shown_value l l' → shown_value (LTuple l) (LTuple l')
  | shown_map l l' : Forall2 shown_item l l' → shown_value (LMap l) (LMap l')
with shown_item : log_key * log_value → log_key * log_value → Prop :=
  | shown_secret k v : secret_key k → shown_item (k, v) (k, LStr "***REDACTED***")
  | shown_open k v v' : ¬ secret_key k → shown_value v v' → shown_item (k, v) (k, v').

(** A way down: into a mapping by key, into a list or tuple by position. *)
Inductive log_step := AtKey (k : log_key) | AtIndex (i : nat).

Definition go (step : log_step) (v : log_value) : option log_value :=
  match step, v with
  | AtKey k, LMap items => snd <$> List.find (λ kv, bool_decide (kv.1 = k)) items
  | AtIndex i, (LList items | LTuple items) => items !! i
  | _, _ => None
  end.

Definition walk (path : list log_step) (v : log_value) : option log_value :=
  foldl (λ o step, v ← o; go step v) (Some v) path.

(** ** Lemmas *)

Section induction.
Context (P : log_value → Prop).
Context (HStr : ∀ s, P (LStr s)) (HOther : ∀ n, P (LOther n)).
Context (HMap : ∀ items, Forall (λ kv, P kv.2) items → P (LMap items)).
Context (HList : ∀ items, Forall P items → P (LList items)).
Context (HTuple : ∀ items, Forall P items → P (LTuple items)).

Fixpoint log_value_nested (v : log_value) : P v :=
  match v with
  | LStr s => HStr s
  | LOther n => HOther n
  | LMap items =>
      HMap items ((fix all l := match l return Forall (λ kv, P kv.2) l with
        | [] => List.Forall_nil _ | kv :: l' => Forall_cons_2 _ _ _ (log_value_nested kv.2) (all l') end) items)
  | LList items =>
      HList items ((fix all l := match l return Forall P l with
        | [] => List.Forall_nil _ | x :: l' => Forall_cons_2 _ _ _ (log_value_nested x) (all l') end) items)
  | LTuple items =>
      HTuple items ((fix all l := match l return Forall P l with
        | [] => List.Forall_nil _ | x :: l' => Forall_cons_2 _ _ _ (log_value_nested x) (all l') end) items)
  end.
End induction.

Lemma is_log_control_harmful c : is_log_control c = true ↔ harmful c.
Proof.
  unfold is_log_control, harmful, in_range. rewrite !orb_true_iff, !andb_true_iff, !N.leb_le, N.eqb_eq. lia.
Qed.

Lemma harmful_dec c : harmful c ∨ ¬ harmful c.
Proof. rewrite <-is_log_control_harmful. destruct (is_log_control c); [by left|by right]. Qed.

Lemma strip_controls_shown s : shown_text s (strip_controls s).
Proof.
  unfold shown_text. induction s as [|c s IH]; [constructor|]. cbn [strip_controls String.list_ascii_of_string]. apply Forall2_cons.
  split; [|exact IH]. destruct (is_log_control c) eqn:Hc; constructor; rewrite <-is_log_control_harmful; by rewrite ?Hc.
Qed.

Lemma shown_char_harmless c c' : shown_char c c' → ¬ harmful c'.
Proof. intros [_|Hc]; [|done]. unfold harmful. change (code "?") with 63%N. lia. Qed.

Lemma shown_text_harmless s s' : shown_text s s' → harmless s'.
Proof. intros Hs. eapply Forall2_Forall_r; [exact Hs|]. apply Forall_forall. intros c _ c'. apply shown_char_harmless. Qed.

(** A letter of a pattern is met by itself and its capital. *)
Lemma lower_char_letter c d :
  is_lower d || Ascii.eqb d "_" = true → lower_char c = d ↔ same_letter c d.
Proof.
  assert (Hall : ∀ d, forallb (λ c, implb (is_lower d || Ascii.eqb d "_")
    (Bool.eqb (Ascii.eqb (lower_char c) d)
       (Ascii.eqb c d || ((65 <=? code c)%N && (code c <=? 90)%N && (code d =? code c + 32)%N)))) all_chars = true).
  { apply all_chars_forall. vm_compute. reflexivity. }
  intros Hd. pose proof (all_chars_forall _ (Hall d) c) as Hc. cbv beta in Hc. rewrite Hd in Hc.
  apply eqb_prop in Hc. unfold same_letter. rewrite <-(Ascii.eqb_eq (lower_char c) d), Hc, orb_true_iff, Ascii.eqb_eq.
  by rewrite !andb_true_iff, !N.leb_le, N.eqb_eq.
Qed.

Lemma lower_word s word :
  str_forall (λ d, is_lower d || Ascii.eqb d "_") word = true →
  str_lower s = word ↔ Forall2 same_letter (String.list_ascii_of_string s) (String.list_ascii_of_string word).
Proof.
  revert word. induction s as [|c s IH]; intros [|d word]; cbn [str_lower str_forall String.list_ascii_of_string].
  - by split; [constructor|].
  - intros _. split; [done|]. by intros ?%Forall2_nil_inv_l.
  - intros _. split; [done|]. by intros ?%Forall2_nil_inv_r.
  - intros [Hd Hw]%andb_true_iff. rewrite Forall2_cons, <-IH, <-lower_char_letter by done. split; [by intros [= -> ->]|by intros [-> ->]].
Qed.

Lemma lower_app_inv s t u : str_lower s = t +:+ u → ∃ a b, s = a +:+ b ∧ str_lower a = t ∧ str_lower b = u.
Proof.
  revert t. induction s as [|c s IH]; intros [|d t] Hs.
  - by exists "", "".
  - done.
  - by exists "", (String c s).
  - cbn [str_lower] in Hs. injection Hs as Hc Hs. destruct (IH t Hs) as (a & b & -> & <- & <-).
    exists (String c a), b. cbn [str_lower]. by rewrite Hc.
Qed.

Lemma lower_app s t : str_lower (s +:+ t) = str_lower s +:+ str_lower t.
Proof. induction s as [|c s IH]; [done|]. rewrite !string_app_cons. cbn [str_lower]. by rewrite IH, string_app_cons. Qed.

Lemma is_sensitive_secret k : is_sensitive k = true ↔ secret_key k.
Proof.
  unfold secret_key. destruct k as [s|n]; cbn [is_sensitive]; [|split; [done|by intros (? & ? & ? & ? & ? & ? & _)]].
  assert (Hwords : ∀ word, word ∈ secret_words → str_forall (λ d, is_lower d || Ascii.eqb d "_") word = true).
  { apply Forall_forall. apply (bool_decide_unpack _). vm_compute. exact I. }
  change SENSITIVE_KEY_PATTERNS with secret_words. rewrite existsb_exists. split.
  - intros (word & Hin%list_elem_of_In & (before & after & Hs)%contains_app).
    apply lower_app_inv in Hs as (a & b & -> & <- & Hb). apply lower_app_inv in Hb as (text & c & -> & Ht & <-).
    exists (a +:+ text +:+ c), a, word, text, c. split_and!; [done|done|done|]. apply lower_word; [by apply Hwords|done].
  - intros (s' & before & word & text & after & [= <-] & -> & Hin & Ht). exists word. split; [by apply list_elem_of_In|].
    apply lower_word in Ht; [|by apply Hwords]. apply contains_app. exists (str_lower before), (str_lower after).
    by rewrite !lower_app, Ht.
Qed.

Lemma is_sensitive_open k : is_sensitive k = false ↔ ¬ secret_key k.
Proof. rewrite <-is_sensitive_secret. by destruct (is_sensitive k). Qed.

(** The two processors as one pass *)
Definition sanitized (v : log_value) : log_value := redact_value (strip_value v).

Lemma sanitized_items items :
  map (λ '(k, v), (k, if is_sensitive k then LStr REDACTED_PLACEHOLDER else redact_value v))
    (map (λ '(k, v), (k, strip_value v)) items)
  = map (λ '(k, v), (k, if is_sensitive k then LStr REDACTED_PLACEHOLDER else sanitized v)) items.
Proof. induction items as [|[k v] items IH]; [done|]. simpl. by rewrite IH. Qed.

Lemma sanitized_list items : map redact_value (map strip_value items) = map sanitized items.
Proof. induction items as [|v items IH]; [done|]. simpl. by rewrite IH. Qed.

Lemma sanitized_map items : sanitized (LMap items) = LMap (shared_processors items).
Proof. done. Qed.

Lemma Forall2_map_self {A} (R : A → A → Prop) (f : A → A) l :
  Forall (λ x, R x (f x)) l → Forall2 R l (map f l).
Proof. induction 1; simpl; by constructor. Qed.

Lemma sanitized_shown v : shown_value v (sanitized v).
Proof.
  induction v as [s|n|items IH|items IH|items IH] using log_value_nested; cbn.
  - constructor. apply strip_controls_shown.
  - constructor.
  - rewrite sanitized_items. constructor. apply Forall2_map_self. eapply Forall_impl; [exact IH|].
    intros [k v] Hv. cbn [snd] in Hv. destruct (is_sensitive k) eqn:Hk.
    + apply shown_secret. by apply is_sensitive_secret.
    + apply shown_open; [by apply is_sensitive_open|done].
  - rewrite sanitized_list. constructor. by apply Forall2_map_self.
  - rewrite sanitized_list. constructor. by apply Forall2_map_self.
Qed.

(** Wherever a way down leads, there is a value as it may be shown, or the
    placeholder that hides everything below. *)
Definition placed (w : log_value) : Prop := w = LStr "***REDACTED***" ∨ ∃ v, shown_value v w.

Lemma go_placed step w w' : placed w → go step w = Some w' →
  placed w' ∧ ∀ k, step = AtKey k → secret_key k → w' = LStr "***REDACTED***".
Proof.
  intros [->|[v Hv]]; [by destruct step|]. destruct step as [k|i].
  - destruct Hv as [| | | |l l' Hl]; try done. cbn. induction Hl as [|kv kv' l l' Hkv _ IH]; [done|].
    cbn. destruct Hkv as [k' u Hk|k' u u' Hk Hu]; case_bool_decide as Heq; cbn in Heq; try (by apply IH); subst k'; intros [= <-].
    + split; [by left|done].
    + split; [right; by exists u|]. by intros ? [= <-] ?.
  - destruct Hv as [| |l l' Hl|l l' Hl|]; try done; cbn; intros Hw; (split; [|done]); right;
      by apply (Forall2_lookup_r _ _ _ _ _ Hl) in Hw as (u & _ & Hu); exists u.
Qed.

Lemma walk_snoc path step v : walk (path ++ [step]) v = w ← walk path v; go step w.
Proof. unfold walk. by rewrite foldl_app. Qed.

Lemma walk_placed path v w : placed v → walk path v = Some w → placed w.
Proof.
  revert w. induction path as [|step path IH] using rev_ind; intros w Hv; [by intros [= <-]|].
  rewrite walk_snoc. intros (u & Hu & Hw)%bind_Some. by apply (go_placed step u w (IH u Hv Hu)).
Qed.

(** ** Properties *)


(** Keys are passed on as they are: a control character in one reaches the
    renderer. *)
Example keys_keep_controls :
  let key := ("a" +:+ String (ascii_of_nat 13) "b")%string in
  shared_processors [(KeyStr "meta", LMap [(KeyStr key, LStr key)])]
  = [(KeyStr "meta", LMap [(KeyStr key, LStr "a?b")])].
Proof. vm_compute. reflexivity. Qed.

Example redacted :
  shared_processors [(KeyStr "user", LStr "alice"); (KeyStr "Auth_Header", LList [LStr "x"]);
    (KeyStr "ctx", LTuple [LMap [(KeyStr "db_PASSWORD", LOther 1); (KeyOther 5, LStr "k")]])]
  = [(KeyStr "user", LStr "alice"); (KeyStr "Auth_Header", LStr REDACTED_PLACEHOLDER);
     (KeyStr "ctx", LTuple [LMap [(KeyStr "db_PASSWORD", LStr REDACTED_PLACEHOLDER); (KeyOther 5, LStr "k")]])].
Proof. vm_compute. reflexivity. Qed.
