(* ===== verification/Sha256.v ===== *)
(** * SHA-256 ([hashlib.sha256])

    The standard library's digest, executable, on lists of bytes: [Event.compute_id]
    and the integrity collector name content by it,
    and the webhook sink signs with the HMAC built on it.  Words are integers below
    2^32 with the wrap-around written out. *)

From S2P Require Import Prelude PyText.
Local Open Scope Z_scope.

Definition MASK : Z := 2 ^ 32.
Definition add32 (a b : Z) : Z := (a + b) mod MASK.
Definition rotr (n x : Z) : Z :=
  Z.lor (Z.shiftr x n) ((Z.shiftl x (32 - n)) mod MASK).
Definition not32 (x : Z) : Z := MASK - 1 - x.

Definition Ch (x y z : Z) : Z := Z.lxor (Z.land x y) (Z.land (not32 x) z).
Definition Maj (x y z : Z) : Z := Z.lxor (Z.lxor (Z.land x y) (Z.land x z)) (Z.land y z).
Definition Sigma0 (x : Z) : Z := Z.lxor (Z.lxor (rotr 2 x) (rotr 13 x)) (rotr 22 x).
Definition Sigma1 (x : Z) : Z := Z.lxor (Z.lxor (rotr 6 x) (rotr 11 x)) (rotr 25 x).
Definition sigma0 (x : Z) : Z := Z.lxor (Z.lxor (rotr 7 x) (rotr 18 x)) (Z.shiftr x 3).
Definition sigma1 (x : Z) : Z := Z.lxor (Z.lxor (rotr 17 x) (rotr 19 x)) (Z.shiftr x 10).

(** The constants: the first 32 bits of the fractional parts of the cube and
    square roots of the first primes. *)
Definition divides_none (ps : list Z) (n : Z) : bool := forallb (λ p, negb (n mod p =? 0)) ps.

Fixpoint primes_from (fuel : nat) (n : Z) (ps : list Z) : list Z :=
  match fuel with
  | O => ps
  | S fuel' => primes_from fuel' (n + 1) (if divides_none ps n then ps ++ [n] else ps)
  end.

(** The integer cube root, one binary digit at a time. *)
Fixpoint cube_root (digits : nat) (n root : Z) : Z :=
  match digits with
  | O => root
  | S digits' =>
      let candidate := root + 2 ^ Z.of_nat digits' in
      cube_root digits' n (if candidate ^ 3 <=? n then candidate else root)
  end.

Definition primes : list Z := Eval vm_compute in primes_from 310 2 [].

Definition round_constants : list Z :=
  Eval vm_compute in map (λ p, cube_root 36 (p * 2 ^ 96) 0 mod MASK) primes.

Definition initial_hash : list Z :=
  Eval vm_compute in map (λ p, Z.sqrt (p * 2 ^ 64) mod MASK) (take 8 primes).

Example constant_counts : length round_constants = 64%nat ∧ length initial_hash = 8%nat.
Proof. by split. Qed.

(** Padding: a one bit, zeros, the length in bits on 64 bits. *)
Fixpoint be_bytes (n : nat) (x : Z) : list Z :=
  match n with
  | O => []
  | S n' => Z.land (Z.shiftr x (8 * Z.of_nat n')) 255 :: be_bytes n' x
  end.

Definition pad (msg : list Z) : list Z :=
  let zeros := Z.to_nat ((55 - len msg) mod 64) in
  msg ++ 128 :: replicate zeros 0 ++ be_bytes 8 (8 * len msg).

Fixpoint words (bytes : list Z) : list Z :=
  match bytes with
  | a :: b :: c :: d :: bytes' =>
      Z.lor (Z.lor (Z.shiftl a 24) (Z.shiftl b 16)) (Z.lor (Z.shiftl c 8) d) :: words bytes'
  | _ => []
  end.

(** The message schedule, newest word first. *)
Definition word_at (i : nat) (w : list Z) : Z := nth (i - 1) w 0.

Fixpoint extend (n : nat) (w : list Z) : list Z :=
  match n with
  | O => w
  | S n' =>
      extend n' (add32 (add32 (sigma1 (word_at 2 w)) (word_at 7 w))
                   (add32 (sigma0 (word_at 15 w)) (word_at 16 w)) :: w)
  end.

Definition round (h : list Z) (kw : Z * Z) : list Z :=
  match h with
  | [a; b; c; d; e; f; g; h0] =>
      let t1 := add32 (add32 (add32 h0 (Sigma1 e)) (Ch e f g)) (add32 kw.1 kw.2) in
      let t2 := add32 (Sigma0 a) (Maj a b c) in
      [add32 t1 t2; a; b; c; add32 d t1; e; f; g]
  | _ => h
  end.

Definition compress (h block : list Z) : list Z :=
  let w := rev (extend 48 (rev (words block))) in
  zip_with add32 h (foldl round h (zip round_constants w)).

Fixpoint blocks (fuel : nat) (bytes : list Z) : list (list Z) :=
  match fuel, bytes with
  | S fuel', _ :: _ => take 64 bytes :: blocks fuel' (drop 64 bytes)
  | _, _ => []
  end.

(** The padded message has [length / 64] blocks, so its length is fuel enough. *)
Definition sha256 (msg : list Z) : list Z :=
  let padded := pad msg in
  foldl compress initial_hash (blocks (length padded) padded).

(** [.hexdigest()] *)
Fixpoint hex_word (n : nat) (x : Z) : string :=
  match n with
  | O => ""
  | S n' => String (hex_digit (Z.land (Z.shiftr x (4 * Z.of_nat n')) 15)) (hex_word n' x)
  end.

Fixpoint hex_words (ws : list Z) : string :=
  match ws with [] => "" | w :: ws' => hex_word 8 w +:+ hex_words ws' end.

Definition sha256_hexdigest (msg : list Z) : string := hex_words (sha256 msg).

(** [.digest()] *)
Definition sha256_digest (msg : list Z) : list Z := flat_map (be_bytes 4) (sha256 msg).

(** [hmac.new(key, msg, sha256).hexdigest()] *)
Definition hmac_block (key : list Z) (with_byte : Z) : list Z :=
  let key := if (64 <? length key)%nat then sha256_digest key else key in
  map (Z.lxor with_byte) (key ++ repeat 0 (64 - length key)).

Definition hmac_sha256_hexdigest (key msg : list Z) : string :=
  sha256_hexdigest (hmac_block key 92 ++ sha256_digest (hmac_block key 54 ++ msg)).

Example hmac_rfc4231 :
  hmac_sha256_hexdigest (utf8_encode "Jefe") (utf8_encode "what do ya want for nothing?")
  = "5bdcc146bf60754e6a042426089575c75a003f089d2739839dec58b964ec3843".
Proof. vm_compute. reflexivity. Qed.

Example sha256_abc :
  sha256_hexdigest (utf8_encode "abc")
  = "ba7816bf8f01cfea414140de5dae2223b00361a396177a9cb410ff61f20015ad".
Proof. vm_compute. reflexivity. Qed.

Example sha256_two_blocks :
  sha256_hexdigest (utf8_encode "abcdbcdecdefdefgefghfghighijhijkijkljklmklmnlmnomnopnopq")
  = "248d6a61d20638b8e5c026930c3e6039a33ce45964ff2167f6ecedd419db06c1".
Proof. vm_compute. reflexivity. Qed.

(** ** The shape of a digest *)

Lemma round_length h kw : length h = 8%nat → length (round h kw) = 8%nat.
Proof. do 9 (destruct h as [|? h]; try done). Qed.

Lemma compress_length h b : length h = 8%nat → length (compress h b) = 8%nat.
Proof.
  intros Hh. unfold compress. rewrite length_zip_with.
  assert (∀ l, length (foldl round h l) = 8%nat) as Hr; [|rewrite Hr; lia].
  intros l. revert h Hh. induction l as [|kw l IH]; intros h Hh; simpl; [done|].
  by apply IH, round_length.
Qed.

Lemma sha256_length msg : length (sha256 msg) = 8%nat.
Proof.
  unfold sha256. generalize (blocks (length (pad msg)) (pad msg)). intros bs.
  assert (length initial_hash = 8%nat) as Hi by done. revert Hi. generalize initial_hash.
  induction bs as [|b bs IH]; intros h Hh; simpl; [done|]. by apply IH, compress_length.
Qed.

Lemma hex_digit_lower n : 0 ≤ n < 16 → is_hex_lower (hex_digit n) = true.
Proof.
  intros Hn. assert (∃ k, (k < 16)%nat ∧ n = Z.of_nat k) as (k & Hk & ->)
    by (exists (Z.to_nat n); lia).
  do 16 (destruct k as [|k]; [reflexivity|]). lia.
Qed.

Lemma hex_word_shape n x :
  String.length (hex_word n x) = n ∧ str_forall is_hex_lower (hex_word n x) = true.
Proof.
  induction n as [|n [IHl IHf]]; simpl; [done|]. rewrite IHl, IHf. split; [done|].
  rewrite hex_digit_lower; [done|]. change 15 with (Z.ones 4).
  rewrite Z.land_ones by lia. apply Z.mod_pos_bound. lia.
Qed.

Lemma hex_words_shape ws :
  String.length (hex_words ws) = (8 * length ws)%nat
  ∧ str_forall is_hex_lower (hex_words ws) = true.
Proof.
  induction ws as [|w ws [IHl IHf]]; [done|].
  change (hex_words (w :: ws)) with (hex_word 8 w +:+ hex_words ws).
  rewrite string_length_app, str_forall_app, IHl, IHf.
  destruct (hex_word_shape 8 w) as [Hwl Hwf]. rewrite Hwl, Hwf. split; [simpl; lia|done].
Qed.

Lemma sha256_hexdigest_shape msg :
  String.length (sha256_hexdigest msg) = 64%nat
  ∧ str_forall is_hex_lower (sha256_hexdigest msg) = true.
Proof.
  unfold sha256_hexdigest. destruct (hex_words_shape (sha256 msg)) as [Hl Hf].
  by rewrite Hl, sha256_length.
Qed.
