(* ===== verification/IpAddress.v ===== *)
(** * IP addresses ([ipaddress] of the standard library)

    Parsing and rendering of IPv4 and IPv6 addresses as the library does them
    (strict octets, one [::], an embedded IPv4 tail, a scope id), the
    IPv4-mapped form and the network of an address.  An IPv4-mapped IPv6
    address is rendered in dotted form, as Python 3.13 does. *)

From S2P Require Import Prelude PyText.
Local Open Scope string_scope.
Local Open Scope Z_scope.

Inductive ip :=
  | IPv4 (n : Z)
  | IPv6 (n : Z) (scope : option string).

#[export] Instance ip_eq_dec : EqDecision ip.
Proof. solve_decision. Defined.

(** ** IPv4 *)

Definition parse_octet (s : string) : option Z :=
  if (strlen s =? 0) || negb (str_forall is_digit s) || (3 <? strlen s)
       || (negb (String.eqb s "0") && str_startswith s "0")
  then None
  else let n := digits_value 10 0 s in if 255 <? n then None else Some n.

Definition parse_ipv4 (s : string) : option Z :=
  match str_split "." s with
  | [a; b; c; d] =>
      a ← parse_octet a; b ← parse_octet b; c ← parse_octet c; d ← parse_octet d;
      Some (((a * 256 + b) * 256 + c) * 256 + d)
  | _ => None
  end.

Definition ipv4_str (n : Z) : string :=
  str_join "." (map (λ i, str_of_int (Z.land (Z.shiftr n (8 * i)) 255)) [3; 2; 1; 0]).

(** ** IPv6 *)

Definition parse_hextet (s : string) : option Z :=
  if negb (str_forall is_hex s) || (4 <? strlen s) || (strlen s =? 0) then None
  else Some (digits_value 16 0 s).

Fixpoint parse_hextets (acc : Z) (parts : list string) : option Z :=
  match parts with
  | [] => Some acc
  | p :: parts' => h ← parse_hextet p; parse_hextets (Z.lor (Z.shiftl acc 16) h) parts'
  end.

(** ['%x' % n] of a 16-bit number *)
Fixpoint strip_zeros (s : string) : string :=
  match s with
  | String "0" ((String _ _) as s') => strip_zeros s'
  | _ => s
  end.

Definition hex16 (n : Z) : string :=
  strip_zeros (String (hex_digit (Z.land (Z.shiftr n 12) 15))
    (String (hex_digit (Z.land (Z.shiftr n 8) 15))
      (String (hex_digit (Z.land (Z.shiftr n 4) 15)) (String (hex_digit (Z.land n 15)) "")))).

Fixpoint empty_indices (i : nat) (parts : list string) : list nat :=
  match parts with
  | [] => []
  | p :: parts' => if String.eqb p "" then i :: empty_indices (S i) parts' else empty_indices (S i) parts'
  end.

(** The IPv4 tail of an IPv6 address, rewritten as two hextets. *)
Definition expand_tail (parts : list string) : option (list string) :=
  let tail := List.last parts "" in
  if str_mem "." tail then
    n ← parse_ipv4 tail;
    Some (removelast parts ++ [hex16 (Z.land (Z.shiftr n 16) 65535); hex16 (Z.land n 65535)])%list
  else Some parts.

(** [IPv6Address._ip_int_from_string] *)
Definition parse_ipv6_int (s : string) : option Z :=
  let parts := str_split ":" s in
  if (length parts <? 3)%nat then None else
  parts ← expand_tail parts;
  let n := length parts in
  if (9 <? n)%nat then None else
  let first := List.hd "" parts in
  let last := List.last parts "" in
  match filter (λ i, (0 < i < n - 1)%nat) (empty_indices 0 parts) with
  | [] =>
      if negb (n =? 8)%nat || String.eqb first "" || String.eqb last "" then None
      else parse_hextets 0 parts
  | [skip] =>
      let hi := (if String.eqb first "" then skip - 1 else skip)%nat in
      let lo := (if String.eqb last "" then n - skip - 2 else n - skip - 1)%nat in
      if String.eqb first "" && negb (hi =? 0)%nat then None
      else if String.eqb last "" && negb (lo =? 0)%nat then None
      else if (8 <? hi + lo + 1)%nat then None
      else
        top ← parse_hextets 0 (take hi parts);
        parse_hextets (Z.shiftl top (16 * Z.of_nat (8 - (hi + lo)))) (drop (n - lo) parts)
  | _ => None
  end.

(** [_split_scope_id] *)
Definition split_scope (s : string) : option (string * option string) :=
  let '(addr, found, scope) := str_partition "%" s in
  if negb found then Some (addr, None)
  else if String.eqb scope "" || str_mem "%" scope then None
  else Some (addr, Some scope).

Definition parse_ipv6 (s : string) : option ip :=
  if str_mem "/" s then None else
  '(addr, scope) ← split_scope s;
  n ← parse_ipv6_int addr;
  Some (IPv6 n scope).

(** [ipaddress.ip_address] *)
Definition ip_address (s : string) : result ip :=
  match (if str_mem "/" s then None else parse_ipv4 s) with
  | Some n => Ok (IPv4 n)
  | None => match parse_ipv6 s with Some a => Ok a | None => Raise ValueError end
  end.

Definition hextets (n : Z) : list string :=
  map (λ i, hex16 (Z.land (Z.shiftr n (16 * i)) 65535)) [7; 6; 5; 4; 3; 2; 1; 0].

(** The longest run of "0" hextets, the first one among equals: its start and
    length.  [run] is the length of the run that ends before [i]. *)
Fixpoint best_zero_run (i run : nat) (best : nat * nat) (hs : list string) : nat * nat :=
  match hs with
  | [] => best
  | h :: hs' =>
      if String.eqb h "0" then
        let run := S run in
        best_zero_run (S i) run (if (best.2 <? run)%nat then ((S i - run)%nat, run) else best) hs'
      else best_zero_run (S i) 0 best hs'
  end.

(** [_compress_hextets] *)
Definition compress_hextets (hs : list string) : list string :=
  let '(start, n) := best_zero_run 0 0 (0, 0)%nat hs in
  if (1 <? n)%nat then
    let stop := (start + n)%nat in
    ((if (start =? 0)%nat then [""] else []) ++ take start hs ++ [""] ++ drop stop hs
       ++ (if (stop =? length hs)%nat then [""] else []))%list
  else hs.

Definition ipv6_str (n : Z) : string := str_join ":" (compress_hextets (hextets n)).

(** [IPv6Address.ipv4_mapped] *)
Definition ipv4_mapped (n : Z) : option Z :=
  if Z.shiftr n 32 =? 65535 then Some (Z.land n (2 ^ 32 - 1)) else None.

(** [str(address)] *)
Definition ip_str (a : ip) : string :=
  match a with
  | IPv4 n => ipv4_str n
  | IPv6 n scope =>
      match ipv4_mapped n with
      | Some v4 => ipv6_str (Z.shiftr n 32) +:+ ":" +:+ ipv4_str v4
      | None => ipv6_str n
      end +:+ match scope with Some s => "%" +:+ s | None => "" end
  end.

(** [ip_network(f"{address}/{prefix}", strict=False)] of an IPv6 address,
    rendered: the host bits are cleared; the scope survives only when there
    were none. *)
Definition network6 (n : Z) (scope : option string) (prefix : Z) : string :=
  let host := Z.land n (Z.ones (128 - prefix)) in
  let a := if host =? 0 then IPv6 n scope else IPv6 (n - host) None in
  ip_str a +:+ "/" +:+ str_of_int prefix.

Example parse_v6 :
  map ip_address ["2001:db8::1"; "::"; "::ffff:1.2.3.4"; "1::2::3"; "fe80::1%eth0"; ":::"; "1.2.3.04"]
  = [Ok (IPv6 42540766411282592856903984951653826561 None); Ok (IPv6 0 None);
     Ok (IPv6 281470698652420 None); Raise ValueError;
     Ok (IPv6 338288524927261089654018896841347694593 (Some "eth0")); Raise ValueError;
     Raise ValueError].
Proof. vm_compute. reflexivity. Qed.

Example render_v6 :
  map (λ s, match ip_address s with Ok a => ip_str a | Raise _ => "?" end)
    ["2001:0db8:0:0:1:0:0:1"; "0:0:0:0:0:0:0:0"; "1:0:0:0:0:0:0:0"; "10.0.0.255"; "::ffff:1.2.3.4"]
  = ["2001:db8::1:0:0:1"; "::"; "1::"; "10.0.0.255"; "::ffff:1.2.3.4"].
Proof. vm_compute. reflexivity. Qed.
