(* ===== verification/Events.v ===== *)
(** * The event model ([events.py])

    Values ([pyval]) are what the JSON view of an event holds and what rules
    compare with.  The pydantic models are records; their field constraints and
    validators are the boolean [valid_event], which the constructor
    [new_event] enforces.  [model_dump] is [Event.model_dump(mode="json")]; the
    text of a timestamp (pydantic's ISO rendering) is a parameter.
    [Event_model] is the annotation tree of the same models, which rule
    validation walks. *)

From S2P Require Import Prelude ODict PyText Sha256.
From Stdlib Require Export QArith.
Local Open Scope string_scope.
Local Open Scope Z_scope.

(** ** Values *)

(** A [float]: a rational, or one of the special values. *)
Inductive pyfloat := Finite (q : Q) | PosInf | NegInf | NaN.

Inductive scalar :=
  | SBool (b : bool)
  | SInt (z : Z)
  | SFloat (f : pyfloat)
  | SStr (s : string).

#[warnings="-register-all"]
Inductive pyval :=
  | PNone
  | PScalar (s : scalar)
  | PList (l : list pyval)
  | PDict (d : odict string pyval).

(** Numbers compare by value across [bool], [int] and [float]. *)
Definition number (s : scalar) : option pyfloat :=
  match s with
  | SBool b => Some (Finite (inject_Z (if b then 1 else 0)))
  | SInt z => Some (Finite (inject_Z z))
  | SFloat f => Some f
  | SStr _ => None
  end.

Definition float_eq (x y : pyfloat) : bool :=
  match x, y with
  | Finite p, Finite q => Qeq_bool p q
  | PosInf, PosInf | NegInf, NegInf => true
  | _, _ => false
  end.

Definition float_lt (x y : pyfloat) : bool :=
  match x, y with
  | Finite p, Finite q => negb (Qle_bool q p)
  | NegInf, (Finite _ | PosInf) => true
  | Finite _, PosInf => true
  | _, _ => false
  end.

Definition float_le (x y : pyfloat) : bool := float_lt x y || float_eq x y.

Definition scalar_eq (a b : scalar) : bool :=
  match a, b with
  | SStr s, SStr t => String.eqb s t
  | _, _ => match number a, number b with Some x, Some y => float_eq x y | _, _ => false end
  end.

(** [a == b] *)
Fixpoint py_eq (a b : pyval) : bool :=
  match a, b with
  | PNone, PNone => true
  | PScalar s, PScalar t => scalar_eq s t
  | PList l, PList m =>
      (fix go (l m : list pyval) : bool :=
         match l, m with
         | [], [] => true
         | x :: l', y :: m' => py_eq x y && go l' m'
         | _, _ => false
         end) l m
  | PDict d, PDict e =>
      (length d =? length e)%nat &&
      (fix go (d : odict string pyval) : bool :=
         match d with
         | [] => true
         | (k, v) :: d' =>
             match od_get e k with Some w => py_eq v w | None => false end && go d'
         end) d
  | _, _ => false
  end.

(** ** The models *)

Inductive EventKind := EVENT | ALERT | METRIC | STATE | SIGNAL.
Inductive EventCategory :=
  AUTHENTICATION | PROCESS | FILE | NETWORK | INTRUSION_DETECTION | HOST | CONFIGURATION.
Inductive EventOutcome := SUCCESS | FAILURE | UNKNOWN.

Definition kind_value (k : EventKind) : string :=
  match k with
  | EVENT => "event" | ALERT => "alert" | METRIC => "metric" | STATE => "state"
  | SIGNAL => "signal"
  end.

Definition category_value (c : EventCategory) : string :=
  match c with
  | AUTHENTICATION => "authentication" | PROCESS => "process" | FILE => "file"
  | NETWORK => "network" | INTRUSION_DETECTION => "intrusion_detection" | HOST => "host"
  | CONFIGURATION => "configuration"
  end.

Definition outcome_value (o : EventOutcome) : string :=
  match o with SUCCESS => "success" | FAILURE => "failure" | UNKNOWN => "unknown" end.

Record EventMeta := mkEventMeta {
  em_id : string;
  em_kind : EventKind;
  em_category : EventCategory;
  em_action : string;
  em_outcome : EventOutcome;
  em_severity : Z;
}.

Record Host := mkHost { host_name : string }.

(** [Source] and [Destination] have the same fields. *)
Record Peer := mkPeer {
  peer_ip : option string;
  peer_port : option Z;
  peer_user : option string;
}.

Record Process := mkProcess {
  proc_pid : option Z;
  proc_ppid : option Z;
  proc_name : option string;
  proc_executable : option string;
  proc_command_line : option string;
}.

Record FileHash := mkFileHash { fh_sha256 : option string }.

Record File := mkFile {
  file_path : string;
  file_size : option Z;
  file_mode : option string;
  file_hash : FileHash;
}.

(** A [datetime]: an instant, and its UTC offset unless it is naive (then the
    instant is the wall-clock reading). *)
Record datetime := mkDatetime { dt_instant : Z; dt_offset : option Z }.

Record Event := mkEvent {
  ev_timestamp : datetime;
  ev_event : EventMeta;
  ev_host : Host;
  ev_source : Peer;
  ev_destination : Peer;
  ev_process : Process;
  ev_file : option File;
  ev_message : string;
}.

Definition no_peer : Peer := mkPeer None None None.
Definition no_process : Process := mkProcess None None None None None.

(** ** Validation *)

Definition between (lo hi n : Z) : bool := (lo <=? n) && (n <=? hi).
Definition optionally {A} (P : A → bool) (x : option A) : bool :=
  match x with Some a => P a | None => true end.

(** [EventMeta._check_id_format], and [FileHash._check_sha256_format] on a
    present value *)
Definition check_id_format (value : string) : bool :=
  (strlen value =? 64) && str_forall is_hex_lower value.

(** [Event._require_utc] *)
Definition require_utc (t : datetime) : bool :=
  match dt_offset t with Some offset => offset =? 0 | None => false end.

Definition MAX_PID : Z := 2 ^ 31 - 1.

Definition valid_meta (m : EventMeta) : bool :=
  check_id_format (em_id m) && between 1 200 (strlen (em_action m))
    && between 0 7 (em_severity m).

Definition valid_host (h : Host) : bool := between 1 253 (strlen (host_name h)).

Definition valid_peer (p : Peer) : bool := optionally (between 0 65535) (peer_port p).

Definition valid_process (p : Process) : bool :=
  optionally (between 0 MAX_PID) (proc_pid p) && optionally (between 0 MAX_PID) (proc_ppid p)
    && optionally (λ c, strlen c <=? 10000) (proc_command_line p).

Definition valid_hash (h : FileHash) : bool := optionally check_id_format (fh_sha256 h).

Definition valid_file (f : File) : bool :=
  between 1 4096 (strlen (file_path f)) && optionally (λ n, 0 <=? n) (file_size f)
    && valid_hash (file_hash f).

Definition valid_event (e : Event) : bool :=
  require_utc (ev_timestamp e) && valid_meta (ev_event e) && valid_host (ev_host e)
    && valid_peer (ev_source e) && valid_peer (ev_destination e)
    && valid_process (ev_process e) && optionally valid_file (ev_file e)
    && between 1 10000 (strlen (ev_message e)).

(** [Event(...)] *)
Definition new_event (e : Event) : result Event :=
  if valid_event e then Ok e else Raise ValidationError.

(** [Event.dedup_key] *)
Definition dedup_key (e : Event) : string := em_id (ev_event e).

(** ** Event identity *)

(** A part given to [compute_id]. *)
Inductive id_part := PartStr (s : string) | PartInt (n : Z) | PartNone.

(** A string as it is, anything else by its [repr]. *)
Definition part_text (p : id_part) : string :=
  match p with PartStr s => s | PartInt n => str_of_int n | PartNone => "None" end.

Definition UNIT_SEPARATOR : ascii := ascii_of_nat 31.

Definition canonical (parts : list id_part) : string :=
  str_join (String UNIT_SEPARATOR "") (part_text <$> parts).

(** [Event.compute_id] *)
Definition compute_id (parts : list id_part) : string :=
  sha256_hexdigest (utf8_encode (canonical parts)).

(** ** The JSON view *)

Section view.
(** pydantic's rendering of a UTC instant *)
Context (isoformat : Z → string).

Definition dump_str (s : string) : pyval := PScalar (SStr s).
Definition dump_opt_str (s : option string) : pyval :=
  match s with Some s => PScalar (SStr s) | None => PNone end.
Definition dump_opt_int (n : option Z) : pyval :=
  match n with Some n => PScalar (SInt n) | None => PNone end.

Definition dump_meta (m : EventMeta) : pyval := PDict [
  ("id", dump_str (em_id m)); ("kind", dump_str (kind_value (em_kind m)));
  ("category", dump_str (category_value (em_category m)));
  ("action", dump_str (em_action m)); ("outcome", dump_str (outcome_value (em_outcome m)));
  ("severity", PScalar (SInt (em_severity m)))].

Definition dump_peer (p : Peer) : pyval := PDict [
  ("ip", dump_opt_str (peer_ip p)); ("port", dump_opt_int (peer_port p));
  ("user", dump_opt_str (peer_user p))].

Definition dump_process (p : Process) : pyval := PDict [
  ("pid", dump_opt_int (proc_pid p)); ("ppid", dump_opt_int (proc_ppid p));
  ("name", dump_opt_str (proc_name p)); ("executable", dump_opt_str (proc_executable p));
  ("command_line", dump_opt_str (proc_command_line p))].

Definition dump_file (f : File) : pyval := PDict [
  ("path", dump_str (file_path f)); ("size", dump_opt_int (file_size f));
  ("mode", dump_opt_str (file_mode f));
  ("hash", PDict [("sha256", dump_opt_str (fh_sha256 (file_hash f)))])].

(** [event.model_dump(mode="json")] *)
Definition model_dump (e : Event) : pyval := PDict [
  ("timestamp", dump_str (isoformat (dt_instant (ev_timestamp e))));
  ("event", dump_meta (ev_event e));
  ("host", PDict [("name", dump_str (host_name (ev_host e)))]);
  ("source", dump_peer (ev_source e)); ("destination", dump_peer (ev_destination e));
  ("process", dump_process (ev_process e));
  ("file", match ev_file e with Some f => dump_file f | None => PNone end);
  ("message", dump_str (ev_message e))].
End view.

(** ** The annotations of the models *)

#[warnings="-register-all"]
Inductive annotation :=
  | T_text  (** [str], an enumeration of strings, [datetime] *)
  | T_int
  | T_float
  | T_bool
  | T_none
  | T_union (args : list annotation)
  | T_model (fields : list (string * annotation)).

Definition T_opt (a : annotation) : annotation := T_union [a; T_none].

Definition Peer_model : annotation := T_model [
  ("ip", T_opt T_text); ("port", T_opt T_int); ("user", T_opt T_text)].

Definition Event_model : annotation := T_model [
  ("timestamp", T_text);
  ("event", T_model [("id", T_text); ("kind", T_text); ("category", T_text);
     ("action", T_text); ("outcome", T_text); ("severity", T_int)]);
  ("host", T_model [("name", T_text)]);
  ("source", Peer_model); ("destination", Peer_model);
  ("process", T_model [("pid", T_opt T_int); ("ppid", T_opt T_int); ("name", T_opt T_text);
     ("executable", T_opt T_text); ("command_line", T_opt T_text)]);
  ("file", T_opt (T_model [("path", T_text); ("size", T_opt T_int); ("mode", T_opt T_text);
     ("hash", T_model [("sha256", T_opt T_text)])]));
  ("message", T_text)].

(** ** Lemmas *)

Lemma compute_id_format parts : check_id_format (compute_id parts) = true.
Proof.
  unfold check_id_format, compute_id, strlen.
  destruct (sha256_hexdigest_shape (utf8_encode (canonical parts))) as [-> ->]. done.
Qed.

Definition separator_free (p : id_part) : bool :=
  negb (str_mem UNIT_SEPARATOR (part_text p)).

Lemma canonical_inj ps qs :
  length ps = length qs → Forall (λ p, separator_free p = true) ps →
  Forall (λ p, separator_free p = true) qs →
  canonical ps = canonical qs → part_text <$> ps = part_text <$> qs.
Proof.
  intros Hlen Hp Hq. unfold canonical. apply str_join_inj.
  - by rewrite !length_fmap.
  - apply Forall_fmap. eapply Forall_impl; [exact Hp|]. intros p. apply negb_true_iff.
  - apply Forall_fmap. eapply Forall_impl; [exact Hq|]. intros p. apply negb_true_iff.
Qed.

Lemma compute_id_collision ps qs :
  compute_id ps = compute_id qs →
  canonical ps = canonical qs ∨
  ∃ m m', m ≠ m' ∧ sha256_hexdigest m = sha256_hexdigest m'.
Proof.
  unfold compute_id. intros Heq.
  destruct (decide (canonical ps = canonical qs)) as [?|Hne]; [by left|]. right.
  eexists _, _. split; [|exact Heq]. by intros ?%utf8_encode_inj.
Qed.

(** ** Properties *)

(** The id every producer computes passes the schema's format check, and
    two events with the same id have the same content parts unless a part
    contains the unit separator or SHA-256 itself collides. *)
Theorem compute_id_identifies_content ps qs :
  check_id_format (compute_id ps) = true ∧
  (compute_id ps = compute_id qs → length ps = length qs →
   Forall (λ p, separator_free p = true) (ps ++ qs) →
   part_text <$> ps = part_text <$> qs ∨
   ∃ m m', m ≠ m' ∧ sha256_hexdigest m = sha256_hexdigest m').
Proof.
  split; [apply compute_id_format|].
  intros [Hc|?]%compute_id_collision Hlen [Hp Hq]%Forall_app; [left|by right].
  by apply canonical_inj.
Qed.

Lemma compute_id_identifies_content_witness :
  let ps := [PartInt 12; PartStr "a b"; PartNone] in
  Forall (λ p, separator_free p = true) (ps ++ ps) ∧
  (part_text <$> ps = part_text <$> ps ∨
   ∃ m m', m ≠ m' ∧ sha256_hexdigest m = sha256_hexdigest m').
Proof.
  intros ps. assert (Hf : Forall (λ p, separator_free p = true) (ps ++ ps))
    by (repeat constructor).
  split; [exact Hf|]. exact (proj2 (compute_id_identifies_content ps ps) eq_refl eq_refl Hf).
Defined.
