(* ===== verification/PyRe.v ===== *)
(** * Regular expressions of the standard library ([re])

    The patterns the source compiles with [re] are values of [re], matched by
    backtracking in the order Python tries the alternatives: repetitions are
    greedy or lazy, alternatives are tried left to right, named groups are
    captured, [$] also matches before a final newline, and [WordEnd] is [\b]
    after a word character (the source uses no other).  The source anchors
    every pattern at the start of the text ([.match], [.fullmatch]), so there is
    no search.  A repeated expression must consume a character each time, which
    is so for every pattern of the source. *)

From S2P Require Import Prelude ODict PyText.

Inductive re :=
  | Eps
  | Cls (P : ascii → bool)
  | Seq (a b : re)
  | Alt (a b : re)
  | Rep (greedy : bool) (lo : nat) (hi : option nat) (r : re)
  | Group (name : string) (r : re)
  | WordEnd
  | Eol.

Abbreviation captures := (odict string string).

(** [s'] is what remains of [s]; the text consumed between the two. *)
Definition consumed (s s' : string) : string := str_take (String.length s - String.length s') s.

Definition NL : ascii := ascii_of_nat 10.

Definition at_end (s : string) : bool :=
  match s with
  | EmptyString => true
  | String c EmptyString => Ascii.eqb c NL
  | _ => false
  end.

(** The word characters below code point 256 *)
Definition is_word (c : ascii) : bool :=
  is_digit c || is_alpha c || (code c =? 95)%N || (code c =? 170)%N || (code c =? 178)%N
  || (code c =? 179)%N || (code c =? 181)%N || (code c =? 185)%N || (code c =? 186)%N
  || in_range 188 190 c
  || (in_range 192 255 c && negb ((code c =? 215)%N || (code c =? 247)%N)).

Definition word_follows (s : string) : bool :=
  match s with String c _ => is_word c | EmptyString => false end.

Section matcher.
Context {R : Type}.

Abbreviation cont := (string → captures → option R).

(** Repetition of an expression [one_more] matches: [lo] times still due, at most
    [hi] more.  The fuel is the text's length: every repetition consumes. *)
Definition rep_loop (one_more : string → captures → cont → option R) (greedy : bool) (k : cont) :=
  fix rep (fuel lo : nat) (hi : option nat) (s : string) (g : captures) : option R :=
    let one :=
      match fuel, hi with
      | O, _ | _, Some O => None
      | S fuel', _ =>
          one_more s g (λ s' g',
            if (String.length s' <? String.length s)%nat
            then rep fuel' (lo - 1) (hi' ← hi; Some (hi' - 1)) s' g' else None)
      end in
    let stop := match lo with O => k s g | _ => None end in
    if greedy then match one with Some x => Some x | None => stop end
    else match stop with Some x => Some x | None => one end.

Fixpoint run_re (r : re) (s : string) (g : captures) (k : cont) : option R :=
  match r with
  | Eps => k s g
  | Cls P => match s with String c s' => if P c then k s' g else None | _ => None end
  | Seq a b => run_re a s g (λ s' g', run_re b s' g' k)
  | Alt a b => match run_re a s g k with Some x => Some x | None => run_re b s g k end
  | Rep greedy lo hi a => rep_loop (run_re a) greedy k (S (String.length s)) lo hi s g
  | Group name a => run_re a s g (λ s' g', k s' (od_set g' name (consumed s s')))
  | WordEnd => if word_follows s then None else k s g
  | Eol => if at_end s then k s g else None
  end.
End matcher.

(** [pattern.match(s)]: the captured groups, or [None]. *)
Definition re_match (r : re) (s : string) : option captures :=
  run_re r s [] (λ _ g, Some g).

(** [pattern.fullmatch(s)] *)
Definition re_fullmatch (r : re) (s : string) : option captures :=
  run_re r s [] (λ s' g, match s' with EmptyString => Some g | _ => None end).

Definition re_matches (r : re) (s : string) : bool :=
  match re_match r s with Some _ => true | None => false end.

(** [match.group(name)]: [None] when the group took no part. *)
Definition group (g : captures) (name : string) : option string := od_get g name.

(** ** Notation for patterns *)

Definition Chr (c : ascii) : re := Cls (Ascii.eqb c).

Fixpoint Lit (s : string) : re :=
  match s with EmptyString => Eps | String c s' => Seq (Chr c) (Lit s') end.

Definition Star (r : re) : re := Rep true 0 None r.
Definition Plus (r : re) : re := Rep true 1 None r.
Definition PlusLazy (r : re) : re := Rep false 1 None r.
Definition Opt (r : re) : re := Rep true 0 (Some 1) r.
Definition Times (n : nat) (r : re) : re := Rep true n (Some n) r.
Definition Between (lo hi : nat) (r : re) : re := Rep true lo (Some hi) r.

Fixpoint Seqs (rs : list re) : re :=
  match rs with [] => Eps | [r] => r | r :: rs' => Seq r (Seqs rs') end.

Fixpoint Alts (r : re) (rs : list re) : re :=
  match rs with [] => r | r' :: rs' => Alt r (Alts r' rs') end.

(** [\d], [\s], [\S], [\w] and [.] on text below code point 256 *)
Definition Digit : re := Cls is_digit.
Definition Space : re := Cls is_space.
Definition NonSpace : re := Cls (λ c, negb (is_space c)).
Definition Dot : re := Cls (λ c, negb (Ascii.eqb c NL)).

(** ** Facts *)

(** [n] more repetitions are allowed. *)
Definition within_hi (n : nat) (hi : option nat) : bool :=
  match hi with Some m => (n <=? m)%nat | None => true end.

Lemma consumed_app w t : consumed (w +:+ t) t = w.
Proof.
  unfold consumed. rewrite string_length_app. replace (_ + _ - _)%nat with (String.length w) by lia.
  induction w as [|c w IH]; simpl; [by destruct t|by rewrite IH].
Qed.

Lemma consumed_all w : consumed w "" = w.
Proof. rewrite <-(string_app_nil w) at 1. apply consumed_app. Qed.

Section facts.
Context {R : Type}.
Implicit Types (k : string → captures → option R) (g : captures).

Lemma rep_cls P greedy k fuel lo hi s g :
  rep_loop (run_re (Cls P)) greedy k (S fuel) lo hi s g
  = let one :=
      match hi, s with
      | Some O, _ | _, EmptyString => None
      | _, String c s' =>
          if P c then rep_loop (run_re (Cls P)) greedy k fuel (lo - 1) (hi' ← hi; Some (hi' - 1)%nat) s' g
          else None
      end in
    let stop := match lo with O => k s g | _ => None end in
    if greedy then match one with Some x => Some x | None => stop end
    else match stop with Some x => Some x | None => one end.
Proof.
  assert (∀ c s', (String.length s' <? String.length (String c s'))%nat = true) as Hlt
    by (intros; apply Nat.ltb_lt; simpl; lia).
  destruct hi as [[|n]|], s as [|c s']; try done; cbn [rep_loop run_re]; rewrite Hlt; by destruct (P c).
Qed.

Lemma within_pred n m hi :
  hi ≠ Some O → within_hi (n + m) (hi' ← hi; Some (hi' - 1)%nat) = within_hi (S n + m) hi.
Proof.
  destruct hi as [[|h]|]; [done| |done]. intros _. simpl. rewrite Nat.sub_0_r. done.
Qed.

(** A repeated class fails when whatever it could take is not followed by a
    match. *)
Lemma rep_none P greedy k fuel lo hi s g :
  (∀ t1 t2, s = t1 +:+ t2 → str_forall P t1 = true → (lo ≤ String.length t1)%nat →
     within_hi (String.length t1) hi = true → k t2 g = None) →
  rep_loop (run_re (Cls P)) greedy k fuel lo hi s g = None.
Proof.
  revert lo hi s. induction fuel as [|fuel IH]; intros lo hi s Hk.
  - simpl. destruct lo; [|by destruct greedy].
    rewrite (Hk ""%string s); [by destruct greedy|done|done|simpl; lia|by destruct hi].
  - rewrite rep_cls. cbv zeta.
    assert (match lo with O => k s g | S _ => None end = None) as ->.
    { destruct lo; [|done]. apply (Hk ""%string); [done|done|simpl; lia|by destruct hi]. }
    destruct s as [|c s]; [by destruct hi as [[]|], greedy|].
    destruct (decide (hi = Some O)) as [->|Hhi0]; [by destruct greedy|].
    assert ((if P c then rep_loop (run_re (Cls P)) greedy k fuel (lo - 1) (hi' ← hi; Some (hi' - 1)%nat) s g
             else None) = None) as ->; [|by destruct hi as [[]|], greedy].
    destruct (P c) eqn:Hc; [|done]. apply IH. intros t1 t2 -> Ht Hlo Hhi.
    apply (Hk (String c t1) t2); [done|by simpl; rewrite Hc, Ht|simpl; lia|].
    rewrite <-(Nat.add_0_r (String.length t1)), within_pred in Hhi by done. by rewrite Nat.add_0_r in Hhi.
Qed.

(** Greedy: the longest text of the class that a match follows is taken. *)
Lemma rep_greedy P k x w t fuel lo hi g :
  (String.length w < fuel)%nat → str_forall P w = true → (lo ≤ String.length w)%nat →
  within_hi (String.length w) hi = true → k t g = Some x →
  (∀ t1 t2, t = t1 +:+ t2 → t1 ≠ ""%string → str_forall P t1 = true →
     within_hi (String.length w + String.length t1) hi = true → k t2 g = None) →
  rep_loop (run_re (Cls P)) true k fuel lo hi (w +:+ t) g = Some x.
Proof.
  revert fuel lo hi. induction w as [|c w IH]; intros fuel lo hi Hf Hw Hlo Hhi Hk Hnone;
    (destruct fuel as [|fuel]; [simpl in *; lia|]); rewrite rep_cls; cbv zeta.
  - simpl in Hlo. destruct lo; [|lia]. change ("" +:+ t)%string with t. rewrite Hk.
    destruct t as [|c t]; [by destruct hi as [[]|]|].
    destruct (decide (hi = Some O)) as [->|Hhi0]; [done|].
    assert ((if P c then rep_loop (run_re (Cls P)) true k fuel (0 - 1) (hi' ← hi; Some (hi' - 1)%nat) t g
             else None) = None) as ->; [|by destruct hi as [[]|]].
    destruct (P c) eqn:Hc; [|done]. apply rep_none. intros t1 t2 -> Ht _ Hhi1.
    apply (Hnone (String c t1) t2); [done|done|by simpl; rewrite Hc, Ht|].
    rewrite <-(Nat.add_0_r (String.length t1)), within_pred in Hhi1 by done. by rewrite Nat.add_0_r in Hhi1.
  - simpl in Hw. apply andb_true_iff in Hw as [Hc Hw]. rewrite string_app_cons, Hc.
    assert (hi ≠ Some O) as Hhi0 by (intros ->; done).
    rewrite IH; [by destruct hi as [[]|]|simpl in *; lia|done|simpl in *; lia| |done|].
    + rewrite <-(Nat.add_0_r (String.length w)), within_pred by done. by rewrite Nat.add_0_r.
    + intros t1 t2 -> Hne Ht1 Hhi1. rewrite within_pred in Hhi1 by done. by apply (Hnone t1 t2).
Qed.

(** Lazy: the shortest. *)
Lemma rep_lazy P k x w t fuel lo g :
  (String.length w < fuel)%nat → str_forall P w = true → (lo ≤ String.length w)%nat →
  (∀ w1 w2, w = w1 +:+ w2 → w2 ≠ ""%string → (lo ≤ String.length w1)%nat → k (w2 +:+ t) g = None) →
  k t g = Some x →
  rep_loop (run_re (Cls P)) false k fuel lo None (w +:+ t) g = Some x.
Proof.
  revert fuel lo. induction w as [|c w IH]; intros fuel lo Hf Hw Hlo Hnone Hk;
    (destruct fuel as [|fuel]; [simpl in *; lia|]); rewrite rep_cls; cbv zeta.
  - simpl in Hlo. destruct lo; [|lia]. change ("" +:+ t)%string with t. by rewrite Hk.
  - simpl in Hw. apply andb_true_iff in Hw as [Hc Hw]. rewrite string_app_cons, Hc.
    assert (match lo with O => k (String c (w +:+ t)) g | S _ => None end = None) as ->.
    { destruct lo; [|done]. rewrite <-string_app_cons. by apply (Hnone ""%string). }
    apply IH; [simpl in *; lia|done|simpl in *; lia| |done].
    intros w1 w2 -> Hne Hlo1. apply (Hnone (String c w1) w2); [done|done|simpl; lia].
Qed.

Lemma run_seq (a b : re) s g k : run_re (Seq a b) s g k = run_re a s g (λ s' g', run_re b s' g' k).
Proof. done. Qed.

Lemma run_group name (a : re) s g k :
  run_re (Group name a) s g k = run_re a s g (λ s' g', k s' (od_set g' name (consumed s s'))).
Proof. done. Qed.

Lemma run_opt (a : re) s g k :
  run_re (Opt a) s g k
  = match run_re a s g (λ s' g', if (String.length s' <? String.length s)%nat then k s' g' else None) with
    | Some x => Some x
    | None => k s g
    end.
Proof.
  unfold Opt. cbn [run_re]. cbn [rep_loop]. by destruct (String.length s).
Qed.

(** A literal consumes itself. *)
Lemma run_lit p s g k : run_re (Lit p) (p +:+ s) g k = k s g.
Proof.
  revert s g k. induction p as [|c p IH]; intros s g k; [done|].
  rewrite string_app_cons. cbn [Lit run_re Chr]. rewrite Ascii.eqb_refl. apply IH.
Qed.

(** ... and fails on anything else. *)
Lemma run_lit_none p s g k : str_startswith s p = false → run_re (Lit p) s g k = None.
Proof.
  unfold str_startswith. revert s g k. induction p as [|c p IH]; intros s g k; [by destruct s|].
  destruct s as [|d s]; [done|]. simpl. destruct (ascii_dec c d) as [->|Hne].
  - rewrite Ascii.eqb_refl. apply IH.
  - destruct (Ascii.eqb_spec c d); [done|]. done.
Qed.

Lemma run_alt_l (a b : re) s g k x : run_re a s g k = Some x → run_re (Alt a b) s g k = Some x.
Proof. intros H. cbn [run_re]. by rewrite H. Qed.

Lemma run_alt_r (a b : re) s g k : run_re a s g k = None → run_re (Alt a b) s g k = run_re b s g k.
Proof. intros H. cbn [run_re]. by rewrite H. Qed.

(** The repeated classes, as the patterns write them *)
Lemma run_plus_dot P k x w t g :
  str_forall P w = true → w ≠ ""%string → k t g = Some x →
  (∀ t1 t2, t = t1 +:+ t2 → t1 ≠ ""%string → str_forall P t1 = true → k t2 g = None) →
  run_re (Plus (Cls P)) (w +:+ t) g k = Some x.
Proof.
  intros Hw Hne Hk Hnone. unfold Plus. cbn [run_re]. rewrite string_length_app.
  apply rep_greedy; [lia|done| |done|done|].
  - destruct w; [done|simpl; lia].
  - intros t1 t2 Ht Hne1 Hp _. by apply (Hnone t1 t2).
Qed.

(** The text a class takes ends before [t]. *)
Definition stops (P : ascii → bool) (t : string) : bool :=
  match t with EmptyString => true | String c _ => negb (P c) end.

Lemma stops_nothing P t t1 t2 :
  stops P t = true → t = t1 +:+ t2 → t1 ≠ ""%string → str_forall P t1 = true → False.
Proof.
  intros Hs -> Hne Hp. destruct t1 as [|c t1]; [done|]. simpl in *.
  apply andb_true_iff in Hp as [Hc _]. by rewrite Hc in Hs.
Qed.

Lemma run_cls_exact P lo hi k x w t g :
  str_forall P w = true → stops P t = true → (lo ≤ String.length w)%nat →
  within_hi (String.length w) hi = true → k t g = Some x →
  run_re (Rep true lo hi (Cls P)) (w +:+ t) g k = Some x.
Proof.
  intros Hw Hs Hlo Hhi Hk. cbn [run_re]. rewrite string_length_app.
  apply rep_greedy; [lia|done|done|done|done|]. intros t1 t2 Ht Hne Hp _. by destruct (stops_nothing P t t1 t2).
Qed.

(** [{n}]: exactly [n]. *)
Lemma run_times P n k x w t g :
  str_forall P w = true → String.length w = n → k t g = Some x →
  run_re (Times n (Cls P)) (w +:+ t) g k = Some x.
Proof.
  intros Hw Hn Hk. unfold Times. cbn [run_re]. rewrite string_length_app.
  apply rep_greedy; [lia|done|lia|simpl; apply Nat.leb_le; lia|done|].
  intros [|c t1] t2 _ Hne _ Hhi; [done|]. simpl in Hhi. apply Nat.leb_le in Hhi. lia.
Qed.

(** A class repeated to the end of the text *)
Lemma run_star_all P k x w g :
  str_forall P w = true → k ""%string g = Some x → run_re (Star (Cls P)) w g k = Some x.
Proof.
  intros Hw Hk. unfold Star. rewrite <-(string_app_nil w).
  apply run_cls_exact; [done|done|simpl; lia|done|done].
Qed.

Lemma run_cls P k c s g : run_re (Cls P) (String c s) g k = if P c then k s g else None.
Proof. done. Qed.
End facts.
