(* ===== verification/Rules.v ===== *)
(** * The rule schema ([detection/schema.py])

    A rule's condition is a tree of nodes with optional members, as the YAML
    has them; [_exactly_one_form] and [_check_condition] are what makes it
    meaningful.  pydantic's field parsing is not modelled: a [Condition] here is
    what it hands to the validators. *)

From S2P Require Import Prelude ODict PyText Events PyRe.
Local Open Scope string_scope.
Local Open Scope Z_scope.

(** A rule-supplied comparison value. *)
Inductive rule_value := VScalar (s : scalar) | VList (l : list scalar).

Inductive Operator :=
  | EQUALS | NOT_EQUALS | CONTAINS | NOT_CONTAINS | STARTSWITH | ENDSWITH | REGEX
  | GT | GTE | LT | LTE | IN | NOT_IN.

#[export] Instance Operator_eq_dec : EqDecision Operator.
Proof. solve_decision. Defined.

Definition NUMERIC_OPS : list Operator := [GT; GTE; LT; LTE].
Definition TEXT_OPS : list Operator := [CONTAINS; NOT_CONTAINS; STARTSWITH; ENDSWITH; REGEX].
Definition SCALAR_OPS : list Operator :=
  [EQUALS; NOT_EQUALS; CONTAINS; NOT_CONTAINS; STARTSWITH; ENDSWITH; REGEX; GT; GTE; LT; LTE].
Definition LIST_OPS : list Operator := [IN; NOT_IN].

Definition op_in (op : Operator) (ops : list Operator) : bool := bool_decide (op ∈ ops).

(** [Threshold], over the type of the condition it counts. *)
Record ThresholdOf (C : Type) := mkThreshold {
  th_match : C;
  th_window_seconds : Z;
  th_count : Z;
  th_group_by : string;
}.
Arguments mkThreshold {C} _ _ _ _.
Arguments th_match {C} _.
Arguments th_window_seconds {C} _.
Arguments th_count {C} _.
Arguments th_group_by {C} _.

#[warnings="-register-all"]
Inductive Condition := mkCondition {
  field : option string;
  op : option Operator;
  value : option rule_value;
  all_ : option (list Condition);
  any_ : option (list Condition);
  not_ : option Condition;
  threshold : option (ThresholdOf Condition);
}.

Abbreviation Threshold := (ThresholdOf Condition).

Definition on_field (f : string) (o : Operator) (v : rule_value) : Condition :=
  mkCondition (Some f) (Some o) (Some v) None None None None.
Definition all_of (cs : list Condition) : Condition :=
  mkCondition None None None (Some cs) None None None.
Definition any_of (cs : list Condition) : Condition :=
  mkCondition None None None None (Some cs) None None.
Definition not_of (c : Condition) : Condition :=
  mkCondition None None None None None (Some c) None.
Definition threshold_of (t : Threshold) : Condition :=
  mkCondition None None None None None None (Some t).

(** Induction over condition trees. *)
Section condition_ind.
Context (P : Condition → Prop).
Context (step : ∀ f o v al an nt th,
  (∀ cs, al = Some cs → Forall P cs) → (∀ cs, an = Some cs → Forall P cs) →
  (∀ c, nt = Some c → P c) → (∀ t, th = Some t → P (th_match t)) →
  P (mkCondition f o v al an nt th)).

Lemma condition_induction c : P c.
Proof.
  revert c. fix IH 1. intros [f o v al an nt th].
  pose (many := fix many cs := match cs return Forall P cs with [] => Forall_nil_2 P
    | c :: cs' => Forall_cons_2 P c cs' (IH c) (many cs') end).
  apply step.
  - intros cs. destruct al as [l|]; [|discriminate]. intros [= <-]. exact (many l).
  - intros cs. destruct an as [l|]; [|discriminate]. intros [= <-]. exact (many l).
  - intros c. destruct nt as [c'|]; [|discriminate]. intros [= <-]. exact (IH c').
  - intros t. destruct th as [[m w n g]|]; [|discriminate]. intros [= <-]. exact (IH m).
Qed.
End condition_ind.

(** ** Shape validation *)

Definition is_Some_b {A} (x : option A) : bool := match x with Some _ => true | None => false end.

(** The node's five possible forms, as [_exactly_one_form] counts them. *)
Definition forms (c : Condition) : list bool :=
  [is_Some_b (field c); is_Some_b (all_ c); is_Some_b (any_ c); is_Some_b (not_ c);
   is_Some_b (threshold c)].

(** [_validate_field_form] *)
Definition validate_field_form (c : Condition) : result unit :=
  match op c, value c with
  | None, _ => Raise ValueError
  | _, None => Raise ValueError
  | Some o, Some v =>
      let is_list := match v with VList _ => true | VScalar _ => false end in
      if op_in o LIST_OPS && negb is_list then Raise ValueError
      else if op_in o SCALAR_OPS && is_list then Raise ValueError
      else Ok tt
  end.

(** [_exactly_one_form] *)
Definition exactly_one_form (c : Condition) : result unit :=
  if negb (length (filter (λ b : bool, b = true) (forms c)) =? 1)%nat then Raise ValueError
  else if is_Some_b (field c) then validate_field_form c
  else raise_if (is_Some_b (op c) || is_Some_b (value c)) ValueError.

Definition MAX_WINDOW_SECONDS : Z := 86400.
Definition MAX_THRESHOLD_COUNT : Z := 100000.

(** The field constraints of [Threshold]. *)
Definition valid_threshold_fields (t : Threshold) : bool :=
  between 1 MAX_WINDOW_SECONDS (th_window_seconds t)
    && between 2 MAX_THRESHOLD_COUNT (th_count t)
    && between 1 100 (strlen (th_group_by t)).

(** Validation of a whole condition tree: the constraints and the form of
    every node. *)
Fixpoint valid_condition (c : Condition) : bool :=
  optionally (λ f, strlen f <=? 200) (field c)
    && match all_ c with Some cs => (len cs <=? 64) && forallb valid_condition cs | None => true end
    && match any_ c with Some cs => (len cs <=? 64) && forallb valid_condition cs | None => true end
    && match not_ c with Some c' => valid_condition c' | None => true end
    && match threshold c with
       | Some t => valid_threshold_fields t && valid_condition (th_match t)
       | None => true
       end
    && is_ok (exactly_one_form c).

(** ** Field paths and kinds *)

Inductive kind := KStr | KInt | KFloat | KBool.

#[export] Instance kind_eq_dec : EqDecision kind.
Proof. solve_decision. Defined.

(** [_leaf_kinds] *)
Fixpoint leaf_kinds (a : annotation) : list kind :=
  match a with
  | T_union args => flat_map leaf_kinds args
  | T_none => []
  | T_bool => [KBool]
  | T_int => [KInt]
  | T_float => [KFloat]
  | T_text | T_model _ => [KStr]
  end.

Definition is_model (a : annotation) : bool :=
  match a with T_model _ => true | _ => false end.

(** [dict.update] *)
Definition od_update {V} (d e : odict string V) : odict string V :=
  foldl (λ d kv, od_set d kv.1 kv.2) d e.

(** [_model_fields] of the model [a] *)
Fixpoint model_fields (a : annotation) (prefix : string) : odict string (list kind) :=
  match a with
  | T_model infos =>
      foldl od_update [] (map (λ info : string * annotation,
        let '(name, ann) := info in
        match ann with
        | T_model _ => model_fields ann (prefix +:+ name +:+ ".")
        | T_union args =>
            if existsb is_model args
            then foldl od_update [] (map (λ arg,
                   if is_model arg then model_fields arg (prefix +:+ name +:+ ".") else []) args)
            else [(prefix +:+ name, leaf_kinds ann)]
        | _ => [(prefix +:+ name, leaf_kinds ann)]
        end) infos)
  | _ => []
  end.

(** [event_fields] (cached in the source, so a constant) *)
Definition event_fields : odict string (list kind) := Eval vm_compute in model_fields Event_model "".

(** [_kind_of] *)
Definition kind_of (v : scalar) : kind :=
  match v with SBool _ => KBool | SInt _ => KInt | SFloat _ => KFloat | SStr _ => KStr end.

(** ** Semantic validation *)

Definition mem_kind (k : kind) (ks : list kind) : bool := bool_decide (k ∈ ks).

Definition has_number (kinds : list kind) : bool := mem_kind KInt kinds || mem_kind KFloat kinds.

(** The [compatible] test of [_check_field] *)
Definition compatible (kinds : list kind) (item : scalar) : bool :=
  let k := kind_of item in
  mem_kind k kinds || (mem_kind k [KInt; KFloat] && has_number kinds).

(** [value if isinstance(value, list) else [value]]; to [_kind_of], a missing
    value is of kind [str]. *)
Definition value_items (v : option rule_value) : list scalar :=
  match v with Some (VList l) => l | Some (VScalar s) => [s] | None => [SStr ""] end.

(** [op in ops] for an operator that may be missing *)
Definition op_is (o : option Operator) (ops : list Operator) : bool :=
  match o with Some o => op_in o ops | None => false end.

(** [_check_field] *)
Definition check_field (c : Condition) : result unit :=
  match od_get event_fields (default "" (field c)) with
  | None => Raise ValueError
  | Some kinds =>
      _ ← raise_if (op_is (op c) NUMERIC_OPS && negb (has_number kinds)) ValueError;
      _ ← raise_if (op_is (op c) TEXT_OPS && negb (mem_kind KStr kinds)) ValueError;
      check_each (λ item, raise_if (negb (compatible kinds item)) ValueError)
        (value_items (value c))
  end.

(** [_check_condition] *)
Fixpoint check_condition (root : bool) (c : Condition) : result unit :=
  match threshold c with
  | Some t =>
      if negb root then Raise ValueError
      else if negb (od_mem event_fields (th_group_by t)) then Raise ValueError
      else check_condition false (th_match t)
  | None =>
      match all_ c, any_ c with
      | None, None =>
          match not_ c with Some c' => check_condition false c' | None => check_field c end
      | Some ((_ :: _) as cs), _ => check_each (check_condition false) cs
      | _, Some cs => check_each (check_condition false) cs
      | _, None => Ok tt
      end
  end.

(** ** Rules *)

Record Throttle := mkThrottle { thr_window_seconds : Z; thr_max_alerts : Z }.

Definition valid_throttle (t : Throttle) : bool :=
  between 1 MAX_WINDOW_SECONDS (thr_window_seconds t) && between 1 10000 (thr_max_alerts t).

Record Rule := mkRule {
  rule_id : string;
  rule_title : string;
  rule_description : string;
  rule_severity : Z;
  rule_attack : list string;
  rule_nist_csf : list string;
  rule_d3fend : list string;
  rule_references : list string;
  rule_condition : Condition;
  rule_throttle : option Throttle;
  rule_enabled : bool;
}.

Definition ATTACK_RE : re :=
  Seqs [Chr "T"; Times 4 Digit; Opt (Group "1" (Seqs [Chr "."; Times 3 Digit])); Eol].
Definition NIST_RE : re :=
  Seqs [Times 2 (Cls is_upper); Chr "."; Times 2 (Cls is_upper);
        Opt (Group "1" (Seqs [Chr "-"; Times 2 Digit])); Eol].
Definition D3FEND_RE : re := Seqs [Lit "D3-"; Plus (Cls is_alpha); Eol].
Definition id_char (c : ascii) : bool := is_lower c || is_digit c.
Definition RULE_ID_RE : re :=
  Seqs [Cls id_char;
        Opt (Group "1" (Seqs [Star (Cls (λ c, id_char c || Ascii.eqb c "-")); Cls id_char])); Eol].

(** [_check_all] *)
Definition check_all (values : list string) (pattern : re) : result unit :=
  check_each (λ v, raise_if (negb (re_matches pattern v)) ValueError) values.

(** [_validate_ids] *)
Definition validate_ids (r : Rule) : result unit :=
  _ ← raise_if (negb (re_matches RULE_ID_RE (rule_id r))) ValueError;
  _ ← check_all (rule_attack r) ATTACK_RE;
  _ ← check_all (rule_nist_csf r) NIST_RE;
  check_all (rule_d3fend r) D3FEND_RE.

(** The field constraints of [Rule]. *)
Definition valid_rule_fields (r : Rule) : bool :=
  between 1 64 (strlen (rule_id r)) && between 1 200 (strlen (rule_title r))
    && between 1 2000 (strlen (rule_description r)) && between 0 7 (rule_severity r)
    && between 1 16 (len (rule_attack r)) && between 1 16 (len (rule_nist_csf r))
    && (len (rule_d3fend r) <=? 16) && (len (rule_references r) <=? 16)
    && valid_condition (rule_condition r) && optionally valid_throttle (rule_throttle r).

(** [Rule.model_validate] of a parsed document *)
Definition validate_rule (r : Rule) : result Rule :=
  if valid_rule_fields r
       && is_ok (_ ← validate_ids r; check_condition true (rule_condition r))
  then Ok r else Raise ValidationError.

Example attack_ids :
  map (re_matches ATTACK_RE) ["T1059"; "T1059.001"; "T105"; "T1059.01"; "t1059"; "T1059x"]
  = [true; true; false; false; false; false].
Proof. reflexivity. Qed.

Example rule_ids :
  map (re_matches RULE_ID_RE) ["ssh-brute-force"; "a"; "-a"; "a-"; "A"; "a--b"]
  = [true; true; false; false; false; true].
Proof. reflexivity. Qed.

(** ** The grammar of valid conditions *)

Definition op_takes (o : Operator) (v : rule_value) : bool :=
  match v with VList _ => op_in o LIST_OPS | VScalar _ => op_in o SCALAR_OPS end.

(** What a rule author may write: real fields, operators with values they
    take and the field can hold, thresholds only at the root. *)
#[warnings="-register-all"]
Inductive well_formed : bool → Condition → Prop :=
  | WF_field root f o v kinds :
      od_get event_fields f = Some kinds → op_takes o v = true →
      (op_in o NUMERIC_OPS = true → has_number kinds = true) →
      (op_in o TEXT_OPS = true → KStr ∈ kinds) →
      Forall (λ i, compatible kinds i = true) (value_items (Some v)) →
      well_formed root (on_field f o v)
  | WF_all root cs : len cs ≤ 64 → Forall (well_formed false) cs → well_formed root (all_of cs)
  | WF_any root cs : len cs ≤ 64 → Forall (well_formed false) cs → well_formed root (any_of cs)
  | WF_not root c : well_formed false c → well_formed root (not_of c)
  | WF_threshold t :
      valid_threshold_fields t = true → th_group_by t ∈ od_keys event_fields →
      well_formed false (th_match t) → well_formed true (threshold_of t).

Lemma known_field_short f kinds : od_get event_fields f = Some kinds → strlen f ≤ 200.
Proof.
  intros Hf. apply od_get_elem_of in Hf.
  assert (Forall (λ e : string * list kind, strlen e.1 ≤ 200) event_fields) as Hall.
  { apply (bool_decide_eq_true_1 _). vm_compute. reflexivity. }
  exact (proj1 (Forall_forall _ _) Hall _ Hf).
Qed.

Lemma validate_field_form_ok f o v :
  validate_field_form (mkCondition (Some f) o v None None None None) = Ok tt ↔
  ∃ o' v', o = Some o' ∧ v = Some v' ∧ op_takes o' v' = true.
Proof.
  unfold validate_field_form; simpl. split.
  - destruct o as [o|]; [|done]. destruct v as [v|]; [|done]. intros Hok. exists o, v.
    split_and!; [done..|]. destruct v, o; by vm_compute in Hok |- *.
  - intros (o' & v' & -> & -> & Hok). destruct v', o'; by vm_compute in Hok |- *.
Qed.

Lemma check_field_ok f o v :
  check_field (mkCondition (Some f) (Some o) (Some v) None None None None) = Ok tt ↔
  ∃ kinds, od_get event_fields f = Some kinds ∧
    (op_in o NUMERIC_OPS = true → has_number kinds = true) ∧
    (op_in o TEXT_OPS = true → KStr ∈ kinds) ∧
    Forall (λ i, compatible kinds i = true) (value_items (Some v)).
Proof.
  unfold check_field. simpl field; simpl op; simpl value; cbv [default from_option id].
  destruct (od_get event_fields f) as [kinds|]; [|naive_solver].
  rewrite result_bind_ok. setoid_rewrite result_bind_ok. setoid_rewrite raise_if_ok.
  setoid_rewrite check_each_ok. setoid_rewrite raise_if_ok. simpl op_is. split.
  - intros (_ & Hn & _ & Ht & Hall). exists kinds. split_and!; [done| | |].
    + intros Ho. rewrite Ho in Hn. by apply negb_false_iff in Hn.
    + intros Ho. rewrite Ho in Ht. apply negb_false_iff in Ht. by apply bool_decide_eq_true in Ht.
    + eapply Forall_impl; [exact Hall|]. intros i. apply negb_false_iff.
  - intros (kinds' & [= <-] & Hn & Ht & Hall). exists tt. split.
    { destruct (op_in o NUMERIC_OPS); [|done]. by rewrite Hn. }
    exists tt. split.
    { destruct (op_in o TEXT_OPS); [|done]. simpl. apply negb_false_iff, bool_decide_eq_true. by apply Ht. }
    eapply Forall_impl; [exact Hall|]. intros i. apply negb_false_iff.
Qed.

Definition accepted (root : bool) (c : Condition) : Prop :=
  valid_condition c = true ∧ check_condition root c = Ok tt.

Lemma forallb_Forall {A} (f : A → bool) l : forallb f l = true ↔ Forall (λ x, f x = true) l.
Proof. by rewrite forallb_forall, Forall_forall; setoid_rewrite list_elem_of_In. Qed.

Lemma Forall_accepted cs :
  Forall (λ c, ∀ root, accepted root c ↔ well_formed root c) cs →
  Forall (λ c, valid_condition c = true) cs ∧ Forall (λ c, check_condition false c = Ok tt) cs
  ↔ Forall (well_formed false) cs.
Proof.
  intros IH. rewrite <-Forall_and. split; intros Hall; rewrite Forall_forall in *;
    intros c Hc; by apply IH, Hall.
Qed.

(** A node of one form only has one of five shapes. *)
Variant one_form : Condition → Prop :=
  | Form_field f o v : op_takes o v = true → one_form (on_field f o v)
  | Form_all cs : one_form (all_of cs)
  | Form_any cs : one_form (any_of cs)
  | Form_not c : one_form (not_of c)
  | Form_threshold t : one_form (threshold_of t).

Lemma no_op_value o v :
  is_ok (raise_if (is_Some_b (A:=Operator) o || is_Some_b (A:=rule_value) v) ValueError) = true →
  o = None ∧ v = None.
Proof. by destruct o, v. Qed.

Lemma exactly_one_form_inv c : is_ok (exactly_one_form c) = true ↔ one_form c.
Proof.
  split.
  - destruct c as [f o v al an nt th].
    destruct f as [f|], al as [al|], an as [an|], nt as [nt|], th as [th|];
      unfold exactly_one_form; simpl; try done.
    + intros Hok. destruct (validate_field_form _) as [[]|] eqn:Hv; [|done].
      apply validate_field_form_ok in Hv as (o' & v' & -> & -> & Ht). by constructor.
    + intros [-> ->]%no_op_value. apply Form_all.
    + intros [-> ->]%no_op_value. apply Form_any.
    + intros [-> ->]%no_op_value. apply Form_not.
    + intros [-> ->]%no_op_value. apply Form_threshold.
  - destruct 1 as [f o v Ht| | | |]; try done. unfold exactly_one_form; simpl.
    destruct (validate_field_form _) as [[]|e] eqn:Hv; [done|].
    assert (validate_field_form (on_field f o v) = Ok tt) as Hv'
      by (apply validate_field_form_ok; eauto).
    by rewrite Hv in Hv'.
Qed.

Lemma valid_condition_form c : valid_condition c = true → one_form c.
Proof. destruct c. simpl. intros [_ Hf]%andb_true_iff. by apply exactly_one_form_inv. Qed.

Lemma check_many cs :
  match cs with [] => Ok tt | _ :: _ => check_each (check_condition false) cs end
  = check_each (check_condition false) cs.
Proof. by destruct cs. Qed.

Lemma accepted_all root cs :
  accepted root (all_of cs) ↔
  len cs ≤ 64 ∧ Forall (λ c, valid_condition c = true) cs
    ∧ Forall (λ c, check_condition false c = Ok tt) cs.
Proof.
  unfold accepted, all_of. simpl. rewrite check_many, check_each_ok.
  change (is_ok (exactly_one_form (all_of cs))) with true.
  rewrite !andb_true_r, andb_true_iff, forallb_Forall, Z.leb_le. tauto.
Qed.

Lemma accepted_any root cs :
  accepted root (any_of cs) ↔
  len cs ≤ 64 ∧ Forall (λ c, valid_condition c = true) cs
    ∧ Forall (λ c, check_condition false c = Ok tt) cs.
Proof.
  unfold accepted, any_of. simpl. rewrite check_each_ok.
  change (is_ok (exactly_one_form (any_of cs))) with true.
  rewrite !andb_true_r, andb_true_iff, forallb_Forall, Z.leb_le. tauto.
Qed.

Lemma accepted_not root c : accepted root (not_of c) ↔ accepted false c.
Proof.
  unfold accepted, not_of. simpl.
  change (is_ok (exactly_one_form (not_of c))) with true. by rewrite !andb_true_r.
Qed.

Lemma accepted_threshold root t :
  accepted root (threshold_of t) ↔
  root = true ∧ valid_threshold_fields t = true ∧ th_group_by t ∈ od_keys event_fields ∧
  accepted false (th_match t).
Proof.
  unfold accepted, threshold_of. simpl valid_condition. simpl check_condition.
  change (is_ok (exactly_one_form (threshold_of t))) with true.
  rewrite andb_true_r, andb_true_iff. rewrite <-od_mem_true.
  destruct root, (od_mem event_fields (th_group_by t)); simpl; naive_solver.
Qed.

Lemma accepted_field root f o v :
  op_takes o v = true →
  accepted root (on_field f o v) ↔ check_field (on_field f o v) = Ok tt.
Proof.
  intros Ht. unfold accepted. split; [by intros [_ ?]|]. intros Hc. split; [|exact Hc].
  assert (is_ok (exactly_one_form (on_field f o v)) = true) as Hf
    by (by apply exactly_one_form_inv; constructor).
  apply check_field_ok in Hc as (kinds & Hk & _). apply known_field_short in Hk.
  unfold on_field in *. simpl. rewrite Hf. simpl. by rewrite (proj2 (Z.leb_le _ _)).
Qed.

Lemma accepted_iff_well_formed c root : accepted root c ↔ well_formed root c.
Proof.
  revert root.
  induction c as [f o v al an nt th IHal IHan IHnt IHth] using condition_induction.
  intros root. split.
  - intros Hacc. pose proof (valid_condition_form _ (proj1 Hacc)) as Hform.
    inversion Hform as [f' o' v' Ht|cs|cs|c|t]; subst.
    + apply accepted_field, check_field_ok in Hacc as (kinds & ? & ? & ? & ?); [|done].
      by eapply WF_field.
    + apply accepted_all in Hacc as (? & Hcs). apply WF_all; [done|].
      by apply Forall_accepted; [apply IHal|].
    + apply accepted_any in Hacc as (? & Hcs). apply WF_any; [done|].
      by apply Forall_accepted; [apply IHan|].
    + pose proof (proj1 (accepted_not root c) Hacc). apply WF_not. by apply (IHnt _ eq_refl).
    + apply accepted_threshold in Hacc as (-> & ? & ? & ?). apply WF_threshold; [done..|].
      by apply (IHth _ eq_refl).
  - inversion 1 as [r f' o' v' kinds Hk Ht Hn Hx Hi|r cs Hl Hcs|r cs Hl Hcs|r c Hc|t Hv Hg Hm]; subst.
    + apply accepted_field; [done|]. apply check_field_ok. by exists kinds.
    + apply accepted_all. split; [done|]. by apply Forall_accepted; [apply IHal|].
    + apply accepted_any. split; [done|]. by apply Forall_accepted; [apply IHan|].
    + apply accepted_not. by apply (IHnt _ eq_refl).
    + apply accepted_threshold. split_and!; [done..|]. by apply (IHth _ eq_refl).
Qed.

(** ** Properties *)

(** C11: the validators accept exactly the rule grammar: every node has one
    form, every field exists and is compared with values it can hold through
    an operator that takes them, and a threshold stands only at the root. *)
Theorem validators_accept_exactly_grammar c root :
  valid_condition c = true ∧ check_condition root c = Ok tt ↔ well_formed root c.
Proof. apply accepted_iff_well_formed. Qed.

(** The identifier patterns end in [$], which also matches before a final
    newline: such an id passes. *)
Lemma id_patterns_accept_final_newline :
  re_matches ATTACK_RE ("T1059" +:+ String NL "") = true ∧
  re_matches RULE_ID_RE ("ssh-brute-force" +:+ String NL "") = true.
Proof. split; reflexivity. Qed.

(** A rule whose condition is an empty [any] passes validation. *)
Lemma empty_any_is_accepted : accepted true (any_of []) ∧ well_formed true (any_of []).
Proof.
  split; [split; vm_compute; reflexivity|]. apply WF_any; [unfold len; simpl; lia|]. by constructor.
Qed.
