(* ===== verification/Evaluator.v ===== *)
(** * The condition evaluator ([detection/evaluator.py])

    An interpreter of condition trees over the JSON view of an event.  The
    third-party [regex] package is a parameter: which patterns compile, and for
    a pattern and a text whether the search finds a match, finds none, or runs
    out of time.  A timeout surfaces as [EvaluationIncomplete]; Python's
    generators make [all] and [any] lazy, so a branch that is not reached
    cannot time out. *)

From S2P Require Import Prelude ODict PyText Events Rules.
Local Open Scope string_scope.
Local Open Scope Z_scope.

(** What the code relies on of the [regex] package: [rx_compiles ignorecase]
    tells whether a pattern compiles; [rx_search] is a case-insensitive search
    with a timeout, [None] when the time is up. *)
Class RegexEngine := {
  rx_compiles : bool → string → bool;
  rx_search : string → string → option bool;
}.

(** ** Field lookup *)

Definition field_path (f : string) : list string := str_split "." f.

Fixpoint walk (parts : list string) (current : pyval) : pyval :=
  match parts with
  | [] => current
  | part :: parts' =>
      match current with
      | PDict d => match od_get d part with
                   | None | Some PNone => PNone
                   | Some v => walk parts' v
                   end
      | _ => PNone
      end
  end.

(** [resolve_field] *)
Definition resolve_field (f : string) (event : pyval) : pyval := walk (field_path f) event.

(** ** Operators *)

Definition value_py (v : option rule_value) : pyval :=
  match v with
  | None => PNone
  | Some (VScalar s) => PScalar s
  | Some (VList l) => PList (PScalar <$> l)
  end.

(** [_contains] *)
Definition contains (actual expected : pyval) : bool :=
  match actual, expected with
  | PScalar (SStr a), PScalar (SStr e) => str_contains e a
  | PList l, _ => existsb (py_eq expected) l
  | _, _ => false
  end.

(** [_numeric_compare] *)
Definition numeric_compare (actual expected : pyval) (cmp : pyfloat → pyfloat → bool) : bool :=
  match actual, expected with
  | PScalar (SBool _), _ | _, PScalar (SBool _) => false
  | PScalar a, PScalar e =>
      match number a, number e with Some x, Some y => cmp x y | _, _ => false end
  | _, _ => false
  end.

Definition MAX_REGEX_INPUT : Z := 16384.

(** [_scan_windows] *)
Definition scan_windows (value : string) : list string :=
  if strlen value <=? MAX_REGEX_INPUT then [value]
  else let half := Z.to_nat (MAX_REGEX_INPUT / 2) in
       [str_take half value; str_lastn half value].

(** Python's lazy [all] and [any] over a check that may raise. *)
Section lazy.
Context {A : Type} (f : A → result bool).

Fixpoint all_lazy (l : list A) : result bool :=
  match l with
  | [] => Ok true
  | x :: l' => b ← f x; if b : bool then all_lazy l' else Ok false
  end.

Fixpoint any_lazy (l : list A) : result bool :=
  match l with
  | [] => Ok false
  | x :: l' => b ← f x; if b : bool then Ok true else any_lazy l'
  end.
End lazy.

Section evaluator.
Context `{RegexEngine}.

(** [_regex_search] *)
Definition regex_search (actual expected : pyval) : result bool :=
  match actual, expected with
  | PScalar (SStr a), PScalar (SStr pattern) =>
      if rx_compiles true pattern then
        any_lazy (λ window, match rx_search pattern window with
                            | Some b => Ok b
                            | None => Raise EvaluationIncomplete
                            end) (scan_windows a)
      else Ok false
  | _, _ => Ok false
  end.

Definition is_list (e : pyval) : bool := match e with PList _ => true | _ => false end.
Definition list_items (e : pyval) : list pyval := match e with PList l => l | _ => [] end.

(** [_OPERATORS] *)
Definition operators (o : Operator) (a e : pyval) : result bool :=
  match o with
  | EQUALS => Ok (py_eq a e)
  | NOT_EQUALS => Ok (negb (py_eq a e))
  | CONTAINS => Ok (contains a e)
  | NOT_CONTAINS => Ok (negb (contains a e))
  | STARTSWITH =>
      Ok match a, e with PScalar (SStr a), PScalar (SStr e) => str_startswith a e | _, _ => false end
  | ENDSWITH =>
      Ok match a, e with PScalar (SStr a), PScalar (SStr e) => str_endswith a e | _, _ => false end
  | REGEX => regex_search a e
  | GT => Ok (numeric_compare a e (λ x y, float_lt y x))
  | GTE => Ok (numeric_compare a e (λ x y, float_le y x))
  | LT => Ok (numeric_compare a e float_lt)
  | LTE => Ok (numeric_compare a e float_le)
  | IN => Ok (is_list e && existsb (py_eq a) (list_items e))
  | NOT_IN => Ok (negb (is_list e && existsb (py_eq a) (list_items e)))
  end.

(** [evaluate_condition] *)
Fixpoint evaluate_condition (c : Condition) (event : pyval) : result bool :=
  match c with
  | mkCondition f o v al an nt th =>
      match al, an, nt, th with
      | Some cs, _, _, _ => all_lazy (λ child, evaluate_condition child event) cs
      | None, Some cs, _, _ => any_lazy (λ child, evaluate_condition child event) cs
      | None, None, Some c', _ => b ← evaluate_condition c' event; Ok (negb b)
      | None, None, None, Some t => evaluate_condition (th_match t) event
      | None, None, None, None =>
          match f, o with
          | Some f, Some o => operators o (resolve_field f event) (value_py v)
          | _, _ => Ok false
          end
      end
  end.
End evaluator.

Local Close Scope string_scope.

(** ** Lookup in the view of an event *)

(** The scalars of a value with the path of keys that leads to each. *)
Fixpoint scalar_paths (v : pyval) : list (list string * scalar) :=
  match v with
  | PScalar s => [([], s)]
  | PDict d => flat_map (λ kv, map (λ ps, (kv.1 :: ps.1, ps.2)) (scalar_paths kv.2)) d
  | _ => []
  end.

Lemma walk_scalar parts v s : walk parts v = PScalar s → In (parts, s) (scalar_paths v).
Proof.
  revert v. induction parts as [|p parts IH]; intros v; simpl.
  - intros ->. by left.
  - destruct v as [| | |d]; try done. destruct (od_get d p) as [w|] eqn:Hp; [|done].
    intros Hw. assert (walk parts w = PScalar s) as Hw' by (by destruct w).
    simpl. apply in_flat_map. exists (p, w). split; [|by apply in_map_iff; exists (parts, s); auto].
    by apply list_elem_of_In, od_get_elem_of.
Qed.

Lemma str_split_cons sep s : ∃ w ws, str_split sep s = w :: ws.
Proof.
  destruct s as [|c s]; simpl; [by eexists _, _|].
  destruct (Ascii.eqb c sep); [by eexists _, _|]. destruct (str_split sep s); by eexists _, _.
Qed.

Lemma str_join_split sep s : str_join (String sep "") (str_split sep s) = s.
Proof.
  induction s as [|c s IH]; [done|]. simpl.
  destruct (str_split_cons sep s) as (w & ws & Hs). rewrite Hs in *.
  destruct (Ascii.eqb c sep) eqn:Hc.
  - apply Ascii.eqb_eq in Hc as ->. change (str_join (String sep "") ("" :: w :: ws))
      with ("" +:+ String sep "" +:+ str_join (String sep "") (w :: ws)). by rewrite IH.
  - destruct ws as [|w' ws]; [simpl in *; by rewrite IH|].
    change (str_join (String sep "") (String c w :: w' :: ws))
      with (String c (str_join (String sep "") (w :: w' :: ws))). by rewrite IH.
Qed.

Definition leaf_ok (leaf : list string * scalar) : Prop :=
  ∃ kinds, od_get event_fields (str_join "." leaf.1) = Some kinds ∧ kind_of leaf.2 ∈ kinds.

(** All scalars of [v], found under the path [pre], are at known paths. *)
Definition known_under (pre : list string) (v : pyval) : Prop :=
  Forall (λ ps, leaf_ok (pre ++ ps.1, ps.2)) (scalar_paths v).

Lemma known_under_dict pre d :
  Forall (λ kv, known_under (pre ++ [kv.1]) kv.2) d → known_under pre (PDict d).
Proof.
  unfold known_under. simpl. induction 1 as [|[k v] d Hkv _ IH]; simpl; [constructor|].
  apply Forall_app. split; [|exact IH]. clear IH. simpl in Hkv.
  induction Hkv as [|[ps s] l Hps _ IHl]; simpl; constructor; [|exact IHl].
  simpl in *. by rewrite <-app_assoc in Hps.
Qed.

Lemma known_under_scalar pre s :
  match od_get event_fields (str_join "." pre) with
  | Some kinds => mem_kind (kind_of s) kinds | None => false end = true →
  known_under pre (PScalar s).
Proof.
  intros Hk. constructor; [|constructor]. unfold leaf_ok. cbn [fst snd]. rewrite app_nil_r.
  revert Hk. destruct (od_get _ _) as [kinds|]; [|done]. intros Hk. exists kinds. split; [done|].
  by apply bool_decide_eq_true in Hk.
Qed.

Lemma known_under_none pre : known_under pre PNone.
Proof. constructor. Qed.

(** Every scalar of an event's view is at a known path and of a known kind. *)
Lemma view_leaves iso e : known_under [] (model_dump iso e).
Proof.
  destruct e as [t m h src dst p f msg].
  unfold model_dump, dump_meta, dump_peer, dump_process, dump_str.
  repeat (match goal with
    | |- known_under _ (PDict _) => apply known_under_dict
    | |- known_under _ (PScalar _) => apply known_under_scalar; reflexivity
    | |- known_under _ PNone => apply known_under_none
    | |- known_under _ (dump_opt_str ?o) => destruct o; cbn [dump_opt_str]
    | |- known_under _ (dump_opt_int ?o) => destruct o; cbn [dump_opt_int]
    | |- known_under _ (match f with _ => _ end) => destruct f; unfold dump_file, dump_str
    | |- Forall _ _ => constructor
    | _ => progress simpl
    end).
Qed.

Lemma resolved_scalar_known iso e f s :
  resolve_field f (model_dump iso e) = PScalar s →
  ∃ kinds, od_get event_fields f = Some kinds ∧ kind_of s ∈ kinds.
Proof.
  intros Hw%walk_scalar. pose proof (view_leaves iso e) as Hall.
  apply Forall_forall with (x := (field_path f, s)) in Hall; [|by apply list_elem_of_In].
  destruct Hall as (kinds & Hk & Hin). exists kinds. cbn [fst snd app] in *. split; [|done].
  unfold field_path in Hk. by rewrite str_join_split in Hk.
Qed.

(** The view holds no lists. *)
Fixpoint list_free (v : pyval) : bool :=
  match v with
  | PList _ => false
  | PDict d => forallb (λ kv, list_free kv.2) d
  | _ => true
  end.

Lemma list_free_walk parts v : list_free v = true → list_free (walk parts v) = true.
Proof.
  revert v. induction parts as [|p parts IH]; intros v Hv; simpl; [done|].
  destruct v as [| | |d]; try done. destruct (od_get d p) as [w|] eqn:Hp; [|done].
  assert (list_free w = true) as Hw.
  { simpl in Hv. rewrite forallb_forall in Hv. apply (Hv (p, w)), list_elem_of_In.
    by apply od_get_elem_of. }
  destruct w; by try apply IH.
Qed.

Lemma list_free_view iso e : list_free (model_dump iso e) = true.
Proof.
  assert (Hs : ∀ s, list_free (dump_opt_str s) = true) by (by intros []).
  assert (Hi : ∀ s, list_free (dump_opt_int s) = true) by (by intros []).
  destruct e as [t m h src dst p [f|] msg]; simpl; by rewrite ?Hs, ?Hi.
Qed.

(** ** Incompatible comparisons *)

Lemma text_or_int kinds f : od_get event_fields f = Some kinds → kinds = [KStr] ∨ kinds = [KInt].
Proof.
  intros Hf%od_get_elem_of.
  assert (Forall (λ e : string * list kind, e.2 = [KStr] ∨ e.2 = [KInt]) event_fields) as Hall
    by (apply (bool_decide_eq_true_1 _); vm_compute; reflexivity).
  exact (proj1 (Forall_forall _ _) Hall _ Hf).
Qed.

(** What a field path can resolve to. *)
Lemma resolved_cases iso e f :
  let a := resolve_field f (model_dump iso e) in
  a = PNone ∨ (∃ d, a = PDict d) ∨
  (∃ t, a = PScalar (SStr t) ∧ od_get event_fields f = Some [KStr]) ∨
  (∃ n, a = PScalar (SInt n) ∧ od_get event_fields f = Some [KInt]).
Proof.
  intros a. destruct a as [|s|l|d] eqn:Ha; [by left| | |right; left; by eexists].
  - destruct (resolved_scalar_known iso e f s Ha) as (kinds & Hk & Hin). right; right.
    destruct (text_or_int _ _ Hk) as [-> | ->]; apply list_elem_of_singleton in Hin;
      destruct s; try discriminate; [left|right]; eauto.
  - pose proof (list_free_walk (field_path f) _ (list_free_view iso e)) as Hl.
    change (list_free a = true) in Hl. by rewrite Ha in Hl.
Qed.

(** ** Timeouts and their resolution

    A total oracle [full] answers every search; it resolves the engine's
    timeouts when it agrees with every search that finished. *)
Section resolution.
Context `{E : RegexEngine} (full : string → string → bool).

Definition resolves : Prop := ∀ p w b, rx_search p w = Some b → full p w = b.

Definition total_engine : RegexEngine :=
  {| rx_compiles := rx_compiles; rx_search := λ p w, Some (full p w) |}.

(** [r'] is the answer of a computation whose answer under timeouts is [r]. *)
Definition settles (r r' : result bool) : Prop :=
  is_ok r' = true ∧ (r = r' ∨ r = Raise EvaluationIncomplete).

Lemma settles_ok b : settles (Ok b) (Ok b).
Proof. split; [done|by left]. Qed.

Lemma settles_any {A} (f f' : A → result bool) l :
  Forall (λ x, settles (f x) (f' x)) l → settles (any_lazy f l) (any_lazy f' l).
Proof.
  induction 1 as [|x l [Hok Hx] _ IH]; simpl; [apply settles_ok|].
  destruct (f' x) as [b|]; [|done]. destruct Hx as [-> | ->].
  - simpl. destruct b; [apply settles_ok|exact IH].
  - simpl. split; [|by right]. destruct b; [done|apply IH].
Qed.

Lemma settles_all {A} (f f' : A → result bool) l :
  Forall (λ x, settles (f x) (f' x)) l → settles (all_lazy f l) (all_lazy f' l).
Proof.
  induction 1 as [|x l [Hok Hx] _ IH]; simpl; [apply settles_ok|].
  destruct (f' x) as [b|]; [|done]. destruct Hx as [-> | ->].
  - simpl. destruct b; [exact IH|apply settles_ok].
  - simpl. split; [|by right]. destruct b; [apply IH|done].
Qed.

Lemma settles_operator o a e :
  resolves → settles (operators (H := E) o a e) (operators (H := total_engine) o a e).
Proof.
  intros Hr. destruct o; simpl; try apply settles_ok.
  unfold regex_search. destruct a as [|[| | |a]| |]; try apply settles_ok.
  destruct e as [|[| | |p]| |]; try apply settles_ok.
  unfold total_engine; simpl. destruct (rx_compiles true p); [|apply settles_ok].
  apply settles_any, Forall_forall. intros w _.
  destruct (rx_search p w) as [b|] eqn:Hw; [|split; [done|by right]].
  rewrite (Hr _ _ _ Hw). apply settles_ok.
Qed.

Lemma settles_condition c v :
  resolves →
  settles (evaluate_condition (H := E) c v) (evaluate_condition (H := total_engine) c v).
Proof.
  intros Hr.
  induction c as [f o val al an nt th IHal IHan IHnt IHth] using condition_induction. simpl.
  destruct al as [cs|]; [apply settles_all; by apply IHal|].
  destruct an as [cs|]; [apply settles_any; by apply IHan|].
  destruct nt as [c|].
  { destruct (IHnt c eq_refl) as [Hok Hc].
    destruct (evaluate_condition (H := total_engine) c v) as [b|]; [|done].
    destruct Hc as [-> | ->]; [apply settles_ok|]. split; [done|by right]. }
  destruct th as [t|]; [by apply IHth|].
  destruct f as [f|], o as [o|]; try apply settles_ok. by apply settles_operator.
Qed.
End resolution.

(** *** Without timeouts nothing is raised *)

Lemma all_lazy_total {A} (f : A → result bool) l :
  Forall (λ x, is_ok (f x) = true) l → is_ok (all_lazy f l) = true.
Proof. induction 1 as [|x l Hx _ IH]; simpl; [done|]. by destruct (f x) as [[]|]. Qed.

Lemma any_lazy_total {A} (f : A → result bool) l :
  Forall (λ x, is_ok (f x) = true) l → is_ok (any_lazy f l) = true.
Proof. induction 1 as [|x l Hx _ IH]; simpl; [done|]. by destruct (f x) as [[]|]. Qed.

Lemma evaluate_no_timeout `{E : RegexEngine} c v :
  (∀ p w, rx_search p w ≠ None) → ∃ b, evaluate_condition c v = Ok b.
Proof.
  intros Hnt. cut (is_ok (evaluate_condition c v) = true).
  { destruct (evaluate_condition c v) as [b|]; [by exists b|done]. }
  induction c as [f o val al an nt th IHal IHan IHnt IHth] using condition_induction. simpl.
  destruct al as [cs|]; [by apply all_lazy_total, IHal|].
  destruct an as [cs|]; [by apply any_lazy_total, IHan|].
  destruct nt as [c|]; [specialize (IHnt c eq_refl); by destruct (evaluate_condition c v)|].
  destruct th as [t|]; [by apply IHth|].
  destruct f as [f|], o as [o|]; try done. destruct o; try done. simpl. unfold regex_search.
  destruct (resolve_field f v) as [|[| | |a]| |]; try done.
  destruct (value_py val) as [|[| | |p]| |]; try done.
  destruct (rx_compiles true p); [|done]. apply any_lazy_total, Forall_forall. intros w _.
  specialize (Hnt p w). by destruct (rx_search p w).
Qed.

(** ** Properties *)

(** A comparison the rule validator rejects could not have fired: with a
    field that is not in the model, or a value of a kind the field never holds,
    equality, numeric and text operators are all false on every event.  (Python
    has [1 == True], so a boolean value is the exception.) *)
Theorem rejected_comparison_never_matches iso e f i :
  match od_get event_fields f with Some kinds => compatible kinds i | None => false end = false →
  (∀ b, i ≠ SBool b) →
  let a := resolve_field f (model_dump iso e) in
  py_eq a (PScalar i) = false ∧ contains a (PScalar i) = false ∧
  (∀ cmp, numeric_compare a (PScalar i) cmp = false).
Proof.
  intros Hc Hb a. destruct (resolved_cases iso e f) as [Ha|[(d & Ha)|[(t & Ha & Hk)|(n & Ha & Hk)]]];
    fold a in Ha; rewrite Ha; try rewrite Hk in Hc;
    destruct i as [b|z|q|u]; try done; by destruct (Hb b).
Qed.

Lemma rejected_comparison_never_matches_witness :
  let e := mkEvent (mkDatetime 0 (Some 0)) (mkEventMeta "" EVENT PROCESS "a" SUCCESS 1)
             (mkHost "h") no_peer no_peer no_process None "m" in
  py_eq (resolve_field "event.severity" (model_dump str_of_int e)) (PScalar (SStr "1")) = false.
Proof.
  intros e. apply (rejected_comparison_never_matches str_of_int e "event.severity" (SStr "1")).
  - reflexivity.
  - discriminate.
Defined.

(** C12: evaluation is total on event data and never guesses: the only
    exception it lets out is [EvaluationIncomplete], and an answer it does give
    is the one every resolution of the pending regex searches would give. *)
Theorem evaluation_never_guesses `{E : RegexEngine} full c v :
  resolves full →
  ∃ b, evaluate_condition (H := total_engine full) c v = Ok b ∧
    (evaluate_condition c v = Ok b ∨ evaluate_condition c v = Raise EvaluationIncomplete).
Proof.
  intros Hr. destruct (settles_condition full c v Hr) as [Hok Hs].
  destruct (evaluate_condition (H := total_engine full) c v) as [b|]; [|done]. by exists b.
Qed.

(** An engine that times out on texts beginning with "x" and otherwise
    searches the pattern literally. *)
Definition slow_engine : RegexEngine :=
  {| rx_compiles := λ _ _, true;
     rx_search := λ p w, if String.prefix "x" w then None else Some (str_contains p w) |}.

Lemma evaluation_never_guesses_witness :
  let c := all_of [on_field "a" REGEX (VScalar (SStr "p")); on_field "b" EQUALS (VScalar (SInt 1))] in
  let v := PDict [("a", PScalar (SStr "xp")); ("b", PScalar (SInt 1))] in
  evaluate_condition (H := slow_engine) c v = Raise EvaluationIncomplete ∧
  ∃ b, evaluate_condition (H := total_engine (E := slow_engine) str_contains) c v = Ok b.
Proof.
  intros c v. split; [reflexivity|].
  destruct (evaluation_never_guesses (E := slow_engine) str_contains c v) as (b & Hb & _).
  - intros p w b. cbn [rx_search slow_engine]. destruct (String.prefix "x" w); congruence.
  - exists b. exact Hb.
Defined.
