(* ===== verification/Engine.v ===== *)
(** * The detection engine ([detection/engine.py])

    The engine evaluates each event against the enabled rules its action index
    selects, keeps one sliding window of event instants per threshold rule and
    group, and builds a [Detection] for every rule that fires.  A rule whose
    evaluation runs out of time fires.  [scan_all] is the reference engine
    without the index and without its cache. *)

From S2P Require Import Prelude ODict Window PyText IpAddress Events Rules Evaluator.
Local Open Scope string_scope.
Local Open Scope Z_scope.

Definition ACTION_FIELD : string := "event.action".
Definition MAX_CACHED_ACTIONS : Z := 1024.
Definition IPV6_SUBSCRIBER_PREFIX : Z := 64.
Definition DEFAULT_MAX_THRESHOLD_GROUPS : Z := 100000.

(** ** Threshold buckets *)

(** [str(value)] of what a group field can hold (text or an integer) *)
Definition group_text (v : pyval) : string :=
  match v with
  | PScalar (SStr s) => s
  | PScalar (SInt n) => str_of_int n
  | PScalar (SBool b) => if b then "True" else "False"
  | _ => ""
  end.

(** [_group_key] *)
Definition group_key (v : pyval) : string :=
  let text := group_text v in
  match ip_address text with
  | Raise _ => text
  | Ok (IPv6 n scope) =>
      match ipv4_mapped n with
      | Some v4 => ip_str (IPv4 v4)
      | None => network6 n scope IPV6_SUBSCRIBER_PREFIX
      end
  | Ok (IPv4 _) => text
  end.

(** ** The action index *)

Definition scalar_strings (l : list scalar) : option (list string) :=
  mapM (λ s, match s with SStr s => Some s | _ => None end) l.

(** [_field_actions] *)
Definition field_actions (c : Condition) : option (gset string) :=
  if negb (bool_decide (field c = Some ACTION_FIELD)) then None
  else match op c, value c with
       | Some EQUALS, Some (VScalar (SStr s)) => Some {[ s ]}
       | Some IN, Some (VList l) =>
           match scalar_strings l with Some ss => Some (list_to_set ss) | None => None end
       | _, _ => None
       end.

Definition intersection_of (sets : list (gset string)) : option (gset string) :=
  match sets with [] => None | s :: sets' => Some (foldl (∩) s sets') end.

Definition union_of (sets : list (gset string)) : option (gset string) :=
  match sets with [] => None | _ => Some (⋃ sets) end.

(** [required_actions] *)
Fixpoint required_actions (c : Condition) : option (gset string) :=
  match c with
  | mkCondition f o v al an nt th =>
      match f, al, an, th with
      | Some _, _, _, _ => field_actions c
      | None, Some cs, _, _ => intersection_of (omap id (map required_actions cs))
      | None, None, Some cs, _ =>
          match mapM id (map required_actions cs) with
          | Some branches => union_of branches
          | None => None
          end
      | None, None, None, Some t => required_actions (th_match t)
      | None, None, None, None => None
      end
  end.

(** ** Detections *)

Record Detection := mkDetection {
  det_rule_id : string;
  det_title : string;
  det_severity : Z;
  det_attack : list string;
  det_nist_csf : list string;
  det_d3fend : list string;
  det_event_id : string;
  det_host : string;
  det_timestamp : datetime;
  det_message : string;
}.

(** [_build] *)
Definition build (r : Rule) (e : Event) (complete : bool) : Detection :=
  let techniques := str_join "," (rule_attack r) in
  let note := if complete then "" else " (evaluation incomplete: a pattern timed out; review)" in
  mkDetection (rule_id r) (rule_title r) (rule_severity r) (rule_attack r) (rule_nist_csf r)
    (rule_d3fend r) (em_id (ev_event e)) (host_name (ev_host e)) (ev_timestamp e)
    (rule_title r +:+ " [" +:+ techniques +:+ "] — " +:+ em_action (ev_event e) +:+ " on "
       +:+ host_name (ev_host e) +:+ note).

(** ** The engine *)

Abbreviation window_key := (string * string)%type.
Abbreviation windows := (odict window_key (list Z)).

Record DetectionEngine := mkEngine {
  eng_rules : list Rule;
  eng_rule_actions : list (Rule * option (gset string));
  eng_candidates : odict string (list Rule);
  eng_max_groups : Z;
  eng_windows : windows;
  eng_evaluations : Z;
  eng_fired : Z;
  eng_incomplete : Z;
}.

(** [__init__] *)
Definition new_engine (rules : list Rule) (max_threshold_groups : Z) : DetectionEngine :=
  let enabled := filter (λ r, rule_enabled r = true) rules in
  mkEngine enabled (map (λ r, (r, required_actions (rule_condition r))) enabled) []
    max_threshold_groups [] 0 0 0.

Definition selects (action : string) (actions : option (gset string)) : bool :=
  match actions with None => true | Some s => bool_decide (action ∈ s) end.

(** [_candidates_for]: the candidates and the updated cache. *)
Definition candidates_for (action : string) (g : DetectionEngine)
    : list Rule * odict string (list Rule) :=
  match od_get (eng_candidates g) action with
  | Some cached => (cached, eng_candidates g)
  | None =>
      let candidates := map fst (filter (λ ra, selects action ra.2 = true) (eng_rule_actions g)) in
      (candidates,
       if len (eng_candidates g) <? MAX_CACHED_ACTIONS
       then od_set (eng_candidates g) action candidates else eng_candidates g)
  end.

(** [_window_for]: the key's window and the updated dict. *)
Definition window_for (max_groups : Z) (key : window_key) (ws : windows)
    : result (list Z * windows) :=
  match od_get ws key with
  | Some window => Ok (window, ws)
  | None =>
      ws ← (if max_groups <=? len ws then od_pop_oldest ws else Ok ws);
      Ok ([], od_set ws key [])
  end.

(** What a match at [moment] does to its window, and whether it fires. *)
Definition window_step (count period moment : Z) (window : list Z) : bool * list Z :=
  let window := drop_stale (moment - period) (window ++ [moment])%list in
  if count <=? len window then (true, []) else (false, window).

Section engine.
Context `{RegexEngine} (isoformat : Z → string).

(** [_threshold_fires] *)
Definition threshold_fires (max_groups : Z) (rid : string) (t : Threshold) (e : Event)
    (view : pyval) (ws : windows) : result (bool * windows) :=
  matched ← evaluate_condition (th_match t) view;
  if negb matched then Ok (false, ws) else
  match resolve_field (th_group_by t) view with
  | PNone => Ok (false, ws)
  | group =>
      let key := (rid, group_key group) in
      '(window, ws) ← window_for max_groups key ws;
      let '(fired, window) := window_step (th_count t) (th_window_seconds t * SECOND)
                                (dt_instant (ev_timestamp e)) window in
      Ok (fired, od_set ws key window)
  end.

(** [_fires] *)
Definition fires (max_groups : Z) (r : Rule) (e : Event) (view : pyval) (ws : windows)
    : result (bool * windows) :=
  match threshold (rule_condition r) with
  | Some t => threshold_fires max_groups (rule_id r) t e view ws
  | None => b ← evaluate_condition (rule_condition r) view; Ok (b, ws)
  end.

(** The loop of [evaluate] over the candidate rules: detections, windows, and
    the number of incomplete evaluations. *)
Fixpoint evaluate_rules (max_groups : Z) (rules : list Rule) (e : Event) (view : pyval)
    (ws : windows) : result (list Detection * windows * Z) :=
  match rules with
  | [] => Ok ([], ws, 0)
  | r :: rules' =>
      '(fired, complete, ws) ←
        match fires max_groups r e view ws with
        | Ok (b, ws) => Ok (b, true, ws)
        | Raise EvaluationIncomplete => Ok (true, false, ws)
        | Raise exc => Raise exc
        end;
      '(ds, ws, n) ← evaluate_rules max_groups rules' e view ws;
      Ok (if fired : bool then build r e complete :: ds else ds, ws,
          if complete : bool then n else n + 1)
  end.

(** [evaluate] *)
Definition evaluate (e : Event) (g : DetectionEngine) : result (list Detection * DetectionEngine) :=
  let '(candidates, cache) := candidates_for (em_action (ev_event e)) g in
  let g := mkEngine (eng_rules g) (eng_rule_actions g) cache (eng_max_groups g) (eng_windows g)
             (eng_evaluations g + 1) (eng_fired g) (eng_incomplete g) in
  match candidates with
  | [] => Ok ([], g)
  | _ =>
      '(ds, ws, n) ← evaluate_rules (eng_max_groups g) candidates e (model_dump isoformat e)
                       (eng_windows g);
      Ok (ds, mkEngine (eng_rules g) (eng_rule_actions g) (eng_candidates g) (eng_max_groups g) ws
                (eng_evaluations g) (eng_fired g + len ds) (eng_incomplete g + n))
  end.

(** [stats] *)
Record engine_stats := mkEngineStats {
  es_rules : Z; es_evaluations : Z; es_fired : Z; es_incomplete : Z; es_threshold_groups : Z;
}.

Definition engine_stats_of (g : DetectionEngine) : engine_stats :=
  mkEngineStats (len (eng_rules g)) (eng_evaluations g) (eng_fired g) (eng_incomplete g)
    (len (eng_windows g)).

Fixpoint evaluate_all (es : list Event) (g : DetectionEngine)
    : result (list (list Detection) * DetectionEngine) :=
  match es with
  | [] => Ok ([], g)
  | e :: es' =>
      '(ds, g) ← evaluate e g;
      '(dss, g) ← evaluate_all es' g;
      Ok (ds :: dss, g)
  end.

(** *** The reference engine: every enabled rule, for every event *)

Fixpoint scan_all (max_groups : Z) (rules : list Rule) (es : list Event) (ws : windows)
    : result (list (list Detection) * windows) :=
  match es with
  | [] => Ok ([], ws)
  | e :: es' =>
      '(ds, ws, _) ← evaluate_rules max_groups rules e (model_dump isoformat e) ws;
      '(dss, ws) ← scan_all max_groups rules es' ws;
      Ok (ds :: dss, ws)
  end.
End engine.

Local Close Scope string_scope.

(** ** The index is sound *)

Lemma all_lazy_true {A} (f : A → result bool) l :
  all_lazy f l = Ok true → Forall (λ x, f x = Ok true) l.
Proof.
  induction l as [|x l IH]; simpl; [done|]. rewrite result_bind_ok.
  intros ([] & Hx & Hl); [|done]. constructor; auto.
Qed.

Lemma any_lazy_true {A} (f : A → result bool) l :
  any_lazy f l = Ok true → ∃ x, x ∈ l ∧ f x = Ok true.
Proof.
  induction l as [|x l IH]; simpl; [done|]. rewrite result_bind_ok.
  intros ([] & Hx & Hl); [exists x; split; [by left|done]|].
  destruct (IH Hl) as (y & ? & ?). exists y. split; [by right|done].
Qed.

Lemma intersection_of_elem sets s a :
  intersection_of sets = Some s → Forall (λ t, a ∈ t) sets → a ∈ s.
Proof.
  destruct sets as [|t sets]; simpl; [done|]. intros [= <-] [Ht Hall]%Forall_cons.
  revert t Ht. induction Hall as [|u sets Hu _ IH]; intros t Ht; simpl; [done|].
  apply IH. set_solver.
Qed.

Lemma union_of_elem sets s t a : union_of sets = Some s → t ∈ sets → a ∈ t → a ∈ s.
Proof.
  intros Hs Ht Ha. destruct sets as [|u sets]; [by apply elem_of_nil in Ht|].
  assert (a ∈ ⋃ (u :: sets)) as Hin by (apply elem_of_union_list; eauto).
  by injection Hs as <-.
Qed.

Lemma scalar_strings_elem l ss a :
  scalar_strings l = Some ss → existsb (py_eq (PScalar (SStr a))) (PScalar <$> l) = true → a ∈ ss.
Proof.
  unfold scalar_strings. revert ss. induction l as [|s l IH]; intros ss; csimpl; [by intros [= <-]|].
  destruct s as [| | |u]; try done. destruct (mapM _ l) as [ss'|]; [|done]. simpl.
  intros [= <-] [Hau|Hin]%orb_true_iff; [|right; by apply IH].
  apply String.eqb_eq in Hau as ->. by left.
Qed.

Lemma valid_children_all cs : valid_condition (all_of cs) = true → Forall (λ c, valid_condition c = true) cs.
Proof.
  unfold all_of. simpl. rewrite !andb_true_iff. intros Hv.
  apply forallb_Forall. tauto.
Qed.

Lemma valid_children_any cs : valid_condition (any_of cs) = true → Forall (λ c, valid_condition c = true) cs.
Proof.
  unfold any_of. simpl. rewrite !andb_true_iff. intros Hv.
  apply forallb_Forall. tauto.
Qed.

Lemma valid_threshold_match t : valid_condition (threshold_of t) = true → valid_condition (th_match t) = true.
Proof. unfold threshold_of. simpl. rewrite !andb_true_iff. tauto. Qed.

Section index.
Context `{E : RegexEngine}.

Lemma field_actions_sound f o v view a s :
  resolve_field ACTION_FIELD view = PScalar (SStr a) →
  evaluate_condition (on_field f o v) view = Ok true →
  field_actions (on_field f o v) = Some s → a ∈ s.
Proof.
  unfold field_actions. simpl. intros Ha. case_bool_decide as Hf; [|done]. simpl.
  injection Hf as ->. rewrite Ha.
  destruct o; try done; destruct v as [[| | |u]|l]; try done; simpl.
  - intros [= Heq] [= <-]. apply String.eqb_eq in Heq as ->. set_solver.
  - intros [= Heq]. destruct (scalar_strings l) as [ss|] eqn:Hss; [|done]. intros [= <-].
    apply elem_of_list_to_set. by eapply scalar_strings_elem.
Qed.

Lemma required_actions_sound c view a s :
  resolve_field ACTION_FIELD view = PScalar (SStr a) → valid_condition c = true →
  evaluate_condition c view = Ok true → required_actions c = Some s → a ∈ s.
Proof.
  intros Ha. revert s.
  induction c as [f o v al an nt th IHal IHan IHnt IHth] using condition_induction.
  intros s Hv. pose proof (valid_condition_form _ Hv) as Hform.
  inversion Hform as [f' o' v' Ht|cs|cs|c|t]; subst.
  - intros He Hs. by eapply field_actions_sound.
  - simpl. intros Hall%all_lazy_true Hs. eapply intersection_of_elem; [exact Hs|].
    apply valid_children_all in Hv. apply Forall_forall. intros t Ht.
    apply list_elem_of_omap in Ht as ([t'|] & Ht & Heq); simpl in Heq; [|done].
    injection Heq as ->. apply list_elem_of_In, in_map_iff in Ht as (c & Hc & Hin).
    apply list_elem_of_In in Hin. specialize (IHal _ eq_refl). rewrite Forall_forall in *. eauto.
  - simpl. intros (c & Hin & Hc)%any_lazy_true.
    destruct (mapM id (map required_actions cs)) as [branches|] eqn:Hbr; [|done]. intros Hs.
    apply valid_children_any in Hv. rewrite Forall_forall in Hv. specialize (IHan _ eq_refl).
    rewrite Forall_forall in IHan. apply mapM_Some in Hbr.
    assert (∃ t, required_actions c = Some t ∧ t ∈ branches) as (t & Hrt & Ht).
    { apply list_elem_of_lookup in Hin as [i Hi].
      assert (map required_actions cs !! i = Some (required_actions c)) as Hm
        by (change (map required_actions cs) with (required_actions <$> cs);
            by rewrite list_lookup_fmap, Hi).
      destruct (Forall2_lookup_l _ _ _ _ _ Hbr Hm) as (t & Hti & Heq).
      exists t. split; [exact Heq|]. by eapply list_elem_of_lookup_2. }
    eapply union_of_elem; [exact Hs|exact Ht|]. exact (IHan c Hin t (Hv c Hin) Hc Hrt).
  - done.
  - simpl. intros He Hs. apply valid_threshold_match in Hv. exact (IHth t eq_refl s Hv He Hs).
Qed.

Lemma evaluate_condition_cases c view :
  (∃ b, evaluate_condition c view = Ok b) ∨ evaluate_condition c view = Raise EvaluationIncomplete.
Proof.
  destruct (settles_condition (λ p w, default false (rx_search p w)) c view) as [Hok Hs].
  { intros p w b Hb. by rewrite Hb. }
  destruct (evaluate_condition (H := total_engine _) c view) as [b|]; [|done].
  destruct Hs as [Hs|Hs]; [left; eauto|by right].
Qed.
End index.

(** ** The windows stay bounded *)

Definition windows_bounded (max_groups : Z) (ws : windows) : Prop :=
  NoDup (od_keys ws) ∧ len ws ≤ max_groups ∧
  Forall (λ kw, len kw.2 < MAX_THRESHOLD_COUNT) ws.

Definition valid_rule (r : Rule) : Prop := valid_condition (rule_condition r) = true.

Lemma window_for_bounded max key ws :
  1 ≤ max → windows_bounded max ws →
  ∃ w ws', window_for max key ws = Ok (w, ws') ∧ windows_bounded max ws' ∧
    key ∈ od_keys ws' ∧ len w < MAX_THRESHOLD_COUNT.
Proof.
  intros Hmax (Hnd & Hlen & Hall). unfold window_for.
  destruct (od_get ws key) as [w|] eqn:Hget.
  - exists w, ws. split_and!; [done..| |].
    + by apply od_get_is_Some; exists w.
    + apply od_get_elem_of in Hget. by apply (proj1 (Forall_forall _ _) Hall) in Hget.
  - assert (∃ ws1, (if max <=? len ws then od_pop_oldest ws else Ok ws) = Ok ws1 ∧
      len ws1 < max ∧ NoDup (od_keys ws1) ∧ Forall (λ kw, len kw.2 < MAX_THRESHOLD_COUNT) ws1)
      as (ws1 & -> & Hlt & Hnd1 & Hall1).
    { destruct (max <=? len ws) eqn:Hfull; reflect_bools; [|by exists ws].
      destruct ws as [|kw ws]; [unfold len in Hfull; simpl in Hfull; lia|].
      exists ws. unfold od_keys in Hnd. csimpl in Hnd. rewrite len_cons in Hlen.
      apply NoDup_cons in Hnd as [_ Hnd]. apply Forall_cons in Hall as [_ Hall].
      split_and!; [done|lia|done|done]. }
    simpl. exists [], (od_set ws1 key []). split; [done|].
    split; [split_and!|split].
    + by apply od_set_NoDup.
    + pose proof (od_set_length ws1 key []) as Hs. unfold len in *. case_decide; lia.
    + by apply od_set_Forall.
    + apply od_keys_set_elem. by left.
    + done.
Qed.

Lemma window_step_short count period m w :
  1 ≤ count ≤ MAX_THRESHOLD_COUNT →
  len (window_step count period m w).2 < MAX_THRESHOLD_COUNT ∧
  len (window_step count period m w).2 < count.
Proof.
  intros Hc. unfold window_step. destruct (_ <=? _) eqn:Hf; reflect_bools; simpl.
  - rewrite len_nil. unfold MAX_THRESHOLD_COUNT in *. lia.
  - lia.
Qed.

Lemma od_set_bounded max key w ws :
  windows_bounded max ws → key ∈ od_keys ws → len w < MAX_THRESHOLD_COUNT →
  windows_bounded max (od_set ws key w).
Proof.
  intros (Hnd & Hlen & Hall) Hin Hw. split_and!; [by apply od_set_NoDup| |by apply od_set_Forall].
  pose proof (od_set_length ws key w) as Hs. unfold len in *. case_decide; [lia|done].
Qed.

Lemma valid_threshold_count r t :
  valid_rule r → threshold (rule_condition r) = Some t →
  1 ≤ th_count t ≤ MAX_THRESHOLD_COUNT ∧ rule_condition r = threshold_of t.
Proof.
  unfold valid_rule. intros Hv Ht. pose proof (valid_condition_form _ Hv) as Hform.
  inversion Hform as [f o v Hop Heq|cs Heq|cs Heq|c Heq|t' Heq];
    rewrite <-Heq in *; simpl in Ht; try done.
  injection Ht as ->. split; [|done]. unfold threshold_of in Hv; simpl in Hv.
  rewrite !andb_true_iff in Hv. unfold valid_threshold_fields, between in Hv.
  rewrite !andb_true_iff, !Z.leb_le in Hv. lia.
Qed.

Section facts.
Context `{E : RegexEngine} (iso : Z → string).

(** The two ways the evaluation of one rule ends. *)
Lemma fires_cases max r e view ws :
  1 ≤ max → valid_rule r → windows_bounded max ws →
  (∃ b ws', fires max r e view ws = Ok (b, ws') ∧ windows_bounded max ws') ∨
  fires max r e view ws = Raise EvaluationIncomplete.
Proof.
  intros Hmax Hv Hws. unfold fires.
  destruct (threshold (rule_condition r)) as [t|] eqn:Ht.
  - apply valid_threshold_count in Ht as [Hcount _]; [|done]. unfold threshold_fires.
    destruct (evaluate_condition_cases (th_match t) view) as [[b ->]| ->]; [|by right]. left. simpl.
    destruct b; simpl; [|by eauto].
    assert (∀ v, ∃ b ws',
      ('(window, ws0) ← window_for max (rule_id r, group_key v) ws;
       let '(fired, window0) := window_step (th_count t) (th_window_seconds t * SECOND)
           (dt_instant (ev_timestamp e)) window in
       Ok (fired, od_set ws0 (rule_id r, group_key v) window0)) = Ok (b, ws')
      ∧ windows_bounded max ws') as Hstep.
    { intros v. destruct (window_for_bounded max (rule_id r, group_key v) ws Hmax Hws)
        as (w & ws1 & -> & Hb & Hin & Hw). simpl.
      pose proof (window_step_short (th_count t) (th_window_seconds t * SECOND)
        (dt_instant (ev_timestamp e)) w Hcount) as [Hshort _].
      destruct (window_step _ _ _ _) as [fired w']. eexists _, _. split; [done|].
      by apply od_set_bounded. }
    destruct (resolve_field (th_group_by t) view); [by eauto|apply Hstep..].
  - destruct (evaluate_condition_cases (rule_condition r) view) as [[b ->]| ->]; [|by right].
    left. simpl. eauto.
Qed.

Lemma evaluate_rules_ok max rules e view ws :
  1 ≤ max → Forall valid_rule rules → windows_bounded max ws →
  ∃ ds ws' n, evaluate_rules max rules e view ws = Ok (ds, ws', n) ∧ windows_bounded max ws' ∧
    0 ≤ n ≤ len ds ∧ len ds ≤ len rules.
Proof.
  intros Hmax Hall. revert ws. induction Hall as [|r rules Hr _ IH]; intros ws Hws; simpl.
  { eexists _, _, _. split; [done|]. split; [done|]. unfold len; simpl; lia. }
  destruct (fires_cases max r e view ws Hmax Hr Hws) as [(b & ws1 & -> & Hws1)| ->]; simpl.
  - destruct (IH ws1 Hws1) as (ds & ws' & n & -> & ? & ? & ?); simpl.
    eexists _, _, _. split; [done|]. split; [done|]. destruct b; rewrite ?len_cons; lia.
  - destruct (IH ws Hws) as (ds & ws' & n & -> & ? & ? & ?); simpl.
    eexists _, _, _. split; [done|]. split; [done|]. rewrite !len_cons; lia.
Qed.
End facts.

(** ** The engine's invariant *)

Section runs.
Context `{E : RegexEngine} (iso : Z → string).

Definition enabled_rules (rules : list Rule) : list Rule := filter (λ r, rule_enabled r = true) rules.

(** The candidates for an action, computed afresh. *)
Definition selected (action : string) (rules : list Rule) : list Rule :=
  filter (λ r, selects action (required_actions (rule_condition r)) = true) rules.

Record engine_ok (rules : list Rule) (max : Z) (g : DetectionEngine) : Prop := {
  eo_rules : eng_rules g = enabled_rules rules;
  eo_actions : eng_rule_actions g
    = map (λ r, (r, required_actions (rule_condition r))) (enabled_rules rules);
  eo_max : eng_max_groups g = max;
  eo_cache : ∀ a cs, od_get (eng_candidates g) a = Some cs → cs = selected a (enabled_rules rules);
  eo_windows : windows_bounded max (eng_windows g);
}.

Lemma new_engine_ok rules max : 0 ≤ max → engine_ok rules max (new_engine rules max).
Proof. intros Hmax. split; simpl; try done. split_and!; [by constructor|done|by constructor]. Qed.

Lemma candidates_for_ok rules max g a :
  engine_ok rules max g →
  (candidates_for a g).1 = selected a (enabled_rules rules) ∧
  (∀ a' cs, od_get (candidates_for a g).2 a' = Some cs → cs = selected a' (enabled_rules rules)).
Proof.
  intros [_ Ha _ Hc _]. unfold candidates_for. destruct (od_get _ a) as [cs|] eqn:Hget; simpl.
  { split; [by apply Hc|exact Hc]. }
  assert (map fst (filter (λ ra, selects a ra.2 = true) (eng_rule_actions g))
          = selected a (enabled_rules rules)) as Hsel.
  { rewrite Ha. change (map fst) with (fmap (M := list) (@fst Rule (option (gset string)))).
    change (map (λ r, (r, required_actions (rule_condition r))))
      with (fmap (M := list) (λ r, (r, required_actions (rule_condition r)))).
    rewrite filter_fmap, <-list_fmap_compose. unfold compose. simpl. by rewrite list_fmap_id. }
  split; [done|]. intros a' cs. rewrite Hsel. destruct (_ <? _); [|apply Hc].
  rewrite od_get_set. case_decide; [intros [= <-]; by subst|apply Hc].
Qed.

Lemma evaluate_step rules max e g :
  1 ≤ max → Forall valid_rule rules → engine_ok rules max g →
  let candidates := selected (em_action (ev_event e)) (enabled_rules rules) in
  ∃ ds ws' n g', evaluate_rules max candidates e (model_dump iso e) (eng_windows g) = Ok (ds, ws', n) ∧
    evaluate iso e g = Ok (ds, g') ∧ engine_ok rules max g' ∧ eng_windows g' = ws' ∧
    eng_evaluations g' = eng_evaluations g + 1 ∧ eng_fired g' = eng_fired g + len ds ∧
    eng_incomplete g' = eng_incomplete g + n ∧ 0 ≤ n ≤ len ds.
Proof.
  intros Hmax Hv Hok candidates. pose proof Hok as [Hr Ha Hm Hc Hw].
  destruct (candidates_for_ok rules max g (em_action (ev_event e)) Hok) as [Hcand Hcache].
  assert (Forall valid_rule candidates) as Hvc.
  { apply Forall_forall. intros r Hin. apply (proj1 (Forall_forall _ _) Hv).
    apply list_elem_of_filter in Hin as [_ Hin]. by apply list_elem_of_filter in Hin as [_ Hin]. }
  destruct (evaluate_rules_ok max candidates e (model_dump iso e) (eng_windows g) Hmax Hvc Hw)
    as (ds & ws' & n & Hev & Hw' & Hn & _).
  exists ds, ws', n. unfold evaluate.
  destruct (candidates_for (em_action (ev_event e)) g) as [cs cache]. simpl in Hcand, Hcache.
  rewrite Hcand in *. fold candidates. destruct candidates as [|c candidates'] eqn:Hcs.
  - simpl in Hev. injection Hev as <- <- <-. eexists. split; [done|]. split; [done|].
    split; [by split|]. simpl. unfold len; simpl. split_and!; try done; lia.
  - simpl eng_max_groups. simpl eng_windows. rewrite Hm, Hev. simpl.
    eexists. split; [done|]. split; [done|]. split; [by split|]. simpl. split_and!; try done; lia.
Qed.

Lemma evaluate_all_ok rules max es g :
  1 ≤ max → Forall valid_rule rules → engine_ok rules max g →
  ∃ dss g', evaluate_all iso es g = Ok (dss, g') ∧ engine_ok rules max g' ∧
    length dss = length es ∧
    eng_evaluations g' = eng_evaluations g + len es ∧
    eng_fired g' = eng_fired g + len (concat dss) ∧
    eng_incomplete g ≤ eng_incomplete g' ∧
    eng_incomplete g' - eng_incomplete g ≤ eng_fired g' - eng_fired g.
Proof.
  intros Hmax Hv. revert g. induction es as [|e es IH]; intros g Hok; simpl.
  { exists [], g. unfold len; simpl. split_and!; try done; lia. }
  destruct (evaluate_step rules max e g Hmax Hv Hok)
    as (ds & ws' & n & g1 & _ & -> & Hok1 & _ & He & Hf & Hi & Hn). simpl.
  destruct (IH g1 Hok1) as (dss & g' & -> & Hok' & Hl & He' & Hf' & Hi' & Hd). simpl.
  exists (ds :: dss), g'. simpl concat. rewrite len_cons, len_app. simpl length.
  split_and!; try done; lia.
Qed.

(** *** Incomplete evaluations *)

(** A search the answer depends on ran out of time. *)
Definition undecided (view : pyval) (r : Rule) : bool :=
  match evaluate_condition (match threshold (rule_condition r) with Some t => th_match t | None => rule_condition r end) view with
  | Raise EvaluationIncomplete => true
  | _ => false
  end.

(** Each candidate rule an event leaves undecided *)
Definition undecided_rules (rules : list Rule) (es : list Event) : list Rule :=
  es ≫= λ e, filter (λ r, undecided (model_dump iso e) r = true) (selected (em_action (ev_event e)) (enabled_rules rules)).

Lemma fires_undecided max r e view ws :
  match fires max r e view ws with Raise EvaluationIncomplete => true | _ => false end = undecided view r.
Proof.
  unfold fires, undecided. destruct (threshold (rule_condition r)) as [t|].
  - unfold threshold_fires. destruct (evaluate_condition (th_match t) view) as [[]|x]; cbn [mbind result_bind negb]; [|done|by destruct x].
    assert (Hw : ∀ k, match window_for max k ws with Raise EvaluationIncomplete => true | _ => false end = false).
    { intros k. unfold window_for. destruct (od_get ws k); [done|]. destruct (max <=? len ws); [|done]. by destruct ws as [|[]]. }
    destruct (resolve_field (th_group_by t) view); try done;
      match goal with |- context [window_for max ?k ws] => specialize (Hw k); destruct (window_for max k ws) as [[w ws1]|x] end;
      cbn [mbind result_bind]; try (by destruct (window_step _ _ _ _)); by destruct x.
  - destruct (evaluate_condition (rule_condition r) view) as [|x]; cbn [mbind result_bind]; [done|]. by destruct x.
Qed.

Lemma evaluate_rules_undecided max rules e view ws ds ws' n :
  evaluate_rules max rules e view ws = Ok (ds, ws', n) → n = len (filter (λ r, undecided view r = true) rules).
Proof.
  revert ws ds ws' n. induction rules as [|r rules IH]; intros ws ds ws' n; cbn [evaluate_rules]; [by intros [= _ _ <-]|].
  intros ([[fired complete] ws1] & Hf & Hrest)%result_bind_ok. apply result_bind_ok in Hrest as ([[ds1 ws2] n1] & Hev & [= _ _ <-]).
  pose proof (IH _ _ _ _ Hev) as ->. pose proof (fires_undecided max r e view ws) as Hu. rewrite filter_cons.
  destruct (fires max r e view ws) as [[b ws3]|x].
  - injection Hf as <- <- <-. by rewrite <-Hu.
  - destruct x; try done. injection Hf as <- <- <-. rewrite <-Hu, decide_True, len_cons by done. lia.
Qed.

Lemma evaluate_all_undecided rules max es g dss g' :
  1 ≤ max → Forall valid_rule rules → engine_ok rules max g → evaluate_all iso es g = Ok (dss, g') →
  eng_incomplete g' = eng_incomplete g + len (undecided_rules rules es).
Proof.
  intros Hmax Hv. revert g dss. induction es as [|e es IH]; intros g dss Hok; cbn [evaluate_all].
  { intros [= _ <-]. unfold len. cbn. lia. }
  destruct (evaluate_step rules max e g Hmax Hv Hok) as (ds & ws' & n & g1 & Hr & -> & Hok1 & _ & _ & _ & Hi & _).
  cbn [mbind result_bind]. intros ([dss1 g2] & Hall & [= _ <-])%result_bind_ok.
  rewrite (IH _ _ Hok1 Hall), Hi, (evaluate_rules_undecided _ _ _ _ _ _ _ _ Hr). unfold undecided_rules.
  rewrite bind_cons, len_app. lia.
Qed.

(** *** Rules outside the index are no-ops *)

(** The view's action is the event's. *)
Lemma view_action e : resolve_field ACTION_FIELD (model_dump iso e) = PScalar (SStr (em_action (ev_event e))).
Proof. reflexivity. Qed.

Lemma unselected_no_match r e :
  valid_rule r → selects (em_action (ev_event e)) (required_actions (rule_condition r)) = false →
  evaluate_condition (rule_condition r) (model_dump iso e) ≠ Ok true.
Proof.
  intros Hv Hs He. destruct (required_actions _) as [s|] eqn:Hreq; [|done]. simpl in Hs.
  apply bool_decide_eq_false in Hs. apply Hs.
  by eapply required_actions_sound; [apply view_action| | |].
Qed.

(** Without timeouts a rule the index leaves out changes nothing. *)
Lemma unselected_fires r e max ws :
  (∀ p w, rx_search p w ≠ None) → valid_rule r →
  selects (em_action (ev_event e)) (required_actions (rule_condition r)) = false →
  fires max r e (model_dump iso e) ws = Ok (false, ws).
Proof.
  intros Hnt Hv Hs. pose proof (unselected_no_match r e Hv Hs) as Hne.
  destruct (evaluate_no_timeout (rule_condition r) (model_dump iso e) Hnt) as [[] Hb]; [done|]. unfold fires.
  destruct (threshold (rule_condition r)) as [t|] eqn:Ht; [|by rewrite Hb].
  apply valid_threshold_count in Ht as [_ Hcond]; [|done]. rewrite Hcond in Hb. simpl in Hb.
  unfold threshold_fires. by rewrite Hb.
Qed.

Lemma evaluate_rules_selected max rules e ws :
  (∀ p w, rx_search p w ≠ None) → Forall valid_rule rules →
  evaluate_rules max (selected (em_action (ev_event e)) rules) e (model_dump iso e) ws
  = evaluate_rules max rules e (model_dump iso e) ws.
Proof.
  intros Hnt Hv. revert ws. unfold selected.
  induction Hv as [|r rules Hr _ IH]; intros ws; [done|]. rewrite filter_cons.
  destruct (selects _ _) eqn:Hsel; case_decide; try done.
  - simpl. destruct (fires _ _ _ _ _) as [[b ws1]|[]]; simpl; try done; by rewrite IH.
  - rewrite IH. simpl. rewrite unselected_fires by done. simpl.
    destruct (evaluate_rules _ _ _ _ _) as [[[ds ws1] n]|]; done.
Qed.

Lemma valid_enabled rules : Forall valid_rule rules → Forall valid_rule (enabled_rules rules).
Proof.
  intros Hv. apply Forall_forall. intros r Hin. apply (proj1 (Forall_forall _ _) Hv).
  by apply list_elem_of_filter in Hin as [_ Hin].
Qed.

Lemma evaluate_all_scan rules max es g :
  (∀ p w, rx_search p w ≠ None) → 1 ≤ max → Forall valid_rule rules → engine_ok rules max g →
  ∃ dss g', evaluate_all iso es g = Ok (dss, g') ∧
    scan_all iso max (enabled_rules rules) es (eng_windows g) = Ok (dss, eng_windows g').
Proof.
  intros Hnt Hmax Hv. revert g. induction es as [|e es IH]; intros g Hok; simpl.
  { by exists [], g. }
  destruct (evaluate_step rules max e g Hmax Hv Hok)
    as (ds & ws' & n & g1 & Hev & -> & Hok1 & <- & _). simpl.
  rewrite evaluate_rules_selected in Hev by (done || by apply valid_enabled).
  rewrite Hev. simpl. destruct (IH g1 Hok1) as (dss & g' & -> & ->). simpl. eauto.
Qed.

(** *** A rule that matches is detected *)

Lemma evaluate_rules_detects max rules e view ws r ds ws' n :
  evaluate_rules max rules e view ws = Ok (ds, ws', n) → r ∈ rules →
  threshold (rule_condition r) = None →
  (evaluate_condition (rule_condition r) view = Ok true ∨
   evaluate_condition (rule_condition r) view = Raise EvaluationIncomplete) →
  ∃ complete, build r e complete ∈ ds.
Proof.
  revert ws ds n. induction rules as [|r' rules IH]; intros ws ds n; simpl; [by intros _ ?%elem_of_nil|].
  rewrite result_bind_ok. intros ([[fired complete] ws1] & Hf & Hrest) Hin Ht He.
  apply result_bind_ok in Hrest as ([[ds1 ws2] n1] & Hev & [= <- <- <-]).
  apply elem_of_cons in Hin as [->|Hin].
  - unfold fires in Hf. rewrite Ht in Hf. destruct He as [He|He]; rewrite He in Hf; simpl in Hf;
      injection Hf as <- <- <-; by eexists; left.
  - destruct (IH _ _ _ Hev Hin Ht He) as [c Hc]. exists c. destruct fired; [by right|done].
Qed.

Lemma true_match_selected full r e :
  resolves full → valid_rule r →
  evaluate_condition (H := total_engine full) (rule_condition r) (model_dump iso e) = Ok true →
  selects (em_action (ev_event e)) (required_actions (rule_condition r)) = true.
Proof.
  intros Hres Hv He. destruct (required_actions _) as [s|] eqn:Hreq; [|done].
  apply bool_decide_eq_true.
  by eapply (required_actions_sound (E := total_engine full)); [apply view_action| | |].
Qed.

Lemma true_match_detected full rules max r e g :
  resolves full → 1 ≤ max → Forall valid_rule rules → engine_ok rules max g →
  r ∈ rules → rule_enabled r = true → threshold (rule_condition r) = None →
  evaluate_condition (H := total_engine full) (rule_condition r) (model_dump iso e) = Ok true →
  ∃ ds g', evaluate iso e g = Ok (ds, g') ∧ ∃ complete, build r e complete ∈ ds.
Proof.
  intros Hres Hmax Hv Hok Hin Hen Ht He.
  destruct (evaluate_step rules max e g Hmax Hv Hok) as (ds & ws' & n & g' & Hev & -> & _).
  exists ds, g'. split; [done|]. eapply evaluate_rules_detects; [exact Hev| |done|].
  - apply list_elem_of_filter. split; [|by apply list_elem_of_filter].
    eapply true_match_selected; [done| |done]. by apply (proj1 (Forall_forall _ _) Hv).
  - destruct (settles_condition full (rule_condition r) (model_dump iso e) Hres) as [_ Hs].
    by rewrite He in Hs.
Qed.
End runs.

(** ** Threshold windows count correctly *)

Module Threshold_spec.
(** The state of one bucket: every match since it last fired, oldest first. *)
Definition hit (count period moment : Z) (since : list Z) : bool * list Z :=
  let since := (since ++ [moment])%list in
  if count <=? len (filter (λ m, moment - period ≤ m) since) then (true, []) else (false, since).

Fixpoint run (count period : Z) (moments : list Z) (since : list Z) : list bool :=
  match moments with
  | [] => []
  | m :: moments' =>
      let '(fired, since) := hit count period m since in fired :: run count period moments' since
  end.
End Threshold_spec.

Fixpoint window_run (count period : Z) (moments : list Z) (window : list Z) : list bool :=
  match moments with
  | [] => []
  | m :: moments' =>
      let '(fired, window) := window_step count period m window in
      fired :: window_run count period moments' window
  end.

(** The engine's pruned window stands for the matches since the last firing. *)
Record window_tracks (period last : Z) (since window : list Z) : Prop := {
  wt_sorted : nondecreasing since;
  wt_past : Forall (λ m, m ≤ last) since;
  wt_window : ∃ c, c ≤ last - period ∧ window = drop_stale c since;
}.

Lemma window_step_spec count period last m since window :
  window_tracks period last since window → last ≤ m →
  let '(fired, window') := window_step count period m window in
  let '(fired', since') := Threshold_spec.hit count period m since in
  fired = fired' ∧ window_tracks period m since' window'.
Proof.
  intros [Hs Hp (c & Hc & ->)] Hm. unfold window_step, Threshold_spec.hit.
  assert (Hs' : nondecreasing (since ++ [m])%list).
  { apply StronglySorted_snoc. split; [done|]. eapply Forall_impl; [exact Hp|]. simpl; lia. }
  assert (drop_stale (m - period) (drop_stale c since ++ [m])
          = drop_stale (m - period) (since ++ [m])) as Hdrop.
  { clear Hs Hp Hs'. induction since as [|t since IH]; simpl; [done|].
    destruct (t <? c) eqn:Ht; reflect_bools; [|done].
    rewrite IH. by rewrite (proj2 (Z.ltb_lt t (m - period))) by lia. }
  rewrite Hdrop, drop_stale_sorted by done.
  destruct (count <=? _); (split; [done|]).
  - split; [constructor|constructor|]. exists (m - period). by split; [lia|].
  - split; [done| |].
    + apply Forall_app. split; [|by apply Forall_singleton].
      eapply Forall_impl; [exact Hp|]. simpl; lia.
    + exists (m - period). split; [lia|]. by rewrite drop_stale_sorted.
Qed.

Lemma window_run_spec count period last moments since window :
  window_tracks period last since window → nondecreasing (last :: moments) →
  window_run count period moments window = Threshold_spec.run count period moments since.
Proof.
  revert last since window. induction moments as [|m moments IH]; intros last since window Ht Hs;
    simpl; [done|].
  inversion Hs as [|?? Hs' Hall]; subst. apply Forall_cons in Hall as [Hm _].
  pose proof (window_step_spec count period last m since window Ht Hm) as Hstep.
  destruct (window_step _ _ _ _) as [fired w'], (Threshold_spec.hit _ _ _ _) as [fired' s'].
  destruct Hstep as [-> Ht']. f_equal. by eapply IH.
Qed.

Section threshold_runs.
Context `{E : RegexEngine} (iso : Z → string).

(** The bucket an event is counted in for a rule, if it is. *)
Definition bucket (r : Rule) (view : pyval) : option window_key :=
  t ← threshold (rule_condition r);
  match evaluate_condition (th_match t) view, resolve_field (th_group_by t) view with
  | Ok true, PNone => None
  | Ok true, group => Some (rule_id r, group_key group)
  | _, _ => None
  end.

Definition window_of (ws : windows) (k : window_key) : list Z := default [] (od_get ws k).

(** No key outside [K] is tracked. *)
Definition keys_within (K : list window_key) (ws : windows) : Prop :=
  NoDup (od_keys ws) ∧ ∀ k, k ∈ od_keys ws → k ∈ K.

Lemma window_for_within K max key ws :
  keys_within K ws → len K ≤ max → key ∈ K →
  ∃ ws', window_for max key ws = Ok (window_of ws key, ws') ∧ keys_within K ws' ∧
    ∀ k, window_of ws' k = window_of ws k.
Proof.
  intros [Hnd Hsub] HK Hkey. unfold window_for, window_of.
  destruct (od_get ws key) as [w|] eqn:Hget; [by exists ws|].
  apply od_get_None in Hget as Hnin.
  assert (len ws < max) as Hlt.
  { assert (S (length (od_keys ws)) ≤ length K)%nat as Hle.
    { change (length (key :: od_keys ws) ≤ length K)%nat.
      apply submseteq_length, NoDup_submseteq; [by constructor|].
      intros k [-> |Hk]%elem_of_cons; auto. }
    unfold od_keys in Hle. rewrite length_fmap in Hle. unfold len in *. lia. }
  rewrite (proj2 (Z.leb_gt _ _)) by lia. simpl. eexists. split; [done|]. split; [split|].
  - by apply od_set_NoDup.
  - intros k [-> |Hk]%od_keys_set_elem; auto.
  - intros k. rewrite od_get_set. case_decide; [subst; by rewrite Hget|done].
Qed.

Lemma od_set_within K key w ws :
  keys_within K ws → key ∈ K → keys_within K (od_set ws key w).
Proof.
  intros [Hnd Hsub] Hkey. split; [by apply od_set_NoDup|].
  intros k [-> |Hk]%od_keys_set_elem; auto.
Qed.

Lemma window_of_set ws key w k :
  window_of (od_set ws key w) k = if decide (key = k) then w else window_of ws k.
Proof. unfold window_of. rewrite od_get_set. by case_decide. Qed.

(** What one rule does to the windows. *)
Lemma fires_bucket K max r e view ws :
  keys_within K ws → len K ≤ max → (∀ k, bucket r view = Some k → k ∈ K) →
  match bucket r view with
  | Some k0 =>
      ∃ t ws', threshold (rule_condition r) = Some t ∧ k0.1 = rule_id r ∧
        let step := window_step (th_count t) (th_window_seconds t * SECOND)
                      (dt_instant (ev_timestamp e)) (window_of ws k0) in
        fires max r e view ws = Ok (step.1, ws') ∧ keys_within K ws' ∧
        ∀ k, window_of ws' k = if decide (k0 = k) then step.2 else window_of ws k
  | None => ∀ b ws', fires max r e view ws = Ok (b, ws') → ws' = ws
  end.
Proof.
  intros Hws HK Hin. unfold bucket, fires, threshold_fires in *.
  destruct (threshold (rule_condition r)) as [t|]; simpl in *.
  2:{ intros b ws'. rewrite result_bind_ok. by intros (? & _ & [= _ <-]). }
  destruct (evaluate_condition (th_match t) view) as [[]|]; simpl in *; [|by intros ?? [= _ <-]|done].
  assert (∀ v, (rule_id r, group_key v) ∈ K → ∃ t0 ws', Some t = Some t0 ∧ rule_id r = rule_id r ∧
    let step := window_step (th_count t0) (th_window_seconds t0 * SECOND)
        (dt_instant (ev_timestamp e)) (window_of ws (rule_id r, group_key v)) in
    ('(window, ws0) ← window_for max (rule_id r, group_key v) ws;
     let '(fired, window0) := window_step (th_count t) (th_window_seconds t * SECOND)
        (dt_instant (ev_timestamp e)) window in
     Ok (fired, od_set ws0 (rule_id r, group_key v) window0)) = Ok (step.1, ws') ∧
    keys_within K ws' ∧
    ∀ k, window_of ws' k = if decide ((rule_id r, group_key v) = k) then step.2 else window_of ws k)
    as Hstep.
  { intros v Hv. destruct (window_for_within K max _ ws Hws HK Hv) as (ws1 & -> & Hw1 & Hsame).
    simpl. exists t. destruct (window_step _ _ _ _) as [fired w']. eexists.
    split; [done|]. split; [done|]. split; [done|]. split; [by apply od_set_within|].
    intros k. rewrite window_of_set. simpl. case_decide; [done|apply Hsame]. }
  destruct (resolve_field (th_group_by t) view); [by intros ?? [= _ <-]|apply Hstep; by apply Hin..].
Qed.

Definition fired_for (rid : string) (ds : list Detection) : bool :=
  existsb (λ d, String.eqb (det_rule_id d) rid) ds.

Lemma evaluate_rules_bucket K max rules e view ws ds ws' n r t k :
  keys_within K ws → len K ≤ max →
  (∀ r', r' ∈ rules → ∀ k', bucket r' view = Some k' → k' ∈ K) →
  NoDup (rule_id <$> rules) → threshold (rule_condition r) = Some t → k.1 = rule_id r →
  (∀ r', r' ∈ rules → rule_id r' = rule_id r → r' = r) →
  evaluate_rules max rules e view ws = Ok (ds, ws', n) →
  let step := window_step (th_count t) (th_window_seconds t * SECOND)
                (dt_instant (ev_timestamp e)) (window_of ws k) in
  keys_within K ws' ∧
  (r ∈ rules → bucket r view = Some k → fired_for (rule_id r) ds = step.1 ∧ window_of ws' k = step.2) ∧
  (bucket r view ≠ Some k ∨ r ∉ rules → window_of ws' k = window_of ws k) ∧
  (r ∉ rules → fired_for (rule_id r) ds = false).
Proof.
  intros Hws HK Hin Hnd Ht Hk Huniq. revert ws Hws ds ws' n.
  induction rules as [|r0 rules IH]; intros ws Hws ds ws' n; simpl.
  { intros [= <- <- <-]. split_and!; [done| |done|done]. by intros ?%elem_of_nil. }
  rewrite result_bind_ok. intros ([[fired complete] ws1] & Hf & Hrest).
  apply result_bind_ok in Hrest as ([[ds1 ws2] n1] & Hev & [= <- <- <-]).
  csimpl in Hnd. apply NoDup_cons in Hnd as [Hr0 Hnd].
  pose proof (fires_bucket K max r0 e view ws Hws HK) as Hfb.
  specialize (Hfb (λ k', Hin r0 (list_elem_of_here _ _) k')).
  specialize (IH (λ r' Hr', Hin r' (list_elem_of_further _ _ _ Hr')) Hnd
                (λ r' Hr', Huniq r' (list_elem_of_further _ _ _ Hr'))).
  assert (keys_within K ws1 ∧ ∀ k', k'.1 ≠ rule_id r0 ∨ bucket r0 view ≠ Some k' →
            window_of ws1 k' = window_of ws k') as [Hws1 Hother].
  { destruct (bucket r0 view) as [k0|].
    - destruct Hfb as (t0 & ws' & _ & Hk0 & Hfires & Hw & Hwin). rewrite Hfires in Hf.
      injection Hf as _ _ <-. split; [done|]. intros k' Hk'. rewrite Hwin.
      rewrite decide_False; [done|]. intros ->. by destruct Hk'.
    - assert (ws1 = ws) as ->; [|done].
      destruct (fires max r0 e view ws) as [[b w]|[]]; simplify_eq/=; try done.
      by eapply Hfb. }
  specialize (IH ws1 Hws1 ds1 ws2 n1 Hev) as (Hw2 & Hhit & Hmiss & Hquiet).
  split; [done|].
  assert (Hfired : fired_for (rule_id r) (if fired then build r0 e complete :: ds1 else ds1)
    = (fired && String.eqb (rule_id r0) (rule_id r)) || fired_for (rule_id r) ds1)
    by (by destruct fired).
  rewrite Hfired. clear Hfired. destruct (decide (rule_id r0 = rule_id r)) as [Heq|Hne].
  - assert (r0 = r) as -> by (by apply Huniq; [left|]). clear Heq.
    assert (r ∉ rules) as Hnotin by (intros Hr; apply Hr0, list_elem_of_fmap; eauto).
    rewrite Hquiet, Hmiss by (by try right). rewrite String.eqb_refl, andb_true_r, orb_false_r.
    split_and!.
    + intros _ Hb. rewrite Hb in Hfb. destruct Hfb as (t0 & ws' & Ht0 & _ & Hfires & _ & Hwin).
      rewrite Ht in Ht0. injection Ht0 as <-. rewrite Hfires in Hf. injection Hf as -> _ <-.
      split; [done|]. rewrite Hwin. by rewrite decide_True.
    + intros [Hb|Hr]; [apply Hother; by right|]. destruct Hr. by left.
    + intros Hr. destruct Hr. by left.
  - rewrite (proj2 (String.eqb_neq _ _) Hne), andb_false_r, orb_false_l.
    rewrite <-(Hother k) by (left; congruence). split_and!.
    + intros [->|Hr]%elem_of_cons; [done|]. by apply Hhit.
    + intros Hb. apply Hmiss. destruct Hb as [?|Hr]; [by left|right].
      intros ?. apply Hr. by right.
    + intros Hr. apply Hquiet. intros ?. apply Hr. by right.
Qed.

(** The rule's answers on the events of one bucket, and their instants. *)
Fixpoint bucket_answers (r : Rule) (k : window_key) (es : list Event)
    (dss : list (list Detection)) : list bool :=
  match es, dss with
  | e :: es', ds :: dss' =>
      if decide (bucket r (model_dump iso e) = Some k)
      then fired_for (rule_id r) ds :: bucket_answers r k es' dss'
      else bucket_answers r k es' dss'
  | _, _ => []
  end.

Definition bucket_moments (r : Rule) (k : window_key) (es : list Event) : list Z :=
  (λ e, dt_instant (ev_timestamp e)) <$> filter (λ e, bucket r (model_dump iso e) = Some k) es.

Lemma bucket_selected r e k :
  valid_rule r → bucket r (model_dump iso e) = Some k →
  selects (em_action (ev_event e)) (required_actions (rule_condition r)) = true.
Proof.
  intros Hv Hb. destruct (selects _ _) eqn:Hs; [done|]. exfalso.
  apply (unselected_no_match iso r e Hv Hs). unfold bucket in Hb.
  destruct (threshold (rule_condition r)) as [t|] eqn:Ht; simpl in Hb; [|done].
  apply valid_threshold_count in Ht as [_ ->]; [|done]. simpl.
  by destruct (evaluate_condition (th_match t) (model_dump iso e)) as [[]|].
Qed.

Lemma evaluate_all_bucket K rules max es g r t k :
  1 ≤ max → Forall valid_rule rules → NoDup (rule_id <$> rules) →
  r ∈ rules → rule_enabled r = true → threshold (rule_condition r) = Some t → k.1 = rule_id r →
  len K ≤ max →
  (∀ e r' k', e ∈ es → r' ∈ rules → bucket r' (model_dump iso e) = Some k' → k' ∈ K) →
  engine_ok rules max g → keys_within K (eng_windows g) →
  ∃ dss g', evaluate_all iso es g = Ok (dss, g') ∧
    bucket_answers r k es dss = window_run (th_count t) (th_window_seconds t * SECOND)
      (bucket_moments r k es) (window_of (eng_windows g) k).
Proof.
  intros Hmax Hv Hnd Hr Hen Ht Hk HK Hbk. revert g. unfold bucket_moments.
  induction es as [|e es IH]; intros g Hok Hws; [by exists [], g|].
  destruct (evaluate_step iso rules max e g Hmax Hv Hok)
    as (ds & ws' & n & g1 & Hev & Hg1 & Hok1 & <- & _).
  set (cands := selected (em_action (ev_event e)) (enabled_rules rules)) in *.
  assert (Hsub : ∀ r', r' ∈ cands → r' ∈ rules).
  { intros r' Hr'. apply list_elem_of_filter in Hr' as [_ Hr'].
    by apply list_elem_of_filter in Hr' as [_ Hr']. }
  assert (Hndc : NoDup (rule_id <$> cands)).
  { eapply sublist_NoDup; [exact Hnd|]. apply fmap_sublist.
    etrans; apply sublist_filter. }
  assert (Huniq : ∀ r', r' ∈ cands → rule_id r' = rule_id r → r' = r).
  { intros r' Hr' Hid. apply list_elem_of_lookup in Hr as [i Hi].
    apply Hsub, list_elem_of_lookup in Hr' as [j Hj].
    assert (i = j) as ->; [|congruence].
    eapply (NoDup_lookup (rule_id <$> rules)); [done|by rewrite list_lookup_fmap, Hi|].
    rewrite list_lookup_fmap, Hj. by simpl; rewrite Hid. }
  destruct (evaluate_rules_bucket K max cands e (model_dump iso e) _ ds _ n r t k Hws HK
    (λ r' Hr' k' Hb, Hbk e r' k' (list_elem_of_here _ _) (Hsub r' Hr') Hb) Hndc Ht Hk Huniq Hev)
    as (Hws1 & Hhit & Hmiss & _).
  destruct (IH (λ e' r' k' He', Hbk e' r' k' (list_elem_of_further _ _ _ He')) g1 Hok1 Hws1)
    as (dss & g' & Hall & Hans).
  exists (ds :: dss), g'. simpl evaluate_all. rewrite Hg1. simpl. rewrite Hall. split; [done|].
  rewrite filter_cons. case_decide as Hb; [|].
  - assert (r ∈ cands) as Hin.
    { apply list_elem_of_filter. split; [|by apply list_elem_of_filter].
      eapply bucket_selected; [|exact Hb]. by apply (proj1 (Forall_forall _ _) Hv). }
    destruct (Hhit Hin Hb) as [-> Hw]. rewrite Hans, Hw. csimpl.
    by destruct (window_step _ _ _ _).
  - rewrite Hans. by rewrite Hmiss by (by left).
Qed.
End threshold_runs.

(** ** Group keys *)

Lemma land_high n k : 0 ≤ k → n - Z.land n (Z.ones k) = Z.shiftl (Z.shiftr n k) k.
Proof.
  intros Hk. rewrite Z.land_ones, Z.shiftl_mul_pow2, Z.shiftr_div_pow2 by done.
  pose proof (Z.div_mod n (2 ^ k)). assert (0 < 2 ^ k) by (apply Z.pow_pos_nonneg; lia). lia.
Qed.

Lemma network6_unscoped n prefix :
  0 ≤ prefix ≤ 128 →
  network6 n None prefix
  = ip_str (IPv6 (Z.shiftl (Z.shiftr n (128 - prefix)) (128 - prefix)) None)
      +:+ "/" +:+ str_of_int prefix.
Proof.
  intros Hp. unfold network6. rewrite <-land_high by lia.
  destruct (_ =? 0) eqn:Hz; [|done]. reflect_bools. by rewrite Hz, Z.sub_0_r.
Qed.

(** ** Example data *)

(** A regex engine that finds literal text and never times out. *)
Definition literal_engine : RegexEngine :=
  {| rx_compiles := λ _ _, true; rx_search := λ p w, Some (str_contains p w) |}.

Definition example_event (action : string) (ip : string) (t : Z) : Event :=
  mkEvent (mkDatetime t (Some 0)) (mkEventMeta "" EVENT AUTHENTICATION action FAILURE 3)
    (mkHost "h") (mkPeer (Some ip) None None) no_peer no_process None "m".

Definition example_rule (id : string) (c : Condition) : Rule :=
  mkRule id "t" "d" 5 ["T1110"] ["DE.CM"] [] [] c None true.

Definition brute_force : Rule := example_rule "brute-force"
  (threshold_of (mkThreshold
     (on_field "event.action" EQUALS (VScalar (SStr "ssh_login_failed"))) 60 2 "source.ip")).

Definition any_failure : Rule := example_rule "any-failure"
  (all_of [on_field "event.action" IN (VList [SStr "ssh_login_failed"; SStr "su_failed"]);
           on_field "source.ip" REGEX (VScalar (SStr "10."))]).

(** ** Properties *)

(** C7: the engine misses nothing: an enabled rule without a threshold whose
    condition holds of an event, once every regex search that ran out of time is
    settled, is reported for that event whatever came before, timeouts and the
    action index included.  (When a rule with a threshold fires is
    [threshold_fires_at_count].) *)
Theorem true_match_always_detected `{E : RegexEngine} iso full rules max r es e :
  1 ≤ max → Forall valid_rule rules → resolves full →
  r ∈ rules → rule_enabled r = true → threshold (rule_condition r) = None →
  evaluate_condition (H := total_engine full) (rule_condition r) (model_dump iso e) = Ok true →
  ∃ dss g ds g',
    evaluate_all iso es (new_engine rules max) = Ok (dss, g) ∧
    evaluate iso e g = Ok (ds, g') ∧ ∃ complete, build r e complete ∈ ds.
Proof.
  intros Hmax Hv Hres Hr Hen Ht He.
  destruct (evaluate_all_ok iso rules max es (new_engine rules max) Hmax Hv)
    as (dss & g & Hall & Hok & _); [apply new_engine_ok; lia|].
  destruct (true_match_detected iso full rules max r e g Hres Hmax Hv Hok Hr Hen Ht He)
    as (ds & g' & Hev & Hin). eauto 8.
Qed.

Lemma true_match_always_detected_witness :
  ∃ dss g ds g',
    evaluate_all (H := literal_engine) str_of_int [example_event "su_failed" "10.1.1.1" 5]
      (new_engine [brute_force; any_failure] 10) = Ok (dss, g) ∧
    evaluate (H := literal_engine) str_of_int (example_event "su_failed" "10.2.2.2" 6) g = Ok (ds, g') ∧
    ∃ complete, build any_failure (example_event "su_failed" "10.2.2.2" 6) complete ∈ ds.
Proof.
  apply (true_match_always_detected (E := literal_engine) str_of_int str_contains
    [brute_force; any_failure] 10 any_failure [example_event "su_failed" "10.1.1.1" 5]
    (example_event "su_failed" "10.2.2.2" 6)).
  - discriminate.
  - repeat constructor.
  - intros p w b Hb. injection Hb as Hb. exact Hb.
  - apply list_elem_of_further, list_elem_of_here.
  - reflexivity.
  - reflexivity.
  - vm_compute. reflexivity.
Defined.

(** C10: the action index and its cache are transparent: when no regex search
    times out, the engine reports for every event sequence exactly what an
    engine that evaluates every enabled rule on every event reports, and ends
    with the same windows. *)
Theorem index_is_transparent `{E : RegexEngine} iso rules max es :
  (∀ p w, rx_search p w ≠ None) → 1 ≤ max → Forall valid_rule rules →
  ∃ dss g, evaluate_all iso es (new_engine rules max) = Ok (dss, g) ∧
    scan_all iso max (enabled_rules rules) es [] = Ok (dss, eng_windows g).
Proof.
  intros Hnt Hmax Hv. apply (evaluate_all_scan iso rules max es (new_engine rules max)); try done.
  apply new_engine_ok. lia.
Qed.

Lemma index_is_transparent_witness :
  ∃ dss g, evaluate_all (H := literal_engine) str_of_int
      [example_event "ssh_login_failed" "10.1.1.1" 5; example_event "other" "10.1.1.1" 6]
      (new_engine [brute_force; any_failure] 10) = Ok (dss, g) ∧
    scan_all (H := literal_engine) str_of_int 10 (enabled_rules [brute_force; any_failure])
      [example_event "ssh_login_failed" "10.1.1.1" 5; example_event "other" "10.1.1.1" 6] []
      = Ok (dss, eng_windows g).
Proof.
  apply (index_is_transparent (E := literal_engine)).
  - discriminate.
  - discriminate.
  - repeat constructor.
Defined.

(** C20: the engine never raises on events and its memory is bounded: at most
    [max_threshold_groups] windows, each short of the largest count a rule may
    ask for; and its statistics are exact: the enabled rules, the events
    evaluated, the detections, the candidate rules a search that ran out of time
    left undecided, each of which is among the detections, and the windows
    held. *)
Theorem engine_total_and_bounded `{E : RegexEngine} iso rules max es :
  1 ≤ max → Forall valid_rule rules →
  ∃ dss g, evaluate_all iso es (new_engine rules max) = Ok (dss, g) ∧
    let st := engine_stats_of g in
    es_threshold_groups st = len (eng_windows g) ∧ len (eng_windows g) ≤ max ∧
    Forall (λ kw, len kw.2 < MAX_THRESHOLD_COUNT) (eng_windows g) ∧
    es_rules st = len (filter (λ r, rule_enabled r = true) rules) ∧
    es_evaluations st = len es ∧ es_fired st = len (concat dss) ∧
    es_incomplete st = len (undecided_rules iso rules es) ∧ es_incomplete st ≤ es_fired st.
Proof.
  intros Hmax Hv.
  destruct (evaluate_all_ok iso rules max es (new_engine rules max) Hmax Hv)
    as (dss & g & Hall & [Hr _ _ _ (_ & Hlen & Hw)] & _ & He & Hf & _ & Hd); [apply new_engine_ok; lia|].
  pose proof (evaluate_all_undecided iso rules max es _ _ _ Hmax Hv (new_engine_ok rules max ltac:(lia)) Hall) as Hi.
  exists dss, g. simpl in *. rewrite Hr. split_and!; try done; lia.
Qed.

Lemma engine_total_and_bounded_witness :
  ∃ dss g, evaluate_all (H := slow_engine) str_of_int
      [example_event "ssh_login_failed" "x" 5; example_event "su_failed" "x" 6]
      (new_engine [brute_force; any_failure] 1) = Ok (dss, g) ∧
    es_threshold_groups (engine_stats_of g) = len (eng_windows g) ∧ len (eng_windows g) ≤ 1.
Proof.
  destruct (engine_total_and_bounded (E := slow_engine) str_of_int [brute_force; any_failure] 1
    [example_event "ssh_login_failed" "x" 5; example_event "su_failed" "x" 6])
    as (dss & g & Hall & Hg & Hl & _).
  - discriminate.
  - repeat constructor.
  - exists dss, g. split; [exact Hall|]. split; [exact Hg|exact Hl].
Defined.

(** C8: a threshold rule fires exactly when its specification does: on the
    in-order matches of one bucket, each time [count] of the matches since the
    last firing lie within [window_seconds], as long as the buckets in use fit
    in [max_threshold_groups]. *)
Theorem threshold_fires_at_count `{E : RegexEngine} iso K rules max es r t k :
  1 ≤ max → Forall valid_rule rules → NoDup (rule_id <$> rules) →
  r ∈ rules → rule_enabled r = true → threshold (rule_condition r) = Some t → k.1 = rule_id r →
  len K ≤ max →
  (∀ e r' k', e ∈ es → r' ∈ rules → bucket r' (model_dump iso e) = Some k' → k' ∈ K) →
  nondecreasing (bucket_moments iso r k es) →
  ∃ dss g, evaluate_all iso es (new_engine rules max) = Ok (dss, g) ∧
    bucket_answers iso r k es dss
    = Threshold_spec.run (th_count t) (th_window_seconds t * SECOND) (bucket_moments iso r k es) [].
Proof.
  intros Hmax Hv Hnd Hr Hen Ht Hk HK Hbk Hs.
  destruct (evaluate_all_bucket iso K rules max es (new_engine rules max) r t k)
    as (dss & g & Hall & Hans); try done; [apply new_engine_ok; lia| |].
  { split; [apply NoDup_nil_2|]. by intros k' ?%elem_of_nil. }
  exists dss, g. split; [done|]. rewrite Hans. simpl.
  set (start := default 0 (head (bucket_moments iso r k es))).
  apply (window_run_spec _ _ start).
  - split; [constructor|constructor|]. exists (start - th_window_seconds t * SECOND). by split; [lia|].
  - by apply nondecreasing_head.
Qed.

Definition example_attack : list Event :=
  [example_event "ssh_login_failed" "10.1.1.1" 0; example_event "su_failed" "10.1.1.1" 1;
   example_event "ssh_login_failed" "10.1.1.1" (30 * SECOND)].

Lemma threshold_fires_at_count_witness :
  ∃ dss g, evaluate_all (H := literal_engine) str_of_int example_attack
      (new_engine [brute_force] 10) = Ok (dss, g) ∧
    bucket_answers (E := literal_engine) str_of_int brute_force ("brute-force", "10.1.1.1")
      example_attack dss
    = Threshold_spec.run 2 (60 * SECOND)
        (bucket_moments (E := literal_engine) str_of_int brute_force ("brute-force", "10.1.1.1")
           example_attack) [].
Proof.
  apply (threshold_fires_at_count (E := literal_engine) str_of_int [("brute-force", "10.1.1.1")]
    [brute_force] 10 example_attack brute_force
    (mkThreshold (on_field "event.action" EQUALS (VScalar (SStr "ssh_login_failed"))) 60 2 "source.ip")
    ("brute-force", "10.1.1.1")).
  - discriminate.
  - repeat constructor.
  - repeat constructor. intros Hin. by apply elem_of_nil in Hin.
  - apply list_elem_of_here.
  - reflexivity.
  - reflexivity.
  - reflexivity.
  - discriminate.
  - intros e r' k' He Hr'. apply list_elem_of_singleton in Hr' as ->.
    apply elem_of_cons in He as [->|He];
      [intros Hb; vm_compute in Hb; injection Hb as <-; apply list_elem_of_here|].
    apply elem_of_cons in He as [->|He]; [intros Hb; vm_compute in Hb; discriminate|].
    apply list_elem_of_singleton in He as ->.
    intros Hb; vm_compute in Hb; injection Hb as <-; apply list_elem_of_here.
  - vm_compute. repeat constructor; discriminate.
Defined.

(** Addresses of one subscriber share a bucket: IPv6 addresses (without a
    scope) that agree on their first 64 bits, and an IPv4-mapped address with
    its IPv4 form. *)
Theorem same_subscriber_same_bucket s t n m :
  ip_address s = Ok (IPv6 n None) → ip_address t = Ok (IPv6 m None) →
  Z.shiftr n 64 = Z.shiftr m 64 →
  (ipv4_mapped n = None → ipv4_mapped m = None →
   group_key (PScalar (SStr s)) = group_key (PScalar (SStr t))) ∧
  (∀ v4, ipv4_mapped n = Some v4 → group_key (PScalar (SStr s)) = ip_str (IPv4 v4)).
Proof.
  intros Hs Ht Hnm. unfold group_key. simpl group_text. rewrite Hs, Ht. split.
  - intros -> ->. rewrite !network6_unscoped by (unfold IPV6_SUBSCRIBER_PREFIX; lia).
    unfold IPV6_SUBSCRIBER_PREFIX. change (128 - 64) with 64. by rewrite Hnm.
  - by intros v4 ->.
Qed.

Lemma same_subscriber_same_bucket_witness :
  group_key (PScalar (SStr "2001:db8::1")) = group_key (PScalar (SStr "2001:db8::ffff:2"))
  ∧ group_key (PScalar (SStr "2001:db8::1")) = "2001:db8::/64".
Proof.
  split; [|vm_compute; reflexivity].
  apply (proj1 (same_subscriber_same_bucket "2001:db8::1" "2001:db8::ffff:2"
    42540766411282592856903984951653826561 42540766411282592856903984955948728322
    ltac:(vm_compute; reflexivity) ltac:(vm_compute; reflexivity) eq_refl)); reflexivity.
Defined.

(** A scope id escapes the bucketing when the host bits are zero. *)
Lemma scoped_address_keeps_its_scope :
  group_key (PScalar (SStr "2001:db8::%a")) = "2001:db8::%a/64" ∧
  group_key (PScalar (SStr "2001:db8::1%a")) = "2001:db8::/64".
Proof. split; vm_compute; reflexivity. Qed.

(** The index can leave out a rule whose evaluation would have timed out: the
    scanning engine reports it, the indexed one does not (the rule cannot match,
    whatever the search would have found). *)
Lemma index_skips_undecidable_rule :
  let r := example_rule "r" (all_of [on_field "source.ip" REGEX (VScalar (SStr "p"));
                                     on_field "event.action" EQUALS (VScalar (SStr "a"))]) in
  let e := example_event "b" "x" 0 in
  (∃ g, evaluate (H := slow_engine) str_of_int e (new_engine [r] 1) = Ok ([], g)) ∧
  scan_all (H := slow_engine) str_of_int 1 [r] [e] [] = Ok ([[build r e false]], []).
Proof. split; [eexists|]; reflexivity. Qed.
