(* ===== verification/Loader.v ===== *)
(** * The rule loader ([detection/loader.py])

    Reading a file, YAML and pydantic's field parsing are outside: what they
    make of a file is its [document].  The loader sorts the files, loads each
    one, rejects duplicate ids and compiles every regex; any failure is a
    [RuleLoadError] and no rule is returned. *)

From S2P Require Import Prelude ODict PyText Events Rules Evaluator Engine.
Local Open Scope Z_scope.

(** A file of the rules directory, as [yaml.safe_load] and pydantic's field
    parsing leave it. *)
Inductive document :=
  | Unreadable
  | NotAMapping
  | Unparsable
  | Parsed (r : Rule).

Definition file := (string * document)%type.

Definition is_rule_file (f : file) : bool :=
  str_endswith f.1 ".yml" || str_endswith f.1 ".yaml".

(** [sorted({*glob("*.yml"), *glob("*.yaml")})] of a directory's files *)
Definition path_le (f1 f2 : file) : Prop := String.leb f1.1 f2.1 = true.
#[export] Instance path_le_dec f1 f2 : Decision (path_le f1 f2) := decide (_ = _).
Definition rule_files (files : list file) : list file :=
  merge_sort path_le (filter (λ f, is_rule_file f = true) files).

(** [_iter_conditions] *)
Fixpoint iter_conditions (c : Condition) : list Condition :=
  match c with
  | mkCondition f o v al an nt th =>
      c :: match al with Some cs => flat_map iter_conditions cs | None => [] end
        ++ match an with Some cs => flat_map iter_conditions cs | None => [] end
        ++ match nt with Some c' => iter_conditions c' | None => [] end
        ++ match th with Some t => iter_conditions (th_match t) | None => [] end
  end.

Section loader.
Context `{RegexEngine}.

Definition regex_ok (node : Condition) : bool :=
  match op node, value node with
  | Some REGEX, Some (VScalar (SStr p)) => rx_compiles false p
  | _, _ => true
  end.

(** [_validate_regexes] *)
Definition validate_regexes (r : Rule) : result unit :=
  check_each (λ node, raise_if (negb (regex_ok node)) RuleLoadError)
    (iter_conditions (rule_condition r)).

(** [_load_one] *)
Definition load_one (f : file) : result Rule :=
  match f.2 with
  | Unreadable | NotAMapping | Unparsable => Raise RuleLoadError
  | Parsed r =>
      match validate_rule r with
      | Raise _ => Raise RuleLoadError
      | Ok r => _ ← validate_regexes r; Ok r
      end
  end.

(** The loop of [load_rules]; [ids] are the keys of [seen]. *)
Fixpoint load_files (files : list file) (ids : list string) : result (list Rule) :=
  match files with
  | [] => Ok []
  | f :: files' =>
      r ← load_one f;
      _ ← raise_if (bool_decide (rule_id r ∈ ids)) RuleLoadError;
      rs ← load_files files' (ids ++ [rule_id r]);
      Ok (r :: rs)
  end.

(** [load_rules]; [None] is a path that is not a directory. *)
Definition load_rules (dir : option (list file)) : result (list Rule) :=
  match dir with
  | None => Raise RuleLoadError
  | Some files => load_files (rule_files files) []
  end.

(** ** Lemmas *)

Lemma load_one_ok f r :
  load_one f = Ok r ↔
  f.2 = Parsed r ∧ validate_rule r = Ok r ∧
  Forall (λ node, regex_ok node = true) (iter_conditions (rule_condition r)).
Proof.
  unfold load_one. destruct (f.2) as [| | |r0]; try naive_solver.
  assert (Hv : ∀ r', validate_rule r0 = Ok r' → r' = r0)
    by (intros r'; unfold validate_rule; destruct (_ && _); congruence).
  assert (Hre : validate_regexes r0 = Ok tt ↔
    Forall (λ node, regex_ok node = true) (iter_conditions (rule_condition r0))).
  { unfold validate_regexes. rewrite check_each_ok. setoid_rewrite raise_if_ok.
    by setoid_rewrite negb_false_iff. }
  destruct (validate_rule r0) as [r1|] eqn:Hr1.
  - pose proof (Hv r1 eq_refl) as ->. rewrite result_bind_ok. split.
    + intros ([] & Hx & [= <-]). split_and!; [done..|by apply Hre].
    + intros ([= ->] & _ & Hx). exists tt. split; [by apply Hre|done].
  - split; [done|]. intros ([= ->] & Hx & _). congruence.
Qed.

Lemma load_one_error f e : load_one f = Raise e → e = RuleLoadError.
Proof.
  unfold load_one. destruct (f.2) as [| | |r]; try congruence.
  destruct (validate_rule r) as [r'|]; [|congruence]. unfold validate_regexes.
  rewrite result_bind_raise. intros [Hc|(? & _ & ?)]; [|done].
  apply check_each_raise in Hc as (_ & n & _ & _ & Hn & _). revert Hn. unfold raise_if.
  destruct (negb _); congruence.
Qed.

Lemma load_files_ok files ids rs :
  load_files files ids = Ok rs ↔
  Forall2 (λ f r, load_one f = Ok r) files rs ∧ NoDup (rule_id <$> rs) ∧
  ∀ r, r ∈ rs → rule_id r ∉ ids.
Proof.
  revert ids rs. induction files as [|f files IH]; intros ids rs; simpl.
  - split.
    + intros [= <-]. split_and!; [constructor|constructor|]. by intros r ?%elem_of_nil.
    + intros (Hf & _). by inversion Hf.
  - rewrite result_bind_ok. split.
    + intros (r & Hr & Hrest). apply result_bind_ok in Hrest as (u & Hnew & Hrest).
      apply raise_if_ok, bool_decide_eq_false in Hnew.
      apply result_bind_ok in Hrest as (rs' & Hrs & [= <-]). apply IH in Hrs as (Hf & Hnd & Hids).
      csimpl. split_and!; [by constructor| |].
      * apply NoDup_cons. split; [|done]. intros (r' & Heq & Hr')%list_elem_of_fmap.
        apply (Hids r' Hr'). rewrite Heq. apply elem_of_app. right. by left.
      * intros r' [->|Hr']%elem_of_cons; [done|]. intros Hin. apply (Hids r' Hr').
        apply elem_of_app. by left.
    + intros (Hf & Hnd & Hids). inversion Hf as [|? r ? rs' Hr Hf']; subst.
      csimpl in Hnd. apply NoDup_cons in Hnd as [Hnew Hnd]. exists r. split; [done|].
      apply result_bind_ok. exists tt. split.
      { apply raise_if_ok, bool_decide_eq_false. apply Hids. by left. }
      apply result_bind_ok. exists rs'. split; [|done]. apply IH. split_and!; [done..|].
      intros r' Hr' [Hin|Heq%list_elem_of_singleton]%elem_of_app.
      * apply (Hids r'); [by right|done].
      * apply Hnew. rewrite <-Heq. apply list_elem_of_fmap. eauto.
Qed.

Lemma load_files_error files ids e : load_files files ids = Raise e → e = RuleLoadError.
Proof.
  revert ids. induction files as [|f files IH]; intros ids; simpl; [done|].
  rewrite result_bind_raise. intros [Hf|(r & _ & Hrest)]; [by eapply load_one_error|].
  apply result_bind_raise in Hrest as [Hr|(_ & _ & Hrest)].
  { revert Hr. unfold raise_if. by case_bool_decide; intros [= <-]. }
  apply result_bind_raise in Hrest as [Hrs|(? & _ & ?)]; [by eapply IH|done].
Qed.

Lemma validate_rule_condition r r' : validate_rule r = Ok r' → valid_rule r.
Proof.
  unfold validate_rule. destruct (valid_rule_fields r && _) eqn:Hv; [|done]. intros _.
  apply andb_true_iff in Hv as [Hv _]. unfold valid_rule_fields in Hv.
  rewrite !andb_true_iff in Hv. apply Hv.
Qed.
End loader.

(** ** Properties *)

(** The library loads in full or not at all: loading succeeds exactly
    when the directory exists, every rule file holds a valid rule with regexes
    that compile, and no id is used twice; the rules are then those of the
    files in path order, and fit for the engine.  Every failure is a
    [RuleLoadError]. *)
Theorem load_all_or_nothing `{RegexEngine} dir :
  match load_rules dir with
  | Ok rules =>
      ∃ files, dir = Some files ∧
        Forall2 (λ f r, f.2 = Parsed r ∧ validate_rule r = Ok r ∧
          Forall (λ node, regex_ok node = true) (iter_conditions (rule_condition r)))
          (rule_files files) rules ∧
        NoDup (rule_id <$> rules) ∧ Forall valid_rule rules
  | Raise e =>
      e = RuleLoadError ∧
      ∀ files rules, dir = Some files →
        Forall2 (λ f r, load_one f = Ok r) (rule_files files) rules → ¬ NoDup (rule_id <$> rules)
  end.
Proof.
  destruct (load_rules dir) as [rules|e] eqn:Hl.
  - destruct dir as [files|]; [|done]. apply load_files_ok in Hl as (Hf & Hnd & _).
    exists files. split; [done|].
    assert (Hf' : Forall2 (λ f r, f.2 = Parsed r ∧ validate_rule r = Ok r ∧
      Forall (λ node, regex_ok node = true) (iter_conditions (rule_condition r)))
      (rule_files files) rules)
      by (eapply Forall2_impl; [exact Hf|]; by intros f r ?%load_one_ok).
    split_and!; [done..|]. clear -Hf'. induction Hf' as [|f r fs rs (_ & Hr & _) _ IH]; constructor;
      [by eapply validate_rule_condition|done].
  - split.
    + destruct dir as [files|]; [by eapply load_files_error|]. by injection Hl as <-.
    + intros files rules -> Hf Hnd. simpl in Hl.
      assert (load_files (rule_files files) [] = Ok rules) as Hok; [|congruence].
      apply load_files_ok. split_and!; [done..|]. by intros r _ ?%elem_of_nil.
Qed.

Example load_two_files :
  load_rules (H := literal_engine)
    (Some [("b.yml", Parsed any_failure); ("readme.md", Unreadable); ("a.yaml", Parsed brute_force)])
  = Ok [brute_force; any_failure].
Proof. vm_compute. reflexivity. Qed.
