(* ===== verification/Alerting.v ===== *)
(** * Alerts and the alert manager ([alerting/model.py], [alerting/manager.py],
    [alerting/sinks/base.py])

    [process] runs a detection through three gates (severity floor, dedup,
    per-rule throttle) and offers what passes to the lanes whose sink accepts
    it.  The dedup window is used through [DuplicateFilter]; the throttle is the
    shared [rate_step].  A lane is a bounded queue with one delivery worker, cut
    at its awaits like the pipeline's consumer.  Sinks, delivery latencies and
    the log are outside the model. *)

From S2P Require Import Prelude ODict Window PyText Dedup Queue Events Rules Engine.
Local Open Scope string_scope.
Local Open Scope Z_scope.

(** ** Alerts *)

(** [severity_label] *)
Definition severity_label (severity : Z) : string :=
  match severity with
  | 0 | 1 => "INFO"
  | 2 | 3 => "LOW"
  | 4 | 5 => "MEDIUM"
  | 6 => "HIGH"
  | 7 => "CRITICAL"
  | _ => "INFO"
  end.

Record Alert := mkAlert {
  al_dedup_key : string;
  al_rule_id : string;
  al_title : string;
  al_severity : Z;
  al_attack : list string;
  al_nist_csf : list string;
  al_event_id : string;
  al_host : string;
  al_timestamp : datetime;
  al_summary : string;
  al_notified : bool;
}.

(** [Alert.from_detection] *)
Definition from_detection (d : Detection) : Alert :=
  mkAlert (det_rule_id d +:+ "|" +:+ det_event_id d) (det_rule_id d) (det_title d)
    (det_severity d) (det_attack d) (det_nist_csf d) (det_event_id d) (det_host d)
    (det_timestamp d) (det_message d) true.

(** [model_copy(update={"notified": ...})] and [...({"summary": ...})] *)
Definition with_notified (b : bool) (a : Alert) : Alert :=
  mkAlert (al_dedup_key a) (al_rule_id a) (al_title a) (al_severity a) (al_attack a)
    (al_nist_csf a) (al_event_id a) (al_host a) (al_timestamp a) (al_summary a) b.

Definition with_summary (s : string) (a : Alert) : Alert :=
  mkAlert (al_dedup_key a) (al_rule_id a) (al_title a) (al_severity a) (al_attack a)
    (al_nist_csf a) (al_event_id a) (al_host a) (al_timestamp a) s (al_notified a).

(** ** Sinks and their lanes *)

Record AlertSink := mkSink { sink_name : string; sink_min_severity : Z }.

(** [AlertSink.__init__] *)
Definition new_sink (name : string) (min_severity : Z) : result AlertSink :=
  _ ← raise_if (String.eqb name "") ValueError;
  _ ← raise_if (negb (between 0 7 min_severity)) ValueError;
  Ok (mkSink name min_severity).

(** [AlertSink.accepts] *)
Definition accepts (s : AlertSink) (a : Alert) : bool := sink_min_severity s <=? al_severity a.

(** [_SinkLane]: its queue, whether the worker runs, the alert whose delivery
    is under way, and the counters. *)
Record SinkLane := mkLane {
  lane_sink : AlertSink;
  lane_queue : Queue Alert;
  lane_worker : bool;
  lane_in_flight : option Alert;
  lane_delivered : Z;
  lane_errors : Z;
  lane_dropped : Z;
}.

Definition new_lane (maxsize : Z) (s : AlertSink) : SinkLane :=
  mkLane s (new_queue maxsize) false None 0 0 0.

(** [_SinkLane.offer] *)
Definition offer (a : Alert) (l : SinkLane) : SinkLane :=
  match put_nowait a (lane_queue l) with
  | Ok q => mkLane (lane_sink l) q true (lane_in_flight l) (lane_delivered l) (lane_errors l)
              (lane_dropped l)
  | Raise _ => mkLane (lane_sink l) (lane_queue l) true (lane_in_flight l) (lane_delivered l)
                 (lane_errors l) (lane_dropped l + 1)
  end.

(** [_SinkLane._deliver], up to the [emit] *)
Definition deliver_take (l : SinkLane) : SinkLane :=
  match lane_worker l, lane_in_flight l, get_nowait (lane_queue l) with
  | true, None, Ok (a, q) =>
      mkLane (lane_sink l) q true (Some a) (lane_delivered l) (lane_errors l) (lane_dropped l)
  | _, _, _ => l
  end.

(** [_SinkLane._deliver], after [emit] returned ([ok]) or raised *)
Definition deliver_finish (ok : bool) (l : SinkLane) : result SinkLane :=
  match lane_in_flight l with
  | None => Ok l
  | Some _ =>
      q ← q_task_done (lane_queue l);
      Ok (mkLane (lane_sink l) q (lane_worker l) None
            (lane_delivered l + if ok then 1 else 0) (lane_errors l + if ok then 0 else 1)
            (lane_dropped l))
  end.

(** [_SinkLane.stop]: the worker is cancelled, an [emit] under way with it
    ([CancelledError] is not an [Exception]: no counter moves), and what is
    queued is counted as dropped.  The queue keeps its items. *)
Definition lane_stop (l : SinkLane) : result (Z * SinkLane) :=
  let abandoned := q_size (lane_queue l) in
  q ← match lane_in_flight l with
      | Some _ => q_task_done (lane_queue l)
      | None => Ok (lane_queue l)
      end;
  Ok (abandoned, mkLane (lane_sink l) q false None (lane_delivered l) (lane_errors l)
                   (lane_dropped l + abandoned)).

(** ** The manager *)

Record AlertManager (W : Type) := mkManager {
  am_lanes : list SinkLane;
  am_min_severity : Z;
  am_dedup : W;
  am_throttle_max : Z;
  am_throttle_window : Z;
  am_rule_throttles : odict string Throttle;
  am_rule_hits : odict string (list Z);
  am_withheld : odict string Z;
  am_emitted : Z;
  am_suppressed_severity : Z;
  am_deduped : Z;
  am_throttled : Z;
}.
Arguments mkManager {W} _ _ _ _ _ _ _ _ _ _ _ _.
Arguments am_lanes {W} _.
Arguments am_min_severity {W} _.
Arguments am_dedup {W} _.
Arguments am_throttle_max {W} _.
Arguments am_throttle_window {W} _.
Arguments am_rule_throttles {W} _.
Arguments am_rule_hits {W} _.
Arguments am_withheld {W} _.
Arguments am_emitted {W} _.
Arguments am_suppressed_severity {W} _.
Arguments am_deduped {W} _.
Arguments am_throttled {W} _.

(** [__init__] *)
Definition new_manager (sinks : list AlertSink) (min_severity dedup_window_seconds dedup_max_entries
    throttle_max throttle_window sink_queue_size : Z) (rule_throttles : odict string Throttle)
    : result (AlertManager DedupWindow) :=
  w ← new_window dedup_window_seconds dedup_max_entries;
  Ok (mkManager (map (new_lane sink_queue_size) sinks) min_severity w throttle_max throttle_window
        rule_throttles [] [] 0 0 0 0).

(** The note that states how many alerts were withheld. *)
Definition withheld_note (n : Z) : string :=
  " [+" +:+ str_of_int n +:+ " more alert(s) from this rule withheld by the throttle]".

(** [dict.pop(key, 0)] *)
Definition pop_count (d : odict string Z) (k : string) : Z * odict string Z :=
  (default 0 (od_get d k), od_del d k).

Section manager.
Context {W : Type} `{DuplicateFilter W}.
Implicit Types m : AlertManager W.

(** [_throttle_for]: maximum and window (in microseconds) for a rule *)
Definition throttle_for (rid : string) m : Z * Z :=
  match od_get (am_rule_throttles m) rid with
  | Some t => (thr_max_alerts t, thr_window_seconds t * SECOND)
  | None => (am_throttle_max m, am_throttle_window m)
  end.

(** [_is_throttled] at instant [now] *)
Definition is_throttled (now : Z) (rid : string) m : bool * odict string (list Z) :=
  let '(limit, period) := throttle_for rid m in
  let '(admitted, window) := rate_step limit period now (default [] (od_get (am_rule_hits m) rid)) in
  (negb admitted, od_set (am_rule_hits m) rid window).

(** [process]; the clock is read once by the dedup window and once by the
    throttle, here at [seen_at] and [now]. *)
Definition process (seen_at now : Z) (d : Detection) m : result (option Alert * AlertManager W) :=
  let alert := from_detection d in
  if al_severity alert <? am_min_severity m then
    Ok (None, mkManager (am_lanes m) (am_min_severity m) (am_dedup m) (am_throttle_max m)
                (am_throttle_window m) (am_rule_throttles m) (am_rule_hits m) (am_withheld m)
                (am_emitted m) (am_suppressed_severity m + 1) (am_deduped m) (am_throttled m))
  else
    '(duplicate, w) ← df_seen seen_at (al_dedup_key alert) (am_dedup m);
    if duplicate : bool then
      Ok (None, mkManager (am_lanes m) (am_min_severity m) w (am_throttle_max m)
                  (am_throttle_window m) (am_rule_throttles m) (am_rule_hits m) (am_withheld m)
                  (am_emitted m) (am_suppressed_severity m) (am_deduped m + 1) (am_throttled m))
    else
      let '(throttled, hits) := is_throttled now (al_rule_id alert) m in
      if throttled then
        let withheld := default 0 (od_get (am_withheld m) (al_rule_id alert)) + 1 in
        Ok (Some (with_notified false alert),
            mkManager (am_lanes m) (am_min_severity m) w (am_throttle_max m)
              (am_throttle_window m) (am_rule_throttles m) hits
              (od_set (am_withheld m) (al_rule_id alert) withheld)
              (am_emitted m) (am_suppressed_severity m) (am_deduped m) (am_throttled m + 1))
      else
        let '(withheld, counts) := pop_count (am_withheld m) (al_rule_id alert) in
        let alert :=
          if withheld =? 0 then alert
          else with_summary (al_summary alert +:+ withheld_note withheld) alert in
        let lanes := map (λ l, if accepts (lane_sink l) alert then offer alert l else l) (am_lanes m) in
        Ok (Some alert,
            mkManager lanes (am_min_severity m) w (am_throttle_max m) (am_throttle_window m)
              (am_rule_throttles m) hits counts (am_emitted m + 1) (am_suppressed_severity m)
              (am_deduped m) (am_throttled m)).

(** [stats] *)
Record manager_stats := mkManagerStats {
  ms_emitted : Z; ms_suppressed_severity : Z; ms_deduped : Z; ms_throttled : Z; ms_sink_errors : Z;
}.

Definition manager_stats_of m : manager_stats :=
  mkManagerStats (am_emitted m) (am_suppressed_severity m) (am_deduped m) (am_throttled m)
    (foldr Z.add 0 (lane_errors <$> am_lanes m)).

(** A call of [process]: the two clock readings and the detection. *)
Record call := mkCall { call_seen : Z; call_now : Z; call_detection : Detection }.

Fixpoint process_all (calls : list call) m : result (list (option Alert) * AlertManager W) :=
  match calls with
  | [] => Ok ([], m)
  | c :: calls' =>
      '(a, m) ← process (call_seen c) (call_now c) (call_detection c) m;
      '(l, m) ← process_all calls' m;
      Ok (a :: l, m)
  end.
End manager.

Local Close Scope string_scope.

(** ** The specification of the manager

    The answer to a call is a function of the history of earlier calls and
    answers: which alerts were sent, which withheld, which keys admitted. *)

Module Manager_spec.
Section spec.
Context (floor : Z) (cap : nat) (ttl : Z) (budget : string → Z * Z).

Abbreviation history := (list (call * option Alert)).

Definition sent_entry (rid : string) (entry : call * option Alert) : option Z :=
  match entry.2 with
  | Some a => if al_notified a && String.eqb (al_rule_id a) rid then Some (call_now entry.1) else None
  | None => None
  end.

(** When alerts of the rule were sent. *)
Definition sent (rid : string) (h : history) : list Z := omap (sent_entry rid) h.

(** How many alerts of the rule were withheld since one was last sent. *)
Definition withheld_step (rid : string) (n : Z) (entry : call * option Alert) : Z :=
  match entry.2 with
  | Some a => if String.eqb (al_rule_id a) rid then (if al_notified a then 0 else n + 1) else n
  | None => n
  end.

Definition withheld (rid : string) (h : history) : Z := foldl (withheld_step rid) 0 h.

(** The keys looked up in the dedup window. *)
Definition lookup_of (c : call) : option (Z * string) :=
  let a := from_detection (call_detection c) in
  if al_severity a <? floor then None else Some (call_seen c, al_dedup_key a).

Definition admissions (h : history) : list Spec.admission :=
  (Spec.run cap ttl (omap (λ e, lookup_of e.1) h) []).2.

Definition answer (h : history) (c : call) : option Alert :=
  let a := from_detection (call_detection c) in
  let rid := al_rule_id a in
  let '(limit, period) := budget rid in
  if al_severity a <? floor then None
  else if Spec.duplicate cap ttl (call_seen c) (al_dedup_key a) (admissions h) then None
  else if limit <=? len (filter (λ t, call_now c - period ≤ t) (sent rid h))
  then Some (with_notified false a)
  else Some (if withheld rid h =? 0 then a
             else with_summary (al_summary a +:+ withheld_note (withheld rid h)) a).

Fixpoint answers (h : history) (calls : list call) : list (option Alert) :=
  match calls with
  | [] => []
  | c :: calls' => let a := answer h c in a :: answers (h ++ [(c, a)]) calls'
  end.
End spec.
End Manager_spec.

Section manager_ok.
Context {W : Type} `{DuplicateFilter W}.
Context (floor : Z) (cap : nat) (ttl tmax twindow : Z) (overrides : odict string Throttle).
Implicit Types m : AlertManager W.

Definition budget (rid : string) : Z * Z :=
  match od_get overrides rid with
  | Some t => (thr_max_alerts t, thr_window_seconds t * SECOND)
  | None => (tmax, twindow)
  end.

(** The state after the history [h]. *)
Record manager_ok (seen_last now_last : Z) (h : list (call * option Alert)) m : Prop := {
  mo_floor : am_min_severity m = floor;
  mo_config : am_throttle_max m = tmax ∧ am_throttle_window m = twindow ∧ am_rule_throttles m = overrides;
  mo_dedup : df_tracks cap ttl seen_last (Manager_spec.admissions floor cap ttl h) (am_dedup m);
  mo_hits : ∀ rid, ∃ l, l ≤ now_last ∧
    tracks (budget rid).2 l (Manager_spec.sent rid h) (default [] (od_get (am_rule_hits m) rid));
  mo_rate : ∀ rid, within_rate (budget rid).1 (budget rid).2 (Manager_spec.sent rid h);
  mo_withheld_keys : NoDup (od_keys (am_withheld m));
  mo_withheld : ∀ rid, default 0 (od_get (am_withheld m) rid) = Manager_spec.withheld rid h;
  mo_counts : am_emitted m + am_throttled m + am_suppressed_severity m + am_deduped m = len h;
  mo_stored : am_emitted m + am_throttled m = len (omap snd h);
}.

Context (Hoverrides : ∀ rid t, od_get overrides rid = Some t → 0 ≤ thr_window_seconds t).
Context (Htwindow : 0 ≤ twindow).

Lemma budget_period rid : 0 ≤ (budget rid).2.
Proof.
  unfold budget. destruct (od_get overrides rid) as [t|] eqn:Ht; simpl; [|done].
  apply Hoverrides in Ht. unfold SECOND. lia.
Qed.

Lemma sent_snoc rid h c a :
  Manager_spec.sent rid (h ++ [(c, a)])
  = Manager_spec.sent rid h ++ option_list (Manager_spec.sent_entry rid (c, a)).
Proof. unfold Manager_spec.sent. rewrite omap_app. simpl. by destruct (Manager_spec.sent_entry _ _). Qed.

Lemma withheld_snoc rid h e :
  Manager_spec.withheld rid (h ++ [e]) = Manager_spec.withheld_step rid (Manager_spec.withheld rid h) e.
Proof. unfold Manager_spec.withheld. by rewrite foldl_app. Qed.

Lemma admissions_snoc h c a :
  Manager_spec.admissions floor cap ttl (h ++ [(c, a)])
  = match Manager_spec.lookup_of floor c with
    | Some (t, key) => Spec.observe cap ttl t key (Manager_spec.admissions floor cap ttl h)
    | None => Manager_spec.admissions floor cap ttl h
    end.
Proof.
  unfold Manager_spec.admissions. rewrite omap_app. simpl.
  destruct (Manager_spec.lookup_of floor c) as [[t key]|]; [|by rewrite app_nil_r].
  rewrite spec_run_app. done.
Qed.

Lemma stored_snoc (h : list (call * option Alert)) c a :
  len (omap snd (h ++ [(c, a)])) = len (omap snd h) + len (option_list a).
Proof. rewrite omap_app, len_app. simpl. by destruct a. Qed.

(** A call whose answer is [None] moves neither throttle nor withheld counts. *)
Lemma throttle_unmoved h c nl m :
  (∀ rid, ∃ l, l ≤ nl ∧
     tracks (budget rid).2 l (Manager_spec.sent rid h) (default [] (od_get (am_rule_hits m) rid))) →
  nl ≤ call_now c →
  ∀ rid, ∃ l, l ≤ call_now c ∧
     tracks (budget rid).2 l (Manager_spec.sent rid (h ++ [(c, None)]))
       (default [] (od_get (am_rule_hits m) rid)).
Proof.
  intros Hh Hle rid. destruct (Hh rid) as (l & Hl & Ht). exists l. split; [lia|].
  rewrite sent_snoc. simpl. by rewrite app_nil_r.
Qed.

Lemma process_discard sl nl h m c m' :
  manager_ok sl nl h m → nl ≤ call_now c →
  am_min_severity m' = floor → 
  am_throttle_max m' = tmax ∧ am_throttle_window m' = twindow ∧ am_rule_throttles m' = overrides →
  (∃ sl', sl' ≤ Z.max sl (call_seen c) ∧
     df_tracks cap ttl sl' (Manager_spec.admissions floor cap ttl (h ++ [(c, None)])) (am_dedup m')) →
  am_rule_hits m' = am_rule_hits m → am_withheld m' = am_withheld m →
  am_emitted m' = am_emitted m → am_throttled m' = am_throttled m →
  am_suppressed_severity m' + am_deduped m' = am_suppressed_severity m + am_deduped m + 1 →
  ∃ sl', sl' ≤ Z.max sl (call_seen c) ∧ manager_ok sl' (call_now c) (h ++ [(c, None)]) m'.
Proof.
  intros [Hf Hcfg Hd Hh Hr Hwk Hw Hc Hs] Hnow Hf' Hcfg' (sl' & Hsl & Hd') Hhits Hwith He Ht Hsum.
  exists sl'. split; [done|]. split; try done.
  - rewrite Hhits. by eapply throttle_unmoved.
  - intros rid. rewrite sent_snoc. simpl. rewrite app_nil_r. apply Hr.
  - by rewrite Hwith.
  - intros rid. rewrite Hwith, withheld_snoc. apply Hw.
  - rewrite len_app, len_cons, len_nil. lia.
  - rewrite stored_snoc. unfold len at 2; simpl. lia.
Qed.

(** The throttle's decision and its windows, in terms of the history. *)
Lemma is_throttled_ok sl nl h m now rid :
  manager_ok sl nl h m → nl ≤ now →
  let limit := (budget rid).1 in let period := (budget rid).2 in
  let full := limit <=? len (filter (λ t, now - period ≤ t) (Manager_spec.sent rid h)) in
  let sent' := if full then Manager_spec.sent rid h else Manager_spec.sent rid h ++ [now] in
  ∃ hits, is_throttled now rid m = (full, hits) ∧
    tracks period now sent' (default [] (od_get hits rid)) ∧ within_rate limit period sent' ∧
    ∀ rid', rid' ≠ rid → od_get hits rid' = od_get (am_rule_hits m) rid'.
Proof.
  intros [Hf (Hm1 & Hm2 & Hm3) _ Hh Hr _ _ _ _] Hnow limit period full sent'.
  assert (throttle_for rid m = (limit, period)) as Hb.
  { unfold throttle_for, limit, period, budget. rewrite Hm1, Hm2, Hm3. by destruct (od_get _ _). }
  unfold is_throttled. rewrite Hb. destruct (Hh rid) as (l & Hl & Ht).
  fold period in Ht. pose proof (budget_period rid) as Hp. fold period in Hp.
  pose proof (rate_step_tracks limit period l now _ _ Hp ltac:(lia) Ht) as Ht'.
  pose proof (rate_step_within_rate limit period l now _ _ Hp ltac:(lia) Ht (Hr rid)) as Hr'.
  assert ((rate_step limit period now (default [] (od_get (am_rule_hits m) rid))).1 = negb full) as Hfull.
  { destruct Ht as [Hs Hpast ->]. unfold rate_step, full.
    rewrite drop_stale_drop_stale, drop_stale_sorted by (done || lia). by destruct (_ <=? _). }
  destruct (rate_step _ _ _ _) as [ok w]. simpl in *. subst ok.
  eexists. split; [by rewrite negb_involutive|]. rewrite od_get_set_eq. simpl.
  unfold sent'. destruct full; simpl in *; split_and!; try done; intros; by rewrite od_get_set_ne.
Qed.

Lemma sent_entry_other rid c a :
  al_rule_id a ≠ rid → Manager_spec.sent_entry rid (c, Some a) = None.
Proof. intros Hne. unfold Manager_spec.sent_entry. simpl. by rewrite (proj2 (String.eqb_neq _ _) Hne), andb_false_r. Qed.

Lemma withheld_step_other rid n c a :
  al_rule_id a ≠ rid → Manager_spec.withheld_step rid n (c, Some a) = n.
Proof. intros Hne. unfold Manager_spec.withheld_step. simpl. by rewrite (proj2 (String.eqb_neq _ _) Hne). Qed.

(** Throttle state and withheld counts after an alert of [rid] that was sent
    ([sent_now]) or withheld. *)
Lemma process_stored sl nl h m c a m' hits sent_now :
  manager_ok sl nl h m → nl ≤ call_now c →
  al_notified a = sent_now →
  is_throttled (call_now c) (al_rule_id a) m = (negb sent_now, hits) →
  am_min_severity m' = floor →
  am_throttle_max m' = tmax ∧ am_throttle_window m' = twindow ∧ am_rule_throttles m' = overrides →
  (∃ sl', sl' ≤ Z.max sl (call_seen c) ∧
     df_tracks cap ttl sl' (Manager_spec.admissions floor cap ttl (h ++ [(c, Some a)])) (am_dedup m')) →
  am_rule_hits m' = hits →
  NoDup (od_keys (am_withheld m')) →
  (∀ rid, default 0 (od_get (am_withheld m') rid)
     = if decide (al_rule_id a = rid)
       then (if sent_now then 0 else default 0 (od_get (am_withheld m) rid) + 1)
       else default 0 (od_get (am_withheld m) rid)) →
  am_emitted m' + am_throttled m' = am_emitted m + am_throttled m + 1 →
  am_suppressed_severity m' + am_deduped m' = am_suppressed_severity m + am_deduped m →
  ∃ sl', sl' ≤ Z.max sl (call_seen c) ∧ manager_ok sl' (call_now c) (h ++ [(c, Some a)]) m'.
Proof.
  intros Hok Hnow Hn Hthr Hf' Hcfg' (sl' & Hsl & Hd') Hhits Hnd Hwith Hes Hsd.
  destruct (is_throttled_ok _ _ _ _ (call_now c) (al_rule_id a) Hok Hnow)
    as (hits' & Hthr' & Htr & Hrate & Hother). rewrite Hthr in Hthr'.
  injection Hthr' as Hfull <-. rewrite <-Hfull in *. destruct Hok as [Hf Hcfg Hd Hh Hr Hwk Hw Hc Hs].
  assert (Hsent : Manager_spec.sent (al_rule_id a) (h ++ [(c, Some a)])
    = if negb sent_now then Manager_spec.sent (al_rule_id a) h
      else Manager_spec.sent (al_rule_id a) h ++ [call_now c]).
  { rewrite sent_snoc. unfold Manager_spec.sent_entry; simpl.
    rewrite Hn, String.eqb_refl, andb_true_r. destruct sent_now; simpl; by rewrite ?app_nil_r. }
  exists sl'. split; [done|]. split; try done.
  - intros rid. rewrite Hhits. destruct (decide (al_rule_id a = rid)) as [<-|Hne].
    + exists (call_now c). rewrite Hsent. split; [lia|exact Htr].
    + destruct (Hh rid) as (l & Hl & Ht). exists l. split; [lia|].
      rewrite sent_snoc, sent_entry_other, app_nil_r, Hother by congruence. exact Ht.
  - intros rid. destruct (decide (al_rule_id a = rid)) as [<-|Hne].
    + by rewrite Hsent.
    + rewrite sent_snoc, sent_entry_other, app_nil_r by congruence. apply Hr.
  - intros rid. rewrite Hwith, withheld_snoc. case_decide as Hrid.
    + unfold Manager_spec.withheld_step; simpl. rewrite Hrid, String.eqb_refl, Hn, Hw. done.
    + by rewrite withheld_step_other, Hw.
  - rewrite len_app, len_cons, len_nil. lia.
  - rewrite stored_snoc. unfold len at 2; simpl. lia.
Qed.

Lemma finish sl h c (r : result (option Alert * AlertManager W)) a m' :
  sl ≤ call_seen c → r = Ok (a, m') →
  (∃ sl', sl' ≤ Z.max sl (call_seen c) ∧ manager_ok sl' (call_now c) h m') →
  ∃ m' sl', r = Ok (a, m') ∧ sl' ≤ call_seen c ∧ manager_ok sl' (call_now c) h m'.
Proof. intros Hsl -> (sl' & Hle & Hok). exists m', sl'. split_and!; [done|lia|done]. Qed.

Lemma process_ok sl nl h m c :
  manager_ok sl nl h m → sl ≤ call_seen c → nl ≤ call_now c →
  let a := Manager_spec.answer floor cap ttl budget h c in
  ∃ m' sl', process (call_seen c) (call_now c) (call_detection c) m = Ok (a, m') ∧
    sl' ≤ call_seen c ∧ manager_ok sl' (call_now c) (h ++ [(c, a)]) m'.
Proof.
  intros Hok Hsl Hnl a. pose proof Hok as [Hf Hcfg Hd Hh Hr Hwk Hw Hc Hs].
  subst a. unfold process, Manager_spec.answer.
  set (al := from_detection (call_detection c)). set (key := al_dedup_key al).
  assert (Hlook : Manager_spec.lookup_of floor c
    = if al_severity al <? floor then None else Some (call_seen c, key)) by done.
  destruct (budget (al_rule_id al)) as [limit period] eqn:Hb. rewrite Hf.
  destruct (al_severity al <? floor) eqn:Hsev.
  { eapply finish; [done|reflexivity|]. eapply process_discard; try done; simpl; [|lia].
    exists sl. split; [lia|]. rewrite admissions_snoc, Hlook. exact Hd. }
  destruct (df_seen_spec cap ttl sl _ _ (call_seen c) key Hd Hsl) as (w' & Hseen & Hw').
  rewrite Hseen. simpl.
  assert (Hadm : ∀ b, df_tracks cap ttl (call_seen c)
    (Manager_spec.admissions floor cap ttl (h ++ [(c, b)])) w').
  { intros b. rewrite admissions_snoc, Hlook. exact Hw'. }
  destruct (Spec.duplicate _ _ _ _ _) eqn:Hdup.
  { eapply finish; [done|reflexivity|]. eapply process_discard; try done; simpl; [|lia].
    exists (call_seen c). split; [lia|]. apply Hadm. }
  destruct (is_throttled_ok _ _ _ _ (call_now c) (al_rule_id al) Hok Hnl)
    as (hits & Hthr & _). rewrite Hb in Hthr. simpl in Hthr. rewrite Hthr.
  destruct (limit <=? _) eqn:Hfull.
  - eapply finish; [done|reflexivity|].
    eapply process_stored with (sent_now := false); try done; simpl; try done.
    + exists (call_seen c). split; [lia|]. apply Hadm.
    + by apply od_set_NoDup.
    + intros rid. simpl. rewrite od_get_set. case_decide; [by subst|done].
    + lia.
  - unfold pop_count. change (det_rule_id (call_detection c)) with (al_rule_id al).
    change (det_message (call_detection c)) with (al_summary al). rewrite (Hw (al_rule_id al)).
    set (n := Manager_spec.withheld (al_rule_id al) h).
    set (al' := if n =? 0 then al else with_summary (al_summary al +:+ withheld_note n) al).
    assert (al_rule_id al' = al_rule_id al ∧ al_notified al' = true) as [Hid Hnot]
      by (unfold al'; by destruct (n =? 0)).
    eapply finish; [done|reflexivity|]. fold al'.
    eapply process_stored with (sent_now := true); try done; simpl; try done.
    + rewrite Hid. exact Hthr.
    + exists (call_seen c). split; [lia|]. apply Hadm.
    + by apply od_del_NoDup.
    + intros rid. rewrite Hid. case_decide as Hrid.
      * subst rid. by rewrite od_get_del_eq.
      * by rewrite od_get_del_ne.
    + lia.
Qed.

(** [n] is no later than what came before and the given readings. *)
Definition no_later (n : Z) (readings : list Z) : Prop := ∀ b, Forall (λ t, t ≤ b) readings → n ≤ b.

Lemma no_later_head n l : no_later n (n :: l).
Proof. intros b Hb. by apply Forall_cons in Hb as [? _]. Qed.

Lemma no_later_step n n1 x y l : n1 ≤ x → no_later n (n1 :: l) → no_later n (y :: x :: l).
Proof.
  intros Hle Hn b [_ [Hx Hl]%Forall_cons]%Forall_cons. apply Hn. constructor; [lia|done].
Qed.

Lemma process_all_ok sl nl h m calls :
  manager_ok sl nl h m →
  nondecreasing (sl :: (call_seen <$> calls)) → nondecreasing (nl :: (call_now <$> calls)) →
  let answers := Manager_spec.answers floor cap ttl budget h calls in
  ∃ m' sl' nl', process_all calls m = Ok (answers, m') ∧
    manager_ok sl' nl' (h ++ zip calls answers) m' ∧
    no_later sl' (sl :: (call_seen <$> calls)) ∧ no_later nl' (nl :: (call_now <$> calls)).
Proof.
  revert sl nl h m. induction calls as [|c calls IH]; intros sl nl h m Hok Hs Hn; csimpl in *.
  { exists m, sl, nl. rewrite app_nil_r. split_and!; try done; apply no_later_head. }
  pose proof Hs as Hs1. inversion Hs1 as [|?? Hs2 Hsall]; subst. apply Forall_cons in Hsall as [Hsc _].
  inversion Hn as [|?? Hn2 Hnall]; subst. apply Forall_cons in Hnall as [Hnc _].
  destruct (process_ok sl nl h m c Hok Hsc Hnc) as (m1 & sl1 & -> & Hsl1 & Hok1). simpl.
  destruct (IH sl1 (call_now c) _ m1 Hok1) as (m' & sl' & nl' & -> & Hok' & Hbs & Hbn); [|done|].
  { inversion Hs2 as [|?? Hs3 Hall]; subst. constructor; [done|].
    eapply Forall_impl; [exact Hall|]. simpl; lia. }
  simpl. exists m', sl', nl'. rewrite <-app_assoc in Hok'. split_and!; [done|done|..].
  - eapply no_later_step; [exact Hsl1|exact Hbs].
  - eapply no_later_step; [apply Z.le_refl|exact Hbn].
Qed.
End manager_ok.

Lemma new_manager_ok sinks floor ttl dmax tmax twindow qsize overrides m last :
  new_manager sinks floor ttl dmax tmax twindow qsize overrides = Ok m →
  manager_ok floor (Z.to_nat dmax) ttl tmax twindow overrides last last [] m.
Proof.
  unfold new_manager. rewrite result_bind_ok. intros (w & Hw & [= <-]). split; simpl; try done.
  - by apply refines_new.
  - intros rid. exists last. split; [lia|]. apply tracks_nil.
  - by intros rid [|? pre] t post.
  - constructor.
Qed.

(** ** Lanes *)

Inductive lane_op := Offer (a : Alert) | DeliverTake | DeliverFinish (ok : bool).

Definition lane_step (l : SinkLane) (op : lane_op) : result SinkLane :=
  match op with
  | Offer a => Ok (offer a l)
  | DeliverTake => Ok (deliver_take l)
  | DeliverFinish ok => deliver_finish ok l
  end.

Fixpoint lane_run (ops : list lane_op) (l : SinkLane) : result SinkLane :=
  match ops with [] => Ok l | op :: ops' => l ← lane_step l op; lane_run ops' l end.

Definition in_flight (l : SinkLane) : Z := len (option_list (lane_in_flight l)).

Definition accounted_for (l : SinkLane) : Z :=
  lane_delivered l + lane_errors l + lane_dropped l + q_size (lane_queue l) + in_flight l.

Record lane_ok (maxsize : Z) (l : SinkLane) : Prop := {
  lo_bound : q_maxsize (lane_queue l) = maxsize;
  lo_size : q_size (lane_queue l) ≤ maxsize;
  lo_unfinished : q_unfinished (lane_queue l) = q_size (lane_queue l) + in_flight l;
}.

Definition is_offer (op : lane_op) : bool := match op with Offer _ => true | _ => false end.

Definition offers (ops : list lane_op) : Z := len (filter (λ op, is_offer op = true) ops).

Lemma lane_step_ok maxsize l op :
  1 ≤ maxsize → lane_ok maxsize l →
  ∃ l', lane_step l op = Ok l' ∧ lane_ok maxsize l' ∧ accounted_for l' = accounted_for l + offers [op].
Proof.
  intros Hmax [Hb Hs Hu]. destruct l as [s q w f d e dr]. unfold accounted_for, in_flight in *.
  simpl in *. destruct op as [a| |ok]; simpl.
  - unfold offer, put_nowait; simpl. destruct (q_full q) eqn:Hfull; simpl.
    + eexists. split; [done|]. split; [by split|]. simpl. unfold offers; simpl. unfold len; simpl. lia.
    + unfold q_full in Hfull. rewrite Hb in Hfull. rewrite (proj2 (Z.leb_gt _ _)) in Hfull by lia.
      reflect_bools. eexists. split; [done|].
      unfold q_size in *; simpl. split; [split|]; unfold q_size, in_flight, offers, len in *; simpl;
        rewrite ?length_app; simpl; try done; lia.
  - unfold deliver_take, get_nowait; simpl. unfold offers; simpl. rewrite Z.add_0_r.
    destruct w, f as [a0|], (q_items q) as [|a items] eqn:Hi; try (by eexists; split_and!; [done|split..|]).
    eexists. split; [done|]. unfold q_size, in_flight, len in *. rewrite Hi in *.
    split; [split|]; simpl in *; unfold q_size, in_flight, len in *; simpl in *; try done; lia.
  - unfold deliver_finish, q_task_done; simpl. unfold offers; simpl. rewrite Z.add_0_r.
    destruct f as [a|]; [|by eexists; split_and!; [done|split..|]].
    unfold q_size, in_flight, len in *; simpl in *.
    rewrite (proj2 (Z.leb_gt _ _)) by lia. simpl. eexists. split; [done|].
    split; [split|]; unfold q_size, in_flight, len in *; simpl in *; try done; try lia.
    destruct ok; lia.
Qed.

Lemma lane_run_ok maxsize ops l :
  1 ≤ maxsize → lane_ok maxsize l →
  ∃ l', lane_run ops l = Ok l' ∧ lane_ok maxsize l' ∧ accounted_for l' = accounted_for l + offers ops.
Proof.
  intros Hmax. revert l. induction ops as [|op ops IH]; intros l Hok; simpl.
  { exists l. unfold offers, len; simpl. split_and!; [done..|lia]. }
  destruct (lane_step_ok maxsize l op Hmax Hok) as (l1 & -> & Hok1 & Hacc). simpl.
  destruct (IH l1 Hok1) as (l' & -> & Hok' & Hacc'). exists l'. split_and!; [done..|].
  assert (offers (op :: ops) = offers [op] + offers ops); [|lia].
  unfold offers. change (op :: ops) with ([op] ++ ops). by rewrite filter_app, len_app.
Qed.

Lemma new_lane_ok maxsize s : 0 ≤ maxsize → lane_ok maxsize (new_lane maxsize s).
Proof. intros. split; simpl; done. Qed.

(** ** Properties *)

(** A configuration the settings accept: non-negative windows. *)
Definition valid_budgets (twindow : Z) (overrides : odict string Throttle) : Prop :=
  0 ≤ twindow ∧ ∀ rid t, od_get overrides rid = Some t → 0 ≤ thr_window_seconds t.

Lemma process_all_new sinks floor ttl dmax tmax twindow qsize overrides m calls :
  new_manager sinks floor ttl dmax tmax twindow qsize overrides = Ok m →
  valid_budgets twindow overrides →
  nondecreasing (call_seen <$> calls) → nondecreasing (call_now <$> calls) →
  let answers := Manager_spec.answers floor (Z.to_nat dmax) ttl (budget tmax twindow overrides) [] calls in
  ∃ m' sl nl, process_all calls m = Ok (answers, m') ∧
    manager_ok floor (Z.to_nat dmax) ttl tmax twindow overrides sl nl (zip calls answers) m'.
Proof.
  intros Hm [Htw Hov] Hs Hn.
  set (last := Z.min (default 0 (head (call_seen <$> calls))) (default 0 (head (call_now <$> calls)))).
  pose proof (new_manager_ok sinks floor ttl dmax tmax twindow qsize overrides m last Hm) as Hok.
  destruct (process_all_ok floor (Z.to_nat dmax) ttl tmax twindow overrides Hov Htw last last [] m calls Hok)
    as (m' & sl & nl & Hp & Hok' & _); [..|by exists m', sl, nl].
  - eapply nondecreasing_from; [exact Hs|lia].
  - eapply nondecreasing_from; [exact Hn|lia].
Qed.

Lemma answers_length floor cap ttl b h calls :
  length (Manager_spec.answers floor cap ttl b h calls) = length calls.
Proof. revert h. induction calls as [|c calls IH]; intros h; simpl; [done|]. by rewrite IH. Qed.

(** Admitted keys belong to alerts that were returned. *)
Definition admissions_returned floor cap ttl (h : list (call * option Alert)) : Prop :=
  ∀ k t, (k, t) ∈ Manager_spec.admissions floor cap ttl h →
    ∃ c a, (c, Some a) ∈ h ∧ al_dedup_key (from_detection (call_detection c)) = k.

Lemma admissions_returned_snoc floor cap ttl b h c :
  admissions_returned floor cap ttl h →
  admissions_returned floor cap ttl (h ++ [(c, Manager_spec.answer floor cap ttl b h c)]).
Proof.
  intros Hh k t. rewrite admissions_snoc. unfold Manager_spec.lookup_of, Manager_spec.answer.
  set (a := from_detection (call_detection c)). destruct (b (al_rule_id a)) as [limit period].
  assert (Hold : (k, t) ∈ Manager_spec.admissions floor cap ttl h → ∀ e,
    ∃ c' a', (c', Some a') ∈ h ++ [e] ∧ al_dedup_key (from_detection (call_detection c')) = k).
  { intros (c' & a' & Hin & Hk)%Hh e. exists c', a'. split; [|done]. apply elem_of_app. by left. }
  destruct (al_severity a <? floor); [by auto|]. unfold Spec.observe.
  destruct (Spec.duplicate _ _ _ _ _); [by auto|].
  intros [Hin|Heq%list_elem_of_singleton]%elem_of_app; [by auto|]. injection Heq as -> _.
  destruct (limit <=? _); (eexists c, _; split; [apply elem_of_app; right; by left|done]).
Qed.

Lemma answers_none floor cap ttl b h calls pre c post :
  admissions_returned floor cap ttl h →
  calls = pre ++ c :: post →
  Manager_spec.answers floor cap ttl b h calls !! length pre = Some None →
  let a := from_detection (call_detection c) in
  al_severity a < floor ∨
  ∃ c' a', (c', Some a') ∈ h ++ zip pre (Manager_spec.answers floor cap ttl b h pre) ∧
    al_dedup_key (from_detection (call_detection c')) = al_dedup_key a.
Proof.
  intros Hh ->. revert h Hh. induction pre as [|c0 pre IH]; intros h Hh; simpl.
  - intros [= Hans]. unfold Manager_spec.answer in Hans.
    set (a := from_detection (call_detection c)) in *.
    destruct (b (al_rule_id a)) as [limit period].
    destruct (al_severity a <? floor) eqn:Hsev; reflect_bools; [by left|].
    destruct (Spec.duplicate _ _ _ _ _) eqn:Hdup; [|by destruct (limit <=? _)]. right.
    unfold Spec.duplicate in Hdup. apply bool_decide_eq_true in Hdup.
    apply list_elem_of_fmap in Hdup as ([k t] & Hk & Hin). simpl in Hk.
    rewrite app_nil_r. rewrite Hk. apply (Hh k t).
    eapply elem_of_sublist; [exact Hin|apply live_sublist].
  - intros Hans. destruct (IH _ (admissions_returned_snoc _ _ _ b h c0 Hh) Hans)
      as [?|(c' & a' & Hin & Hk)]; [by left|right].
    exists c', a'. split; [|done]. by rewrite <-app_assoc in Hin.
Qed.

(** C25: the manager answers as specified: below the floor and duplicates give
    nothing; otherwise an alert is withheld exactly when [max_alerts] of its
    rule were sent within the rule's window, and the next alert sent says how
    many were withheld since the last. *)
Theorem manager_refines_spec sinks floor ttl dmax tmax twindow qsize overrides m calls :
  new_manager sinks floor ttl dmax tmax twindow qsize overrides = Ok m →
  valid_budgets twindow overrides →
  nondecreasing (call_seen <$> calls) → nondecreasing (call_now <$> calls) →
  ∃ m', process_all calls m =
    Ok (Manager_spec.answers floor (Z.to_nat dmax) ttl (budget tmax twindow overrides) [] calls, m').
Proof.
  intros Hm Hb Hs Hn. destruct (process_all_new _ _ _ _ _ _ _ _ _ _ Hm Hb Hs Hn)
    as (m' & _ & _ & Hp & _). eauto.
Qed.

(** No rule ever sends more than its budget: within any period of the
    rule's window at most [max_alerts] of its alerts are notified. *)
Theorem throttle_bounds_notifications sinks floor ttl dmax tmax twindow qsize overrides m calls rid t :
  new_manager sinks floor ttl dmax tmax twindow qsize overrides = Ok m →
  valid_budgets twindow overrides →
  nondecreasing (call_seen <$> calls) → nondecreasing (call_now <$> calls) →
  let '(limit, period) := budget tmax twindow overrides rid in
  0 ≤ limit →
  ∃ answers m', process_all calls m = Ok (answers, m') ∧
    len (filter (λ s, t - period ≤ s ≤ t) (Manager_spec.sent rid (zip calls answers))) ≤ limit.
Proof.
  intros Hm Hb Hs Hn. destruct (process_all_new _ _ _ _ _ _ _ _ _ _ Hm Hb Hs Hn)
    as (m' & sl & nl & Hp & [_ _ _ Hh Hr _ _ _ _]).
  specialize (Hh rid). specialize (Hr rid). destruct (budget _ _ _ rid) as [limit period].
  intros Hl. eexists _, m'. split; [exact Hp|]. destruct Hh as (l & _ & [Hsorted _ _]).
  by apply within_rate_any.
Qed.

(** The throttle never hides evidence: a detection at or above the floor
    yields an alert to store unless the same rule already fired on the same
    event and that alert was returned; every detection is counted once, and
    sent plus withheld alerts are exactly the stored ones. *)
Theorem throttle_never_hides_evidence sinks floor ttl dmax tmax twindow qsize overrides m calls :
  new_manager sinks floor ttl dmax tmax twindow qsize overrides = Ok m →
  valid_budgets twindow overrides →
  nondecreasing (call_seen <$> calls) → nondecreasing (call_now <$> calls) →
  ∃ answers m', process_all calls m = Ok (answers, m') ∧
    (let st := manager_stats_of m' in
     ms_emitted st + ms_throttled st + ms_suppressed_severity st + ms_deduped st = len calls ∧
     ms_emitted st + ms_throttled st = len (omap id answers)) ∧
    ∀ pre c post, calls = pre ++ c :: post → answers !! length pre = Some None →
      det_severity (call_detection c) < floor ∨
      ∃ c' a', (c', Some a') ∈ zip pre answers ∧
        al_dedup_key (from_detection (call_detection c'))
        = al_dedup_key (from_detection (call_detection c)).
Proof.
  intros Hm Hb Hs Hn. destruct (process_all_new _ _ _ _ _ _ _ _ _ _ Hm Hb Hs Hn)
    as (m' & sl & nl & Hp & [_ _ _ _ _ _ _ Hc Hst]).
  eexists _, m'. split; [exact Hp|].
  set (answers := Manager_spec.answers _ _ _ _ _ _) in *.
  assert (Hlen : length answers = length calls) by apply answers_length. split.
  - simpl. unfold len in *. rewrite length_zip_with in Hc.
    rewrite Hlen, Nat.min_id in Hc. split; [lia|]. rewrite Hst. f_equal. f_equal.
    clear -Hlen. revert Hlen. generalize answers as l. induction calls as [|c calls IH]; intros [|a l]; try done.
    intros [= Hlen]. simpl. destruct a; simpl; by rewrite IH.
  - intros pre c post Hcalls Hnone.
    destruct (answers_none floor (Z.to_nat dmax) ttl (budget tmax twindow overrides) [] calls pre c post)
      as [?|(c' & a' & Hin & Hk)]; [by intros k t ?%elem_of_nil|done|done|by left|right].
    exists c', a'. split; [|done]. simpl in Hin. subst answers calls.
    clear -Hin. revert Hin. generalize (@nil (call * option Alert)).
    induction pre as [|c0 pre IH]; intros h Hin; simpl in *; [done|].
    apply elem_of_cons in Hin as [->|Hin]; [by left|]. right. by apply IH.
Qed.

(** A lane accounts for every notification: its queue stays within the
    bound, no step raises, and each offered alert is delivered, failed, dropped,
    queued or in flight. *)
Theorem lane_accounts_for_every_offer maxsize s ops :
  1 ≤ maxsize →
  ∃ l, lane_run ops (new_lane maxsize s) = Ok l ∧ q_size (lane_queue l) ≤ maxsize ∧
    offers ops = lane_delivered l + lane_errors l + lane_dropped l
                 + q_size (lane_queue l) + in_flight l.
Proof.
  intros Hmax. destruct (lane_run_ok maxsize ops (new_lane maxsize s) Hmax) as (l & Hrun & [_ Hs _] & Hacc).
  - apply new_lane_ok. lia.
  - exists l. split_and!; [done..|]. unfold accounted_for, in_flight, len in *. simpl in Hacc.
    unfold q_size, len in *. simpl in Hacc. lia.
Qed.

(** At shutdown the delivery under way is cancelled without being counted: it
    is neither delivered, failed nor among the abandoned. *)
Lemma stop_forgets_delivery_in_flight a s :
  ∃ l l', lane_run [Offer a; DeliverTake] (new_lane 10 s) = Ok l ∧ lane_stop l = Ok (0, l') ∧
    lane_delivered l' = 0 ∧ lane_errors l' = 0 ∧ lane_dropped l' = 0 ∧ q_size (lane_queue l') = 0.
Proof. do 2 eexists. split_and!; reflexivity. Qed.

(** ** Witnesses *)

Definition example_detection (event_id : string) : Detection :=
  mkDetection "r" "t" 5 ["T1110"] ["DE.CM"] [] event_id "h" (mkDatetime 0 (Some 0)) "m".

Definition example_calls : list call :=
  [mkCall 0 0 (example_detection "a"); mkCall 1 1 (example_detection "b");
   mkCall 2 2 (example_detection "a"); mkCall 70 70 (example_detection "c")].

Definition example_manager : AlertManager DedupWindow :=
  mkManager [new_lane 10 (mkSink "console" 0)] 3 (mkDedupWindow 300 10 [] 0 0 0 0) 1 60 [] [] [] 0 0 0 0.

Lemma example_manager_new :
  new_manager [mkSink "console" 0] 3 300 10 1 60 10 [] = Ok example_manager.
Proof. reflexivity. Qed.

Lemma example_clocks :
  nondecreasing (call_seen <$> example_calls) ∧ nondecreasing (call_now <$> example_calls).
Proof. split; repeat constructor; discriminate. Qed.

Lemma example_budgets : valid_budgets 60 [].
Proof. split; [lia|done]. Qed.

Lemma manager_refines_spec_witness :
  ∃ m', process_all example_calls example_manager
    = Ok (Manager_spec.answers 3 10 300 (budget 1 60 []) [] example_calls, m').
Proof.
  apply (manager_refines_spec [mkSink "console" 0] 3 300 10 1 60 10 [] example_manager example_calls
    example_manager_new example_budgets (proj1 example_clocks) (proj2 example_clocks)).
Defined.

Lemma throttle_bounds_notifications_witness :
  ∃ answers m', process_all example_calls example_manager = Ok (answers, m') ∧
    len (filter (λ s, 60 - 60 ≤ s ≤ 60) (Manager_spec.sent "r" (zip example_calls answers))) ≤ 1.
Proof.
  apply (throttle_bounds_notifications [mkSink "console" 0] 3 300 10 1 60 10 [] example_manager
    example_calls "r" 60 example_manager_new example_budgets (proj1 example_clocks)
    (proj2 example_clocks)). discriminate.
Defined.

Lemma throttle_never_hides_evidence_witness :
  ∃ answers m', process_all example_calls example_manager = Ok (answers, m') ∧
    ms_emitted (manager_stats_of m') + ms_throttled (manager_stats_of m') = len (omap id answers).
Proof.
  destruct (throttle_never_hides_evidence [mkSink "console" 0] 3 300 10 1 60 10 [] example_manager
    example_calls example_manager_new example_budgets (proj1 example_clocks) (proj2 example_clocks))
    as (answers & m' & Hp & (_ & Hst) & _).
  exists answers, m'. split; [exact Hp|exact Hst].
Defined.

Lemma lane_accounts_for_every_offer_witness :
  ∃ l, lane_run [Offer (from_detection (example_detection "a")); DeliverTake; DeliverFinish false]
         (new_lane 1 (mkSink "console" 0)) = Ok l ∧ q_size (lane_queue l) ≤ 1.
Proof.
  destruct (lane_accounts_for_every_offer 1 (mkSink "console" 0)
    [Offer (from_detection (example_detection "a")); DeliverTake; DeliverFinish false])
    as (l & Hrun & Hs & _); [discriminate|].
  exists l. split; [exact Hrun|exact Hs].
Defined.
