(* ===== verification/Storage.v ===== *)
(** * The repository ([storage/repository.py], [storage/models.py])

    The database is SQL, reached through SQLAlchemy: a table is used through
    the interface [SqlTable], which states what the repository relies on of a
    table with an integer primary key and a unique [write_id] (an
    [INSERT ... ON CONFLICT (write_id) DO NOTHING] of many rows, a [DELETE] by
    primary key, a [LIMIT] without an order).  [ListTable] is a table that
    satisfies it.  The two tables differ only in the values they hold, so the
    operations are stated once, over the value type. *)

From S2P Require Import Prelude PyText Sha256 Events Rules Engine Alerting.
Local Open Scope string_scope.
Local Open Scope Z_scope.

(** ** Rows *)

Record row (V : Type) := mkRow {
  row_id : Z;
  row_value : V;
  row_created_at : Z;
  row_write_id : option string;
}.
Arguments mkRow {V} _ _ _ _.
Arguments row_id {V} _.
Arguments row_value {V} _.
Arguments row_created_at {V} _.
Arguments row_write_id {V} _.

(** The columns of [EventRow] and [AlertRow] but [id], [created_at], [write_id]. *)
Record EventValues := mkEventValues {
  ev_event_id : string; ev_occurred_at : datetime; ev_category : string; ev_action : string;
  ev_outcome : string; ev_severity : Z; ev_host_name : string; ev_source_ip : option string;
  ev_message_text : string;
}.

Record AlertValues := mkAlertValues {
  av_dedup_key : string; av_rule_id : string; av_severity : Z; av_attack : string;
  av_nist_csf : string; av_event_id : string; av_host : string; av_occurred_at : datetime;
  av_summary : string; av_notified : bool;
}.

(** [_event_values] *)
Definition event_values (e : Event) : EventValues :=
  mkEventValues (em_id (ev_event e)) (ev_timestamp e) (category_value (em_category (ev_event e)))
    (em_action (ev_event e)) (outcome_value (em_outcome (ev_event e))) (em_severity (ev_event e))
    (host_name (ev_host e)) (peer_ip (ev_source e)) (ev_message e).

(** [_alert_values] *)
Definition alert_values (a : Alert) : AlertValues :=
  mkAlertValues (al_dedup_key a) (al_rule_id a) (al_severity a) (str_join "," (al_attack a))
    (str_join "," (al_nist_csf a)) (al_event_id a) (al_host a) (al_timestamp a) (al_summary a)
    (al_notified a).

(** ** Write ids *)

(** [Pending] *)
Record Pending (R : Type) := mkPending { write_id : string; record : R }.
Arguments mkPending {R} _ _.
Arguments write_id {R} _.
Arguments record {R} _.

(** The [n]-th id of [write_ids] for a random prefix: [f"{prefix}{n:016x}"],
    sixteen hexadecimal digits or as many as [n] needs. *)
Definition hex_width (n : Z) : nat := Z.to_nat (Z.max 16 (Z.log2 n / 4 + 1)).

Definition nth_write_id (prefix : string) (n : Z) : string := prefix +:+ hex_word (hex_width n) n.

Local Close Scope string_scope.

(** ** The tables *)

(** The items of a bulk insert that are not skipped: [stored] are the write ids
    in the table. *)
Fixpoint insertable {V} (stored : list string) (items : list (option string * V))
    : list (option string * V) :=
  match items with
  | [] => []
  | (None, v) :: items' => (None, v) :: insertable stored items'
  | (Some w, v) :: items' =>
      if bool_decide (w ∈ stored) then insertable stored items'
      else (Some w, v) :: insertable (w :: stored) items'
  end.

Definition stored_ids {V} (rs : list (row V)) : list string := omap row_write_id rs.

Class SqlTable (V T : Type) := {
  rows : T → list (row V);
  insert_once : Z → list (option string * V) → T → T;
  delete_ids : list Z → T → T;
  limited : Z → list Z → list Z;
  (** Rows in primary-key order. *)
  rows_ascending t : StronglySorted Z.lt (row_id <$> rows t);
  (** New rows get keys above those present, in the order of the items. *)
  insert_once_rows now items t :
    ∃ new, rows (insert_once now items t) = rows t ++ new ∧
      ((λ r, (row_write_id r, row_value r)) <$> new) = insertable (stored_ids (rows t)) items ∧
      Forall (λ r, row_created_at r = now) new;
  delete_ids_rows ids t : rows (delete_ids ids t) = filter (λ r, row_id r ∉ ids) (rows t);
  (** [LIMIT n] keeps [n] of the rows, or all. *)
  limited_length n ids : 0 ≤ n → len (limited n ids) = Z.min n (len ids);
  limited_subset n ids : limited n ids ⊆+ ids;
}.

Section repository.
Context {V T : Type} `{SqlTable V T}.
Implicit Types t : T.

(** One bulk insert of [save_batch]; no statement for no rows. *)
Definition insert_rows (now : Z) (items : list (option string * V)) t : T :=
  match items with [] => t | _ => insert_once now items t end.

(** [list_events] and [list_alerts] *)
Definition before (cursor : option Z) (r : row V) : bool :=
  match cursor with Some b => row_id r <? b | None => true end.

Definition list_rows (limit : Z) (before_id : option Z) t : list (row V) :=
  take (Z.to_nat limit) (reverse (filter (λ r, before before_id r = true) (rows t))).

(** [count_events] and [count_alerts] *)
Definition count_rows t : Z := len (rows t).

(** [delete_stored_before], on one table: how many rows it deleted, and the rest. *)
Definition delete_stored_before (cutoff limit : Z) t : Z * T :=
  let expired := limited limit (row_id <$> filter (λ r, row_created_at r < cutoff) (rows t)) in
  (len (filter (λ r, row_id r ∈ expired) (rows t)), delete_ids expired t).

(** A client that pages through the table: the last id of a page is the next
    cursor, an empty page the end.  Before each page but the first, writers
    insert the next of [writes]. *)
Fixpoint page_through (writes : list (Z * list (option string * V))) (limit : Z)
    (cursor : option Z) t : list (row V) :=
  match writes with
  | [] => []
  | (now, items) :: writes' =>
      match last (list_rows limit cursor t) with
      | None => []
      | Some r =>
          list_rows limit cursor t
          ++ page_through writes' limit (Some (row_id r)) (insert_once now items t)
      end
  end.
End repository.

(** [_row]: a pending record carries its write id, a plain one has none. *)
Definition row_of {R V} (values : R → V) (item : R + Pending R) : option string * V :=
  match item with
  | inr p => (Some (write_id p), values (record p))
  | inl r => (None, values r)
  end.

(** The database: the tables [events] and [alerts]. *)
Record Store (TE TA : Type) := mkStore { event_rows : TE; alert_rows : TA }.
Arguments mkStore {TE TA} _ _.
Arguments event_rows {TE TA} _.
Arguments alert_rows {TE TA} _.

Section store.
Context {TE TA : Type} `{SqlTable EventValues TE, SqlTable AlertValues TA}.
Implicit Types s : Store TE TA.

(** [save_event] and [save_alert] *)
Definition save_event (now : Z) (e : Event) s : Store TE TA :=
  mkStore (insert_rows now [row_of event_values (inl e)] (event_rows s)) (alert_rows s).

Definition save_alert (now : Z) (a : Alert) s : Store TE TA :=
  mkStore (event_rows s) (insert_rows now [row_of alert_values (inl a)] (alert_rows s)).

(** [save_batch]: one transaction, and the number of records submitted. *)
Definition save_batch (now : Z) (events : list (Event + Pending Event))
    (alerts : list (Alert + Pending Alert)) s : Z * Store TE TA :=
  (len events + len alerts,
   mkStore (insert_rows now (row_of event_values <$> events) (event_rows s))
     (insert_rows now (row_of alert_values <$> alerts) (alert_rows s))).

(** [Repository.delete_stored_before]: events, then alerts. *)
Definition delete_before (cutoff limit : Z) s : (Z * Z) * Store TE TA :=
  let '(events, te) := delete_stored_before cutoff limit (event_rows s) in
  let '(alerts, ta) := delete_stored_before cutoff limit (alert_rows s) in
  ((events, alerts), mkStore te ta).
End store.

(** ** Lemmas *)

(** *** Write ids are distinct *)

Lemma hex_digit_value n : 0 ≤ n < 16 → digit_value (hex_digit n) = n.
Proof.
  intros Hn. assert (∃ k, (k < 16)%nat ∧ n = Z.of_nat k) as (k & Hk & ->)
    by (exists (Z.to_nat n); lia).
  do 16 (destruct k as [|k]; [reflexivity|]). lia.
Qed.

Lemma hex_digit_inj a b : 0 ≤ a < 16 → 0 ≤ b < 16 → hex_digit a = hex_digit b → a = b.
Proof. intros Ha Hb Heq. by rewrite <-(hex_digit_value a), <-(hex_digit_value b), Heq. Qed.

Lemma hex_word_mod k x y : 0 ≤ x → 0 ≤ y →
  hex_word k x = hex_word k y → x mod 16 ^ Z.of_nat k = y mod 16 ^ Z.of_nat k.
Proof.
  intros Hx Hy. induction k as [|k IH]; [by rewrite !Z.mod_1_r|]. simpl hex_word. intros Heq.
  injection Heq as Hd Ht. specialize (IH Ht).
  change 15 with (Z.ones 4) in Hd. rewrite !Z.land_ones, !Z.shiftr_div_pow2 in Hd by lia.
  apply hex_digit_inj in Hd; [|apply Z.mod_pos_bound; lia..].
  rewrite Nat2Z.inj_succ, Z.pow_succ_r, Z.mul_comm by lia.
  rewrite !Z.rem_mul_r by lia. rewrite IH. do 2 f_equal.
  by replace (16 ^ Z.of_nat k) with (2 ^ (4 * Z.of_nat k)) by (rewrite Z.pow_mul_r by lia; done).
Qed.

Lemma hex_width_enough n : 0 ≤ n → n < 16 ^ Z.of_nat (hex_width n).
Proof.
  intros Hn. unfold hex_width. rewrite Z2Nat.id by lia.
  destruct (decide (n = 0)) as [->|]; [by vm_compute|].
  apply Z.lt_le_trans with (2 ^ Z.succ (Z.log2 n)); [apply Z.log2_spec; lia|].
  replace 16 with (2 ^ 4) by done. rewrite <-Z.pow_mul_r by lia. apply Z.pow_le_mono_r; [lia|].
  pose proof (Z.div_mod (Z.log2 n) 4). pose proof (Z.mod_pos_bound (Z.log2 n) 4). lia.
Qed.

Lemma nth_write_id_inj prefix m n : 0 ≤ m → 0 ≤ n → nth_write_id prefix m = nth_write_id prefix n → m = n.
Proof.
  unfold nth_write_id. intros Hm Hn Heq.
  assert (hex_word (hex_width m) m = hex_word (hex_width n) n) as Hw.
  { revert Heq. induction prefix as [|c p IH]; [done|]. rewrite !string_app_cons.
    intros [= ?]. by apply IH. }
  pose proof (proj1 (hex_word_shape (hex_width m) m)) as Hlm.
  pose proof (proj1 (hex_word_shape (hex_width n) n)) as Hln.
  rewrite Hw, Hln in Hlm. rewrite <-Hlm in Hw.
  apply hex_word_mod in Hw; [|done..].
  rewrite !Z.mod_small in Hw; [done| |]; split; try done; [|rewrite Hlm]; by apply hex_width_enough.
Qed.

Section insertable.
Context {V : Type}.
Implicit Types (items : list (option string * V)) (stored : list string).

Lemma insertable_ids stored items w :
  w ∈ stored ++ omap fst (insertable stored items) ↔ w ∈ stored ∨ w ∈ omap fst items.
Proof.
  revert stored. induction items as [|[[w'|] v] items IH]; intros stored; csimpl.
  - rewrite app_nil_r. set_solver.
  - case_bool_decide as Hin; csimpl.
    + rewrite IH. set_solver.
    + specialize (IH (w' :: stored)). set_solver.
  - apply IH.
Qed.

Lemma insertable_NoDup stored items :
  NoDup stored → NoDup (stored ++ omap fst (insertable stored items)).
Proof.
  revert stored. induction items as [|[[w'|] v] items IH]; intros stored Hnd; csimpl.
  - by rewrite app_nil_r.
  - case_bool_decide as Hin; csimpl; [by apply IH|].
    specialize (IH (w' :: stored) ltac:(by constructor)).
    rewrite <-Permutation_middle. exact IH.
  - by apply IH.
Qed.

Lemma insertable_subset stored items x : x ∈ insertable stored items → x ∈ items.
Proof.
  revert stored. induction items as [|[[w'|] v] items IH]; intros stored; csimpl; [done| |].
  - case_bool_decide; rewrite ?elem_of_cons; [intros ?%IH; by right|].
    intros [->|?%IH]; [by left|by right].
  - rewrite !elem_of_cons. intros [->|?%IH]; [by left|by right].
Qed.

Lemma insertable_all stored items :
  (∀ w v, (Some w, v) ∈ items → w ∉ stored) → NoDup (omap fst items) → insertable stored items = items.
Proof.
  revert stored. induction items as [|[[w'|] v] items IH]; intros stored Hf Hnd; csimpl in *; [done| |].
  - apply NoDup_cons in Hnd as [Hw' Hnd]. rewrite bool_decide_false by (eapply Hf; by left).
    f_equal. apply IH; [|done]. intros w v' Hin [->|Hin']%elem_of_cons.
    + apply Hw'. apply list_elem_of_omap. by exists (Some w', v').
    + eapply Hf; [by right|done].
  - f_equal. apply IH; [|done]. intros w v' Hin. eapply Hf. by right.
Qed.

Lemma insertable_known stored items :
  (∀ i, i ∈ items → ∃ w, i.1 = Some w ∧ w ∈ stored) → insertable stored items = [].
Proof.
  induction items as [|[[w|] v] items IH]; intros Hk; csimpl; [done| |].
  - rewrite bool_decide_true; [apply IH; intros i Hi; apply Hk; by right|].
    destruct (Hk (Some w, v)) as (w' & [= <-] & ?); [by left|done].
  - destruct (Hk (None, v)) as (w' & ? & ?); [by left|done].
Qed.
End insertable.

(** ** Paging *)

Section table_facts.
Context {V T : Type} `{SqlTable V T}.
Implicit Types (t : T) (r : row V).

Lemma filter_reverse' {A} (P : A → Prop) `{∀ x, Decision (P x)} (l : list A) :
  filter P (reverse l) = reverse (filter P l).
Proof.
  induction l as [|x l IH]; [done|]. rewrite reverse_cons, filter_app, IH.
  rewrite !filter_cons, filter_nil. case_decide; [by rewrite reverse_cons|by rewrite app_nil_r].
Qed.

(** Newest first. *)
Definition descending (l : list (row V)) : Prop := StronglySorted (λ a b, row_id b < row_id a) l.

Lemma rows_descending t : descending (reverse (rows t)).
Proof.
  pose proof (rows_ascending t) as Hs. unfold descending. induction (rows t) as [|r l IH]; [constructor|].
  csimpl in Hs. inversion Hs as [|?? Hs' Hall]; subst. rewrite reverse_cons.
  apply StronglySorted_snoc. split; [by apply IH|]. apply Forall_reverse.
  by apply (Forall_fmap row_id) in Hall.
Qed.

(** What follows a page is what its last row's id selects. *)
Lemma after_cursor (D A B : list (row V)) r :
  descending D → D = A ++ r :: B → filter (λ x, row_id x < row_id r) D = B.
Proof.
  intros Hs ->. induction A as [|a A IH]; simpl in *.
  - rewrite filter_cons_False by lia. apply filter_all.
    by inversion Hs.
  - inversion Hs as [|?? Hs' Hall]; subst. rewrite filter_cons_False; [by apply IH|].
    apply Forall_app in Hall as [_ Hall]. apply Forall_cons in Hall as [Hr _]. lia.
Qed.

Definition newest_before (cursor : option Z) t : list (row V) :=
  filter (λ r, before cursor r = true) (reverse (rows t)).

Lemma list_rows_newest limit cursor t :
  list_rows limit cursor t = take (Z.to_nat limit) (newest_before cursor t).
Proof. unfold list_rows, newest_before. by rewrite filter_reverse'. Qed.

Lemma newest_descending cursor t : descending (newest_before cursor t).
Proof. eapply StronglySorted_sublist; [apply sublist_filter|apply rows_descending]. Qed.

Lemma newest_next limit cursor t r :
  last (list_rows limit cursor t) = Some r →
  newest_before (Some (row_id r)) t = drop (Z.to_nat limit) (newest_before cursor t).
Proof.
  rewrite list_rows_newest. intros Hlast. set (D := newest_before cursor t) in *.
  apply last_Some in Hlast as [A HA].
  assert (D = A ++ r :: drop (Z.to_nat limit) D) as HD.
  { rewrite <-(take_drop (Z.to_nat limit) D) at 1. by rewrite HA, <-app_assoc. }
  assert (Hr : before cursor r = true).
  { assert (r ∈ D) as Hin by (rewrite HD, elem_of_app; right; by left).
    by apply list_elem_of_filter in Hin as [? _]. }
  rewrite <-(after_cursor D A _ r (newest_descending cursor t) HD).
  unfold D, newest_before. rewrite (filter_weaken (λ x, row_id x < row_id r)).
  - apply list_filter_iff. intros x. unfold before. by rewrite Z.ltb_lt.
  - intros x Hx. unfold before in *. destruct cursor as [b|]; [|done].
    apply Z.ltb_lt in Hr. apply Z.ltb_lt. lia.
Qed.

Lemma newest_all t : newest_before None t = reverse (rows t).
Proof. unfold newest_before. by apply filter_all, Forall_true. Qed.

(** *** Inserting and deleting *)

Lemma sorted_across {A} (R : A → A → Prop) l1 l2 x y :
  StronglySorted R (l1 ++ l2) → x ∈ l1 → y ∈ l2 → R x y.
Proof.
  intros Hs Hx Hy. induction l1 as [|z l1 IH]; [by apply elem_of_nil in Hx|].
  inversion Hs as [|?? Hs' Hall]; subst. apply elem_of_cons in Hx as [->|Hx]; [|by apply IH].
  apply Forall_app in Hall as [_ Hall]. by apply (proj1 (Forall_forall _ _) Hall).
Qed.

Lemma newest_before_insert now items t r :
  r ∈ rows t →
  newest_before (Some (row_id r)) (insert_once now items t) = newest_before (Some (row_id r)) t.
Proof.
  intros Hr. unfold newest_before. rewrite !filter_reverse'. f_equal.
  destruct (insert_once_rows now items t) as (new & Heq & _ & _).
  pose proof (rows_ascending (insert_once now items t)) as Hs. rewrite Heq, fmap_app in Hs.
  rewrite Heq, filter_app, (filter_none _ new), app_nil_r; [done|].
  apply Forall_forall. intros r' Hr'. unfold before. rewrite Z.ltb_lt.
  assert (row_id r < row_id r'); [|lia].
  eapply sorted_across; [exact Hs|by apply list_elem_of_fmap; eauto..].
Qed.

Lemma list_rows_elem limit cursor t r : r ∈ list_rows limit cursor t → r ∈ rows t.
Proof.
  unfold list_rows. intros Hr. apply elem_of_take in Hr as (i & Hi & _).
  apply list_elem_of_lookup_2 in Hi. rewrite elem_of_reverse in Hi.
  by apply list_elem_of_filter in Hi as [_ ?].
Qed.

Lemma page_through_all writes limit cursor t :
  1 ≤ limit → (length (newest_before cursor t) < length writes)%nat →
  page_through writes limit cursor t = newest_before cursor t.
Proof.
  intros Hl. revert cursor t.
  induction writes as [|[now items] writes IH]; intros cursor t Hf; simpl in Hf; [lia|]. simpl.
  destruct (last (list_rows limit cursor t)) as [r|] eqn:Hlast.
  - assert (r ∈ rows t) as Hr.
    { eapply list_rows_elem. apply last_Some_elem_of. exact Hlast. }
    pose proof (newest_before_insert now items t r Hr) as Hins.
    pose proof (newest_next _ _ _ _ Hlast) as Hnext.
    rewrite IH, Hins, Hnext.
    + rewrite list_rows_newest. apply take_drop.
    + rewrite Hins, Hnext, length_drop.
      apply last_Some in Hlast as [A HA]. rewrite list_rows_newest in HA.
      apply (f_equal length) in HA. rewrite length_take, length_app in HA. simpl in HA. lia.
  - apply last_None in Hlast. rewrite list_rows_newest in Hlast.
    destruct (newest_before cursor t) as [|r D]; [done|].
    destruct (Z.to_nat limit) eqn:Hn; [lia|done].
Qed.

Lemma deletion_cases cutoff limit t :
  0 ≤ limit →
  let '(n, t') := delete_stored_before cutoff limit t in
  let expired := filter (λ r, row_created_at r < cutoff) (rows t) in
  n = Z.min limit (len expired) ∧ len (rows t') = len (rows t) - n ∧
  rows t' `sublist_of` rows t ∧
  filter (λ r, cutoff ≤ row_created_at r) (rows t') = filter (λ r, cutoff ≤ row_created_at r) (rows t).
Proof.
  intros Hl. unfold delete_stored_before. cbv beta iota zeta.
  set (expired := filter (λ r, row_created_at r < cutoff) (rows t)).
  set (ids := limited limit (row_id <$> expired)).
  assert (Hsub : ids ⊆+ row_id <$> expired) by apply limited_subset.
  assert (Hnd : NoDup (row_id <$> rows t)).
  { pose proof (rows_ascending t) as Hs. revert Hs. generalize (row_id <$> rows t). clear.
    induction l as [|x l IH]; inversion 1 as [|?? Hs' Hall]; subst; constructor; [|by apply IH].
    intros Hin. pose proof (proj1 (Forall_forall _ _) Hall x Hin). lia. }
  assert (Hcount : len (filter (λ r, row_id r ∈ ids) (rows t)) = len ids).
  { unfold len. f_equal. rewrite <-(length_fmap row_id). apply Permutation_length.
    apply NoDup_Permutation.
    - eapply sublist_NoDup; [exact Hnd|]. apply fmap_sublist, sublist_filter.
    - eapply NoDup_submseteq_l; [exact Hsub|].
      eapply sublist_NoDup; [exact Hnd|]. apply fmap_sublist, sublist_filter.
    - intros i. rewrite list_elem_of_fmap. split.
      + intros (r & -> & Hr). by apply list_elem_of_filter in Hr as [? _].
      + intros Hi. pose proof (elem_of_submseteq _ _ _ Hi Hsub) as Hi'.
        apply list_elem_of_fmap in Hi' as (r & -> & Hr). exists r. split; [done|].
        apply list_elem_of_filter. split; [done|]. by apply list_elem_of_filter in Hr as [_ ?]. }
  assert (Hlen : len ids = Z.min limit (len expired)).
  { unfold ids. rewrite limited_length by done. unfold len. by rewrite length_fmap. }
  rewrite Hcount, delete_ids_rows. split_and!.
  - exact Hlen.
  - pose proof (filter_split_length (λ r, row_id r ∈ ids) (rows t)) as Hsplit.
    rewrite <-Hcount. unfold len. lia.
  - apply sublist_filter.
  - apply filter_weaken_in. intros r Hr Hold Hin.
    pose proof (elem_of_submseteq _ _ _ Hin Hsub) as Hin'.
    apply list_elem_of_fmap in Hin' as (r' & Hid & Hr').
    apply list_elem_of_filter in Hr' as [Hexp Hr'].
    assert (r = r') as <-; [|lia].
    apply list_elem_of_lookup in Hr as [i Hi]. apply list_elem_of_lookup in Hr' as [j Hj].
    assert (i = j) as <-; [|congruence].
    eapply (NoDup_lookup (row_id <$> rows t)); [done|by rewrite list_lookup_fmap, Hi|].
    rewrite list_lookup_fmap, Hj. simpl. by rewrite Hid.
Qed.
End table_facts.

(** *** One bulk insert *)

Section insert_facts.
Context {V T : Type} `{SqlTable V T}.
Implicit Types (t : T) (items : list (option string * V)).

Lemma stored_ids_contents (rs : list (row V)) :
  stored_ids rs = omap fst ((λ r, (row_write_id r, row_value r)) <$> rs).
Proof. unfold stored_ids. induction rs as [|r rs IH]; csimpl; [done|]. by rewrite IH. Qed.

Lemma insert_rows_new now items t :
  ∃ new, rows (insert_rows now items t) = rows t ++ new ∧
    ((λ r, (row_write_id r, row_value r)) <$> new) = insertable (stored_ids (rows t)) items.
Proof.
  destruct items as [|i items]; [by exists []; rewrite app_nil_r|].
  destruct (insert_once_rows now (i :: items) t) as (new & ? & ? & _). by exists new.
Qed.

Lemma insert_rows_ids now items t :
  stored_ids (rows (insert_rows now items t))
  = stored_ids (rows t) ++ omap fst (insertable (stored_ids (rows t)) items).
Proof.
  destruct (insert_rows_new now items t) as (new & -> & <-).
  rewrite <-stored_ids_contents. unfold stored_ids. by rewrite omap_app.
Qed.

Lemma insert_rows_elem now items t w :
  w ∈ stored_ids (rows (insert_rows now items t)) ↔ w ∈ stored_ids (rows t) ∨ w ∈ omap fst items.
Proof. rewrite insert_rows_ids. apply insertable_ids. Qed.

Lemma insert_rows_NoDup now items t :
  NoDup (stored_ids (rows t)) → NoDup (stored_ids (rows (insert_rows now items t))).
Proof. rewrite insert_rows_ids. apply insertable_NoDup. Qed.

Lemma insert_rows_row now items t r :
  r ∈ rows (insert_rows now items t) → r ∈ rows t ∨ (row_write_id r, row_value r) ∈ items.
Proof.
  destruct (insert_rows_new now items t) as (new & -> & Hnew). rewrite elem_of_app.
  intros [?|Hr]; [by left|right]. eapply insertable_subset. rewrite <-Hnew.
  apply list_elem_of_fmap. eauto.
Qed.

Lemma insert_rows_known now items t :
  (∀ i, i ∈ items → ∃ w, i.1 = Some w ∧ w ∈ stored_ids (rows t)) →
  rows (insert_rows now items t) = rows t.
Proof.
  intros Hk. destruct (insert_rows_new now items t) as (new & -> & Hnew).
  rewrite insertable_known in Hnew by done. apply fmap_nil_inv in Hnew as ->. apply app_nil_r.
Qed.

Lemma insert_rows_fresh now items t :
  (∀ w v, (Some w, v) ∈ items → w ∉ stored_ids (rows t)) → NoDup (omap fst items) →
  ((λ r, (row_write_id r, row_value r)) <$> rows (insert_rows now items t))
  = ((λ r, (row_write_id r, row_value r)) <$> rows t) ++ items.
Proof.
  intros Hf Hnd. destruct (insert_rows_new now items t) as (new & -> & Hnew).
  rewrite fmap_app, Hnew. by rewrite insertable_all.
Qed.

Lemma pending_ids {R} (values : R → V) (batch : list (Pending R)) :
  omap fst (row_of values <$> (inr <$> batch)) = write_id <$> batch.
Proof. induction batch as [|p batch IH]; csimpl; [done|]. by rewrite IH. Qed.

Lemma pending_items {R} (values : R → V) (batch : list (Pending R)) i :
  i ∈ row_of values <$> (inr <$> batch) ↔ ∃ p, i = (Some (write_id p), values (record p)) ∧ p ∈ batch.
Proof.
  rewrite list_elem_of_fmap. split.
  - intros (x & -> & Hx). apply list_elem_of_fmap in Hx as (p & -> & Hp). eauto.
  - intros (p & -> & Hp). exists (inr p). split; [done|]. by apply list_elem_of_fmap_2.
Qed.

Lemma pending_again {R} (values : R → V) now later (batch : list (Pending R)) t :
  let items := row_of values <$> (inr <$> batch) in
  rows (insert_rows later items (insert_rows now items t)) = rows (insert_rows now items t).
Proof.
  apply insert_rows_known. intros i Hi. pose proof Hi as (p & -> & Hp)%pending_items.
  exists (write_id p). split; [done|]. apply insert_rows_elem. right. rewrite pending_ids.
  by apply list_elem_of_fmap_2.
Qed.

Lemma pending_fresh {R} (values : R → V) now (batch : list (Pending R)) t :
  NoDup (stored_ids (rows t) ++ (write_id <$> batch)) →
  let items := row_of values <$> (inr <$> batch) in
  ((λ r, (row_write_id r, row_value r)) <$> rows (insert_rows now items t))
  = ((λ r, (row_write_id r, row_value r)) <$> rows t) ++ items.
Proof.
  intros (_ & Hd & Hn)%NoDup_app. apply insert_rows_fresh; [|by rewrite pending_ids].
  intros w v (p & [= -> ->] & Hp)%pending_items Hw. apply (Hd _ Hw). by apply list_elem_of_fmap_2.
Qed.
End insert_facts.

(** ** A table of rows kept in a list *)

Record list_table (V : Type) := mkListTable {
  lt_rows : list (row V);
  lt_sorted : StronglySorted Z.lt (row_id <$> lt_rows);
}.
Arguments mkListTable {V} _ _.
Arguments lt_rows {V} _.
Arguments lt_sorted {V} _.

Section list_table.
Context {V : Type}.

Fixpoint number (now id : Z) (items : list (option string * V)) : list (row V) :=
  match items with
  | [] => []
  | (w, v) :: items' => mkRow id v now w :: number now (id + 1) items'
  end.

Definition next_id (l : list (row V)) : Z := match last l with Some r => row_id r + 1 | None => 1 end.

Lemma number_above now id items : Forall (λ i, id ≤ i) (row_id <$> number now id items).
Proof.
  revert id. induction items as [|[w v] items IH]; intros id; csimpl; constructor; [lia|].
  eapply Forall_impl; [apply IH|]. simpl; lia.
Qed.

Lemma number_sorted now id items : StronglySorted Z.lt (row_id <$> number now id items).
Proof.
  revert id. induction items as [|[w v] items IH]; intros id; csimpl; constructor; [apply IH|].
  eapply Forall_impl; [apply number_above|]. simpl; lia.
Qed.

Lemma append_sorted l now items :
  StronglySorted Z.lt (row_id <$> l) →
  StronglySorted Z.lt (row_id <$> (l ++ number now (next_id l) items)).
Proof.
  intros Hs. rewrite fmap_app. unfold next_id.
  destruct l as [|r l _] using rev_ind; [apply number_sorted|].
  rewrite last_snoc. pose proof (number_above now (row_id r + 1) items) as Hab.
  pose proof (number_sorted now (row_id r + 1) items) as Hn. revert Hab Hn.
  generalize (row_id <$> number now (row_id r + 1) items). intros k Hab Hn.
  rewrite fmap_app in *. rewrite <-app_assoc. simpl in *. induction (row_id <$> l) as [|x xs IH]; simpl in *.
  - constructor; [done|]. eapply Forall_impl; [exact Hab|]. simpl; lia.
  - inversion Hs as [|?? Hs' Hall]; subst. constructor; [by apply IH|].
    apply Forall_app in Hall as [Hxs Hx]. apply Forall_app. split; [done|].
    inversion Hx; subst. apply Forall_cons. split; [done|]. eapply Forall_impl; [exact Hab|]. simpl; lia.
Qed.

Lemma filter_sorted (l : list (row V)) (ids : list Z) :
  StronglySorted Z.lt (row_id <$> l) → StronglySorted Z.lt (row_id <$> filter (λ r, row_id r ∉ ids) l).
Proof. intros Hs. eapply StronglySorted_sublist; [|exact Hs]. apply fmap_sublist, sublist_filter. Qed.

Lemma number_contents now id items :
  ((λ r, (row_write_id r, row_value r)) <$> number now id items) = items ∧
  Forall (λ r, row_created_at r = now) (number now id items).
Proof.
  revert id. induction items as [|[w v] items IH]; intros id; csimpl; [by split|].
  destruct (IH (id + 1)) as [-> Hall]. split; [done|]. by constructor.
Qed.

Definition lt_insert (now : Z) (items : list (option string * V)) (t : list_table V) : list_table V :=
  mkListTable (lt_rows t ++ number now (next_id (lt_rows t)) (insertable (stored_ids (lt_rows t)) items))
    (append_sorted _ _ _ (lt_sorted t)).

Definition lt_delete (ids : list Z) (t : list_table V) : list_table V :=
  mkListTable (filter (λ r, row_id r ∉ ids) (lt_rows t)) (filter_sorted _ _ (lt_sorted t)).

#[export, refine] Instance list_table_sql : SqlTable V (list_table V) := {|
  rows := lt_rows;
  insert_once := lt_insert;
  delete_ids := lt_delete;
  limited := λ n ids, take (Z.to_nat n) ids;
|}.
Proof.
  - apply lt_sorted.
  - intros now items t. eexists. split; [done|]. by destruct (number_contents now
      (next_id (lt_rows t)) (insertable (stored_ids (lt_rows t)) items)) as [-> ?].
  - done.
  - intros n ids Hn. unfold len. rewrite length_take. lia.
  - intros n ids. apply sublist_submseteq, sublist_take.
Defined.

Definition empty_table : list_table V := mkListTable [] (SSorted_nil _).
End list_table.

(** ** Properties *)

Section properties.
Context {V T : Type} `{SqlTable V T}.

(** A client that pages through a table with any page size sees every row
    that was there when it started, each once, newest first, even though
    writers insert between its pages; it needs one more page than there are
    rows at the most. *)
Theorem paging_is_stable writes limit (t : T) :
  1 ≤ limit → (length (rows t) < length writes)%nat →
  page_through writes limit None t = reverse (rows t).
Proof.
  intros Hl Hw. rewrite page_through_all, newest_all; [done|done|].
  by rewrite newest_all, length_reverse.
Qed.

(** One deletion of expired rows reports exactly the rows it removes, at
    most [limit] and all that expired if they are fewer; what remains keeps its
    order, and no row inside the retention period is touched. *)
Theorem prune_deletes_only_expired cutoff limit (t : T) :
  0 ≤ limit →
  let '(n, t') := delete_stored_before cutoff limit t in
  n = Z.min limit (len (filter (λ r, row_created_at r < cutoff) (rows t))) ∧
  len (rows t') = len (rows t) - n ∧
  rows t' `sublist_of` rows t ∧
  filter (λ r, cutoff ≤ row_created_at r) (rows t') = filter (λ r, cutoff ≤ row_created_at r) (rows t).
Proof. apply deletion_cases. Qed.
End properties.

Section store_properties.
Context {TE TA : Type} `{SqlTable EventValues TE, SqlTable AlertValues TA}.
Implicit Types s : Store TE TA.

(** Storing a batch of pending records a second time, after an
    acknowledgement was lost, changes no row; a batch of new records with
    distinct write ids is appended whole, in order, to the rows of both
    tables, each row under its own id; and write ids stay unique. *)
Theorem retry_stores_nothing_twice now later events alerts s :
  let items_e := row_of event_values <$> (inr <$> events) in
  let items_a := row_of alert_values <$> (inr <$> alerts) in
  let s1 := (save_batch now (inr <$> events) (inr <$> alerts) s).2 in
  let s2 := (save_batch later (inr <$> events) (inr <$> alerts) s1).2 in
  NoDup (stored_ids (rows (event_rows s)) ++ (write_id <$> events)) →
  NoDup (stored_ids (rows (alert_rows s)) ++ (write_id <$> alerts)) →
  rows (event_rows s2) = rows (event_rows s1) ∧ rows (alert_rows s2) = rows (alert_rows s1) ∧
  ((λ r, (row_write_id r, row_value r)) <$> rows (event_rows s1))
    = ((λ r, (row_write_id r, row_value r)) <$> rows (event_rows s)) ++ items_e ∧
  ((λ r, (row_write_id r, row_value r)) <$> rows (alert_rows s1))
    = ((λ r, (row_write_id r, row_value r)) <$> rows (alert_rows s)) ++ items_a ∧
  NoDup (stored_ids (rows (event_rows s2))) ∧ NoDup (stored_ids (rows (alert_rows s2))).
Proof.
  cbv zeta. unfold save_batch. cbn [snd event_rows alert_rows]. intros He Ha.
  pose proof (proj1 (proj1 (NoDup_app _ _) He)). pose proof (proj1 (proj1 (NoDup_app _ _) Ha)).
  split_and!; [apply pending_again..|by apply pending_fresh|by apply pending_fresh| |];
    by apply insert_rows_NoDup, insert_rows_NoDup.
Qed.
End store_properties.

(** ** Witnesses *)

Definition example_row_items : list (option string * Z) :=
  [(Some "a"%string, 10); (None, 20); (Some "b"%string, 30)].

Definition example_table : list_table Z := insert_once 100 example_row_items empty_table.

Definition example_alert : Alert := from_detection (example_detection "e"%string).

Definition example_store : Store (list_table EventValues) (list_table AlertValues) :=
  mkStore empty_table empty_table.

Lemma retry_stores_nothing_twice_witness :
  let batch := [mkPending (nth_write_id "p" 0) example_alert;
                mkPending (nth_write_id "p" 1) example_alert] in
  let s1 := (save_batch 5 (inr <$> []) (inr <$> batch) example_store).2 in
  let s2 := (save_batch 9 (inr <$> []) (inr <$> batch) s1).2 in
  rows (alert_rows s2) = rows (alert_rows s1).
Proof.
  apply (retry_stores_nothing_twice 5 9 []
    [mkPending (nth_write_id "p" 0) example_alert; mkPending (nth_write_id "p" 1) example_alert]
    example_store); apply (bool_decide_unpack _); vm_compute; exact I.
Defined.
