(* ===== verification/Persist.v ===== *)
(** * Write-behind persistence ([runtime.py], [storage/database.py])

    The buffer between detection and the database: how [_consume] fills it, how
    [flush] empties it, what [_save]'s outcomes do to it.  A flush holds the
    lock across its saves, and events are consumed between them, so a flush is
    a state ([flushing]) advanced by the result of each save, interleaved with
    the other labels.  A save that fails without being refused may still have
    committed, or may commit later ([Database.run] leaves it running): it is
    given up on and kept in [limbo], from where it can land at any time. *)

From S2P Require Import Prelude PyText Events Engine Alerting Storage.
Local Open Scope Z_scope.

(** ** The buffer *)

Record Buffer := mkBuffer {
  pending_events : list (Pending Event);
  pending_alerts : list (Pending Alert);
  next_write : Z;
  flush_wanted : bool;
  events_unpersisted : Z;
  alerts_unpersisted : Z;
  persist_failures : Z;
  persist_failing : bool;
}.

Definition new_buffer : Buffer := mkBuffer [] [] 0 false 0 0 0 false.

Definition with_pending (ev : list (Pending Event)) (al : list (Pending Alert)) (b : Buffer) : Buffer :=
  mkBuffer ev al (next_write b) (flush_wanted b) (events_unpersisted b) (alerts_unpersisted b)
    (persist_failures b) (persist_failing b).

Definition add_unpersisted (ev al : Z) (b : Buffer) : Buffer :=
  mkBuffer (pending_events b) (pending_alerts b) (next_write b) (flush_wanted b)
    (events_unpersisted b + ev) (alerts_unpersisted b + al) (persist_failures b) (persist_failing b).

Definition set_failing (failing : bool) (b : Buffer) : Buffer :=
  mkBuffer (pending_events b) (pending_alerts b) (next_write b) (flush_wanted b)
    (events_unpersisted b) (alerts_unpersisted b) (persist_failures b) failing.

Definition set_wanted (wanted : bool) (b : Buffer) : Buffer :=
  mkBuffer (pending_events b) (pending_alerts b) (next_write b) wanted
    (events_unpersisted b) (alerts_unpersisted b) (persist_failures b) (persist_failing b).

Definition count_failure (b : Buffer) : Buffer :=
  mkBuffer (pending_events b) (pending_alerts b) (next_write b) (flush_wanted b)
    (events_unpersisted b) (alerts_unpersisted b) (persist_failures b + 1) (persist_failing b).

(** The buffer and the save in progress. *)
Inductive flushing :=
  | Idle
  | Batch (events : list (Pending Event)) (alerts : list (Pending Alert))
  | Rows (rejected_events rejected_alerts : Z)
      (events : list (Pending Event)) (alerts : list (Pending Alert)).

(** What [_save] returns: [None], a failure for which [_is_rejection], another. *)
Inductive outcome := Done | Rejected | Outage.

#[export] Instance flushing_idle_dec (f : flushing) : Decision (f = Idle).
Proof. destruct f; [by left|by right..]. Defined.

#[export] Instance outcome_eq_dec : EqDecision outcome.
Proof. solve_decision. Defined.

Section operations.
Context (prefix : string) (batch_size max_pending : Z).

(** [_trim_pending]: how many of the oldest go. *)
Definition excess {A} (l : list A) : Z := Z.max 0 (len l - max_pending).

Definition trim_pending (b : Buffer) : Buffer :=
  let excess_events := excess (pending_events b) in
  let excess_alerts := excess (pending_alerts b) in
  add_unpersisted excess_events excess_alerts
    (with_pending (drop (Z.to_nat excess_events) (pending_events b))
       (drop (Z.to_nat excess_alerts) (pending_alerts b)) b).

(** [_consume]: an alert of the event, buffered as it is raised. *)
Definition buffer_alert (a : Alert) (b : Buffer) : Buffer :=
  mkBuffer (pending_events b)
    (pending_alerts b ++ [mkPending (nth_write_id prefix (next_write b)) a])
    (next_write b + 1) (flush_wanted b) (events_unpersisted b) (alerts_unpersisted b)
    (persist_failures b) (persist_failing b).

(** [_consume]: the event itself, and what its arrival triggers. *)
Definition append_event (e : Event) (b : Buffer) : Buffer :=
  mkBuffer (pending_events b ++ [mkPending (nth_write_id prefix (next_write b)) e])
    (pending_alerts b) (next_write b + 1) (flush_wanted b) (events_unpersisted b)
    (alerts_unpersisted b) (persist_failures b) (persist_failing b).

Definition buffer_event (e : Event) (b : Buffer) : Buffer :=
  let b1 := append_event e b in
  let b2 := if max_pending <? len (pending_events b1) then trim_pending b1 else b1 in
  if batch_size <=? len (pending_events b2) then set_wanted true b2 else b2.

(** [_requeue] *)
Definition requeue (ev : list (Pending Event)) (al : list (Pending Alert)) (b : Buffer) : Buffer :=
  trim_pending (with_pending (ev ++ pending_events b) (al ++ pending_alerts b) (count_failure b)).

(** [_discard_pending] *)
Definition discard_pending (b : Buffer) : Buffer :=
  add_unpersisted (len (pending_events b)) (len (pending_alerts b)) (with_pending [] [] b).

(** [flush], up to the first save; nothing buffered, nothing done. *)
Definition flush_start (b : Buffer) : Buffer * flushing :=
  match pending_events b, pending_alerts b with
  | [], [] => (b, Idle)
  | ev, al => (with_pending [] [] b, Batch ev al)
  end.

(** [_write_row_by_row]: the next record to save, or its end and [flush]'s. *)
Definition rows_next (rej_e rej_a : Z) (ev : list (Pending Event)) (al : list (Pending Alert))
    (b : Buffer) : Buffer * flushing :=
  match ev, al with
  | [], [] => (set_failing false (add_unpersisted rej_e rej_a b), Idle)
  | _, _ => (b, Rows rej_e rej_a ev al)
  end.

(** The rest of [flush] and [_write_row_by_row] after a save. *)
Definition flush_step (o : outcome) (b : Buffer) (f : flushing) : Buffer * flushing :=
  match f with
  | Idle => (b, Idle)
  | Batch ev al =>
      match o with
      | Done => (set_failing false b, Idle)
      | Rejected => rows_next 0 0 ev al b
      | Outage => (set_failing true (requeue ev al b), Idle)
      end
  | Rows rej_e rej_a ev al =>
      match o with
      | Done =>
          match ev with
          | _ :: ev' => rows_next rej_e rej_a ev' al b
          | [] => rows_next rej_e rej_a [] (tail al) b
          end
      | Rejected =>
          match ev with
          | _ :: ev' => rows_next (rej_e + 1) rej_a ev' al b
          | [] => rows_next rej_e (rej_a + 1) [] (tail al) b
          end
      | Outage => (set_failing true (requeue ev al (add_unpersisted rej_e rej_a b)), Idle)
      end
  end.

(** The records of the transaction in progress. *)
Definition payload (f : flushing) : list (Pending Event) * list (Pending Alert) :=
  match f with
  | Idle => ([], [])
  | Batch ev al => (ev, al)
  | Rows _ _ (e :: _) _ => ([e], [])
  | Rows _ _ [] al => ([], take 1 al)
  end.

(** ** The buffer and the database together *)

Context {TE TA : Type} `{SqlTable EventValues TE, SqlTable AlertValues TA}.

(** [w_limbo] are the saves given up on so far. *)
Record world := mkWorld {
  w_buffer : Buffer;
  w_flushing : flushing;
  w_store : Store TE TA;
  w_limbo : list (list (Pending Event) * list (Pending Alert));
}.

Definition commit (now : Z) (p : list (Pending Event) * list (Pending Alert)) (s : Store TE TA)
    : Store TE TA :=
  (save_batch now (inr <$> p.1) (inr <$> p.2) s).2.

Inductive label :=
  | Consume (alerts : list Alert) (event : Event)
  | FlushStart
  | SaveReturns (now : Z) (o : outcome)
  | Land (now : Z) (i : nat)
  | Discard.

Definition consume (alerts : list Alert) (e : Event) (b : Buffer) : Buffer :=
  buffer_event e (foldl (λ b a, buffer_alert a b) b alerts).

Definition step (l : label) (w : world) : world :=
  let '(mkWorld b f s limbo) := w in
  match l, f with
  | Consume alerts e, _ => mkWorld (consume alerts e b) f s limbo
  | FlushStart, Idle => let '(b', f') := flush_start b in mkWorld b' f' s limbo
  | FlushStart, _ => w
  | SaveReturns now o, Idle => w
  | SaveReturns now o, _ =>
      let '(b', f') := flush_step o b f in
      mkWorld b' f'
        (match o with Done => commit now (payload f) s | _ => s end)
        (match o with Outage => payload f :: limbo | _ => limbo end)
  | Land now i, _ =>
      match limbo !! i with
      | Some p => mkWorld b f (commit now p s) limbo
      | None => w
      end
  | Discard, Idle => mkWorld (discard_pending b) Idle s limbo
  | Discard, _ => w
  end.

Definition run (ls : list label) (w : world) : world := foldl (λ w l, step l w) w ls.

(** The records a label brings in, with their write ids. *)
Definition numbered {R} (n : Z) (rs : list R) : list (Pending R) :=
  imap (λ i r, mkPending (nth_write_id prefix (n + Z.of_nat i)) r) rs.

Definition brings (l : label) (w : world) : list (Pending Event) * list (Pending Alert) :=
  match l with
  | Consume alerts e =>
      let n := next_write (w_buffer w) in (numbered (n + len alerts) [e], numbered n alerts)
  | _ => ([], [])
  end.

Fixpoint journal (ls : list label) (w : world) : list (Pending Event) * list (Pending Alert) :=
  match ls with
  | [] => ([], [])
  | l :: ls' =>
      let '(ev, al) := brings l w in
      let '(ev', al') := journal ls' (step l w) in (ev ++ ev', al ++ al')
  end.
End operations.

(** ** One kind of record on its way to its table *)

Section lane.
Context (prefix : string) {R V T : Type} (values : R → V) `{SqlTable V T}.
Implicit Types (acc fl pend : list (Pending R)) (t : T).

(** What became of the records accepted: each is settled, dropped, in flight or
    pending, in one of these ways only and once; the settled ones are stored, and
    of the others only those of a save given up on can be. *)
Definition parted acc settled dropped fl pend t (limbo : list (Pending R)) : Prop :=
  settled ++ dropped ++ fl ++ pend ≡ₚ acc ∧
  Forall (λ p, write_id p ∈ stored_ids (rows t)) settled ∧
  Forall (λ p, write_id p ∈ stored_ids (rows t) → p ∈ limbo) (dropped ++ fl ++ pend).

(** Records accepted so far, in flight and pending; the table; those of the
    saves given up on; how many were dropped; the next write id's number. *)
Record lane_inv acc fl pend t (limbo : list (Pending R)) (lost next : Z) : Prop := {
  li_next : 0 ≤ next;
  li_ids : NoDup (write_id <$> acc);
  li_below : Forall (λ p, ∃ k, 0 ≤ k < next ∧ write_id p = nth_write_id prefix k) acc;
  li_order : fl ++ pend `sublist_of` acc;
  li_limbo : Forall (λ p, p ∈ acc) limbo;
  li_unique : NoDup (stored_ids (rows t));
  li_free k : next ≤ k → nth_write_id prefix k ∉ stored_ids (rows t);
  li_rows r p : r ∈ rows t → p ∈ acc → row_write_id r = Some (write_id p) → row_value r = values (record p);
  li_lost : ∃ settled dropped, len dropped = lost ∧ parted acc settled dropped fl pend t limbo;
}.

(** The record has one row, which holds it as it is. *)
Definition held t (p : Pending R) : Prop :=
  ∃ r, filter (λ r, row_write_id r = Some (write_id p)) (rows t) = [r] ∧ row_value r = values (record p).

(** The account of the records accepted, for those who read the tables and the
    counters: no write id twice; each record settled, dropped, in flight or
    pending; each settled one stored once as it is, the dropped ones as many as
    counted, and none of the others stored unless a save of it was given up on. *)
Record accounts acc settled dropped fl pend t (limbo : list (Pending R)) (lost : Z) : Prop := {
  ac_ids : NoDup (write_id <$> acc);
  ac_parts : settled ++ dropped ++ fl ++ pend ≡ₚ acc;
  ac_lost : len dropped = lost;
  ac_held : Forall (held t) settled;
  ac_others : Forall (λ p, write_id p ∈ stored_ids (rows t) → p ∈ limbo) (dropped ++ fl ++ pend);
}.

Lemma row_of_id (l : list (row V)) r w :
  NoDup (stored_ids l) → r ∈ l → row_write_id r = Some w → filter (λ r, row_write_id r = Some w) l = [r].
Proof.
  unfold stored_ids. induction l as [|x l IH]; [by intros _ ?%elem_of_nil|]. intros Hnd Hin Hw.
  assert (Hrest : ∀ l', w ∉ omap row_write_id l' → filter (λ r : row V, row_write_id r = Some w) l' = []).
  { induction l' as [|y l' IH']; [done|]. intros Hl'. rewrite filter_cons_False.
    - apply IH'. intros Hin'. apply Hl'. simpl. destruct (row_write_id y); [by right|done].
    - intros Hy. apply Hl'. simpl. rewrite Hy. by left. }
  simpl in Hnd. apply elem_of_cons in Hin as [<-|Hin].
  - rewrite Hw in Hnd. apply NoDup_cons in Hnd as [Hnot _]. rewrite filter_cons_True by done. by rewrite Hrest.
  - assert (Hne : row_write_id x ≠ Some w).
    { intros Hx. rewrite Hx in Hnd. apply NoDup_cons in Hnd as [Hnot _]. apply Hnot, list_elem_of_omap. by exists r. }
    rewrite filter_cons_False by done. apply IH; [|done..]. destruct (row_write_id x); [by apply NoDup_cons in Hnd as [_ ?]|done].
Qed.

Lemma lane_held acc fl pend t limbo lost next p :
  lane_inv acc fl pend t limbo lost next → p ∈ acc → write_id p ∈ stored_ids (rows t) → held t p.
Proof.
  intros [_ _ _ _ _ Hu _ Hrows _] Hp (r & Hr & Hid)%list_elem_of_omap. exists r.
  split; [by apply row_of_id|by apply Hrows].
Qed.

Lemma lane_accounts acc fl pend t limbo lost next :
  lane_inv acc fl pend t limbo lost next → ∃ settled dropped, accounts acc settled dropped fl pend t limbo lost.
Proof.
  intros Hinv. pose proof Hinv as [_ Hids _ _ _ _ _ _ (settled & dropped & Hlen & Hperm & Hs & Ho)].
  exists settled, dropped. split; [done..| |done]. rewrite Forall_forall in Hs |- *. intros p Hp.
  apply (lane_held _ _ _ _ _ _ _ _ Hinv); [|by apply Hs]. rewrite <-Hperm. apply elem_of_app. by left.
Qed.

(** Write ids tell the records accepted apart. *)
Lemma same_record acc p q :
  NoDup (write_id <$> acc) → p ∈ acc → q ∈ acc → write_id p = write_id q → p = q.
Proof.
  intros Hnd [i Hi]%list_elem_of_lookup [j Hj]%list_elem_of_lookup Heq. assert (i = j); [|by simplify_eq].
  eapply (NoDup_lookup (write_id <$> acc) i j (write_id p)); [done|by rewrite list_lookup_fmap, Hi|].
  rewrite list_lookup_fmap, Hj. simpl. by rewrite Heq.
Qed.

Lemma numbered_cons n (r : R) rs :
  numbered prefix n (r :: rs) = mkPending (nth_write_id prefix n) r :: numbered prefix (n + 1) rs.
Proof.
  unfold numbered. rewrite imap_cons. f_equal; [do 2 f_equal; lia|].
  apply imap_ext. intros i x _. simpl. do 2 f_equal. lia.
Qed.

Lemma lane_skip acc fl pend t limbo lost next next' :
  next ≤ next' → lane_inv acc fl pend t limbo lost next → lane_inv acc fl pend t limbo lost next'.
Proof.
  intros Hle []. split; try done; [lia| |].
  - eapply Forall_impl; [done|]. simpl. intros p (k & ? & ?). exists k. split; [lia|done].
  - intros k Hk. apply li_free0. lia.
Qed.

Lemma lane_accept acc fl pend t limbo lost next r :
  lane_inv acc fl pend t limbo lost next →
  let p := mkPending (nth_write_id prefix next) r in
  lane_inv (acc ++ [p]) fl (pend ++ [p]) t limbo lost (next + 1).
Proof.
  intros [] p. assert (Hnew : write_id p ∉ write_id <$> acc).
  { intros (q & Hq & Hin)%list_elem_of_fmap.
    destruct (proj1 (Forall_forall _ _) li_below0 q Hin) as (k & Hk & Heq).
    assert (next = k); [|lia]. eapply nth_write_id_inj; [lia..|]. by rewrite <-Heq, <-Hq. }
  split.
  - lia.
  - rewrite fmap_app. apply NoDup_app. split_and!; [done| |apply NoDup_singleton].
    intros w Hw Hin. apply list_elem_of_singleton in Hin as ->. done.
  - apply Forall_app. split; [|constructor; [|constructor]].
    + eapply Forall_impl; [done|]. simpl. intros q (k & ? & ?). exists k. split; [lia|done].
    + exists next. split; [lia|done].
  - rewrite app_assoc. by apply sublist_app.
  - eapply Forall_impl; [done|]. simpl. intros q Hq. apply elem_of_app. by left.
  - done.
  - intros k Hk. apply li_free0. lia.
  - intros row q Hrow [Hq| ->%list_elem_of_singleton]%elem_of_app Heq; [by eapply li_rows0|].
    exfalso. apply (li_free0 next); [lia|]. apply list_elem_of_omap. by exists row.
  - destruct li_lost0 as (settled & dropped & Hlen & Hperm & Hs & Ho). exists settled, dropped. split; [done|].
    split_and!; [rewrite <-Hperm; solve_Permutation|done|].
    replace (dropped ++ fl ++ pend ++ [p]) with ((dropped ++ fl ++ pend) ++ [p]) by by rewrite <-!app_assoc.
    apply Forall_app. split; [done|]. apply Forall_singleton. intros Hin. by destruct (li_free0 next ltac:(lia) Hin).
Qed.

Lemma lane_accept_all acc fl pend t limbo lost next rs :
  lane_inv acc fl pend t limbo lost next →
  lane_inv (acc ++ numbered prefix next rs) fl (pend ++ numbered prefix next rs) t limbo lost
    (next + len rs).
Proof.
  revert acc pend next. induction rs as [|r rs IH]; intros acc pend next Hinv.
  - rewrite !app_nil_r, len_nil. by replace (next + 0) with next by lia.
  - rewrite numbered_cons, len_cons.
    pose proof (IH _ _ _ (lane_accept _ _ _ _ _ _ _ r Hinv)) as Hrest.
    rewrite <-!app_assoc in Hrest. simpl in Hrest.
    by replace (next + (1 + len rs)) with (next + 1 + len rs) by lia.
Qed.

Lemma lane_take acc pend t limbo lost next :
  lane_inv acc [] pend t limbo lost next → lane_inv acc pend [] t limbo lost next.
Proof.
  intros []. split; rewrite ?app_nil_r; try done. unfold parted. by rewrite app_nil_r.
Qed.

Lemma lane_return acc fl pend t limbo lost next :
  lane_inv acc fl pend t limbo lost next → lane_inv acc [] (fl ++ pend) t limbo lost next.
Proof. intros []. by split. Qed.

(** Records that are not settled change places. *)
Lemma parted_move acc settled dropped fl pend dropped' fl' pend' t limbo :
  parted acc settled dropped fl pend t limbo → dropped' ++ fl' ++ pend' ≡ₚ dropped ++ fl ++ pend →
  parted acc settled dropped' fl' pend' t limbo.
Proof. intros (Hperm & Hs & Ho) Hmove. unfold parted. by rewrite Hmove. Qed.

(** The oldest [n] pending records are dropped and counted. *)
Lemma lane_drop acc fl pend t limbo lost lost' next n :
  0 ≤ n ≤ len pend → lost' = lost + n →
  lane_inv acc fl pend t limbo lost next →
  lane_inv acc fl (drop (Z.to_nat n) pend) t limbo lost' next.
Proof.
  intros Hn -> []. split; try done.
  - etrans; [|done]. apply sublist_app; [done|]. apply sublist_drop.
  - destruct li_lost0 as (settled & dropped & Hlen & Hparts).
    exists settled, (dropped ++ take (Z.to_nat n) pend). split.
    + rewrite len_app, Hlen. unfold len in *. rewrite length_take. lia.
    + apply (parted_move _ _ _ _ _ _ _ _ _ _ Hparts).
      trans (dropped ++ fl ++ take (Z.to_nat n) pend ++ drop (Z.to_nat n) pend); [solve_Permutation|by rewrite take_drop].
Qed.

Lemma lane_discard acc fl pend t limbo lost lost' next :
  lost' = lost + len pend →
  lane_inv acc fl pend t limbo lost next → lane_inv acc fl [] t limbo lost' next.
Proof.
  intros -> Hinv. pose proof (len_nonneg pend) as Hn.
  pose proof (lane_drop acc fl pend t limbo lost _ next (len pend) ltac:(lia) eq_refl Hinv) as Hd.
  by rewrite drop_ge in Hd by (unfold len; lia).
Qed.

(** The first record in flight is refused: dropped and counted. *)
Lemma lane_reject acc x fl pend t limbo lost lost' next :
  lost' = lost + 1 →
  lane_inv acc (x :: fl) pend t limbo lost next → lane_inv acc fl pend t limbo lost' next.
Proof.
  intros -> []. split; try done.
  - etrans; [|done]. simpl. by constructor.
  - destruct li_lost0 as (settled & dropped & Hlen & Hparts). exists settled, (x :: dropped). rewrite len_cons.
    split; [lia|]. apply (parted_move _ _ _ _ _ _ _ _ _ _ Hparts). solve_Permutation.
Qed.

(** A transaction commits: its records are stored, those already there skipped. *)
Lemma lane_commit acc fl fl' pend t limbo lost next now batch :
  let t' := insert_rows now (row_of values <$> (inr <$> batch)) t in
  Forall (λ p, p ∈ acc) batch → fl' ++ pend `sublist_of` acc →
  (∃ settled dropped, len dropped = lost ∧ parted acc settled dropped fl' pend t' limbo) →
  lane_inv acc fl pend t limbo lost next → lane_inv acc fl' pend t' limbo lost next.
Proof.
  intros t' Hb Horder Hparts []. rewrite Forall_forall in Hb. split; try done.
  - by apply insert_rows_NoDup.
  - intros k Hk [Hin|Hin]%insert_rows_elem; [by eapply li_free0|]. rewrite pending_ids in Hin.
    apply list_elem_of_fmap in Hin as (p & Hp & Hin).
    destruct (proj1 (Forall_forall _ _) li_below0 p (Hb p Hin)) as (j & Hj & Heq).
    assert (k = j); [|lia]. eapply nth_write_id_inj; [lia..|]. by rewrite <-Heq.
  - intros r p Hr Hp Heq. apply insert_rows_row in Hr as [Hr|Hr]; [by eapply li_rows0|].
    apply pending_items in Hr as (q & [= Hid ->] & Hq). do 2 f_equal.
    apply (same_record acc); [done|by apply Hb|done|congruence].
Qed.

Lemma committed now (batch : list (Pending R)) t (p : Pending R) :
  write_id p ∈ stored_ids (rows (insert_rows now (row_of values <$> (inr <$> batch)) t)) ↔
  write_id p ∈ stored_ids (rows t) ∨ write_id p ∈ write_id <$> batch.
Proof. by rewrite insert_rows_elem, pending_ids. Qed.

(** A save that was given up on lands. *)
Lemma lane_land acc fl pend t limbo lost next now batch :
  Forall (λ p, p ∈ limbo) batch →
  lane_inv acc fl pend t limbo lost next →
  lane_inv acc fl pend (insert_rows now (row_of values <$> (inr <$> batch)) t) limbo lost next.
Proof.
  intros Hb Hinv. pose proof Hinv as [_ Hids _ Horder Hlimbo _ _ _ (settled & dropped & Hlen & Hperm & Hs & Ho)].
  rewrite Forall_forall in Hb, Hlimbo, Hs, Ho. assert (Hacc : ∀ p, p ∈ dropped ++ fl ++ pend → p ∈ acc).
  { intros p Hp. rewrite <-Hperm. apply elem_of_app. by right. }
  eapply lane_commit; [apply Forall_forall; auto|done| |exact Hinv]. exists settled, dropped. split; [done|].
  split; [done|]. split; apply Forall_forall; intros p Hp; rewrite committed; [left; auto|].
  intros [Hin|(q & Heq & Hq)%list_elem_of_fmap]; [auto|].
  assert (p = q) as ->; [|auto]. by apply (same_record acc); auto.
Qed.

(** A save is done: its records, those in flight first, are settled. *)
Lemma lane_saved acc batch fl pend t limbo lost next now :
  lane_inv acc (batch ++ fl) pend t limbo lost next →
  lane_inv acc fl pend (insert_rows now (row_of values <$> (inr <$> batch)) t) limbo lost next.
Proof.
  intros Hinv. pose proof Hinv as [_ Hids _ Horder Hlimbo _ _ _ (settled & dropped & Hlen & Hperm & Hs & Ho)].
  assert (Hperm' : (settled ++ batch) ++ dropped ++ fl ++ pend ≡ₚ acc) by (rewrite <-Hperm; solve_Permutation).
  rewrite Forall_forall in Hs, Ho. assert (Hacc : ∀ p, p ∈ (settled ++ batch) ++ dropped ++ fl ++ pend → p ∈ acc).
  { intros p. by rewrite Hperm'. }
  eapply lane_commit; [|etrans; [|exact Horder]| |exact Hinv].
  - apply Forall_forall. intros p Hp. apply Hacc. rewrite !elem_of_app. tauto.
  - rewrite <-app_assoc. by apply sublist_inserts_l.
  - exists (settled ++ batch), dropped. split; [done|]. split; [done|].
    split; apply Forall_forall; intros p Hp; rewrite committed.
    + apply elem_of_app in Hp as [Hp|Hp]; [left; auto|right; by apply list_elem_of_fmap_2].
    + intros [Hin|(q & Heq & Hq)%list_elem_of_fmap]; [apply Ho; [|done]; rewrite !elem_of_app in *; tauto|].
      assert (p = q) as ->.
      { apply (same_record acc); [done| | |done]; apply Hacc; rewrite !elem_of_app in *; tauto. }
      rewrite <-Hperm' in Hids. rewrite fmap_app in Hids. apply NoDup_app in Hids as (_ & Hdis & _).
      exfalso. apply (Hdis (write_id q)); apply list_elem_of_fmap_2; [apply elem_of_app; by right|done].
Qed.

Lemma lane_limbo acc fl pend t limbo limbo' lost next :
  (∀ p, p ∈ limbo → p ∈ limbo') → Forall (λ p, p ∈ acc) limbo' →
  lane_inv acc fl pend t limbo lost next → lane_inv acc fl pend t limbo' lost next.
Proof.
  intros Hsub Hl []. split; try done. destruct li_lost0 as (settled & dropped & Hlen & Hperm & Hs & Ho).
  exists settled, dropped. split; [done|]. split_and!; [done..|].
  eapply Forall_impl; [exact Ho|]. cbn. auto.
Qed.

Lemma lane_start t :
  NoDup (stored_ids (rows t)) → (∀ k, 0 ≤ k → nth_write_id prefix k ∉ stored_ids (rows t)) →
  lane_inv [] [] [] t [] 0 0.
Proof.
  intros Hn Hf. split; simpl; [lia|constructor|constructor|done|constructor|done|exact Hf| |].
  - by intros r p _ ?%elem_of_nil.
  - exists [], []. split; [done|]. split_and!; [done|constructor..].
Qed.

Lemma lane_in_flight acc fl pend t limbo lost next :
  lane_inv acc fl pend t limbo lost next → Forall (λ p, p ∈ acc) fl.
Proof.
  intros []. apply Forall_forall. intros p Hp. eapply elem_of_sublist; [|done].
  apply elem_of_app. by left.
Qed.
Lemma lane_pending acc fl pend t limbo lost next :
  lane_inv acc fl pend t limbo lost next → Forall (λ p, p ∈ acc) pend.
Proof.
  intros []. apply Forall_forall. intros p Hp. eapply elem_of_sublist; [|done].
  apply elem_of_app. by right.
Qed.
End lane.

(** ** Both kinds *)

#[local] Arguments rows_next : simpl never.

Definition flight_events (f : flushing) : list (Pending Event) :=
  match f with Idle => [] | Batch ev _ | Rows _ _ ev _ => ev end.
Definition flight_alerts (f : flushing) : list (Pending Alert) :=
  match f with Idle => [] | Batch _ al | Rows _ _ _ al => al end.
Definition refused_events (f : flushing) : Z := match f with Rows rej _ _ _ => rej | _ => 0 end.
Definition refused_alerts (f : flushing) : Z := match f with Rows _ rej _ _ => rej | _ => 0 end.

Section world.
Context (prefix : string) (batch_size max_pending : Z) (Hmax : 0 ≤ max_pending).
Context {TE TA : Type} `{SqlTable EventValues TE, SqlTable AlertValues TA}.
Implicit Types (b : Buffer) (f : flushing) (s : Store TE TA) (w : world (TE := TE) (TA := TA)).

Record lanes accE accA f b s limboE limboA : Prop := {
  lanes_events : lane_inv prefix event_values accE (flight_events f) (pending_events b)
    (event_rows s) limboE (events_unpersisted b + refused_events f) (next_write b);
  lanes_alerts : lane_inv prefix alert_values accA (flight_alerts f) (pending_alerts b)
    (alert_rows s) limboA (alerts_unpersisted b + refused_alerts f) (next_write b);
}.

Lemma excess_bounds {A} (l : list A) : 0 ≤ excess max_pending l ≤ len l.
Proof. unfold excess. pose proof (len_nonneg l). lia. Qed.

Lemma trim_lanes accE accA f b s limboE limboA :
  lanes accE accA f b s limboE limboA →
  lanes accE accA f (trim_pending max_pending b) s limboE limboA.
Proof.
  intros [He Ha]. split; simpl; (eapply lane_drop; [apply excess_bounds| |done]); lia.
Qed.

Lemma trim_bound b : len (pending_events (trim_pending max_pending b)) ≤ max_pending.
Proof. simpl. unfold excess, len. rewrite length_drop. lia. Qed.

Lemma requeue_lanes accE accA f b s limboE limboA :
  lanes accE accA f b s limboE limboA →
  lanes accE accA Idle
    (requeue max_pending (flight_events f) (flight_alerts f)
       (add_unpersisted (refused_events f) (refused_alerts f) b)) s limboE limboA.
Proof.
  intros [He Ha]. apply trim_lanes. split; simpl; rewrite Z.add_0_r; by apply lane_return.
Qed.

Lemma rows_next_lanes accE accA b s limboE limboA rej_e rej_a ev al b' f' :
  rows_next rej_e rej_a ev al b = (b', f') →
  lanes accE accA (Rows rej_e rej_a ev al) b s limboE limboA →
  lanes accE accA f' b' s limboE limboA ∧ pending_events b' = pending_events b.
Proof.
  intros Hn Hl. unfold rows_next in Hn. destruct ev, al; simplify_eq; (split; [|done]); [|done..].
  destruct Hl as [He Ha]. by split; simpl; rewrite Z.add_0_r.
Qed.

Lemma land_lanes accE accA f b s limboE limboA now p :
  Forall (λ p, p ∈ limboE) p.1 → Forall (λ p, p ∈ limboA) p.2 →
  lanes accE accA f b s limboE limboA → lanes accE accA f b (commit now p s) limboE limboA.
Proof. intros He Ha []. by split; apply lane_land. Qed.

Lemma payload_in_flight accE accA f b s limboE limboA :
  lanes accE accA f b s limboE limboA →
  Forall (λ p, p ∈ accE) (payload f).1 ∧ Forall (λ p, p ∈ accA) (payload f).2.
Proof.
  intros [He%lane_in_flight Ha%lane_in_flight].
  destruct f as [|ev al|re ra [|e ev] al]; simpl in *; [by split..| |].
  - split; [done|]. by apply Forall_take.
  - apply Forall_cons in He as [? _]. by split; [constructor|].
Qed.

(** What is left of a flush when the save in progress is done *)
Definition rest (f : flushing) : list (Pending Event) * list (Pending Alert) :=
  match f with
  | Rows _ _ (_ :: ev) al => (ev, al)
  | Rows _ _ [] al => ([], tail al)
  | _ => ([], [])
  end.

Lemma payload_rest f :
  flight_events f = (payload f).1 ++ (rest f).1 ∧ flight_alerts f = (payload f).2 ++ (rest f).2.
Proof. destruct f as [|ev al|re ra [|e ev] [|a al]]; by rewrite ?app_nil_r. Qed.

Lemma saved_lanes accE accA f b s limboE limboA now :
  lanes accE accA f b s limboE limboA →
  lanes accE accA (Rows (refused_events f) (refused_alerts f) (rest f).1 (rest f).2) b (commit now (payload f) s) limboE limboA.
Proof.
  intros [He Ha]. destruct (payload_rest f) as [HE HA]. rewrite HE in He. rewrite HA in Ha.
  by split; simpl; apply lane_saved.
Qed.

Lemma flush_step_lanes accE accA now o f b s limboE limboA b' f' :
  payload f ≠ ([], []) → flush_step max_pending o b f = (b', f') →
  lanes accE accA f b s limboE limboA →
  lanes accE accA f' b' (match o with Done => commit now (payload f) s | _ => s end) limboE limboA.
Proof.
  intros Hf Hstep Hl. destruct o.
  - apply (saved_lanes _ _ _ _ _ _ _ now) in Hl.
    destruct f as [|ev al|re ra [|e ev] al]; simpl in Hstep; [done|..].
    + simplify_eq. by destruct Hl.
    + by destruct (rows_next_lanes _ _ _ _ _ _ _ _ _ _ _ _ Hstep Hl).
    + by destruct (rows_next_lanes _ _ _ _ _ _ _ _ _ _ _ _ Hstep Hl).
  - destruct f as [|ev al|re ra [|e ev] [|a al]]; simpl in Hstep; [done|..];
      (eapply rows_next_lanes in Hstep as [? _]; [done|]); destruct Hl as [He Ha]; split; simpl in *; try done.
    all: try (eapply lane_reject; [|done]; lia).
  - destruct f as [|ev al|re ra ev al]; simpl in Hstep; [done|..]; simplify_eq.
    + assert (b = add_unpersisted 0 0 b) as -> by (destruct b; unfold add_unpersisted; simpl; f_equal; lia).
      by apply requeue_lanes in Hl as [].
    + by apply requeue_lanes in Hl as [].
Qed.

(** A flush in progress always has something to save. *)
Definition busy f : Prop := f = Idle ∨ payload f ≠ ([], []).

Lemma rows_next_busy rej_e rej_a ev al b b' f' :
  rows_next rej_e rej_a ev al b = (b', f') → busy f'.
Proof. unfold rows_next, busy. destruct ev, al; intros; simplify_eq; [by left|by right..]. Qed.

Lemma flush_step_busy o b f b' f' :
  payload f ≠ ([], []) → flush_step max_pending o b f = (b', f') → busy f'.
Proof.
  intros Hp Hs. destruct f as [|ev al|re ra ev al], o; simpl in Hs; simplify_eq; try by left.
  - by eapply rows_next_busy.
  - destruct ev; by eapply rows_next_busy.
  - destruct ev; by eapply rows_next_busy.
Qed.

Lemma flush_step_bound o b f b' f' :
  flush_step max_pending o b f = (b', f') → len (pending_events b) ≤ max_pending →
  len (pending_events b') ≤ max_pending.
Proof.
  intros Hs Hb.
  assert (Hrows : ∀ re ra ev al, rows_next re ra ev al b = (b', f') → pending_events b' = pending_events b)
    by (unfold rows_next; intros ??[|??][|??] ?; by simplify_eq).
  destruct f as [|ev al|re ra ev al], o; simpl in Hs; simplify_eq; try done;
    try apply trim_bound; try destruct ev; by rewrite (Hrows _ _ _ _ Hs).
Qed.

Lemma flush_start_lanes accE accA b s limboE limboA b' f' :
  flush_start b = (b', f') → lanes accE accA Idle b s limboE limboA →
  lanes accE accA f' b' s limboE limboA ∧ busy f' ∧
  (len (pending_events b) ≤ max_pending → len (pending_events b') ≤ max_pending).
Proof.
  unfold flush_start, busy. intros Hs [He Ha]. simpl in *.
  destruct (pending_events b) as [|e ev] eqn:Hev, (pending_alerts b) as [|a al] eqn:Hal;
    simplify_eq; (split; [|split; [first [by left|by right]|first [by rewrite ?Hev|intros _; exact Hmax]]]).
  - split; simpl; by rewrite ?Hev, ?Hal.
  - by split; simpl; apply lane_take.
  - by split; simpl; apply lane_take.
  - by split; simpl; apply lane_take.
Qed.

(** *** Consuming an event *)

Lemma buffer_alerts (alerts : list Alert) b :
  foldl (λ b a, buffer_alert prefix a b) b alerts
  = mkBuffer (pending_events b) (pending_alerts b ++ numbered prefix (next_write b) alerts)
      (next_write b + len alerts) (flush_wanted b) (events_unpersisted b) (alerts_unpersisted b)
      (persist_failures b) (persist_failing b).
Proof.
  revert b. induction alerts as [|a alerts IH]; intros b; simpl.
  - rewrite app_nil_r, len_nil, Z.add_0_r. by destruct b.
  - rewrite IH, numbered_cons, len_cons. simpl. rewrite <-app_assoc. simpl. f_equal. lia.
Qed.

Lemma consume_lanes accE accA f b s limboE limboA alerts e :
  lanes accE accA f b s limboE limboA →
  lanes (accE ++ numbered prefix (next_write b + len alerts) [e])
    (accA ++ numbered prefix (next_write b) alerts) f
    (consume prefix batch_size max_pending alerts e b) s limboE limboA.
Proof.
  intros [He Ha]. unfold consume. rewrite buffer_alerts. unfold buffer_event.
  set (b1 := append_event prefix e _).
  assert (Hl : lanes (accE ++ numbered prefix (next_write b + len alerts) [e])
    (accA ++ numbered prefix (next_write b) alerts) f b1 s limboE limboA).
  { split; simpl.
    - unfold numbered. simpl. rewrite Z.add_0_r. apply lane_accept.
      eapply lane_skip; [|exact He]. pose proof (len_nonneg alerts). lia.
    - eapply lane_skip; [|by apply lane_accept_all]. lia. }
  clearbody b1. assert (Hw : ∀ b2, lanes (accE ++ numbered prefix (next_write b + len alerts) [e])
    (accA ++ numbered prefix (next_write b) alerts) f b2 s limboE limboA →
    lanes (accE ++ numbered prefix (next_write b + len alerts) [e])
    (accA ++ numbered prefix (next_write b) alerts) f (set_wanted true b2) s limboE limboA)
    by (intros b2 []; by split).
  destruct (max_pending <? _); [apply trim_lanes in Hl|]; destruct (batch_size <=? _); eauto.
Qed.

Lemma consume_bound alerts e b :
  len (pending_events (consume prefix batch_size max_pending alerts e b)) ≤ max_pending.
Proof.
  unfold consume, buffer_event. generalize (append_event prefix e (foldl (λ b a, buffer_alert prefix a b) b alerts)).
  intros b1. destruct (max_pending <? len (pending_events b1)) eqn:Hlt.
  - pose proof (trim_bound b1). case_match; done.
  - apply Z.ltb_ge in Hlt. case_match; done.
Qed.

Record world_inv accE accA w : Prop := {
  wi_lanes : lanes accE accA (w_flushing w) (w_buffer w) (w_store w)
    (w_limbo w ≫= fst) (w_limbo w ≫= snd);
  wi_busy : busy (w_flushing w);
  wi_bound : len (pending_events (w_buffer w)) ≤ max_pending;
}.

Lemma limbo_lanes accE accA f b s limboE limboA limboE' limboA' :
  (∀ p, p ∈ limboE → p ∈ limboE') → (∀ p, p ∈ limboA → p ∈ limboA') →
  Forall (λ p, p ∈ accE) limboE' → Forall (λ p, p ∈ accA) limboA' →
  lanes accE accA f b s limboE limboA → lanes accE accA f b s limboE' limboA'.
Proof. intros ? ? ? ? []. split; by eapply lane_limbo. Qed.

Lemma in_limbo accE accA f b s limboE limboA :
  lanes accE accA f b s limboE limboA →
  Forall (λ p, p ∈ accE) limboE ∧ Forall (λ p, p ∈ accA) limboA.
Proof. by intros [[] []]. Qed.

Lemma discard_lanes accE accA b s limboE limboA :
  lanes accE accA Idle b s limboE limboA → lanes accE accA Idle (discard_pending b) s limboE limboA.
Proof.
  intros [He Ha]. unfold discard_pending. split; simpl; (eapply lane_discard; [|done]); simpl; lia.
Qed.

Lemma save_inv accE accA now o w :
  world_inv accE accA w → world_inv accE accA (step prefix batch_size max_pending (SaveReturns now o) w).
Proof.
  destruct w as [b f s limbo]. intros [Hl Hb Hn]. simpl in *.
  destruct Hb as [->|Hp]; [by split; [|left|]|].
  pose proof (payload_in_flight _ _ _ _ _ _ _ Hl) as [HpE HpA].
  pose proof (in_limbo _ _ _ _ _ _ _ Hl) as [HlE HlA].
  destruct f as [|ev al|re ra ev al] eqn:Hf; [done|..]; rewrite <-Hf in *;
    destruct (flush_step max_pending o b f) as [b' f'] eqn:Hs;
    (split; simpl; [|by eapply flush_step_busy|by eapply flush_step_bound]);
    (eapply (limbo_lanes _ _ _ _ _ (limbo ≫= fst) (limbo ≫= snd));
      [by intros p Hin; destruct o; csimpl; rewrite ?elem_of_app; auto..
      |by destruct o; csimpl; rewrite ?Forall_app|by destruct o; csimpl; rewrite ?Forall_app|]);
    by eapply flush_step_lanes.
Qed.

Lemma step_inv accE accA l w :
  world_inv accE accA w →
  world_inv (accE ++ (brings prefix l w).1) (accA ++ (brings prefix l w).2)
    (step prefix batch_size max_pending l w).
Proof.
  intros Hw. destruct l as [alerts e| |now o|now i|]; simpl brings; cbn [fst snd];
    rewrite ?app_nil_r.
  - destruct w as [b f s limbo]. destruct Hw as [Hl Hb Hn]. simpl in *.
    split; simpl; [by apply consume_lanes|done|apply consume_bound].
  - destruct w as [b f s limbo]. destruct f; [|done..]. destruct Hw as [Hl Hb Hn]. simpl in *.
    destruct (flush_start b) as [b' f'] eqn:Hs.
    destruct (flush_start_lanes _ _ _ _ _ _ _ _ Hs Hl) as (? & ? & ?). split; simpl; auto.
  - by apply save_inv.
  - destruct w as [b f s limbo]. destruct Hw as [Hl Hb Hn]. simpl in *.
    destruct (limbo !! i) as [p|] eqn:Hi; [|done]. split; simpl; [|done..].
    apply list_elem_of_lookup_2 in Hi. apply land_lanes; [..|done]; apply Forall_forall; intros q Hq;
      apply list_elem_of_bind; by exists p.
  - destruct w as [b f s limbo]. destruct f; [|done..]. destruct Hw as [Hl Hb Hn]. simpl in *.
    split; simpl; [by apply discard_lanes|done|]. unfold len. simpl. lia.
Qed.

Lemma run_inv ls accE accA w :
  world_inv accE accA w →
  world_inv (accE ++ (journal prefix batch_size max_pending ls w).1)
    (accA ++ (journal prefix batch_size max_pending ls w).2)
    (run prefix batch_size max_pending ls w).
Proof.
  revert accE accA w. induction ls as [|l ls IH]; intros accE accA w Hw; simpl.
  - by rewrite !app_nil_r.
  - pose proof (step_inv _ _ l _ Hw) as Hs. apply IH in Hs.
    destruct (brings prefix l w) as [ev al]. simpl in Hs.
    destruct (journal _ _ _ ls _) as [ev' al']. simpl in *. by rewrite !app_assoc.
Qed.

(** A new process: an empty buffer, a database whose write ids are unique and
    none of them this writer's (its prefix is random). *)
Definition fresh_world s : Prop :=
  NoDup (stored_ids (rows (event_rows s))) ∧ NoDup (stored_ids (rows (alert_rows s))) ∧
  ∀ n, 0 ≤ n → nth_write_id prefix n ∉ stored_ids (rows (event_rows s)) ∧
    nth_write_id prefix n ∉ stored_ids (rows (alert_rows s)).

Definition start s : world := mkWorld new_buffer Idle s [].

Lemma start_inv s : fresh_world s → world_inv [] [] (start s).
Proof.
  intros (He & Ha & Hf). split; [|by left|exact Hmax].
  split; simpl; apply lane_start; try done; intros k Hk; by apply Hf.
Qed.

Lemma reachable ls s :
  fresh_world s →
  let w := run prefix batch_size max_pending ls (start s) in
  let '(ev, al) := journal prefix batch_size max_pending ls (start s) in world_inv ev al w.
Proof.
  intros Hs. pose proof (run_inv ls _ _ _ (start_inv s Hs)) as Hinv. by destruct (journal _ _ _ ls _).
Qed.

(** *** What an event brings is buffered, and the next flush stores it *)

Lemma trimmed_tail {A} (old new : list A) x :
  x ∈ new → len new ≤ max_pending → x ∈ drop (Z.to_nat (excess max_pending (old ++ new))) (old ++ new).
Proof.
  intros Hx Hlen. rewrite drop_app_le; [apply elem_of_app; by right|].
  unfold excess in *. rewrite len_app. unfold len in *. lia.
Qed.

Lemma consume_keeps_new alerts e b :
  len alerts ≤ max_pending → 1 ≤ max_pending →
  let b' := consume prefix batch_size max_pending alerts e b in
  (∀ a, a ∈ alerts → ∃ k, mkPending k a ∈ pending_alerts b') ∧ ∃ k, mkPending k e ∈ pending_events b'.
Proof.
  intros Ha Hmax1. unfold consume. rewrite buffer_alerts. unfold buffer_event. cbv zeta.
  set (b1 := append_event prefix e _). set (new := numbered prefix (next_write b) alerts).
  assert (Hnew : len new ≤ max_pending) by (unfold new, numbered, len in *; by rewrite length_imap).
  assert (Hin : ∀ a, a ∈ alerts → ∃ k, mkPending k a ∈ new).
  { intros a [i Hi]%list_elem_of_lookup. eexists. apply list_elem_of_lookup. exists i.
    unfold new, numbered. by rewrite list_lookup_imap, Hi. }
  assert (Hb1 : pending_alerts b1 = pending_alerts b ++ new ∧ ∃ k, pending_events b1 = pending_events b ++ [mkPending k e])
    by (split; [done|by eexists]).
  clearbody b1. destruct Hb1 as [HA [we HE]].
  assert (Hb2 : ∀ b2, b2 = trim_pending max_pending b1 ∨ b2 = b1 →
    (∀ p, p ∈ new → p ∈ pending_alerts b2) ∧ mkPending we e ∈ pending_events b2).
  { intros b2 [->| ->]; cbn; rewrite HA, HE.
    - split; [intros p Hp; by apply trimmed_tail|]. apply trimmed_tail; [by left|done].
    - split; [intros p Hp; apply elem_of_app; by right|]. apply elem_of_app. right. by left. }
  set (b2 := if max_pending <? _ then _ else _) in *.
  destruct (Hb2 b2) as [HA2 HE2]; [unfold b2; destruct (_ <? _); by auto|].
  assert (∀ b3, pending_alerts b3 = pending_alerts b2 → pending_events b3 = pending_events b2 →
    (∀ a, a ∈ alerts → ∃ k, mkPending k a ∈ pending_alerts b3) ∧ ∃ k, mkPending k e ∈ pending_events b3) as Hgo.
  { intros b3 -> ->. split; [|by exists we]. intros a (k & Hk)%Hin. exists k. by apply HA2. }
  destruct (batch_size <=? _); by apply Hgo.
Qed.

Lemma flush_stores accE accA w now :
  world_inv accE accA w → w_flushing w = Idle →
  let w' := run prefix batch_size max_pending [FlushStart; SaveReturns now Done] w in
  (∀ p, p ∈ pending_events (w_buffer w) → held event_values (event_rows (w_store w')) p) ∧
  (∀ p, p ∈ pending_alerts (w_buffer w) → held alert_values (alert_rows (w_store w')) p).
Proof.
  destruct w as [b f s limbo]. intros Hw. cbn [w_flushing w_buffer]. intros ->.
  pose proof (run_inv [FlushStart; SaveReturns now Done] _ _ _ Hw) as [[HE HA] _ _].
  cbn [journal brings fst snd app] in HE, HA. rewrite !app_nil_r in HE, HA.
  destruct Hw as [[HE0%lane_pending HA0%lane_pending] _ _]. cbn [w_flushing w_buffer] in HE0, HA0.
  rewrite Forall_forall in HE0. rewrite Forall_forall in HA0. set (w' := run _ _ _ _ _) in *. cbv zeta.
  assert (Hs : w_store w' = commit now (pending_events b, pending_alerts b) s ∨
               pending_events b = [] ∧ pending_alerts b = []).
  { unfold w'. cbn [run foldl step]. unfold flush_start.
    destruct (pending_events b) as [|??], (pending_alerts b) as [|??]; by auto. }
  destruct Hs as [Hs|[-> ->]]; [|by split; intros p ?%elem_of_nil].
  split; intros p Hp; [eapply (lane_held _ _ _ _ _ _ _ _ _ p HE)|eapply (lane_held _ _ _ _ _ _ _ _ _ p HA)]; auto;
    rewrite Hs; apply committed; right; by apply list_elem_of_fmap_2.
Qed.

(** *** A flush ends *)

(** How many saves a flush can still make. *)
Definition saves_left f : nat :=
  match f with
  | Idle => 0
  | Batch ev al => S (length ev + length al)
  | Rows _ _ ev al => length ev + length al
  end.

Lemma rows_next_left rej_e rej_a ev al b b' f' :
  rows_next rej_e rej_a ev al b = (b', f') → (saves_left f' ≤ length ev + length al)%nat.
Proof. unfold rows_next. destruct ev, al; intros; simplify_eq; simpl; lia. Qed.

Lemma flush_step_left o b f b' f' :
  payload f ≠ ([], []) → flush_step max_pending o b f = (b', f') → (saves_left f' < saves_left f)%nat.
Proof.
  intros Hp Hs. destruct f as [|ev al|re ra [|e ev] [|a al]], o; simpl in Hs; simplify_eq; simpl; try lia;
    try done; apply rows_next_left in Hs; simpl in Hs; lia.
Qed.

Lemma rows_next_pending rej_e rej_a ev al b b' f' :
  rows_next rej_e rej_a ev al b = (b', f') →
  pending_events b' = pending_events b ∧ pending_alerts b' = pending_alerts b ∧
  (f' = Idle → persist_failing b' = false).
Proof. unfold rows_next. destruct ev, al; intros; by simplify_eq. Qed.

Lemma flush_step_pending o b f b' f' :
  o ≠ Outage → f ≠ Idle → flush_step max_pending o b f = (b', f') →
  pending_events b' = pending_events b ∧ pending_alerts b' = pending_alerts b ∧
  (f' = Idle → persist_failing b' = false).
Proof.
  intros Ho Hf Hs. destruct f as [|ev al|re ra [|??] al], o; simpl in Hs; simplify_eq; try done;
    by eapply rows_next_pending.
Qed.

Lemma save_step now o b f s limbo :
  f ≠ Idle →
  let '(b', f') := flush_step max_pending o b f in
  ∃ s' limbo', step prefix batch_size max_pending (SaveReturns now o) (mkWorld b f s limbo)
    = mkWorld b' f' s' limbo'.
Proof. intros Hf. destruct f; [done|..]; unfold step; destruct (flush_step max_pending o b _); eauto. Qed.

Lemma saves_idle now os w :
  w_flushing w = Idle → run prefix batch_size max_pending (SaveReturns now <$> os) w = w.
Proof. destruct w as [b f s limbo]. simpl. intros ->. induction os as [|o os IH]; [done|]. exact IH. Qed.

Lemma saves_finish now os w :
  w_flushing w ≠ Idle → busy (w_flushing w) → Outage ∉ os →
  (saves_left (w_flushing w) ≤ length os)%nat →
  let w' := run prefix batch_size max_pending (SaveReturns now <$> os) w in
  w_flushing w' = Idle ∧ pending_events (w_buffer w') = pending_events (w_buffer w) ∧
  pending_alerts (w_buffer w') = pending_alerts (w_buffer w) ∧ persist_failing (w_buffer w') = false.
Proof.
  revert w. induction os as [|o os IH]; intros [b f s limbo]; cbn [w_flushing w_buffer];
    intros Hi [?|Hp] Ho Hl; try done.
  - by destruct f as [|?|? ? [|??] [|??]]; simpl in *; try lia.
  - apply not_elem_of_cons in Ho as [Ho Hos]. pose proof (save_step now o b f s limbo Hi) as Hstep.
    destruct (flush_step max_pending o b f) as [b' f'] eqn:Hs. destruct Hstep as (s' & limbo' & Hstep).
    destruct (flush_step_pending o b f b' f') as (He & Ha & Hf); [done..|].
    pose proof (flush_step_left _ _ _ _ _ Hp Hs). pose proof (flush_step_busy _ _ _ _ _ Hp Hs).
    rewrite fmap_cons. cbn [run foldl]. rewrite Hstep.
    destruct (decide (f' = Idle)) as [->|Hf'].
    + fold (run prefix batch_size max_pending (SaveReturns now <$> os) (mkWorld b' Idle s' limbo')).
      rewrite saves_idle by done. simpl. auto.
    + rewrite <-He, <-Ha. apply (IH (mkWorld b' f' s' limbo')); simpl in *; try done; lia.
Qed.

(** A flush of whatever is buffered while the database answers. *)
Lemma flush_finishes now os w :
  w_flushing w = Idle → Outage ∉ os →
  len (pending_events (w_buffer w)) + len (pending_alerts (w_buffer w)) < len os →
  let w' := run prefix batch_size max_pending (FlushStart :: (SaveReturns now <$> os)) w in
  w_flushing w' = Idle ∧ pending_events (w_buffer w') = [] ∧ pending_alerts (w_buffer w') = [] ∧
  (pending_events (w_buffer w) ≠ [] ∨ pending_alerts (w_buffer w) ≠ [] →
    persist_failing (w_buffer w') = false).
Proof.
  destruct w as [b f s limbo]. cbn [w_flushing w_buffer]. intros -> Ho Hlen. cbv zeta.
  cbn [run foldl step]. unfold flush_start.
  assert (Hgo : ∀ ev al, (ev, al) ≠ ([], []) → len ev + len al < len os →
    let w' := run prefix batch_size max_pending (SaveReturns now <$> os)
                (mkWorld (with_pending [] [] b) (Batch ev al) s limbo) in
    w_flushing w' = Idle ∧ pending_events (w_buffer w') = [] ∧ pending_alerts (w_buffer w') = [] ∧
    persist_failing (w_buffer w') = false).
  { intros ev al Hne Hl. apply (saves_finish now os (mkWorld (with_pending [] [] b) (Batch ev al) s limbo));
      [done|by right|done|]. unfold len in Hl. simpl. lia. }
  destruct (pending_events b) as [|e ev] eqn:He, (pending_alerts b) as [|a al] eqn:Ha.
  - pose proof (saves_idle now os (mkWorld b Idle s limbo) eq_refl) as Hid. unfold run in Hid.
    rewrite Hid. simpl. rewrite He, Ha. split_and!; try done. by intros [].
  - destruct (Hgo [] (a :: al)) as (? & ? & ? & ?); [done|done|]. split_and!; auto.
  - destruct (Hgo (e :: ev) []) as (? & ? & ? & ?); [done|done|]. split_and!; auto.
  - destruct (Hgo (e :: ev) (a :: al)) as (? & ? & ? & ?); [done|done|]. split_and!; auto.
Qed.
End world.

(** ** Properties *)

Section properties.
Context {TE TA : Type} `{SqlTable EventValues TE, SqlTable AlertValues TA}.
Implicit Types (s : Store TE TA).


(** No accepted record is lost silently: under any interleaving each one
    is stored once, buffered, in flight, or one of the dropped records, of which
    the counters (with the rows refused so far by the flush in progress) give the
    exact number; only a record whose save was given up on can be stored and yet
    not settled; and what is not yet stored stays in the order of arrival. *)
Theorem no_record_lost_silently prefix batch_size max_pending ls s :
  0 ≤ max_pending → fresh_world prefix s →
  let w := run prefix batch_size max_pending ls (start s) in
  let b := w_buffer w in let f := w_flushing w in
  let '(ev, al) := journal prefix batch_size max_pending ls (start s) in
  (∃ settled dropped, accounts event_values ev settled dropped (flight_events f) (pending_events b)
    (event_rows (w_store w)) (w_limbo w ≫= fst) (events_unpersisted b + refused_events f)) ∧
  (∃ settled dropped, accounts alert_values al settled dropped (flight_alerts f) (pending_alerts b)
    (alert_rows (w_store w)) (w_limbo w ≫= snd) (alerts_unpersisted b + refused_alerts f)) ∧
  flight_events f ++ pending_events b `sublist_of` ev ∧
  flight_alerts f ++ pending_alerts b `sublist_of` al.
Proof.
  intros Hmax Hs. pose proof (reachable _ batch_size _ Hmax ls s Hs) as Hinv.
  destruct (journal _ _ _ ls _) as [ev al]. destruct Hinv as [[He Ha] _ _].
  split_and!; [by eapply lane_accounts|by eapply lane_accounts|by destruct He|by destruct Ha].
Qed.

(** C31: the database recovers: after any history, one flush whose saves are
    answered (stored or refused) ends within one save more than there are
    records, leaves nothing buffered and the runtime healthy, and every record
    ever accepted is then stored once or counted as dropped (and, dropped, stored
    only if a save of it was given up on). *)
Theorem flush_after_recovery prefix batch_size max_pending ls s now os :
  0 ≤ max_pending → fresh_world prefix s →
  let w := run prefix batch_size max_pending ls (start s) in
  w_flushing w = Idle → Outage ∉ os →
  len (pending_events (w_buffer w)) + len (pending_alerts (w_buffer w)) < len os →
  let ls' := ls ++ FlushStart :: (SaveReturns now <$> os) in
  let w' := run prefix batch_size max_pending ls' (start s) in
  let '(ev, al) := journal prefix batch_size max_pending ls' (start s) in
  w_flushing w' = Idle ∧ pending_events (w_buffer w') = [] ∧ pending_alerts (w_buffer w') = [] ∧
  (pending_events (w_buffer w) ≠ [] ∨ pending_alerts (w_buffer w) ≠ [] →
    persist_failing (w_buffer w') = false) ∧
  (∃ settled dropped, accounts event_values ev settled dropped [] [] (event_rows (w_store w'))
    (w_limbo w' ≫= fst) (events_unpersisted (w_buffer w'))) ∧
  (∃ settled dropped, accounts alert_values al settled dropped [] [] (alert_rows (w_store w'))
    (w_limbo w' ≫= snd) (alerts_unpersisted (w_buffer w'))).
Proof.
  intros Hmax Hs w Hi Ho Hl. cbv zeta.
  destruct (flush_finishes prefix batch_size max_pending now os w Hi Ho Hl) as (HI & HE & HA & HF).
  pose proof (reachable _ batch_size _ Hmax (ls ++ FlushStart :: (SaveReturns now <$> os)) s Hs) as Hinv.
  destruct (journal _ _ _ _ _) as [ev al]. unfold run in *. rewrite foldl_app in *. fold w in Hinv |- *.
  destruct Hinv as [[He Ha] _ _]. rewrite HI, HE, HA in *. simpl in *. rewrite Z.add_0_r in *.
  split_and!; try done; by eapply lane_accounts.
Qed.

(** At most [max_pending] events are buffered at any time. *)
Theorem event_buffer_bounded prefix batch_size max_pending ls s :
  0 ≤ max_pending → fresh_world prefix s →
  len (pending_events (w_buffer (run prefix batch_size max_pending ls (start s)))) ≤ max_pending.
Proof.
  intros Hmax Hs. pose proof (reachable _ batch_size _ Hmax ls s Hs) as Hinv.
  destruct (journal _ _ _ ls _) as [ev al]. by destruct Hinv.
Qed.
End properties.

(** ** The cap on alerts

    [_consume] checks the cap only against the events: alerts raised since
    the last trim are not bounded by it. *)
Lemma alert_buffer_exceeds_cap :
  let b := consume "p" 1 1 [example_alert; example_alert; example_alert]
             (example_event "su_failed" "10.1.1.1" 5) new_buffer in
  len (pending_alerts b) = 3 ∧ 1 < len (pending_alerts b).
Proof. by vm_compute. Qed.

(** ** Witnesses *)

(** An outage after the commit, new events meanwhile, the commit landing late,
    the retry, and a batch with a refused row. *)
Definition example_history : list label :=
  [Consume [example_alert] (example_event "su_failed" "10.1.1.1" 5); FlushStart;
   SaveReturns 10 Outage; Consume [] (example_event "ssh_login_failed" "10.1.1.2" 6); Land 11 0;
   FlushStart; SaveReturns 12 Done; Consume [example_alert] (example_event "su_failed" "10.1.1.3" 7);
   FlushStart; SaveReturns 13 Rejected; SaveReturns 14 Rejected].

Lemma example_store_fresh : fresh_world "p" example_store.
Proof. split_and!; [apply NoDup_nil_2..|]. intros n _. by split; intros ?%elem_of_nil. Qed.


Lemma no_record_lost_silently_witness :
  let w := run "p" 10 5 example_history (start example_store) in
  ∃ settled dropped, len dropped = 1 ∧
    settled ++ dropped ≡ₚ (journal "p" 10 5 example_history (start example_store)).1 ∧
    Forall (held event_values (event_rows (w_store w))) settled.
Proof.
  destruct (no_record_lost_silently "p" 10 5 example_history example_store) as ((settled & dropped & Hacc) & _);
    [lia|apply example_store_fresh|].
  exists settled, dropped. split; [exact (ac_lost _ _ _ _ _ _ _ _ _ Hacc)|]. split; [|exact (ac_held _ _ _ _ _ _ _ _ _ Hacc)].
  pose proof (ac_parts _ _ _ _ _ _ _ _ _ Hacc) as Hp. simpl in Hp. rewrite app_nil_r in Hp. exact Hp.
Defined.

Lemma flush_after_recovery_witness :
  w_flushing (run "p" 10 5 (take 4 example_history ++ FlushStart :: (SaveReturns 20 <$> repeat Done 4))
    (start example_store)) = Idle.
Proof.
  apply (flush_after_recovery "p" 10 5 (take 4 example_history) example_store 20 (repeat Done 4));
    [lia|apply example_store_fresh|reflexivity|by apply (bool_decide_unpack _)|by vm_compute].
Defined.

Lemma event_buffer_bounded_witness :
  len (pending_events (w_buffer (run "p" 10 1 (take 4 example_history) (start example_store)))) ≤ 1.
Proof.
  apply (event_buffer_bounded "p" 10 1 (take 4 example_history) example_store);
    [lia|apply example_store_fresh].
Defined.
