(* ===== verification/Calendar.v ===== *)
(** * The calendar ([datetime])

    The part of the standard library's [datetime] the timestamp parsers use:
    the proleptic Gregorian calendar from year 1 to 9999, the constructor's
    checks, and conversion to UTC.  The algorithms are those of [datetime.py]. *)

From S2P Require Import Prelude Events.
Local Open Scope Z_scope.

Definition MINYEAR : Z := 1.
Definition MAXYEAR : Z := 9999.

Definition is_leap (year : Z) : bool :=
  (year mod 4 =? 0) && (negb (year mod 100 =? 0) || (year mod 400 =? 0)).

Definition days_before_year (year : Z) : Z :=
  let y := year - 1 in y * 365 + y / 4 - y / 100 + y / 400.

Definition days_in_month (year month : Z) : Z :=
  if month =? 2 then if is_leap year then 29 else 28
  else if bool_decide (month ∈ [4; 6; 9; 11]) then 30 else 31.

Definition days_before_month (year month : Z) : Z :=
  foldl (λ acc m, acc + days_in_month year m) 0 (seqZ 1 (month - 1)).

(** [date.toordinal()]: 1 is the first of January of year 1. *)
Definition to_ordinal (year month day : Z) : Z :=
  days_before_year year + days_before_month year month + day.

(** The year [date.fromordinal] finds. *)
Definition year_of_ordinal (n : Z) : Z :=
  let n := n - 1 in
  let n400 := n / 146097 in
  let n := n mod 146097 in
  let n100 := n / 36524 in
  let n := n mod 36524 in
  let n4 := n / 1461 in
  let n := n mod 1461 in
  let n1 := n / 365 in
  let year := n400 * 400 + 1 + n100 * 100 + n4 * 4 + n1 in
  if (n1 =? 4) || (n100 =? 4) then year - 1 else year.

(** A naive reading of the clock: year, month, day, hour, minute, second,
    microsecond. *)
Record civil := mkCivil {
  cv_year : Z; cv_month : Z; cv_day : Z;
  cv_hour : Z; cv_minute : Z; cv_second : Z; cv_microsecond : Z;
}.

(** What the constructor [datetime(...)] takes. *)
Definition valid_civil (c : civil) : bool :=
  between MINYEAR MAXYEAR (cv_year c) && between 1 12 (cv_month c)
    && between 1 (days_in_month (cv_year c) (cv_month c)) (cv_day c)
    && between 0 23 (cv_hour c) && between 0 59 (cv_minute c) && between 0 59 (cv_second c)
    && between 0 999999 (cv_microsecond c).

Definition DAY_US : Z := 86400 * SECOND.
Definition EPOCH_ORDINAL : Z := Eval vm_compute in to_ordinal 1970 1 1.

(** Microseconds from the epoch, read as UTC *)
Definition civil_us (c : civil) : Z :=
  ((to_ordinal (cv_year c) (cv_month c) (cv_day c) - EPOCH_ORDINAL) * 86400
   + cv_hour c * 3600 + cv_minute c * 60 + cv_second c) * SECOND + cv_microsecond c.

(** The year on a calendar whose clock reads [us] *)
Definition year_of (us : Z) : Z := year_of_ordinal (us / DAY_US + EPOCH_ORDINAL).

(** The first and the last instant a [datetime] can hold *)
Definition MIN_US : Z := Eval vm_compute in civil_us (mkCivil 1 1 1 0 0 0 0).
Definition MAX_US : Z := Eval vm_compute in civil_us (mkCivil 9999 12 31 23 59 59 999999).

(** [datetime(..., tzinfo=timezone(offset))], offset in microseconds *)
Definition make_datetime (c : civil) (offset : Z) : result datetime :=
  _ ← raise_if (negb (valid_civil c)) ValueError;
  Ok (mkDatetime (civil_us c - offset) (Some offset)).

(** [t.astimezone(UTC)] *)
Definition to_utc (t : datetime) : result datetime :=
  _ ← raise_if (negb (between MIN_US MAX_US (dt_instant t))) OverflowError;
  Ok (mkDatetime (dt_instant t) (Some 0)).

Example calendar_dates :
  map (λ '(y, m, d), civil_us (mkCivil y m d 0 0 0 0) / DAY_US)
    [(1970, 1, 1); (2000, 2, 29); (2000, 3, 1); (2026, 6, 16); (1, 1, 1); (9999, 12, 31)]
  = [0; 11016; 11017; 20620; -719162; 2932896].
Proof. vm_compute. reflexivity. Qed.

Example calendar_years :
  map (λ d, year_of (d * DAY_US)) [0; -1; 11016; 20620; -719162; 2932896; 10956; 10957; 11322; 11323]
  = [1970; 1969; 2000; 2026; 1; 9999; 1999; 2000; 2000; 2001].
Proof. vm_compute. reflexivity. Qed.

(** ** Lemmas *)

Lemma days_before_year_step y :
  days_before_year (y + 1) = days_before_year y + if is_leap y then 366 else 365.
Proof.
  unfold days_before_year, is_leap. replace (y + 1 - 1) with y by lia.
  destruct (Z.eqb_spec (y mod 4) 0), (Z.eqb_spec (y mod 100) 0), (Z.eqb_spec (y mod 400) 0);
    cbn [andb orb negb]; Z.to_euclidean_division_equations; lia.
Qed.

(** The year found is the one whose days hold the ordinal. *)
Lemma year_of_ordinal_spec n :
  days_before_year (year_of_ordinal n) < n ≤ days_before_year (year_of_ordinal n + 1).
Proof.
  unfold year_of_ordinal. cbv zeta.
  set (q400 := (n - 1) / 146097). set (r400 := (n - 1) mod 146097).
  assert (H400 : n - 1 = 146097 * q400 + r400 ∧ 0 ≤ r400 < 146097)
    by (split; [apply Z.div_mod|apply Z.mod_pos_bound]; lia).
  set (q100 := r400 / 36524). set (r100 := r400 mod 36524).
  assert (H100 : r400 = 36524 * q100 + r100 ∧ 0 ≤ r100 < 36524)
    by (split; [apply Z.div_mod|apply Z.mod_pos_bound]; lia).
  set (q4 := r100 / 1461). set (r4 := r100 mod 1461).
  assert (H4 : r100 = 1461 * q4 + r4 ∧ 0 ≤ r4 < 1461)
    by (split; [apply Z.div_mod|apply Z.mod_pos_bound]; lia).
  set (q1 := r4 / 365). set (r1 := r4 mod 365).
  assert (H1 : r4 = 365 * q1 + r1 ∧ 0 ≤ r1 < 365)
    by (split; [apply Z.div_mod|apply Z.mod_pos_bound]; lia).
  clearbody q400 r400 q100 r100 q4 r4 q1 r1. unfold days_before_year.
  destruct (Z.eqb_spec q1 4), (Z.eqb_spec q100 4); cbn [orb]; Z.to_euclidean_division_equations; nia.
Qed.

Lemma days_before_year_mono a b : a ≤ b → days_before_year a ≤ days_before_year b.
Proof. intros. unfold days_before_year. Z.to_euclidean_division_equations; lia. Qed.

Lemma year_of_ordinal_unique n y :
  days_before_year y < n ≤ days_before_year (y + 1) → year_of_ordinal n = y.
Proof.
  intros Hn. pose proof (year_of_ordinal_spec n) as Hs. set (z := year_of_ordinal n) in *.
  destruct (Z.lt_trichotomy z y) as [Hlt|[->|Hgt]]; [|done|].
  - pose proof (days_before_year_mono (z + 1) y). lia.
  - pose proof (days_before_year_mono (y + 1) z). lia.
Qed.

Ltac each_month m :=
  let H := fresh in
  assert (m = 1 ∨ m = 2 ∨ m = 3 ∨ m = 4 ∨ m = 5 ∨ m = 6 ∨ m = 7 ∨ m = 8 ∨ m = 9 ∨ m = 10 ∨ m = 11
          ∨ m = 12) as H by lia;
  repeat (destruct H as [->|H]); [..|subst m].

(** The day of the year *)
Lemma day_of_year y m d :
  1 ≤ m ≤ 12 → 1 ≤ d ≤ days_in_month y m →
  1 ≤ days_before_month y m + d ≤ if is_leap y then 366 else 365.
Proof.
  intros Hm Hd. each_month m; unfold days_before_month, days_in_month in *; simpl in *;
    destruct (is_leap y); simpl in *; lia.
Qed.

(** A month starts a day later, at most, after a leap February. *)
Lemma days_before_month_years y z m :
  1 ≤ m ≤ 12 → Z.abs (days_before_month y m - days_before_month z m) ≤ 1.
Proof.
  intros Hm. each_month m; unfold days_before_month, days_in_month; simpl;
    destruct (is_leap y), (is_leap z); simpl; lia.
Qed.

Lemma time_of_day c :
  valid_civil c = true →
  0 ≤ (cv_hour c * 3600 + cv_minute c * 60 + cv_second c) * SECOND + cv_microsecond c < DAY_US.
Proof.
  unfold valid_civil, between, DAY_US, SECOND. rewrite !andb_true_iff, !Z.leb_le. lia.
Qed.

Lemma valid_date c :
  valid_civil c = true → 1 ≤ cv_month c ≤ 12 ∧ 1 ≤ cv_day c ≤ days_in_month (cv_year c) (cv_month c).
Proof. unfold valid_civil, between. rewrite !andb_true_iff, !Z.leb_le. lia. Qed.

Lemma make_valid c tz :
  valid_civil c = true → make_datetime c tz = Ok (mkDatetime (civil_us c - tz) (Some tz)).
Proof. unfold make_datetime. by intros ->. Qed.

Lemma civil_bounds c :
  valid_civil c = true →
  1 ≤ cv_month c ≤ 12 ∧ 1 ≤ cv_day c ≤ 31 ∧ 0 ≤ cv_hour c ≤ 23 ∧ 0 ≤ cv_minute c ≤ 59 ∧ 0 ≤ cv_second c ≤ 59.
Proof.
  intros Hv. unfold valid_civil, between in Hv. rewrite !andb_true_iff, !Z.leb_le in Hv.
  assert (days_in_month (cv_year c) (cv_month c) ≤ 31) by (unfold days_in_month; repeat case_match; lia). lia.
Qed.

Lemma civil_us_day c :
  valid_civil c = true →
  civil_us c / DAY_US = to_ordinal (cv_year c) (cv_month c) (cv_day c) - EPOCH_ORDINAL.
Proof.
  intros Hv. pose proof (time_of_day c Hv) as Ht. symmetry.
  apply (Z.div_unique _ _ _ ((cv_hour c * 3600 + cv_minute c * 60 + cv_second c) * SECOND + cv_microsecond c));
    [by left|]. unfold civil_us, DAY_US, SECOND. lia.
Qed.

(** The calendar of an instant shows the year it was made from. *)
Lemma civil_us_year c : valid_civil c = true → year_of (civil_us c) = cv_year c.
Proof.
  intros Hv. unfold year_of. rewrite civil_us_day by done.
  replace (_ - EPOCH_ORDINAL + EPOCH_ORDINAL) with (to_ordinal (cv_year c) (cv_month c) (cv_day c)) by lia.
  apply valid_date in Hv as [Hm Hd]. pose proof (day_of_year _ _ _ Hm Hd).
  apply year_of_ordinal_unique. rewrite days_before_year_step. unfold to_ordinal. lia.
Qed.

Definition with_year (year : Z) (c : civil) : civil :=
  mkCivil year (cv_month c) (cv_day c) (cv_hour c) (cv_minute c) (cv_second c) (cv_microsecond c).

(** The same date one year on is 365 or 366 days later (or not a date). *)
Lemma civil_us_next_year c :
  valid_civil c = true →
  364 * DAY_US ≤ civil_us (with_year (cv_year c + 1) c) - civil_us c ≤ 367 * DAY_US.
Proof.
  intros Hv. apply valid_date in Hv as [Hm _].
  pose proof (days_before_month_years (cv_year c + 1) (cv_year c) (cv_month c) Hm).
  pose proof (days_before_year_step (cv_year c)) as Hs.
  unfold civil_us, to_ordinal, with_year, DAY_US, SECOND. simpl. destruct (is_leap (cv_year c)); lia.
Qed.
