(* ===== verification/NetParse.v ===== *)
(** * Parsing [/proc/net/tcp] rows ([collectors/netparse.py])

    The row parser with the conversions of the Python standard library it uses
    ([bytes.fromhex], [int(s, base)], the packed constructors and the rendering
    of [ipaddress]), each with the exceptions it can raise. *)

From S2P Require Import Prelude PyText IpAddress.
Local Open Scope string_scope.
Local Open Scope Z_scope.

(** ** Conversions of the standard library *)

Definition hex_value (c : ascii) : option Z := if is_hex c then Some (digit_value (lower_char c)) else None.

Definition is_ascii_space (c : ascii) : bool := in_range 9 13 c || Ascii.eqb c " ".

(** [bytes.fromhex]: pairs of digits, blanks allowed between pairs. *)
Fixpoint fromhex_go (s : string) : option (list Z) :=
  match s with
  | "" => Some []
  | String c s' =>
      if is_ascii_space c then fromhex_go s'
      else match hex_value c, s' with
           | Some hi, String d s'' =>
               lo ← hex_value d; rest ← fromhex_go s''; Some (hi * 16 + lo :: rest)
           | _, _ => None
           end
  end.

Definition fromhex (s : string) : result (list Z) :=
  match fromhex_go s with Some bs => Ok bs | None => Raise ValueError end.

(** Digits in [base], single underscores between them; [ok]: may end here. *)
Fixpoint scan_digits (base acc : Z) (ok : bool) (s : string) : option Z :=
  match s with
  | "" => if ok then Some acc else None
  | String c s' =>
      if Ascii.eqb c "_" then (if ok then scan_digits base acc false s' else None)
      else match hex_value c with
           | Some d => if d <? base then scan_digits base (acc * base + d) true s' else None
           | None => None
           end
  end.

Fixpoint count_digits (s : string) : Z :=
  match s with "" => 0 | String c s' => (if Ascii.eqb c "_" then 0 else 1) + count_digits s' end.

Definition MAX_STR_DIGITS : Z := 4300.

Definition int_magnitude (base : Z) (s : string) : option Z :=
  let body :=
    match s with
    | String "0" (String x s') =>
        if (base =? 16) && (Ascii.eqb x "x" || Ascii.eqb x "X")
        then match s' with String "_" s'' => s'' | _ => s' end
        else s
    | _ => s
    end in
  if (base =? 10) && (MAX_STR_DIGITS <? count_digits body) then None
  else scan_digits base 0 false body.

(** [int(s, base)] for base 10 and 16 *)
Definition py_int (base : Z) (s : string) : result Z :=
  let magnitude :=
    match str_strip s with
    | String "-" s' => Z.opp <$> int_magnitude base s'
    | String "+" s' => int_magnitude base s'
    | s' => int_magnitude base s'
    end in
  match magnitude with Some n => Ok n | None => Raise ValueError end.

(** [int.from_bytes(raw, "big")] *)
Definition from_bytes (raw : list Z) : Z := foldl (λ acc b, acc * 256 + b) 0 raw.

(** [ipaddress.IPv4Address(raw)] and [IPv6Address(raw)] *)
Definition packed_address (raw : list Z) (n : nat) (make : Z → ip) : result ip :=
  if (length raw =? n)%nat then Ok (make (from_bytes raw)) else Raise ValueError.

(** ** The parser *)

Definition STATE_LISTEN : string := "LISTEN".
Definition STATE_ESTABLISHED : string := "ESTABLISHED".

Definition TCP_STATES : list (string * string) := [
  ("01", STATE_ESTABLISHED); ("02", "SYN_SENT"); ("03", "SYN_RECV");
  ("04", "FIN_WAIT1"); ("05", "FIN_WAIT2"); ("06", "TIME_WAIT");
  ("07", "CLOSE"); ("08", "CLOSE_WAIT"); ("09", "LAST_ACK");
  ("0A", STATE_LISTEN); ("0B", "CLOSING")].

Definition tcp_state (s : string) : option string :=
  snd <$> List.find (λ kv, String.eqb (fst kv) s) TCP_STATES.

Record Socket := mkSocket {
  sk_proto : string; sk_local_ip : string; sk_local_port : Z;
  sk_remote_ip : string; sk_remote_port : Z; sk_state : string; sk_uid : Z; sk_inode : Z;
}.

(** [Socket.key] *)
Definition socket_key (s : Socket) : string * string * Z * string * Z * Z :=
  (sk_proto s, sk_local_ip s, sk_local_port s, sk_remote_ip s, sk_remote_port s, sk_inode s).

(** [try: ... except ValueError: return None] *)
Definition except_none {A B} (r : result A) (f : A → result (option B)) : result (option B) :=
  match r with
  | Ok a => f a
  | Raise ValueError => Ok None
  | Raise e => Raise e
  end.

Definition parse_ipv4_hex (value : string) : result (option string) :=
  if negb (strlen value =? 8) then Ok None
  else except_none (fromhex value) (λ raw,
    a ← packed_address (rev raw) 4 IPv4; Ok (Some (ip_str a))).

(** [raw[i:i+4][::-1]] for [i] in [range(0, 16, 4)], joined *)
Definition unpack_words (raw : list Z) : list Z :=
  (flat_map (λ i, rev (take 4 (drop i raw))) [0; 4; 8; 12]%nat).

Definition parse_ipv6_hex (value : string) : result (option string) :=
  if negb (strlen value =? 32) then Ok None
  else except_none (fromhex value) (λ raw,
    a ← packed_address (unpack_words raw) 16 (λ n, IPv6 n None); Ok (Some (ip_str a))).

Definition parse_endpoint (field : string) (ipv6 : bool) : result (option (string * Z)) :=
  match str_split ":" field with
  | [addr_hex; port_hex] =>
      ip ← (if ipv6 then parse_ipv6_hex addr_hex else parse_ipv4_hex addr_hex);
      match ip with
      | None => Ok None
      | Some ip =>
          except_none (py_int 16 port_hex) (λ port,
            if (0 <=? port) && (port <=? 65535) then Ok (Some (ip, port)) else Ok None)
      end
  | _ => Ok None
  end.

Definition field (fields : list string) (i : nat) : string := nth i fields "".

Definition parse_net_line (line proto : string) : result (option Socket) :=
  let fields := str_words line in
  if (length fields <? 10)%nat then Ok None else
  let ipv6 := str_endswith proto "6" in
  local ← parse_endpoint (field fields 1) ipv6;
  remote ← parse_endpoint (field fields 2) ipv6;
  match local, remote, tcp_state (str_upper (field fields 3)) with
  | Some local, Some remote, Some state =>
      except_none (py_int 10 (field fields 7)) (λ uid,
        except_none (py_int 10 (field fields 9)) (λ inode,
          Ok (Some (mkSocket proto (fst local) (snd local) (fst remote) (snd remote) state uid inode))))
  | _, _, _ => Ok None
  end.

Example parse_row :
  parse_net_line "   0: 0100007F:0CEA 00000000:0000 0A 00000000:00000000 00:00000000 00000000  1000        0 41234 1 0" "tcp"
  = Ok (Some (mkSocket "tcp" "127.0.0.1" 3306 "0.0.0.0" 0 "LISTEN" 1000 41234)).
Proof. vm_compute. reflexivity. Qed.

Example parse_header :
  parse_net_line "  sl  local_address rem_address   st tx_queue rx_queue tr tm->when retrnsmt   uid  timeout inode" "tcp"
  = Ok None.
Proof. vm_compute. reflexivity. Qed.

Example parse_row6 :
  parse_net_line "   0: 00000000000000000000000001000000:0016 B80D01200000000067452301EFCDAB89:A1B2 01 00000000:00000000 00:00000000 00000000     0        0 7 1" "tcp6"
  = Ok (Some (mkSocket "tcp6" "::1" 22 "2001:db8::123:4567:89ab:cdef" 41394 "ESTABLISHED" 0 7)).
Proof. vm_compute. reflexivity. Qed.

(** [int] takes more than the kernel prints. *)
Example lenient_ports :
  map (py_int 16) ["0x35"; "+35"; "3_5"; "-1"; "0x"; "_1"; " 35 "]
  = [Ok 53; Ok 53; Ok 53; Ok (-1); Raise ValueError; Raise ValueError; Ok 53].
Proof. vm_compute. reflexivity. Qed.

(** ** Lemmas *)

#[local] Arguments ip_str : simpl never.
#[local] Arguments unpack_words : simpl never.
#[local] Arguments tcp_state : simpl never.
#[local] Arguments py_int : simpl never.

Definition no_space (s : string) : bool := str_forall (λ c, negb (is_space c)) s.

Lemma str_words_no_space s : Forall (λ w, no_space w = true) (str_words s).
Proof.
  induction s as [|c s IH]; simpl; [constructor|].
  destruct (is_space c) eqn:Hc; [done|].
  destruct (match s with "" => false | String d _ => negb (is_space d) end); [|].
  - destruct (str_words s) as [|w ws]; [by repeat constructor; unfold no_space; simpl; rewrite Hc|].
    apply Forall_cons in IH as [Hw Hws]. constructor; [|done].
    unfold no_space in *. simpl. by rewrite Hc, Hw.
  - constructor; [|done]. unfold no_space. simpl. by rewrite Hc.
Qed.

Lemma field_no_space line i : no_space (field (str_words line) i) = true.
Proof.
  unfold field. pose proof (str_words_no_space line) as Hall. rewrite List.Forall_forall in Hall.
  destruct (nth_in_or_default i (str_words line) "") as [Hin| ->]; [by apply Hall|done].
Qed.

Lemma str_split_forall P sep s :
  str_forall P s = true → Forall (λ w, str_forall P w = true) (str_split sep s).
Proof.
  induction s as [|c s IH]; simpl; [by repeat constructor|].
  intros [Hc Hs]%andb_true_iff. specialize (IH Hs).
  destruct (Ascii.eqb c sep); [by constructor|].
  destruct (str_split sep s) as [|w ws]; [by repeat constructor; simpl; rewrite Hc|].
  apply Forall_cons in IH as [Hw Hws]. constructor; [|done]. simpl. by rewrite Hc, Hw.
Qed.

Lemma ascii_space_space c : is_ascii_space c = true → is_space c = true.
Proof.
  intros Hc. assert (Hall : ∀ c, implb (is_ascii_space c) (is_space c) = true)
    by (by apply all_chars_forall).
  specialize (Hall c). by rewrite Hc in Hall.
Qed.

Lemma fromhex_go_length n s bs :
  (String.length s ≤ n)%nat → no_space s = true → fromhex_go s = Some bs →
  String.length s = (2 * length bs)%nat.
Proof.
  revert s bs. induction n as [|n IH]; intros s bs Hn Hs; destruct s as [|c s]; simpl in *;
    try (intros [= <-]; done); [lia|].
  unfold no_space in Hs. simpl in Hs. apply andb_true_iff in Hs as [Hc Hs].
  destruct (is_ascii_space c) eqn:Ha; [apply ascii_space_space in Ha; by rewrite Ha in Hc|].
  destruct (hex_value c); [|done]. destruct s as [|d s]; [done|]. simpl in *.
  apply andb_true_iff in Hs as [_ Hs]. destruct (hex_value d); simpl; [|done].
  destruct (fromhex_go s) as [rest|] eqn:Hr; simpl; [|done]. intros [= <-].
  specialize (IH s rest ltac:(lia) Hs Hr). simpl. lia.
Qed.

(** The field conversions raise nothing on text without blanks. *)
Lemma parse_ipv4_hex_total v : no_space v = true → ∃ r, parse_ipv4_hex v = Ok r.
Proof.
  intros Hv. unfold parse_ipv4_hex. destruct (strlen v =? 8) eqn:Hl; simpl; [|eauto].
  apply Z.eqb_eq in Hl. unfold strlen in Hl. unfold fromhex.
  destruct (fromhex_go v) as [raw|] eqn:Hr; simpl; [|eauto].
  apply (fromhex_go_length 8) in Hr; [|lia|done]. unfold packed_address.
  rewrite (proj2 (Nat.eqb_eq _ _)) by (rewrite length_rev; lia). simpl. eauto.
Qed.

Lemma unpack_words_length raw : length raw = 16%nat → length (unpack_words raw) = 16%nat.
Proof. intros Hl. do 16 (destruct raw as [|? raw]; [discriminate Hl|]).
  destruct raw; [reflexivity|discriminate Hl]. Qed.

Lemma parse_ipv6_hex_total v : no_space v = true → ∃ r, parse_ipv6_hex v = Ok r.
Proof.
  intros Hv. unfold parse_ipv6_hex. destruct (strlen v =? 32) eqn:Hl; simpl; [|eauto].
  apply Z.eqb_eq in Hl. unfold strlen in Hl. unfold fromhex.
  destruct (fromhex_go v) as [raw|] eqn:Hr; simpl; [|eauto].
  apply (fromhex_go_length 32) in Hr; [|lia|done]. unfold packed_address.
  rewrite (proj2 (Nat.eqb_eq _ _)) by (apply unpack_words_length; lia). simpl. eauto.
Qed.

Lemma py_int_cases base s : (∃ n, py_int base s = Ok n) ∨ py_int base s = Raise ValueError.
Proof. unfold py_int. case_match; eauto. Qed.

Lemma parse_endpoint_total f ipv6 :
  no_space f = true →
  parse_endpoint f ipv6 = Ok None ∨
  ∃ ip port, parse_endpoint f ipv6 = Ok (Some (ip, port)) ∧ 0 ≤ port ≤ 65535.
Proof.
  intros Hf. unfold parse_endpoint. pose proof (str_split_forall _ ":" _ Hf) as Hs.
  destruct (str_split ":" f) as [|a [|p [|? ?]]]; eauto.
  apply Forall_cons in Hs as [Ha _].
  assert (∃ r, (if ipv6 then parse_ipv6_hex a else parse_ipv4_hex a) = Ok r) as [r ->]
    by (destruct ipv6; [by apply parse_ipv6_hex_total|by apply parse_ipv4_hex_total]).
  simpl. destruct r as [ip|]; [|eauto].
  destruct (py_int_cases 16 p) as [[n ->]| ->]; simpl; [|eauto].
  destruct ((0 <=? n) && (n <=? 65535)) eqn:Hb; [|eauto].
  apply andb_true_iff in Hb as [?%Z.leb_le ?%Z.leb_le]. right. eauto.
Qed.

(** ** What the kernel prints *)

(** One byte as two upper-case digits. *)
Definition hex_up (n : Z) : ascii := upper_char (hex_digit n).

Fixpoint hex_bytes (bs : list Z) : string :=
  match bs with
  | [] => ""
  | b :: bs' => String (hex_up (b / 16)) (String (hex_up (b mod 16)) (hex_bytes bs'))
  end.

(** [%08X], [%04X], [%02X]: a number as that many upper-case digits *)
Fixpoint hex_digits (count : nat) (n : Z) : string :=
  match count with O => "" | S count => hex_digits count (n / 16) +:+ String (hex_up (n mod 16)) "" end.

(** The number a little-endian machine reads in four bytes *)
Definition little_endian (a b c d : Z) : Z := a + 2 ^ 8 * b + 2 ^ 16 * c + 2 ^ 24 * d.

(** An address of the given bytes (network order): [tcp4_seq_show] and
    [tcp6_seq_show] print each 32-bit word in memory as a number. *)
Fixpoint kernel_address (bs : list Z) : string :=
  match bs with
  | a :: b :: c :: d :: bs' => hex_digits 8 (little_endian a b c d) +:+ kernel_address bs'
  | _ => ""
  end.

Definition kernel_endpoint (bs : list Z) (port : Z) : string :=
  kernel_address bs +:+ ":" +:+ hex_digits 4 port.

(** [include/net/tcp_states.h] *)
Inductive kernel_state : Z → string → Prop :=
  | tcp_established : kernel_state 1 "ESTABLISHED"
  | tcp_syn_sent : kernel_state 2 "SYN_SENT"
  | tcp_syn_recv : kernel_state 3 "SYN_RECV"
  | tcp_fin_wait1 : kernel_state 4 "FIN_WAIT1"
  | tcp_fin_wait2 : kernel_state 5 "FIN_WAIT2"
  | tcp_time_wait : kernel_state 6 "TIME_WAIT"
  | tcp_close : kernel_state 7 "CLOSE"
  | tcp_close_wait : kernel_state 8 "CLOSE_WAIT"
  | tcp_last_ack : kernel_state 9 "LAST_ACK"
  | tcp_listen : kernel_state 10 "LISTEN"
  | tcp_closing : kernel_state 11 "CLOSING".

(** The number an address is: its bytes, the first the most significant *)
Fixpoint big_endian (bs : list Z) : Z :=
  match bs with [] => 0 | b :: bs' => b * 256 ^ Z.of_nat (length bs') + big_endian bs' end.

Definition address_text (ipv6 : bool) (bs : list Z) : string :=
  ip_str (if ipv6 then IPv6 (big_endian bs) None else IPv4 (big_endian bs)).

Definition is_byte (b : Z) : Prop := 0 ≤ b < 256.

Definition address_bytes (ipv6 : bool) (bs : list Z) : Prop :=
  Forall is_byte bs ∧ length bs = (if ipv6 then 16 else 4)%nat.

Lemma nibble_cases (P : Z → Prop) :
  P 0 → P 1 → P 2 → P 3 → P 4 → P 5 → P 6 → P 7 → P 8 → P 9 → P 10 → P 11 → P 12 → P 13 → P 14 →
  P 15 → ∀ n, 0 ≤ n < 16 → P n.
Proof.
  intros. assert (n = 0 ∨ n = 1 ∨ n = 2 ∨ n = 3 ∨ n = 4 ∨ n = 5 ∨ n = 6 ∨ n = 7 ∨ n = 8 ∨ n = 9 ∨
    n = 10 ∨ n = 11 ∨ n = 12 ∨ n = 13 ∨ n = 14 ∨ n = 15) as Hn by lia.
  repeat destruct Hn as [->|Hn]; try done. by subst.
Qed.

Lemma hex_up_facts n : 0 ≤ n < 16 →
  hex_value (hex_up n) = Some n ∧ is_ascii_space (hex_up n) = false ∧ is_hex (hex_up n) = true.
Proof. revert n. apply nibble_cases; by vm_compute. Qed.

Lemma byte_nibbles b : is_byte b → 0 ≤ b / 16 < 16 ∧ 0 ≤ b mod 16 < 16 ∧ b / 16 * 16 + b mod 16 = b.
Proof.
  unfold is_byte. intros Hb. pose proof (Z.div_mod b 16). pose proof (Z.mod_pos_bound b 16).
  split_and!; lia.
Qed.

Lemma fromhex_hex_bytes bs : Forall is_byte bs → fromhex_go (hex_bytes bs) = Some bs.
Proof.
  induction 1 as [|b bs Hb _ IH]; [done|]. destruct (byte_nibbles b Hb) as (Hh & Hl & Heq).
  destruct (hex_up_facts _ Hh) as (Hvh & Hsh & _). destruct (hex_up_facts _ Hl) as (Hvl & _ & _).
  cbn [hex_bytes fromhex_go]. by rewrite Hsh, Hvh, Hvl, IH; cbn; rewrite Heq.
Qed.

Lemma hex_bytes_length bs : String.length (hex_bytes bs) = (2 * length bs)%nat.
Proof. induction bs as [|b bs IH]; simpl; lia. Qed.

Lemma hex_bytes_hex bs : Forall is_byte bs → str_forall is_hex (hex_bytes bs) = true.
Proof.
  induction 1 as [|b bs Hb _ IH]; [done|]. destruct (byte_nibbles b Hb) as (Hh & Hl & _).
  destruct (hex_up_facts _ Hh) as (_ & _ & H1). destruct (hex_up_facts _ Hl) as (_ & _ & H2).
  simpl. by rewrite H1, H2.
Qed.

Lemma hex_not_colon s : str_forall is_hex s = true → str_split ":" s = [s].
Proof.
  induction s as [|c s IH]; [done|]. simpl. intros [Hc Hs]%andb_true_iff.
  destruct (Ascii.eqb_spec c ":") as [->|_]; [done|]. by rewrite IH.
Qed.

Lemma split_endpoint a p :
  str_forall is_hex a = true → str_forall is_hex p = true → str_split ":" (a +:+ String ":" p) = [a; p].
Proof.
  intros Ha Hp. induction a as [|c a IH]; cbn [String.append].
  - simpl. by rewrite hex_not_colon.
  - simpl in Ha. apply andb_true_iff in Ha as [Hc Ha]. simpl.
    destruct (Ascii.eqb_spec c ":") as [->|_]; [done|].
    change (String.append a) with (String.app a). by rewrite IH.
Qed.

(** *** Integers *)

Lemma scan_hex_bytes bs acc ok :
  Forall is_byte bs → bs ≠ [] →
  scan_digits 16 acc ok (hex_bytes bs) = Some (foldl (λ acc b, acc * 256 + b) acc bs).
Proof.
  intros Hb. revert acc ok. induction Hb as [|b bs Hb _ IH]; intros acc ok Hne; [done|].
  destruct (byte_nibbles b Hb) as (Hh & Hl & Heq).
  destruct (hex_up_facts _ Hh) as (Hvh & _ & Hxh). destruct (hex_up_facts _ Hl) as (Hvl & _ & Hxl).
  assert (Hu : ∀ c, is_hex c = true → Ascii.eqb c "_" = false)
    by (intros c; destruct (Ascii.eqb_spec c "_") as [->|]; done).
  cbn [hex_bytes scan_digits]. rewrite (Hu _ Hxh), Hvh, (Hu _ Hxl), Hvl.
  rewrite !(proj2 (Z.ltb_lt _ _)) by lia.
  replace ((acc * 16 + b / 16) * 16 + b mod 16) with (acc * 256 + b) by lia.
  destruct bs as [|b' bs]; [done|]. by apply IH.
Qed.

Lemma strip_id s : no_space s = true → str_strip s = s.
Proof.
  intros Hs. unfold str_strip.
  assert (str_lstrip s = s) as ->.
  { destruct s as [|c s]; [done|]. unfold no_space in Hs. simpl in *.
    apply andb_true_iff in Hs as [Hc _]. by destruct (is_space c). }
  induction s as [|c s IH]; [done|]. unfold no_space in Hs. simpl in *.
  apply andb_true_iff in Hs as [Hc Hs]. rewrite IH by done.
  destruct (is_space c); [done|]. by rewrite andb_false_r.
Qed.

Lemma hex_no_space s : str_forall is_hex s = true → no_space s = true.
Proof.
  assert (Hall : ∀ c, implb (is_hex c) (negb (is_space c)) = true) by (by apply all_chars_forall).
  unfold no_space. induction s as [|c s IH]; [done|]. simpl. intros [Hc Hs]%andb_true_iff.
  specialize (Hall c). rewrite Hc in Hall. simpl in Hall. rewrite Hall. by apply IH.
Qed.

(** The text of a number has no sign, prefix or blank. *)
Lemma py_int_hex base s :
  str_forall is_hex s = true → (base = 10 → count_digits s ≤ MAX_STR_DIGITS) →
  py_int base s = match scan_digits base 0 false s with Some n => Ok n | None => Raise ValueError end.
Proof.
  intros Hs Hc. unfold py_int. rewrite strip_id by (by apply hex_no_space).
  assert (Hm : int_magnitude base s = scan_digits base 0 false s).
  { unfold int_magnitude.
    assert (Hbody : (match s with
      | String "0" (String x s') =>
          if (base =? 16) && (Ascii.eqb x "x" || Ascii.eqb x "X")
          then match s' with String "_" s'' => s'' | _ => s' end else s
      | _ => s end) = s).
    { destruct s as [|c [|x s']]; [done|by destruct c as [[] [] [] [] [] [] [] []]|].
      assert (Hx : Ascii.eqb x "x" || Ascii.eqb x "X" = false).
      { simpl in Hs. destruct (is_hex c); [|done]. destruct (Ascii.eqb_spec x "x") as [->|]; [done|].
        by destruct (Ascii.eqb_spec x "X") as [->|]. }
      rewrite Hx, andb_false_r. by destruct c as [[] [] [] [] [] [] [] []]. }
    rewrite Hbody. destruct (base =? 10) eqn:Hb; [|done]. apply Z.eqb_eq in Hb.
    simpl. by rewrite (proj2 (Z.ltb_ge _ _)) by auto. }
  rewrite <-Hm. destruct s as [|c s]; [done|]. simpl in Hs.
  destruct c as [[] [] [] [] [] [] [] []]; done.
Qed.

Lemma decimal_digit n : (n < 10)%N →
  hex_value (pretty_N_char n) = Some (Z.of_N n) ∧ is_hex (pretty_N_char n) = true.
Proof.
  intros Hn. assert (n = 0 ∨ n = 1 ∨ n = 2 ∨ n = 3 ∨ n = 4 ∨ n = 5 ∨ n = 6 ∨ n = 7 ∨ n = 8 ∨ n = 9)%N
    as Hc by lia.
  repeat destruct Hc as [->|Hc]; try by vm_compute. by subst.
Qed.

Lemma hex_not_underscore c : is_hex c = true → Ascii.eqb c "_" = false.
Proof. by destruct (Ascii.eqb_spec c "_") as [->|]. Qed.

Lemma scan_decimal k x s ok :
  (0 < x)%N → (x < 10 ^ N.of_nat k)%N →
  scan_digits 10 0 ok (pretty_N_go x s) = scan_digits 10 (Z.of_N x) true s ∧
  str_forall is_hex (pretty_N_go x s) = str_forall is_hex s.
Proof.
  revert x s ok. induction k as [|k IH]; intros x s ok Hpos Hx; [simpl in Hx; lia|].
  rewrite pretty_N_go_step by lia.
  pose proof (N.mod_lt x 10 ltac:(lia)) as Hm. destruct (decimal_digit _ Hm) as [Hv Hh].
  assert (Hlast : scan_digits 10 (Z.of_N (x `div` 10)) true (String (pretty_N_char (x `mod` 10)) s)
    = scan_digits 10 (Z.of_N x) true s).
  { cbn [scan_digits]. rewrite hex_not_underscore, Hv, (proj2 (Z.ltb_lt _ _)) by (done || lia).
    f_equal. pose proof (N.div_mod x 10 ltac:(lia)). lia. }
  destruct (decide (x `div` 10 = 0)%N) as [Hz|Hnz].
  - rewrite Hz in *. rewrite pretty_N_go_0. split; [|simpl; by rewrite Hh].
    rewrite <-Hlast. cbn [scan_digits]. by rewrite hex_not_underscore.
  - destruct (IH (x `div` 10)%N (String (pretty_N_char (x `mod` 10)) s) ok) as [IH1 IH2];
      [by apply N.neq_0_lt_0|by apply N_div10_pow|]. rewrite IH1, IH2, Hlast. split; [done|]. simpl. by rewrite Hh.
Qed.

Lemma count_digits_le s : count_digits s ≤ strlen s.
Proof.
  induction s as [|c s IH]; [done|]. unfold strlen in *. cbn [count_digits String.length]. case_match; lia.
Qed.

(** [int(str(n)) == n] *)
Lemma py_int_str_of_int n : 0 ≤ n < 10 ^ 20 → py_int 10 (str_of_int n) = Ok n.
Proof.
  intros Hn. pose proof (str_of_int_length 20 n ltac:(lia) ltac:(simpl; lia)) as Hlen.
  assert (H : scan_digits 10 0 false (str_of_int n) = Some n ∧ str_forall is_hex (str_of_int n) = true).
  { destruct n as [|p|p]; [by vm_compute| |lia].
    change (str_of_int (Z.pos p)) with (pretty (N.pos p)). unfold pretty, pretty_N.
    rewrite decide_False by done. destruct (scan_decimal 20 (N.pos p) "" false) as [H1 H2];
      [lia|change (10 ^ N.of_nat 20)%N with (Z.to_N (10 ^ 20)); lia|]. by rewrite H1, H2. }
  destruct H as [H1 H2]. rewrite py_int_hex; [by rewrite H1|done|].
  intros _. pose proof (count_digits_le (str_of_int n)). unfold MAX_STR_DIGITS. lia.
Qed.

(** *** Endpoints *)

Lemma unpack_words_involutive bs : length bs = 16%nat → unpack_words (unpack_words bs) = bs.
Proof.
  intros Hl. do 16 (destruct bs as [|? bs]; [discriminate Hl|]).
  destruct bs; [reflexivity|discriminate Hl].
Qed.

Lemma unpack_words_bytes bs : length bs = 16%nat → Forall is_byte bs → Forall is_byte (unpack_words bs).
Proof.
  intros Hl Hb. do 16 (destruct bs as [|? bs]; [discriminate Hl|]).
  destruct bs; [|discriminate Hl]. unfold unpack_words. simpl.
  rewrite !Forall_cons in Hb. rewrite !Forall_cons. tauto.
Qed.

Lemma hex_bytes_app bs bs' : hex_bytes (bs ++ bs')%list = hex_bytes bs +:+ hex_bytes bs'.
Proof. induction bs as [|b bs IH]; [done|]. cbn [app hex_bytes]. rewrite IH. reflexivity. Qed.

(** Two digits are a byte. *)
Lemma hex_digits_byte k n : hex_digits (S (S k)) n = hex_digits k (n / 256) +:+ hex_bytes [n mod 256].
Proof.
  cbn [hex_digits hex_bytes]. rewrite Z.div_div by lia. change (16 * 16) with 256.
  replace (n mod 256 / 16) with (n / 16 mod 16) by (Z.to_euclidean_division_equations; lia).
  replace (n mod 256 mod 16) with (n mod 16) by (Z.to_euclidean_division_equations; lia).
  by rewrite string_app_assoc.
Qed.

Lemma hex_digits_word a b c d :
  Forall is_byte [a; b; c; d] → hex_digits 8 (little_endian a b c d) = hex_bytes [d; c; b; a].
Proof.
  intros Hb. rewrite !Forall_cons in Hb. unfold is_byte, little_endian in *.
  change (2 ^ 24) with (256 * (256 * 256)). change (2 ^ 16) with (256 * 256). change (2 ^ 8) with 256.
  rewrite !hex_digits_byte. cbn [hex_digits]. change ("" +:+ ?s) with s. rewrite !Z.div_div by lia.
  rewrite <-!hex_bytes_app. cbn [app]. f_equal.
  repeat f_equal; Z.to_euclidean_division_equations; lia.
Qed.

Lemma kernel_address_hex ipv6 bs :
  address_bytes ipv6 bs →
  ∃ raw, kernel_address bs = hex_bytes raw ∧ Forall is_byte raw ∧ length raw = length bs ∧
    (if ipv6 then unpack_words raw else rev raw) = bs.
Proof.
  intros [Hb Hl]. destruct ipv6.
  - exists (unpack_words bs). split_and!; [|by apply unpack_words_bytes|by rewrite unpack_words_length|by apply unpack_words_involutive].
    do 16 (destruct bs as [|? bs]; [discriminate Hl|]). destruct bs; [|discriminate Hl].
    rewrite !Forall_cons in Hb. cbn [kernel_address]. rewrite !hex_digits_word by (rewrite !Forall_cons; tauto).
    reflexivity.
  - exists (rev bs). split_and!; [|by apply List.Forall_rev|by rewrite length_rev|apply rev_involutive].
    do 4 (destruct bs as [|? bs]; [discriminate Hl|]). destruct bs; [|discriminate Hl].
    cbn [kernel_address]. by rewrite hex_digits_word.
Qed.

Lemma from_bytes_big_endian bs acc :
  foldl (λ acc b, acc * 256 + b) acc bs = acc * 256 ^ Z.of_nat (length bs) + big_endian bs.
Proof.
  revert acc. induction bs as [|b bs IH]; intros acc; cbn [foldl big_endian length]; [change (256 ^ Z.of_nat 0) with 1; lia|].
  rewrite IH, Nat2Z.inj_succ, Z.pow_succ_r by lia. lia.
Qed.

Lemma parse_kernel_address ipv6 bs :
  address_bytes ipv6 bs →
  (if ipv6 then parse_ipv6_hex (kernel_address bs) else parse_ipv4_hex (kernel_address bs))
  = Ok (Some (address_text ipv6 bs)).
Proof.
  intros Ha. destruct (kernel_address_hex _ _ Ha) as (raw & -> & Hk & Hlen & Hraw). destruct Ha as [Hb Hl].
  pose proof (from_bytes_big_endian bs 0) as Hbe. fold (from_bytes bs) in Hbe.
  unfold address_text. destruct ipv6.
  - unfold parse_ipv6_hex, fromhex. rewrite (fromhex_hex_bytes _ Hk). unfold strlen.
    rewrite hex_bytes_length, Hlen, Hl. simpl. rewrite Hraw. unfold packed_address. rewrite Hl. simpl.
    by rewrite Hbe, Z.add_0_l.
  - unfold parse_ipv4_hex, fromhex. rewrite (fromhex_hex_bytes _ Hk). unfold strlen.
    rewrite hex_bytes_length, Hlen, Hl. simpl. rewrite Hraw. unfold packed_address. rewrite Hl. simpl.
    by rewrite Hbe, Z.add_0_l.
Qed.

Lemma hex_digits_port port : 0 ≤ port ≤ 65535 → hex_digits 4 port = hex_bytes [port / 256; port mod 256].
Proof.
  intros Hp. rewrite !hex_digits_byte. cbn [hex_digits]. change ("" +:+ ?s) with s. rewrite <-!hex_bytes_app. cbn [app]. f_equal.
  rewrite (Z.mod_small (port / 256)); [done|]. Z.to_euclidean_division_equations; lia.
Qed.

Lemma parse_kernel_endpoint ipv6 bs port :
  address_bytes ipv6 bs → 0 ≤ port ≤ 65535 →
  parse_endpoint (kernel_endpoint bs port) ipv6 = Ok (Some (address_text ipv6 bs, port)).
Proof.
  intros Ha Hp. unfold parse_endpoint, kernel_endpoint.
  assert (Hpb : Forall is_byte [port / 256; port mod 256]).
  { pose proof (Z.mod_pos_bound port 256 ltac:(lia)). pose proof (Z.div_mod port 256 ltac:(lia)).
    repeat constructor; unfold is_byte; lia. }
  pose proof (parse_kernel_address ipv6 bs Ha) as Hpa. destruct (kernel_address_hex _ _ Ha) as (raw & Hraw & Hk & _).
  rewrite Hraw in *. rewrite hex_digits_port by done. cbn [String.append].
  change (":" +:+ ?p) with (String ":" p).
  rewrite split_endpoint; [|by apply hex_bytes_hex|by apply hex_bytes_hex].
  assert (Hint : py_int 16 (hex_bytes [port / 256; port mod 256]) = Ok port).
  { rewrite py_int_hex; [|by apply hex_bytes_hex|done]. rewrite scan_hex_bytes by done. simpl.
    pose proof (Z.div_mod port 256 ltac:(lia)). f_equal. lia. }
  rewrite Hint.
  destruct ipv6; rewrite Hpa; simpl; by rewrite (proj2 (Z.leb_le 0 port)), (proj2 (Z.leb_le port 65535)) by lia.
Qed.

(** ** Properties *)

(** The parser never raises, whatever the line holds; a socket it returns
    has ports of sixteen bits and a state of the kernel's table. *)
Theorem parse_net_line_total line proto :
  parse_net_line line proto = Ok None ∨
  ∃ s, parse_net_line line proto = Ok (Some s) ∧ sk_proto s = proto ∧
    0 ≤ sk_local_port s ≤ 65535 ∧ 0 ≤ sk_remote_port s ≤ 65535 ∧
    sk_state s ∈ (TCP_STATES.*2).
Proof.
  unfold parse_net_line. case_match; [by left|].
  destruct (parse_endpoint_total (field (str_words line) 1) (str_endswith proto "6"))
    as [->|(lip & lport & -> & Hl)]; [apply field_no_space|..];
  (destruct (parse_endpoint_total (field (str_words line) 2) (str_endswith proto "6"))
    as [->|(rip & rport & -> & Hr)]; [apply field_no_space|..]); cbn; try by left.
  destruct (tcp_state (str_upper (field (str_words line) 3))) as [state|] eqn:Hst; [|by left].
  assert (Hin : state ∈ TCP_STATES.*2).
  { unfold tcp_state in Hst. destruct (List.find _ TCP_STATES) as [[k v]|] eqn:Hf; [|done].
    simpl in Hst. simplify_eq. apply find_some in Hf as [Hf _]. apply list_elem_of_fmap.
    exists (k, state). split; [done|]. by apply list_elem_of_In. }
  destruct (py_int_cases 10 (field (str_words line) 7)) as [[uid ->]| ->]; cbn; [|by left].
  destruct (py_int_cases 10 (field (str_words line) 9)) as [[inode ->]| ->]; cbn; [|by left].
  right. eexists. split; [done|]. destruct Hl, Hr. by split_and!.
Qed.

(** C39: the row the kernel prints for a socket is parsed back to it: addresses
    in network order (both families), ports, state, user and inode.  The kernel
    prints an address as the numbers a little-endian machine reads in its words. *)
Theorem parse_kernel_row line proto local lport remote rport code state uid inode :
  let ipv6 := str_endswith proto "6" in
  let fields := str_words line in
  address_bytes ipv6 local → address_bytes ipv6 remote → 0 ≤ lport ≤ 65535 → 0 ≤ rport ≤ 65535 →
  0 ≤ uid < 2 ^ 32 → 0 ≤ inode < 2 ^ 64 → kernel_state code state →
  (10 ≤ length fields)%nat →
  field fields 1 = kernel_endpoint local lport → field fields 2 = kernel_endpoint remote rport →
  field fields 3 = hex_digits 2 code → field fields 7 = str_of_int uid → field fields 9 = str_of_int inode →
  parse_net_line line proto
  = Ok (Some (mkSocket proto (address_text ipv6 local) lport (address_text ipv6 remote) rport state uid inode)).
Proof.
  intros ipv6 fields Hl Hr Hlp Hrp Hu Hi Hst Hn H1 H2 H3 H7 H9. unfold parse_net_line.
  fold fields. fold ipv6. rewrite (proj2 (Nat.ltb_ge _ _)) by lia.
  assert (tcp_state (str_upper (hex_digits 2 code)) = Some state) as Hs by by destruct Hst.
  rewrite H1, H2, H3, H7, H9, !parse_kernel_endpoint, Hs by done.
  cbn. rewrite !py_int_str_of_int by lia. done.
Qed.

Lemma parse_kernel_row_witness :
  parse_net_line
    "   0: 00000000000000000000000001000000:0016 B80D01200000000067452301EFCDAB89:A1B2 01 00000000:00000000 00:00000000 00000000     0        0 7 1" "tcp6"
  = Ok (Some (mkSocket "tcp6" (address_text true [0; 0; 0; 0; 0; 0; 0; 0; 0; 0; 0; 0; 0; 0; 0; 1]) 22
      (address_text true [32; 1; 13; 184; 0; 0; 0; 0; 1; 35; 69; 103; 137; 171; 205; 239]) 41394 "ESTABLISHED" 0 7)).
Proof.
  apply (parse_kernel_row
    "   0: 00000000000000000000000001000000:0016 B80D01200000000067452301EFCDAB89:A1B2 01 00000000:00000000 00:00000000 00000000     0        0 7 1" "tcp6"
    [0; 0; 0; 0; 0; 0; 0; 0; 0; 0; 0; 0; 0; 0; 0; 1] 22
    [32; 1; 13; 184; 0; 0; 0; 0; 1; 35; 69; 103; 137; 171; 205; 239] 41394 1 "ESTABLISHED" 0 7);
    try lia; try (vm_compute; reflexivity);
    try (split; [repeat constructor; unfold is_byte; lia|reflexivity]); [constructor|].
  vm_compute. lia.
Defined.
