(* ===== verification/Normalizer.v ===== *)
(** * The normalizer ([normalizer/raw.py], [normalizer/mapper.py], [normalizer/enrich.py])

    Raw records with their models' constraints, the mapping of each kind to an
    event, and the front door that dead-letters what cannot be mapped.  A raw
    model is a record with a boolean [valid_...] for its field constraints.
    The local host name is a parameter. *)

From S2P Require Import Prelude PyText Sha256 Events NetParse.
Local Open Scope string_scope.
Local Open Scope Z_scope.

(** ** Raw records *)

Definition MAX_COMMAND_LINE : Z := 10000.
Definition MAX_PATH : Z := 4096.

Record RawAuthEvent := mkRawAuth {
  ra_occurred_at : datetime; ra_host : string;
  ra_syslog_ts : string; ra_pid : string; ra_action : string; ra_outcome : string;
  ra_severity : Z; ra_user : string; ra_ip : string; ra_port : Z; ra_occurrence : Z;
  ra_message : string;
}.

Record RawProcessEvent := mkRawProcess {
  rp_occurred_at : datetime; rp_host : string;
  rp_action : string; rp_severity : Z; rp_pid : Z; rp_ppid : Z; rp_starttime : Z;
  rp_comm : string; rp_cmdline : option string; rp_executable : option string;
}.

Record RawFileEvent := mkRawFile {
  rf_occurred_at : datetime; rf_host : string;
  rf_action : string; rf_severity : Z; rf_path : string; rf_size : Z; rf_mode : string;
  rf_sha256 : option string; rf_id_seed : string;
}.

Record RawNetworkEvent := mkRawNetwork {
  rn_occurred_at : datetime; rn_host : string;
  rn_action : string; rn_severity : Z; rn_proto : string; rn_local_ip : string; rn_local_port : Z;
  rn_remote_ip : string; rn_remote_port : Z; rn_state : string; rn_uid : Z; rn_inode : Z;
}.

Inductive RawEvent :=
  | RawAuth (r : RawAuthEvent)
  | RawProcess (r : RawProcessEvent)
  | RawFile (r : RawFileEvent)
  | RawNetwork (r : RawNetworkEvent).

(** Length bounds of a text field. *)
Definition text (lo hi : Z) (s : string) : bool := between lo hi (strlen s).

(** [_RawBase] *)
Definition valid_base (occurred_at : datetime) (host : string) : bool :=
  require_utc occurred_at && text 1 253 host.

Definition valid_raw_auth (r : RawAuthEvent) : bool :=
  valid_base (ra_occurred_at r) (ra_host r) && text 1 64 (ra_syslog_ts r) && text 0 20 (ra_pid r)
    && text 1 200 (ra_action r) && text 1 20 (ra_outcome r) && between 0 7 (ra_severity r)
    && text 1 256 (ra_user r) && text 1 64 (ra_ip r) && between 0 65535 (ra_port r)
    && (0 <=? ra_occurrence r) && text 1 10000 (ra_message r).

Definition valid_raw_process (r : RawProcessEvent) : bool :=
  valid_base (rp_occurred_at r) (rp_host r) && text 1 200 (rp_action r) && between 0 7 (rp_severity r)
    && between 0 MAX_PID (rp_pid r) && between 0 MAX_PID (rp_ppid r) && (0 <=? rp_starttime r)
    && text 0 256 (rp_comm r) && optionally (text 0 MAX_COMMAND_LINE) (rp_cmdline r)
    && optionally (text 0 MAX_PATH) (rp_executable r).

Definition valid_raw_file (r : RawFileEvent) : bool :=
  valid_base (rf_occurred_at r) (rf_host r) && text 1 200 (rf_action r) && between 0 7 (rf_severity r)
    && text 1 MAX_PATH (rf_path r) && (0 <=? rf_size r) && text 1 8 (rf_mode r)
    && text 1 256 (rf_id_seed r).

Definition valid_raw_network (r : RawNetworkEvent) : bool :=
  valid_base (rn_occurred_at r) (rn_host r) && text 1 200 (rn_action r) && between 0 7 (rn_severity r)
    && text 1 8 (rn_proto r) && text 1 64 (rn_local_ip r) && between 0 65535 (rn_local_port r)
    && text 1 64 (rn_remote_ip r) && between 0 65535 (rn_remote_port r) && text 1 20 (rn_state r)
    && (0 <=? rn_uid r) && (0 <=? rn_inode r).

Definition valid_raw (r : RawEvent) : bool :=
  match r with
  | RawAuth r => valid_raw_auth r
  | RawProcess r => valid_raw_process r
  | RawFile r => valid_raw_file r
  | RawNetwork r => valid_raw_network r
  end.

(** ** Mapping *)

(** [clamp_severity] *)
Definition clamp_severity (severity : Z) : Z := Z.max 0 (Z.min 7 severity).

(** [EventOutcome(value)] *)
Definition outcome_of (value : string) : result EventOutcome :=
  if String.eqb value "success" then Ok SUCCESS
  else if String.eqb value "failure" then Ok FAILURE
  else if String.eqb value "unknown" then Ok UNKNOWN
  else Raise ValueError.

(** [value or fallback] of a string that may be absent *)
Definition or_else (value : option string) (fallback : string) : string :=
  match value with Some s => if String.eqb s "" then fallback else s | None => fallback end.

Section mapping.
(** [_local_hostname()] *)
Context (local_hostname : string).

Definition resolve_host (name : option string) : Host := mkHost (or_else name local_hostname).

Definition map_auth (raw : RawAuthEvent) : result Event :=
  outcome ← outcome_of (ra_outcome raw);
  new_event (mkEvent (ra_occurred_at raw)
    (mkEventMeta
       (compute_id [PartStr (ra_syslog_ts raw); PartStr (ra_host raw); PartStr (ra_pid raw);
          PartStr (ra_action raw); PartStr (ra_user raw); PartStr (ra_ip raw);
          PartInt (ra_port raw); PartInt (ra_occurrence raw)])
       EVENT AUTHENTICATION (ra_action raw) outcome (clamp_severity (ra_severity raw)))
    (resolve_host (Some (ra_host raw)))
    (mkPeer (Some (ra_ip raw)) (Some (ra_port raw)) (Some (ra_user raw))) no_peer no_process None
    (ra_message raw)).

Definition process_id_parts (raw : RawProcessEvent) : list id_part :=
  [PartInt (rp_pid raw); PartInt (rp_starttime raw); PartStr (rp_action raw);
   PartStr (or_else (rp_executable raw) ""); PartStr (or_else (rp_cmdline raw) "")].

Definition map_process (raw : RawProcessEvent) : result Event :=
  new_event (mkEvent (rp_occurred_at raw)
    (mkEventMeta (compute_id (process_id_parts raw)) EVENT PROCESS (rp_action raw) SUCCESS
       (clamp_severity (rp_severity raw)))
    (resolve_host (Some (rp_host raw))) no_peer no_peer
    (mkProcess (Some (rp_pid raw)) (Some (rp_ppid raw))
       (if String.eqb (rp_comm raw) "" then None else Some (rp_comm raw))
       (rp_executable raw) (rp_cmdline raw))
    None
    (str_rstrip (rp_action raw +:+ ": pid=" +:+ str_of_int (rp_pid raw) +:+ " " +:+ rp_comm raw))).

Definition map_file (raw : RawFileEvent) : result Event :=
  new_event (mkEvent (rf_occurred_at raw)
    (mkEventMeta (compute_id [PartStr (rf_path raw); PartStr (rf_action raw); PartStr (rf_id_seed raw)])
       EVENT FILE (rf_action raw) SUCCESS (clamp_severity (rf_severity raw)))
    (resolve_host (Some (rf_host raw))) no_peer no_peer no_process
    (Some (mkFile (rf_path raw) (Some (rf_size raw)) (Some (rf_mode raw)) (mkFileHash (rf_sha256 raw))))
    (rf_action raw +:+ ": " +:+ rf_path raw)).

Definition endpoint_text (ip : string) (port : Z) : string := ip +:+ ":" +:+ str_of_int port.

Definition network_message (raw : RawNetworkEvent) : string :=
  let local := endpoint_text (rn_local_ip raw) (rn_local_port raw) in
  let uid := " (uid=" +:+ str_of_int (rn_uid raw) +:+ ")" in
  if String.eqb (rn_state raw) STATE_LISTEN
  then rn_action raw +:+ ": " +:+ rn_proto raw +:+ " " +:+ local +:+ uid
  else rn_action raw +:+ ": " +:+ rn_proto raw +:+ " " +:+ local +:+ " -> "
         +:+ endpoint_text (rn_remote_ip raw) (rn_remote_port raw) +:+ uid.

Definition map_network (raw : RawNetworkEvent) : result Event :=
  new_event (mkEvent (rn_occurred_at raw)
    (mkEventMeta
       (compute_id [PartStr (rn_proto raw); PartStr (rn_local_ip raw); PartInt (rn_local_port raw);
          PartStr (rn_remote_ip raw); PartInt (rn_remote_port raw); PartInt (rn_inode raw);
          PartStr (rn_action raw)])
       EVENT NETWORK (rn_action raw) SUCCESS (clamp_severity (rn_severity raw)))
    (resolve_host (Some (rn_host raw)))
    (mkPeer (Some (rn_local_ip raw)) (Some (rn_local_port raw)) None)
    (if String.eqb (rn_state raw) STATE_LISTEN then no_peer
     else mkPeer (Some (rn_remote_ip raw)) (Some (rn_remote_port raw)) None)
    no_process None (network_message raw)).

Definition map_raw (raw : RawEvent) : result Event :=
  match raw with
  | RawAuth r => map_auth r
  | RawProcess r => map_process r
  | RawFile r => map_file r
  | RawNetwork r => map_network r
  end.

(** ** The front door *)

Record Normalizer := mkNormalizer { dead_letters : Z; normalized : Z }.

Definition new_normalizer : Normalizer := mkNormalizer 0 0.

(** [Normalizer.normalize]; [map_raw] raises nothing but what it catches. *)
Definition normalize (raw : RawEvent) (n : Normalizer) : option Event * Normalizer :=
  match map_raw raw with
  | Raise _ => (None, mkNormalizer (dead_letters n + 1) (normalized n))
  | Ok event => (Some event, mkNormalizer (dead_letters n) (normalized n + 1))
  end.

(** [Normalizer.build]: a raw record if its model takes the fields. *)
Definition build (raw : RawEvent) (n : Normalizer) : option RawEvent * Normalizer :=
  if valid_raw raw then (Some raw, n)
  else (None, mkNormalizer (dead_letters n + 1) (normalized n)).

(** What a collector does with one observation: build, then normalize. *)
Definition observe (raw : RawEvent) (n : Normalizer) : option Event * Normalizer :=
  let '(built, n1) := build raw n in
  match built with Some r => normalize r n1 | None => (None, n1) end.
End mapping.

(** ** Lemmas *)

(** Does the event schema take what the record holds? *)
Definition mappable (raw : RawEvent) : bool :=
  match raw with
  | RawAuth r => is_ok (outcome_of (ra_outcome r))
  | RawFile r => optionally check_id_format (rf_sha256 r)
  | _ => true
  end.

(** A numeric user id fits its C type. *)
Definition uid_fits (raw : RawEvent) : Prop :=
  match raw with RawNetwork r => rn_uid r < 2 ^ 32 | _ => True end.

Lemma str_rstrip_length s : (String.length (str_rstrip s) ≤ String.length s)%nat.
Proof. induction s as [|c s IH]; simpl; [done|]. case_match; simpl; lia. Qed.

Lemma str_rstrip_keeps a c b : is_space c = false → str_rstrip (a +:+ String c b) ≠ "".
Proof.
  intros Hc. induction a as [|d a IH]; simpl.
  - rewrite Hc, andb_false_r. done.
  - destruct (str_rstrip (a +:+ String c b)) eqn:Heq; [done|]. done.
Qed.

Lemma clamp_severity_band n : between 0 7 (clamp_severity n) = true.
Proof. unfold between, clamp_severity. rewrite andb_true_iff, !Z.leb_le. lia. Qed.

Lemma strlen_app s t : strlen (s +:+ t) = strlen s + strlen t.
Proof. unfold strlen. rewrite string_length_app. lia. Qed.

Lemma strlen_literal s n : n = String.length s → strlen s = Z.of_nat n.
Proof. by intros ->. Qed.

Lemma between_iff lo hi n : between lo hi n = true ↔ lo ≤ n ≤ hi.
Proof. unfold between. by rewrite andb_true_iff, !Z.leb_le. Qed.

Lemma text_iff lo hi s : text lo hi s = true ↔ lo ≤ strlen s ≤ hi.
Proof. apply between_iff. Qed.

Section front_door.
Context (local_hostname : string).
Abbreviation map_raw := (map_raw local_hostname).

Lemma own_host name : 1 ≤ strlen name → resolve_host local_hostname (Some name) = mkHost name.
Proof. intros Hn. unfold resolve_host, or_else. by destruct (String.eqb_spec name "") as [->|_]. Qed.

Lemma new_event_ok e : valid_event e = true → new_event e = Ok e.
Proof. unfold new_event. by intros ->. Qed.

(** The parts of [valid_event] that every mapping fills the same way. *)
Lemma valid_event_of t id category action outcome severity host source destination process file message :
  require_utc t = true → 1 ≤ strlen action ≤ 200 → 1 ≤ strlen host ≤ 253 →
  valid_peer source = true → valid_peer destination = true → valid_process process = true →
  optionally valid_file file = true → 1 ≤ strlen message ≤ 10000 →
  valid_event (mkEvent t (mkEventMeta (compute_id id) EVENT category action outcome
    (clamp_severity severity)) (resolve_host local_hostname (Some host)) source destination process
    file message) = true.
Proof.
  intros. rewrite own_host by lia. unfold valid_event, valid_meta, valid_host. simpl.
  rewrite compute_id_format, clamp_severity_band. unfold between. rewrite !andb_true_iff, !Z.leb_le.
  tauto.
Qed.

Lemma map_auth_ok r :
  valid_raw_auth r = true →
  if is_ok (outcome_of (ra_outcome r)) then ∃ e, map_auth local_hostname r = Ok e ∧ valid_event e = true
  else map_auth local_hostname r = Raise ValueError.
Proof.
  unfold valid_raw_auth, valid_base. rewrite !andb_true_iff, !text_iff, !between_iff. intros Hv.
  unfold map_auth. destruct (outcome_of (ra_outcome r)) as [o|x] eqn:Ho; simpl.
  - eexists. split; [apply new_event_ok|]; apply valid_event_of; simpl; try tauto; try done;
      unfold valid_peer; simpl; apply between_iff; tauto.
  - unfold outcome_of in Ho. by repeat case_match; simplify_eq.
Qed.

Lemma process_message_bounds r :
  1 ≤ strlen (rp_action r) ≤ 200 → 0 ≤ rp_pid r ≤ MAX_PID → strlen (rp_comm r) ≤ 256 →
  1 ≤ strlen (str_rstrip (rp_action r +:+ ": pid=" +:+ str_of_int (rp_pid r) +:+ " " +:+ rp_comm r))
    ≤ 10000.
Proof.
  intros Ha Hp Hc. unfold MAX_PID in Hp. pose proof (str_of_int_length 10 (rp_pid r) ltac:(lia) ltac:(lia)) as Hd.
  set (m := rp_action r +:+ _).
  assert (Hlen : strlen m ≤ 1000).
  { unfold m. rewrite !strlen_app. change (strlen ": pid=") with 6. change (strlen " ") with 1. lia. }
  pose proof (str_rstrip_length m) as Hr.
  pose proof (str_rstrip_keeps (rp_action r) ":"
    (" pid=" +:+ str_of_int (rp_pid r) +:+ " " +:+ rp_comm r) eq_refl) as Hne.
  change (rp_action r +:+ String ":" _) with m in Hne. unfold strlen in *.
  destruct (str_rstrip m); [done|]. simpl in *. lia.
Qed.

Lemma map_process_ok r :
  valid_raw_process r = true → ∃ e, map_process local_hostname r = Ok e ∧ valid_event e = true.
Proof.
  unfold valid_raw_process, valid_base. rewrite !andb_true_iff, !text_iff, !between_iff. intros Hv.
  unfold map_process. eexists. split; [apply new_event_ok|]; apply valid_event_of; try tauto; try done;
    try (apply process_message_bounds; tauto); unfold valid_process; simpl;
    rewrite !andb_true_iff, !between_iff; (split; [tauto|]);
    destruct Hv as [[_ Hc] _]; revert Hc; destruct (rp_cmdline r) as [c|]; simpl; try done;
    rewrite text_iff; unfold MAX_COMMAND_LINE; rewrite Z.leb_le; lia.
Qed.

Lemma map_file_ok r :
  valid_raw_file r = true →
  if optionally check_id_format (rf_sha256 r)
  then ∃ e, map_file local_hostname r = Ok e ∧ valid_event e = true
  else map_file local_hostname r = Raise ValidationError.
Proof.
  unfold valid_raw_file, valid_base. rewrite !andb_true_iff, !text_iff, !between_iff. intros Hv.
  unfold map_file. unfold MAX_PATH in Hv. destruct (optionally check_id_format (rf_sha256 r)) eqn:Hh.
  - assert (Hm : 1 ≤ strlen (rf_action r +:+ ": " +:+ rf_path r) ≤ 10000).
    { rewrite !strlen_app. change (strlen ": ") with 2. lia. }
    eexists. split; [apply new_event_ok|]; apply valid_event_of; try tauto; try done;
      unfold valid_file, valid_hash; simpl; rewrite !andb_true_iff, !between_iff; tauto.
  - unfold new_event, valid_event. simpl. unfold valid_file, valid_hash. simpl. rewrite Hh.
    by rewrite !andb_false_r.
Qed.

Lemma endpoint_length ip port :
  1 ≤ strlen ip ≤ 64 → 0 ≤ port ≤ 65535 → 3 ≤ strlen (endpoint_text ip port) ≤ 75.
Proof.
  intros Hi Hp. unfold endpoint_text. rewrite !strlen_app. change (strlen ":") with 1.
  pose proof (str_of_int_length 10 port ltac:(lia) ltac:(lia)). lia.
Qed.

Lemma network_message_bounds r :
  valid_raw_network r = true → rn_uid r < 2 ^ 32 → 1 ≤ strlen (network_message r) ≤ 10000.
Proof.
  unfold valid_raw_network. rewrite !andb_true_iff, !text_iff, !between_iff, !Z.leb_le. intros Hv Hu.
  pose proof (endpoint_length (rn_local_ip r) (rn_local_port r) ltac:(tauto) ltac:(tauto)).
  pose proof (endpoint_length (rn_remote_ip r) (rn_remote_port r) ltac:(tauto) ltac:(tauto)).
  pose proof (str_of_int_length 10 (rn_uid r) ltac:(lia) ltac:(lia)).
  unfold network_message. case_match; rewrite !strlen_app; change (strlen ": ") with 2;
    change (strlen " ") with 1; change (strlen " (uid=") with 6; change (strlen ")") with 1;
    try change (strlen " -> ") with 4; lia.
Qed.

Lemma map_network_ok r :
  valid_raw_network r = true → rn_uid r < 2 ^ 32 →
  ∃ e, map_network local_hostname r = Ok e ∧ valid_event e = true.
Proof.
  intros Hv Hu. pose proof (network_message_bounds r Hv Hu) as Hm. revert Hv.
  unfold valid_raw_network, valid_base. rewrite !andb_true_iff, !text_iff, !between_iff. intros Hv.
  unfold map_network. eexists. split; [apply new_event_ok|]; apply valid_event_of; try tauto; try done;
    try (unfold valid_peer; simpl; apply between_iff; tauto); case_match; try done;
    unfold valid_peer; simpl; apply between_iff; tauto.
Qed.

Lemma map_raw_ok raw :
  valid_raw raw = true → uid_fits raw →
  if mappable raw then ∃ e, map_raw raw = Ok e ∧ valid_event e = true
  else ∃ x, map_raw raw = Raise x.
Proof.
  destruct raw as [r|r|r|r]; simpl; intros Hv Hu.
  - pose proof (map_auth_ok r Hv). destruct (is_ok _); eauto.
  - by apply map_process_ok.
  - pose proof (map_file_ok r Hv). destruct (optionally _ _); eauto.
  - by apply map_network_ok.
Qed.
End front_door.

(** ** Properties *)

(** C40: the front door is total and exact: every observation is counted once,
    as an event or as a dead letter; every event that leaves satisfies the event
    schema; and with a user id of the kernel's width an observation becomes an
    event exactly when its fields fit the raw model, its outcome is known and
    its hash is a SHA-256. *)
Theorem normalizer_front_door local_hostname raw n :
  let '(e, n') := observe local_hostname raw n in
  dead_letters n' + normalized n' = dead_letters n + normalized n + 1 ∧
  normalized n' - normalized n = (match e with Some _ => 1 | None => 0 end) ∧
  (∀ ev, e = Some ev → valid_event ev = true) ∧
  (uid_fits raw → is_Some e ↔ valid_raw raw = true ∧ mappable raw = true).
Proof.
  unfold observe, build. destruct (valid_raw raw) eqn:Hv.
  - unfold normalize. destruct (map_raw local_hostname raw) as [ev|x] eqn:Hm; simpl;
      (split_and!; [lia|lia|..]).
    + intros ? [= <-]. revert Hm. clear. unfold new_event.
      destruct raw as [r|r|r|r]; simpl; unfold map_auth, map_process, map_file, map_network, new_event;
        [destruct (outcome_of _); simpl; [|done]|..]; case_match; intros; by simplify_eq.
    + intros Hu. pose proof (map_raw_ok local_hostname raw Hv Hu) as Hok. rewrite Hm in Hok.
      destruct (mappable raw); [by split|]. by destruct Hok as [? ?].
    + done.
    + intros Hu. pose proof (map_raw_ok local_hostname raw Hv Hu) as Hok. rewrite Hm in Hok.
      destruct (mappable raw); [by destruct Hok as (? & ? & _)|]. split; [by intros []|]. by intros [_ ?].
  - simpl. split_and!; [lia|lia|done|]. intros _. split; [by intros []|]. by intros [? _].
Qed.

(** The identity of a process event is its pid, start time, action and
    image: the same observation gives the same event id, and a process that
    runs another image or command line gets another id unless a text holds the
    unit separator or SHA-256 collides. *)
Theorem process_event_identity local_hostname r1 r2 e1 e2 :
  map_process local_hostname r1 = Ok e1 → map_process local_hostname r2 = Ok e2 →
  (process_id_parts r1 = process_id_parts r2 → dedup_key e1 = dedup_key e2) ∧
  (Forall (λ p, separator_free p = true) (process_id_parts r1 ++ process_id_parts r2) →
   dedup_key e1 = dedup_key e2 →
   (part_text <$> process_id_parts r1) = (part_text <$> process_id_parts r2) ∨
   ∃ m m', m ≠ m' ∧ sha256_hexdigest m = sha256_hexdigest m').
Proof.
  intros H1 H2.
  assert (Hid : ∀ r e, map_process local_hostname r = Ok e → dedup_key e = compute_id (process_id_parts r))
    by (unfold map_process, new_event; intros r e; case_match; intros; by simplify_eq).
  rewrite (Hid _ _ H1), (Hid _ _ H2). split; [by intros ->|].
  intros [Hp Hq]%Forall_app [Hc|?]%compute_id_collision; [left|by right]. by apply canonical_inj.
Qed.

(** ** Witnesses *)

Definition example_process (cmdline : string) : RawProcessEvent :=
  mkRawProcess (mkDatetime 5 (Some 0)) "h" "process_started" 2 10 1 777 "sh" (Some cmdline) (Some "/bin/sh").

Lemma process_event_identity_witness :
  match map_process "h" (example_process "sh"), map_process "h" (example_process "sh -c x") with
  | Ok e1, Ok e2 => dedup_key e1 = dedup_key e2 →
      (part_text <$> process_id_parts (example_process "sh"))
      = (part_text <$> process_id_parts (example_process "sh -c x")) ∨
      ∃ m m', m ≠ m' ∧ sha256_hexdigest m = sha256_hexdigest m'
  | _, _ => False
  end.
Proof.
  destruct (map_process "h" (example_process "sh")) as [e1|] eqn:H1; [|by vm_compute in H1].
  destruct (map_process "h" (example_process "sh -c x")) as [e2|] eqn:H2; [|by vm_compute in H2].
  apply (process_event_identity "h" (example_process "sh") (example_process "sh -c x") e1 e2 H1 H2).
  repeat constructor.
Defined.

Lemma normalizer_front_door_witness :
  let '(e, _) := observe "h" (RawProcess (example_process "sh")) new_normalizer in is_Some e.
Proof.
  pose proof (normalizer_front_door "h" (RawProcess (example_process "sh")) new_normalizer) as H.
  destruct (observe "h" (RawProcess (example_process "sh")) new_normalizer) as [e n].
  destruct H as (_ & _ & _ & H). apply H; [exact I|split; vm_compute; reflexivity].
Defined.
