(* ===== verification/Base.v ===== *)
(** * What the collectors share ([collectors/base.py])

    Host paths, clipping, and the loop of the collectors that compare two
    snapshots of their source (processes, sockets, files): the first snapshot
    is the baseline, later ones are compared with the last.  Such a collector
    is correct when whoever applies what it reports holds what it last saw. *)

From S2P Require Import Prelude ODict PyText Sha256 Events NetParse Normalizer.
Local Open Scope string_scope.
Local Open Scope Z_scope.

(** ** Paths *)

(** A [PurePosixPath]: its root and its parts. *)
Record Path := mkPath { path_root : string; path_parts : list string }.

Definition path_of (s : string) : Path :=
  mkPath (if str_startswith s "//" && negb (str_startswith s "///") then "//"
          else if str_startswith s "/" then "/" else "")
    (List.filter (λ p, negb (String.eqb p "" || String.eqb p ".")) (str_split "/" s)).

Definition path_str (p : Path) : string :=
  match path_root p, path_parts p with
  | "", [] => "."
  | root, parts => root +:+ str_join "/" parts
  end.

#[export] Instance Path_eq_dec : EqDecision Path.
Proof. solve_decision. Defined.

Definition HOST_ROOT : Path := mkPath "/" [].
(** [collectors.base.under_host_root] *)
Definition under_host_root (root path : Path) : Path :=
  if bool_decide (root = HOST_ROOT) || String.eqb (path_root path) "" then path
  else mkPath (path_root root) (path_parts root ++ path_parts path)%list.

(** ** Clipping *)

Definition CLIP_MARKER : string := " ... ".

Definition clip (t : string) (limit : Z) : string :=
  if strlen t <=? limit then t
  else
    let keep := Z.max (limit - strlen CLIP_MARKER) 0 in
    let tail := keep / 2 in
    str_take (Z.to_nat (keep - tail)) t +:+ CLIP_MARKER
    +:+ (if tail =? 0 then "" else str_lastn (Z.to_nat tail) t).

Example clipped : clip "0123456789abcdef" 12 = "0123 ... def".
Proof. vm_compute. reflexivity. Qed.

(** A limit shorter than the marker is not kept. *)
Example clip_of_a_short_limit : clip "abcdef" 3 = " ... ".
Proof. vm_compute. reflexivity. Qed.

(** ** Comparing snapshots *)

Section diff.
Context {K V R : Type} `{EqDecision K}.
Context (appeared : K → V → list R) (changed : K → V → V → list R) (gone : K → V → list R).

(** The shape of the [_diff]s: a pass over the new snapshot, then one over what
    the old one had in addition. *)
Definition diff_with (old new : odict K V) : list R :=
  (flat_map (λ '(k, v), match od_get old k with
                        | None => appeared k v
                        | Some previous => changed k previous v
                        end) new
   ++ flat_map (λ '(k, v), if od_mem new k then [] else gone k v) old)%list.
End diff.

(** A record but for its time, which each gets when it is built. *)
Abbreviation draft := (datetime → RawEvent).

Definition stamp (now : nat → Z) (drafts : list draft) : list RawEvent :=
  imap (λ i r, r (mkDatetime (now i) (Some 0))) drafts.

(** ** The loop *)

Record Watcher (K V : Type) := mkWatcher {
  baseline : odict K V;
  seeded : bool;
  emitted : Z;
  w_normalizer : Normalizer;
}.
Arguments mkWatcher {K V} _ _ _ _.
Arguments baseline {K V} _.
Arguments seeded {K V} _.
Arguments emitted {K V} _.
Arguments w_normalizer {K V} _.

Section watcher.
Context {K V : Type} (local_hostname : string).

Definition new_watcher : Watcher K V := mkWatcher [] false 0 new_normalizer.

(** The [_raw]s of a [_diff]: what the models refuse is dropped. *)
Fixpoint build_all (raws : list RawEvent) (n : Normalizer) : list RawEvent * Normalizer :=
  match raws with
  | [] => ([], n)
  | raw :: raws' =>
      let '(built, n) := build raw n in
      let '(records, n) := build_all raws' n in
      (match built with Some r => r :: records | None => records end, n)
  end.

Fixpoint normalize_all (records : list RawEvent) (n : Normalizer) : list Event * Normalizer :=
  match records with
  | [] => ([], n)
  | raw :: records' =>
      let '(event, n) := normalize local_hostname raw n in
      let '(events, n) := normalize_all records' n in
      (match event with Some e => e :: events | None => events end, n)
  end.

(** [_drain_once], once the snapshot is there: the events put on the queue *)
Definition take_snapshot (diff : odict K V → odict K V → list draft) (now : nat → Z)
    (snapshot : odict K V) (w : Watcher K V) : list Event * Watcher K V :=
  if negb (seeded w) then ([], mkWatcher snapshot true (emitted w) (w_normalizer w))
  else
    let '(records, n) := build_all (stamp now (diff (baseline w) snapshot)) (w_normalizer w) in
    let '(events, n) := normalize_all records n in
    (events, mkWatcher snapshot true (emitted w + len events) n).

(** ** Lemmas *)

(** What is not dead-lettered arrives. *)
Lemma build_all_clean raws n :
  dead_letters n ≤ dead_letters (build_all raws n).2 ∧
  (dead_letters (build_all raws n).2 = dead_letters n → (build_all raws n).1 = raws).
Proof.
  revert n. induction raws as [|raw raws IH]; intros n; [done|]. cbn [build_all]. unfold build.
  destruct (valid_raw raw); [specialize (IH n)|specialize (IH (mkNormalizer (dead_letters n + 1) (normalized n)))];
    destruct (build_all raws _) as [rs n']; simpl in *; (split; [lia|]); intros Heq.
  - by rewrite (proj2 IH Heq).
  - lia.
Qed.

Lemma normalize_all_clean records n :
  dead_letters n ≤ dead_letters (normalize_all records n).2 ∧
  (dead_letters (normalize_all records n).2 = dead_letters n →
   Forall2 (λ raw e, map_raw local_hostname raw = Ok e) records (normalize_all records n).1).
Proof.
  revert n. induction records as [|raw records IH]; intros n; [by split|]. cbn [normalize_all]. unfold normalize.
  destruct (map_raw local_hostname raw) as [e|x] eqn:Hmap;
    [specialize (IH (mkNormalizer (dead_letters n) (normalized n + 1)))
    |specialize (IH (mkNormalizer (dead_letters n + 1) (normalized n)))];
    destruct (normalize_all records _) as [es n']; simpl in *; (split; [lia|]); intros Heq.
  - constructor; [done|]. by apply IH.
  - lia.
Qed.
End watcher.

(** Nothing arrives that was not put in. *)
Lemma build_all_elem raws n raw : raw ∈ (build_all raws n).1 → raw ∈ raws.
Proof.
  revert n. induction raws as [|r raws IH]; intros n; [done|]. cbn [build_all]. unfold build.
  destruct (valid_raw r); [specialize (IH n)|specialize (IH (mkNormalizer (dead_letters n + 1) (normalized n)))];
    destruct (build_all raws _) as [rs n']; cbn [fst] in *.
  - intros [->|Hin]%elem_of_cons; [by left|right; auto].
  - intros Hin. right. auto.
Qed.

Lemma normalize_all_elem local_hostname records n e :
  e ∈ (normalize_all local_hostname records n).1 → ∃ raw, raw ∈ records ∧ map_raw local_hostname raw = Ok e.
Proof.
  revert n. induction records as [|r records IH]; intros n; [by intros ?%elem_of_nil|]. cbn [normalize_all].
  unfold normalize. destruct (map_raw local_hostname r) as [e'|x] eqn:Hmap;
    [specialize (IH (mkNormalizer (dead_letters n) (normalized n + 1)))
    |specialize (IH (mkNormalizer (dead_letters n + 1) (normalized n)))];
    destruct (normalize_all _ records _) as [es n']; cbn [fst] in *.
  - intros [->|Hin]%elem_of_cons; [exists r; by split; [left|]|]. destruct (IH Hin) as (raw & ? & ?).
    exists raw. by split; [right|].
  - intros Hin. destruct (IH Hin) as (raw & ? & ?). exists raw. by split; [right|].
Qed.

Lemma stamp_elem now drafts raw : raw ∈ stamp now drafts → ∃ (d : draft) t, d ∈ drafts ∧ raw = d t.
Proof.
  unfold stamp. rewrite elem_of_lookup_imap. intros (i & d & -> & Hd). exists d. eexists.
  split; [by eapply list_elem_of_lookup_2|done].
Qed.

(** An event of a snapshot is that of a difference with the last one... *)
Lemma take_snapshot_events {K V} local_hostname (diff : odict K V → odict K V → list draft) now snapshot w e :
  e ∈ (take_snapshot local_hostname diff now snapshot w).1 →
  ∃ (d : draft) t, d ∈ diff (baseline w) snapshot ∧ map_raw local_hostname (d t) = Ok e.
Proof.
  unfold take_snapshot. destruct (seeded w); [|by intros ?%elem_of_nil]. cbn [negb].
  destruct (build_all _ _) as [records n] eqn:Hb. pose proof (normalize_all_elem local_hostname records n e) as Hn.
  destruct (normalize_all _ records n) as [events n']. cbn [fst] in *. intros He. destruct (Hn He) as (raw & Hraw & Hmap).
  pose proof (build_all_elem (stamp now (diff (baseline w) snapshot)) (w_normalizer w) raw) as Hin.
  rewrite Hb in Hin. destruct (stamp_elem _ _ _ (Hin Hraw)) as (d & t & Hd & ->). eauto.
Qed.

Lemma Forall2_with {A B} (P R : A → B → Prop) (Q : A → Prop) l k :
  Forall2 P l k → Forall Q l → (∀ x y, P x y → Q x → R x y) → Forall2 R l k.
Proof. intros HP HQ HR. induction HP; [done|]. apply Forall_cons in HQ as [? ?]. constructor; auto. Qed.

Lemma stamped_one (r : draft) raws :
  Forall2 (λ (r : draft) raw, ∃ t, raw = r t) [r] raws → ∃ t, raws = [r t].
Proof. intros (raw & l & [t ->] & Hl & ->)%Forall2_cons_inv_l. inversion Hl. by exists t. Qed.

(** ** What the reports tell *)

(** The contract between a collector that compares snapshots and those who read
    what it reports: of each thing it tracks ([tracked]) an aspect ([aspect]) is
    known from the records alone. *)
Class Telling {K V W : Type} `{Countable K}
    (appeared : K → V → list draft) (changed : K → V → V → list draft) (gone : K → V → list draft) := {
  tracked : K → V → Prop;
  aspect : V → W;
  tell : RawEvent → gmap K W → gmap K W;
  tell_appeared k v m raws : tracked k v →
    Forall2 (λ (r : draft) raw, ∃ t, raw = r t) (appeared k v) raws →
    foldl (flip tell) m raws = <[k := aspect v]> m;
  tell_changed k v v' m raws : tracked k v → tracked k v' → m !! k = Some (aspect v) →
    Forall2 (λ (r : draft) raw, ∃ t, raw = r t) (changed k v v') raws →
    foldl (flip tell) m raws = <[k := aspect v']> m;
  tell_gone k v m raws : tracked k v →
    Forall2 (λ (r : draft) raw, ∃ t, raw = r t) (gone k v) raws →
    foldl (flip tell) m raws = delete k m;
}.

Section telling.
Context `{Telling K V W appeared changed gone}.
Context (local_hostname : string).

(** What the records of a snapshot would tell *)
Definition view (d : odict K V) : gmap K W := list_to_map (prod_map id aspect <$> d).

Definition well_formed (d : odict K V) : Prop :=
  NoDup (od_keys d) ∧ Forall (λ kv, tracked kv.1 kv.2) d.

Abbreviation stamped := (Forall2 (λ (r : draft) raw, ∃ t, raw = r t)).
Abbreviation diff := (diff_with appeared changed gone).

Lemma view_lookup d k : view d !! k = aspect <$> od_get d k.
Proof.
  unfold view. induction d as [|[k' v] d IH]; [apply lookup_empty|].
  csimpl. case_decide as Hk; [by rewrite Hk, lookup_insert_eq|]. by rewrite lookup_insert_ne, IH.
Qed.

Lemma stamp_stamped now drafts : stamped drafts (stamp now drafts).
Proof.
  unfold stamp. revert now. induction drafts as [|r drafts IH]; intros now; [by constructor|]. rewrite imap_cons.
  constructor; [by eexists|]. exact (IH (now ∘ S)).
Qed.

(** The pass over the new snapshot sets all it holds... *)
Lemma new_pass_tells (old new : odict K V) m raws :
  NoDup (od_keys new) → Forall (λ kv, tracked kv.1 kv.2) new → Forall (λ kv, tracked kv.1 kv.2) old →
  (∀ k, k ∈ od_keys new → m !! k = aspect <$> od_get old k) →
  stamped (flat_map (λ '(k, v), match od_get old k with None => appeared k v | Some v0 => changed k v0 v end) new) raws →
  foldl (flip tell) m raws = view new ∪ m.
Proof.
  intros Hnd Htr Hold. revert m raws. induction new as [|[k v] new IH]; intros m raws Hm Hraws.
  { inversion Hraws; subst. change (view []) with (∅ : gmap K W). by rewrite map_empty_union. }
  cbn [flat_map] in Hraws. apply Forall2_app_inv_l in Hraws as (raws1 & raws2 & H1 & H2 & ->).
  apply NoDup_cons in Hnd as [Hk Hnd]. apply Forall_cons in Htr as [Hkv Htr]. rewrite foldl_app.
  assert (foldl (flip tell) m raws1 = <[k := aspect v]> m) as ->.
  { destruct (od_get old k) as [v0|] eqn:Hget; [|by eapply tell_appeared]. eapply tell_changed; [|done| |done].
    - apply od_get_elem_of in Hget. exact (proj1 (Forall_forall _ _) Hold _ Hget).
    - rewrite Hm by (by left). by rewrite Hget. }
  rewrite IH; [|done..| |done].
  - change (view ((k, v) :: new)) with (<[k := aspect v]> (view new)).
    rewrite <-insert_union_r; [by rewrite insert_union_l|]. rewrite view_lookup.
    rewrite (proj2 (od_get_None new k) Hk). done.
  - intros k' Hk'. rewrite lookup_insert_ne; [apply Hm; by right|]. by intros ->.
Qed.

(** ... and the one over the old deletes what the new one lacks. *)
Lemma old_pass_tells (new old : odict K V) m raws :
  Forall (λ kv, tracked kv.1 kv.2) old →
  stamped (flat_map (λ '(k, v), if od_mem new k then [] else gone k v) old) raws →
  ∀ k, foldl (flip tell) m raws !! k
       = if decide (k ∈ od_keys old ∧ od_mem new k = false) then None else m !! k.
Proof.
  intros Htr. revert m raws. induction old as [|[k v] old IH]; intros m raws Hraws k'.
  { inversion Hraws; subst. rewrite decide_False; [done|]. intros [?%elem_of_nil _]. done. }
  cbn [flat_map] in Hraws. apply Forall2_app_inv_l in Hraws as (raws1 & raws2 & H1 & H2 & ->).
  apply Forall_cons in Htr as [Hkv Htr]. rewrite foldl_app, (IH Htr _ _ H2).
  unfold od_keys. cbn [fmap list_fmap fst]. fold (od_keys old).
  destruct (od_mem new k) eqn:Hmem.
  - inversion H1; subst. apply decide_ext. rewrite elem_of_cons. split; [tauto|]. intros [[->|?] ?]; [congruence|done].
  - rewrite (tell_gone _ _ _ _ Hkv H1). destruct (decide (k' = k)) as [->|Hne].
    + rewrite lookup_delete_eq. rewrite (decide_True (P := k ∈ k :: _ ∧ _)) by (by split; [left|]). by case_decide.
    + rewrite lookup_delete_ne by done. apply decide_ext. rewrite elem_of_cons. tauto.
Qed.

Lemma diff_tells old new raws :
  well_formed old → well_formed new → stamped (diff old new) raws →
  foldl (flip tell) (view old) raws = view new.
Proof.
  intros [Hond Hotr] [Hnnd Hntr] Hraws. unfold diff_with in Hraws.
  apply Forall2_app_inv_l in Hraws as (raws1 & raws2 & H1 & H2 & ->). rewrite foldl_app.
  rewrite (new_pass_tells old new (view old) raws1); [|done..|by intros; apply view_lookup|done].
  apply map_eq. intros k. rewrite (old_pass_tells new old _ _ Hotr H2). rewrite lookup_union, !view_lookup.
  case_decide as Hk.
  - destruct Hk as [_ Hk%od_mem_false%od_get_None]. by rewrite Hk.
  - destruct (od_get new k) as [v|] eqn:Hnew; [by destruct (od_get old k)|].
    destruct (od_get old k) as [v|] eqn:Hget; [|done]. destruct Hk. split.
    + apply od_get_is_Some. by rewrite Hget.
    + apply od_mem_false. by apply od_get_None.
Qed.

Abbreviation take_snapshot := (take_snapshot local_hostname diff).

Lemma take_snapshot_clean now snapshot w :
  dead_letters (w_normalizer w) ≤ dead_letters (w_normalizer (take_snapshot now snapshot w).2) ∧
  (dead_letters (w_normalizer (take_snapshot now snapshot w).2) = dead_letters (w_normalizer w) →
   seeded w = true →
   Forall2 (λ raw e, map_raw local_hostname raw = Ok e) (stamp now (diff (baseline w) snapshot))
     (take_snapshot now snapshot w).1).
Proof.
  unfold Base.take_snapshot. destruct (seeded w); cbn [negb]; [|done].
  pose proof (build_all_clean (stamp now (diff (baseline w) snapshot)) (w_normalizer w)) as [Hb1 Hb2].
  destruct (build_all _ _) as [records n]. cbn [fst snd] in *.
  pose proof (normalize_all_clean local_hostname records n) as [Hn1 Hn2].
  destruct (normalize_all _ records n) as [events n']. cbn [fst snd w_normalizer] in *.
  split; [lia|]. intros Heq _. rewrite <-Hb2 by lia. apply Hn2. lia.
Qed.

(** ... and each difference has its event, unless something is dead-lettered. *)
Lemma take_snapshot_reports now snapshot w d :
  dead_letters (w_normalizer (take_snapshot now snapshot w).2) = dead_letters (w_normalizer w) →
  seeded w = true → d ∈ diff (baseline w) snapshot →
  ∃ e t, e ∈ (take_snapshot now snapshot w).1 ∧ map_raw local_hostname (d t) = Ok e.
Proof.
  intros Hdead Hsd [i Hd]%list_elem_of_lookup_1. pose proof (take_snapshot_clean now snapshot w) as [_ Hclean].
  specialize (Hclean Hdead Hsd).
  destruct (Forall2_lookup_l _ _ _ i (d (mkDatetime (now i) (Some 0))) Hclean) as (e & He & Hmap).
  { unfold stamp. by rewrite list_lookup_imap, Hd. }
  exists e. eexists. split; [by eapply list_elem_of_lookup_2|exact Hmap].
Qed.

Lemma take_snapshot_state now snapshot w :
  let w' := (take_snapshot now snapshot w).2 in baseline w' = snapshot ∧ seeded w' = true.
Proof.
  unfold Base.take_snapshot. destruct (seeded w); [|done]. cbn [negb].
  destruct (build_all _ _) as [records n]. by destruct (normalize_all _ records n).
Qed.

(** *** A whole life

    A collector around the loop: a poll of its source [E] takes a snapshot of
    which [sees] holds, unless the scan was cut short ([cut]), when nothing
    happens. *)
Section life.
Context {E C : Type} (step : E → (nat → Z) → C → result (list Event * C)).
Context (watcher_of : C → Watcher K V) (good : E → Prop) (cut : E → bool) (sees : E → odict K V → Prop).

Hypothesis step_takes : ∀ e now c events c',
  well_formed (baseline (watcher_of c)) → good e → step e now c = Ok (events, c') →
  if cut e then events = [] ∧ watcher_of c' = watcher_of c
  else ∃ snapshot, well_formed snapshot ∧ sees e snapshot ∧
    take_snapshot now snapshot (watcher_of c) = (events, watcher_of c').

(** The polls of [run], in order *)
Fixpoint drain_all (polls : list (E * (nat → Z))) (c : C) : result (list Event * C) :=
  match polls with
  | [] => Ok ([], c)
  | (e, now) :: polls' =>
      '(events, c) ← step e now c;
      '(more, c) ← drain_all polls' c;
      Ok ((events ++ more)%list, c)
  end.

Definition complete (polls : list (E * (nat → Z))) : list E := filter (λ e, cut e = false) polls.*1.

Lemma step_dead_letters e now c events c' :
  well_formed (baseline (watcher_of c)) → good e → step e now c = Ok (events, c') →
  dead_letters (w_normalizer (watcher_of c)) ≤ dead_letters (w_normalizer (watcher_of c')) ∧
  well_formed (baseline (watcher_of c')).
Proof.
  intros Hw Hg Hstep. pose proof (step_takes _ _ _ _ _ Hw Hg Hstep) as Htake. destruct (cut e).
  - by destruct Htake as [_ ->].
  - destruct Htake as (snapshot & Hs & _ & Htake). pose proof (take_snapshot_clean now snapshot (watcher_of c)) as [Hle _].
    pose proof (take_snapshot_state now snapshot (watcher_of c)) as [Hb _]. rewrite Htake in Hle, Hb. cbn in *.
    by rewrite Hb.
Qed.

Lemma drain_all_dead_letters polls c events c' :
  well_formed (baseline (watcher_of c)) → Forall (λ p, good p.1) polls → drain_all polls c = Ok (events, c') →
  dead_letters (w_normalizer (watcher_of c)) ≤ dead_letters (w_normalizer (watcher_of c')).
Proof.
  revert c events. induction polls as [|[e now] polls IH]; intros c events Hw Hg Hrun; [by injection Hrun as <- <-|].
  cbn [drain_all] in Hrun. apply Forall_cons in Hg as [He Hg]. cbn [fst] in He.
  apply result_bind_ok in Hrun as ([es c1] & Hrun1 & Hrun).
  apply result_bind_ok in Hrun as ([more c2] & Hrun2 & [= <- <-]).
  destruct (step_dead_letters _ _ _ _ _ Hw He Hrun1) as [Hle Hw1]. specialize (IH _ _ Hw1 Hg Hrun2). lia.
Qed.

(** Records of what two snapshots differ in *)
Definition drafted (raws : list RawEvent) : Prop :=
  Forall (λ raw, ∃ old new (d : draft) t, d ∈ diff old new ∧ raw = d t) raws.

Lemma stamp_drafted now old new : drafted (stamp now (diff old new)).
Proof. apply Forall_forall. intros raw (d & t & Hd & ->)%stamp_elem. by exists old, new, d, t. Qed.

(** From a baseline on *)
Lemma drain_all_tells polls c events c' :
  seeded (watcher_of c) = true → well_formed (baseline (watcher_of c)) → Forall (λ p, good p.1) polls →
  drain_all polls c = Ok (events, c') →
  dead_letters (w_normalizer (watcher_of c')) ≤ dead_letters (w_normalizer (watcher_of c)) →
  (match last (complete polls) with
   | Some e => sees e (baseline (watcher_of c'))
   | None => baseline (watcher_of c') = baseline (watcher_of c)
   end) ∧
  ∃ raws, Forall2 (λ raw e, map_raw local_hostname raw = Ok e) raws events ∧
    foldl (flip tell) (view (baseline (watcher_of c))) raws = view (baseline (watcher_of c')) ∧ drafted raws.
Proof.
  revert c events. induction polls as [|[e now] polls IH]; intros c events Hsd Hw Hg Hrun Hdead.
  { injection Hrun as <- <-. split; [done|]. exists []. split_and!; [done..|]. apply Forall_nil_2. }
  cbn [drain_all] in Hrun. apply Forall_cons in Hg as [He Hg]. cbn [fst] in He.
  apply result_bind_ok in Hrun as ([es c1] & Hrun1 & Hrun).
  apply result_bind_ok in Hrun as ([more c2] & Hrun2 & [= <- <-]).
  destruct (step_dead_letters _ _ _ _ _ Hw He Hrun1) as [Hle Hw1].
  pose proof (drain_all_dead_letters _ _ _ _ Hw1 Hg Hrun2) as Hle2.
  pose proof (step_takes _ _ _ _ _ Hw He Hrun1) as Htake. unfold complete. cbn [fmap list_fmap fst].
  destruct (cut e) eqn:Hcut; rewrite ?Hcut in Htake.
  - destruct Htake as [-> Heq]. rewrite filter_cons_False by congruence. rewrite <-Heq. apply (IH c1 more); [congruence..|done|done|congruence].
  - rewrite filter_cons_True by done. destruct Htake as (snapshot & Hs & Hsees & Htake).
    pose proof (take_snapshot_clean now snapshot (watcher_of c)) as [_ Hclean].
    pose proof (take_snapshot_state now snapshot (watcher_of c)) as [Hb Hsd1]. rewrite Htake in Hclean, Hb, Hsd1.
    cbn [fst snd] in *. specialize (Hclean ltac:(lia) Hsd).
    destruct (IH c1 more) as [Hlast (raws & Hraws & Htell & Hdrafted)]; [done|done|done|done|lia|]. split.
    + fold (complete polls). rewrite last_cons. destruct (last (complete polls)); [done|]. by rewrite Hlast, Hb.
    + exists (stamp now (diff (baseline (watcher_of c)) snapshot) ++ raws)%list.
      split; [by apply Forall2_app|]. split; [|apply Forall_app; by split; [apply stamp_drafted|]]. rewrite foldl_app.
      rewrite (diff_tells _ snapshot _ Hw Hs (stamp_stamped _ _)), <-Hb. done.
Qed.

(** From the start: as long as nothing is dead-lettered, the events are those of
    records that lead from what the first complete poll saw to what the last
    one saw. *)
Lemma life_tells polls c events c' first rest :
  watcher_of c = new_watcher → Forall (λ p, good p.1) polls →
  drain_all polls c = Ok (events, c') → dead_letters (w_normalizer (watcher_of c')) = 0 →
  complete polls = first :: rest →
  ∃ s0 raws, sees first s0 ∧ sees (default first (last rest)) (baseline (watcher_of c')) ∧
    well_formed (baseline (watcher_of c')) ∧
    Forall2 (λ raw e, map_raw local_hostname raw = Ok e) raws events ∧
    foldl (flip tell) (view s0) raws = view (baseline (watcher_of c')) ∧ drafted raws.
Proof.
  revert c events. induction polls as [|[e now] polls IH]; intros c events Hnew Hg Hrun Hdead Hcomplete; [done|].
  cbn [drain_all] in Hrun. apply Forall_cons in Hg as [He Hg]. cbn [fst] in He.
  apply result_bind_ok in Hrun as ([es c1] & Hrun1 & Hrun).
  apply result_bind_ok in Hrun as ([more c2] & Hrun2 & [= <- <-]).
  assert (well_formed (baseline (watcher_of c))) as Hw by (rewrite Hnew; split; constructor).
  pose proof (step_takes _ _ _ _ _ Hw He Hrun1) as Htake. unfold complete in Hcomplete. cbn [fmap list_fmap fst] in Hcomplete.
  destruct (cut e) eqn:Hcut; rewrite ?Hcut in Htake.
  - destruct Htake as [-> Heq]. rewrite filter_cons_False in Hcomplete by congruence.
    apply (IH c1 more); [congruence|done..].
  - rewrite filter_cons_True in Hcomplete by done. injection Hcomplete as <- Hrest.
    destruct Htake as (snapshot & Hs & Hsees & Htake). rewrite Hnew in Htake. injection Htake as <- Hw1.
    destruct (drain_all_tells polls c1 more c2) as [Hlast (raws & Hraws & Htell & Hdrafted)];
      [by rewrite <-Hw1|by rewrite <-Hw1|done|done|rewrite Hdead, <-Hw1; done|].
    assert (well_formed (baseline (watcher_of c2))) as Hwf.
    { assert (well_formed (baseline (watcher_of c1))) as Hwf1 by (by rewrite <-Hw1).
      revert Hwf1 Hg Hrun2. clear -step_takes. revert c1 more. induction polls as [|[e now] polls IH]; intros c1 more Hwf1 Hg Hrun.
      - by injection Hrun as <- <-.
      - cbn [drain_all] in Hrun. apply Forall_cons in Hg as [He Hg]. cbn [fst] in He.
        apply result_bind_ok in Hrun as ([es c1'] & Hrun1 & Hrun).
        apply result_bind_ok in Hrun as ([more' c2'] & Hrun2 & [= <- <-]).
        destruct (step_dead_letters _ _ _ _ _ Hwf1 He Hrun1) as [_ Hw1]. by eapply IH. }
    exists snapshot, raws. fold (complete polls) in Hrest. rewrite Hrest in Hlast. rewrite <-Hw1 in Hlast, Htell.
    split_and!; [done| |done..]. destruct (last rest); [done|]. simpl. by rewrite Hlast.
Qed.
End life.
End telling.

Lemma complete_all {E} (polls : list (E * (nat → Z))) : complete (λ _, false) polls = polls.*1.
Proof. unfold complete. induction (polls.*1) as [|e l IH]; [done|]. by rewrite filter_cons_True, IH. Qed.
