(* ===== verification/Collector.v ===== *)
(** * The collector contract ([collectors/base.py])

    Names that are not UTF-8 ([os_text]), the polling loop every collector runs
    between start and stop, and the log of a source going away and coming back.
    Here a string is a list of code points: names read from the operating
    system can hold surrogates, which [String] cannot. *)

From S2P Require Import Prelude.
Local Open Scope Z_scope.

(** ** UTF-8 *)

Definition is_surrogate (c : Z) : bool := (55296 <=? c) && (c <=? 57343).

(** A scalar value: what UTF-8 encodes *)
Definition scalar (c : Z) : Prop := 0 ≤ c < 55296 ∨ 57344 ≤ c < 1114112.

(** The bytes of a code point, as [surrogatepass] encodes it: no code point is
    refused *)
Definition utf8_bytes (c : Z) : list Z :=
  if c <? 128 then [c]
  else if c <? 2048 then [192 + c / 64; 128 + c mod 64]
  else if c <? 65536 then [224 + c / 4096; 128 + c / 64 mod 64; 128 + c mod 64]
  else [240 + c / 262144; 128 + c / 4096 mod 64; 128 + c / 64 mod 64; 128 + c mod 64].

(** [s.encode("utf-8", "surrogateescape")]; [None]: [UnicodeEncodeError] *)
Fixpoint encode_escape (s : list Z) : option (list Z) :=
  match s with
  | [] => Some []
  | c :: s' =>
      if (56448 <=? c) && (c <=? 56575) then rest ← encode_escape s'; Some (c - 56320 :: rest)
      else if is_surrogate c then None
      else rest ← encode_escape s'; Some (utf8_bytes c ++ rest)
  end.

(** [s.encode("utf-8", "surrogatepass")] *)
Definition encode_pass (s : list Z) : list Z := s ≫= utf8_bytes.

Definition continues (b : Z) : bool := (128 <=? b) && (b <=? 191).

(** The code point of two, three or four bytes, if they are well-formed (no
    overlong form, no surrogate, nothing past the last code point) *)
Definition two (b1 b2 : Z) : option Z :=
  if (194 <=? b1) && (b1 <=? 223) && continues b2 then Some ((b1 - 192) * 64 + (b2 - 128)) else None.

Definition three (b1 b2 b3 : Z) : option Z :=
  let c := (b1 - 224) * 4096 + (b2 - 128) * 64 + (b3 - 128) in
  if (224 <=? b1) && (b1 <=? 239) && continues b2 && continues b3 && (2048 <=? c) && negb (is_surrogate c)
  then Some c else None.

Definition four (b1 b2 b3 b4 : Z) : option Z :=
  let c := (b1 - 240) * 262144 + (b2 - 128) * 4096 + (b3 - 128) * 64 + (b4 - 128) in
  if (240 <=? b1) && (b1 <=? 244) && continues b2 && continues b3 && continues b4 && (65536 <=? c) && (c <? 1114112)
  then Some c else None.

(** [bytes.decode("utf-8", errors)], [bad] being what stands for a byte that is
    not part of a well-formed sequence.  (Python reports the bytes of a truncated
    sequence at once; those after the first are not well-formed starts, so one
    by one they give the same.) *)
Fixpoint decode (bad : Z → list Z) (l : list Z) : list Z :=
  match l with
  | [] => []
  | b1 :: l1 =>
      if b1 <? 128 then b1 :: decode bad l1
      else
        match l1 with
        | [] => bad b1
        | b2 :: l2 =>
            match two b1 b2 with
            | Some c => c :: decode bad l2
            | None =>
                match l2 with
                | [] => bad b1 ++ decode bad l1
                | b3 :: l3 =>
                    match three b1 b2 b3 with
                    | Some c => c :: decode bad l3
                    | None =>
                        match l3 with
                        | [] => bad b1 ++ decode bad l1
                        | b4 :: l4 =>
                            match four b1 b2 b3 b4 with
                            | Some c => c :: decode bad l4
                            | None => bad b1 ++ decode bad l1
                            end
                        end
                    end
                end
            end
        end
  end.

(** How Python decodes names of the operating system ([surrogateescape]) *)
Definition escape_byte (b : Z) : list Z := [56320 + b].
Definition os_decode : list Z → list Z := decode escape_byte.

(** [backslashreplace] *)
Definition hex_digit (n : Z) : Z := if n <? 10 then 48 + n else 87 + n.
Definition backslash_byte (b : Z) : list Z := [92; 120; hex_digit (b / 16); hex_digit (b mod 16)].

(** [os_text] *)
Definition os_text (value : list Z) : list Z :=
  let raw := match encode_escape value with Some raw => raw | None => encode_pass value end in
  decode backslash_byte raw.

(** "caf\xe9" as Latin-1 bytes; a lone surrogate; a truncated sequence *)
Example os_texts :
  os_text (os_decode [99; 97; 102; 233]) = [99; 97; 102; 92; 120; 101; 57] ∧
  os_text [55296] = [92; 120; 101; 100; 92; 120; 97; 48; 92; 120; 56; 48] ∧
  os_text (os_decode [226; 130; 65]) = [92; 120; 101; 50; 92; 120; 56; 50; 65] ∧
  os_text [8364] = [8364].
Proof. by split_and!. Qed.

(** *** Lemmas *)

Ltac by_cases :=
  repeat match goal with
  | H : context [Z.leb ?a ?b] |- _ => destruct (Z.leb_spec a b); cbn [andb negb] in H; try discriminate
  | H : context [Z.ltb ?a ?b] |- _ => destruct (Z.ltb_spec a b); cbn [andb negb] in H; try discriminate
  | |- context [Z.leb ?a ?b] => destruct (Z.leb_spec a b); cbn [andb negb]; try lia
  | |- context [Z.ltb ?a ?b] => destruct (Z.ltb_spec a b); cbn [andb negb]; try lia
  end.

Lemma div_mod_is k q r x : x = q * k + r → 0 ≤ r < k → x / k = q ∧ x mod k = r.
Proof. intros -> Hr. split; [symmetry; apply (Z.div_unique _ _ _ r)|symmetry; apply (Z.mod_unique _ _ q)]; lia. Qed.

Lemma div_div c : c / 4096 = c / 64 / 64 ∧ c / 262144 = c / 64 / 64 / 64.
Proof. by rewrite !Z.div_div. Qed.

Lemma two_bytes_ok b1 b2 c : two b1 b2 = Some c → utf8_bytes c = [b1; b2] ∧ scalar c ∧ 128 ≤ c.
Proof.
  unfold two, continues. intros H. by_cases. injection H as <-.
  destruct (div_mod_is 64 (b1 - 192) (b2 - 128) ((b1 - 192) * 64 + (b2 - 128))) as [Hd Hm]; [lia..|].
  split; [|unfold scalar; lia]. unfold utf8_bytes. rewrite Hd, Hm. by_cases. repeat f_equal; lia.
Qed.

Lemma three_ok b1 b2 b3 c : three b1 b2 b3 = Some c → utf8_bytes c = [b1; b2; b3] ∧ scalar c ∧ 2048 ≤ c.
Proof.
  unfold three, continues, is_surrogate. cbv zeta. set (c0 := (b1 - 224) * 4096 + (b2 - 128) * 64 + (b3 - 128)).
  intros H. by_cases; injection H as <-;
  (destruct (div_mod_is 64 ((b1 - 224) * 64 + (b2 - 128)) (b3 - 128) c0) as [Hd Hm]; [lia..|]);
  (destruct (div_mod_is 64 (b1 - 224) (b2 - 128) ((b1 - 224) * 64 + (b2 - 128))) as [Hd2 Hm2]; [lia..|]);
  (split; [|unfold scalar; lia]); unfold utf8_bytes; rewrite (proj1 (div_div c0)), Hd, Hd2, Hm, Hm2;
  by_cases; repeat f_equal; lia.
Qed.

Lemma four_ok b1 b2 b3 b4 c : four b1 b2 b3 b4 = Some c → utf8_bytes c = [b1; b2; b3; b4] ∧ scalar c ∧ 65536 ≤ c.
Proof.
  unfold four, continues. cbv zeta. set (c0 := (b1 - 240) * 262144 + (b2 - 128) * 4096 + (b3 - 128) * 64 + (b4 - 128)).
  intros H. by_cases. injection H as <-.
  destruct (div_mod_is 64 ((b1 - 240) * 4096 + (b2 - 128) * 64 + (b3 - 128)) (b4 - 128) c0) as [Hd Hm]; [lia..|].
  destruct (div_mod_is 64 ((b1 - 240) * 64 + (b2 - 128)) (b3 - 128) ((b1 - 240) * 4096 + (b2 - 128) * 64 + (b3 - 128)))
    as [Hd2 Hm2]; [lia..|].
  destruct (div_mod_is 64 (b1 - 240) (b2 - 128) ((b1 - 240) * 64 + (b2 - 128))) as [Hd3 Hm3]; [lia..|].
  split; [|unfold scalar; lia]. unfold utf8_bytes. rewrite (proj1 (div_div c0)), (proj2 (div_div c0)), Hd, Hd2, Hd3, Hm, Hm2, Hm3.
  by_cases. repeat f_equal; lia.
Qed.

Definition is_byte (b : Z) : Prop := 0 ≤ b < 256.

(** The first step of decoding: a well-formed sequence, or a byte that is not
    part of one. *)
Lemma decode_cases b1 l1 :
  0 ≤ b1 →
  (∃ c l', scalar c ∧ b1 :: l1 = utf8_bytes c ++ l' ∧ ∀ bad, decode bad (b1 :: l1) = c :: decode bad l') ∨
  (128 ≤ b1 ∧ ∀ bad, decode bad (b1 :: l1) = bad b1 ++ decode bad l1).
Proof.
  intros Hb. destruct (b1 <? 128) eqn:H1.
  { left. exists b1, l1. unfold utf8_bytes, scalar. rewrite H1. apply Z.ltb_lt in H1. split; [lia|]. split; [done|].
    intros bad. cbn [decode]. by rewrite (proj2 (Z.ltb_lt _ _)). }
  assert (128 ≤ b1) as Hge by (by apply Z.ltb_ge).
  destruct l1 as [|b2 l2]; [right; split; [done|]; intros bad; cbn [decode]; by rewrite H1, app_nil_r|].
  destruct (two b1 b2) as [c|] eqn:H2.
  { apply two_bytes_ok in H2 as Hok. destruct Hok as (He & Hs & _). left. exists c, l2. rewrite He. split; [done|]. split; [done|].
    intros bad. cbn [decode]. by rewrite H1, H2. }
  destruct l2 as [|b3 l3]; [right; split; [done|]; intros bad; cbn [decode]; by rewrite H1, H2|].
  destruct (three b1 b2 b3) as [c|] eqn:H3.
  { apply three_ok in H3 as Hok. destruct Hok as (He & Hs & _). left. exists c, l3. rewrite He. split; [done|]. split; [done|].
    intros bad. cbn [decode]. by rewrite H1, H2, H3. }
  destruct l3 as [|b4 l4]; [right; split; [done|]; intros bad; cbn [decode]; by rewrite H1, H2, H3|].
  destruct (four b1 b2 b3 b4) as [c|] eqn:H4.
  { apply four_ok in H4 as Hok. destruct Hok as (He & Hs & _). left. exists c, l4. rewrite He. split; [done|]. split; [done|].
    intros bad. cbn [decode]. by rewrite H1, H2, H3, H4. }
  right. split; [done|]. intros bad. cbn [decode]. by rewrite H1, H2, H3, H4.
Qed.

Lemma encode_scalar c s : scalar c → encode_escape (c :: s) = (rest ← encode_escape s; Some (utf8_bytes c ++ rest)).
Proof.
  unfold scalar. intros Hc. cbn [encode_escape]. unfold is_surrogate.
  replace ((56448 <=? c) && (c <=? 56575)) with false by (symmetry; apply andb_false_iff; rewrite !Z.leb_gt; lia).
  by replace ((55296 <=? c) && (c <=? 57343)) with false by (symmetry; apply andb_false_iff; rewrite !Z.leb_gt; lia).
Qed.

(** Every name of the operating system comes back to its bytes. *)
Lemma os_decode_encode l : Forall is_byte l → encode_escape (os_decode l) = Some l.
Proof.
  remember (length l) as n eqn:Hn. revert l Hn. induction (lt_wf n) as [n _ IH]. intros [|b l] -> Hl; [done|].
  pose proof Hl as [Hb Hl']%Forall_cons. unfold is_byte in Hb.
  destruct (decode_cases b l ltac:(lia)) as [(c & l' & Hc & He & Hd)|[Hge Hd]]; unfold os_decode; rewrite Hd.
  - rewrite encode_scalar by done. fold os_decode. rewrite He in Hl. apply Forall_app in Hl as [_ Hl]. rewrite He.
    rewrite (IH (length l')); [done| |done|done]. rewrite He, length_app. unfold utf8_bytes. repeat case_match; simpl; lia.
  - cbn [escape_byte app encode_escape]. fold os_decode.
    replace ((56448 <=? 56320 + b) && (56320 + b <=? 56575)) with true
      by (symmetry; apply andb_true_iff; rewrite !Z.leb_le; lia).
    rewrite (IH (length l)); [|simpl; lia|done|done]. cbn. do 2 f_equal. lia.
Qed.

(** *** Decoding well-formed text *)

Lemma two_bytes c : 128 ≤ c < 2048 → two (192 + c / 64) (128 + c mod 64) = Some c.
Proof.
  intros Hc. unfold two, continues. pose proof (Z.mod_pos_bound c 64 ltac:(lia)). pose proof (Z.div_mod c 64 ltac:(lia)).
  by_cases. f_equal. lia.
Qed.

Lemma three_bytes c :
  2048 ≤ c < 65536 → is_surrogate c = false → three (224 + c / 4096) (128 + c / 64 mod 64) (128 + c mod 64) = Some c.
Proof.
  intros Hc Hs. unfold three, continues. rewrite (proj1 (div_div c)). cbv zeta.
  pose proof (Z.mod_pos_bound c 64 ltac:(lia)). pose proof (Z.div_mod c 64 ltac:(lia)).
  pose proof (Z.mod_pos_bound (c / 64) 64 ltac:(lia)). pose proof (Z.div_mod (c / 64) 64 ltac:(lia)).
  replace ((224 + c / 64 / 64 - 224) * 4096 + (128 + c / 64 mod 64 - 128) * 64 + (128 + c mod 64 - 128)) with c by lia.
  rewrite Hs. by_cases. done.
Qed.

Lemma four_bytes c :
  65536 ≤ c < 1114112 →
  four (240 + c / 262144) (128 + c / 4096 mod 64) (128 + c / 64 mod 64) (128 + c mod 64) = Some c.
Proof.
  intros Hc. unfold four, continues. rewrite (proj2 (div_div c)), (proj1 (div_div c)). cbv zeta.
  pose proof (Z.mod_pos_bound c 64 ltac:(lia)). pose proof (Z.div_mod c 64 ltac:(lia)).
  pose proof (Z.mod_pos_bound (c / 64) 64 ltac:(lia)). pose proof (Z.div_mod (c / 64) 64 ltac:(lia)).
  pose proof (Z.mod_pos_bound (c / 64 / 64) 64 ltac:(lia)). pose proof (Z.div_mod (c / 64 / 64) 64 ltac:(lia)).
  replace ((240 + c / 64 / 64 / 64 - 240) * 262144 + (128 + c / 64 / 64 mod 64 - 128) * 4096
           + (128 + c / 64 mod 64 - 128) * 64 + (128 + c mod 64 - 128)) with c by lia.
  by_cases. done.
Qed.

Lemma two_small b1 b2 : 223 < b1 → two b1 b2 = None.
Proof. intros H. unfold two. rewrite (proj2 (Z.leb_gt b1 223)) by lia. by rewrite andb_false_r. Qed.

Lemma three_small b1 b2 b3 : 239 < b1 → three b1 b2 b3 = None.
Proof. intros H. unfold three. rewrite (proj2 (Z.leb_gt b1 239)) by lia. by rewrite andb_false_r. Qed.

Lemma lead_high b l bad : 128 ≤ b → decode bad (b :: l) =
  match l with
  | [] => bad b
  | b2 :: l2 =>
      match two b b2 with
      | Some c => c :: decode bad l2
      | None =>
          match l2 with
          | [] => bad b ++ decode bad l
          | b3 :: l3 =>
              match three b b2 b3 with
              | Some c => c :: decode bad l3
              | None =>
                  match l3 with
                  | [] => bad b ++ decode bad l
                  | b4 :: l4 => match four b b2 b3 b4 with Some c => c :: decode bad l4 | None => bad b ++ decode bad l end
                  end
              end
          end
      end
  end.
Proof. intros Hb. cbn [decode]. by rewrite (proj2 (Z.ltb_ge b 128)). Qed.

Lemma decode_encoded bad c l : scalar c → decode bad (utf8_bytes c ++ l) = c :: decode bad l.
Proof.
  intros Hc. unfold utf8_bytes. destruct (c <? 128) eqn:H1; [cbn [app decode]; by rewrite H1|]. apply Z.ltb_ge in H1.
  destruct (c <? 2048) eqn:H2; [|apply Z.ltb_ge in H2; destruct (c <? 65536) eqn:H3].
  - apply Z.ltb_lt in H2. cbn [app]. pose proof (Z.div_pos c 64). rewrite lead_high by lia. by rewrite two_bytes.
  - apply Z.ltb_lt in H3. cbn [app]. pose proof (Z.div_pos c 4096). rewrite lead_high by lia. rewrite two_small by lia.
    rewrite three_bytes; [done|lia|]. unfold scalar in Hc. unfold is_surrogate. apply andb_false_iff. rewrite !Z.leb_gt. lia.
  - apply Z.ltb_ge in H3. cbn [app]. pose proof (Z.div_pos c 262144). rewrite lead_high by lia.
    rewrite two_small, three_small by lia. rewrite four_bytes; [done|]. unfold scalar in Hc. lia.
Qed.

Lemma encode_scalars s : Forall scalar s → encode_escape s = Some (encode_pass s).
Proof.
  induction 1 as [|c s Hc _ IH]; [done|]. rewrite encode_scalar, IH by done. done.
Qed.

Lemma decode_encode_scalars bad s : Forall scalar s → decode bad (encode_pass s) = s.
Proof.
  induction 1 as [|c s Hc _ IH]; [done|]. unfold encode_pass. cbn [mbind list_bind]. fold (encode_pass s).
  rewrite decode_encoded by done. by rewrite IH.
Qed.

Lemma utf8_bytes_bytes c : 0 ≤ c < 1114112 → Forall is_byte (utf8_bytes c).
Proof.
  intros Hc. unfold utf8_bytes, is_byte. pose proof (Z.mod_pos_bound c 64) as M1. pose proof (Z.mod_pos_bound (c / 64) 64) as M2.
  pose proof (Z.mod_pos_bound (c / 4096) 64) as M3.
  destruct (c <? 128) eqn:H1; [apply Z.ltb_lt in H1; repeat constructor; lia|]. 
  destruct (c <? 2048) eqn:H2.
  { apply Z.ltb_lt in H2. pose proof (Z.div_pos c 64). pose proof (Z.div_lt_upper_bound c 64 32). repeat constructor; lia. }
  destruct (c <? 65536) eqn:H3.
  { apply Z.ltb_lt in H3. pose proof (Z.div_pos c 4096). pose proof (Z.div_lt_upper_bound c 4096 16). repeat constructor; lia. }
  pose proof (Z.div_pos c 262144). pose proof (Z.div_lt_upper_bound c 262144 5). repeat constructor; lia.
Qed.

Lemma encode_escape_bytes s l :
  Forall (λ c, 0 ≤ c < 1114112) s → encode_escape s = Some l → Forall is_byte l.
Proof.
  intros Hs. revert l. induction Hs as [|c s Hc _ IH]; intros l; [by intros [= <-]|]. cbn [encode_escape].
  destruct (_ && _) eqn:He.
  - apply andb_true_iff in He as [?%Z.leb_le ?%Z.leb_le]. destruct (encode_escape s) as [r|]; [|done]. intros [= <-].
    constructor; [unfold is_byte; lia|by apply IH].
  - destruct (is_surrogate c); [done|]. destruct (encode_escape s) as [r|]; [|done]. intros [= <-].
    apply Forall_app. split; [by apply utf8_bytes_bytes|by apply IH].
Qed.

Lemma encode_pass_bytes s : Forall (λ c, 0 ≤ c < 1114112) s → Forall is_byte (encode_pass s).
Proof.
  induction 1 as [|c s Hc _ IH]; [constructor|]. unfold encode_pass. cbn [mbind list_bind]. fold (encode_pass s).
  apply Forall_app. split; [by apply utf8_bytes_bytes|done].
Qed.

Lemma backslash_scalar b : is_byte b → Forall scalar (backslash_byte b).
Proof.
  unfold is_byte, backslash_byte, hex_digit, scalar. intros Hb. pose proof (Z.mod_pos_bound b 16). pose proof (Z.div_pos b 16).
  pose proof (Z.div_lt_upper_bound b 16 16). repeat constructor; try lia; case_match; lia.
Qed.

Lemma decode_scalars l : Forall is_byte l → Forall scalar (decode backslash_byte l).
Proof.
  remember (length l) as n eqn:Hn. revert l Hn. induction (lt_wf n) as [n _ IH]. intros [|b l] -> Hl; [constructor|].
  pose proof Hl as [Hb Hl']%Forall_cons. unfold is_byte in Hb.
  destruct (decode_cases b l ltac:(lia)) as [(c & l' & Hc & He & Hd)|[Hge Hd]]; rewrite Hd.
  - constructor; [done|]. apply (IH (length l')); [|done|rewrite He in Hl; by apply Forall_app in Hl as [_ Hl]].
    rewrite He, length_app. unfold utf8_bytes. repeat case_match; simpl; lia.
  - apply Forall_app. split; [by apply backslash_scalar|]. apply (IH (length l)); [simpl; lia|done|done].
Qed.

(** C33: whatever bytes a file or program is named with, and whatever string a
    collector is given, [os_text] makes text of it that UTF-8 can encode: a
    name's text is its bytes read as UTF-8 with every stray byte written out,
    so no name is refused, and proper text is left as it is. *)
Theorem os_text_is_valid :
  (∀ value, Forall (λ c, 0 ≤ c < 1114112) value → Forall scalar (os_text value)) ∧
  (∀ name, Forall is_byte name → os_text (os_decode name) = decode backslash_byte name) ∧
  (∀ text, Forall scalar text → os_text text = text) ∧
  (∀ text, Forall scalar text → os_decode (encode_pass text) = text).
Proof.
  split_and!.
  - intros value Hv. unfold os_text. apply decode_scalars. destruct (encode_escape value) as [raw|] eqn:He.
    + by eapply encode_escape_bytes.
    + by apply encode_pass_bytes.
  - intros name Hn. unfold os_text. by rewrite os_decode_encode.
  - intros text Ht. unfold os_text. rewrite encode_scalars by done. by apply decode_encode_scalars.
  - intros text Ht. by apply decode_encode_scalars.
Qed.

(** ** The contract of a collector *)

(** [AbstractCollector]: its name, when [stop] was called, and what it knows of
    its source, with the log of the changes ([True]: available again). *)
Record AbstractCollector := mkCollector {
  name : list Z;
  stop_requested : option Z;
  source_available : bool;
  source_log : list bool;
}.

(** [AbstractCollector.__init__]; [class_name] is the class attribute. *)
Definition new_collector (class_name : list Z) (given : option (list Z)) : result AbstractCollector :=
  let n := default class_name given in
  _ ← raise_if (bool_decide (n = [])) ValueError;
  Ok (mkCollector n None true []).

(** [_mark_source] *)
Definition mark_source (available : bool) (c : AbstractCollector) : AbstractCollector :=
  if eqb available (source_available c) then c
  else mkCollector (name c) (stop_requested c) available (source_log c ++ [available]).

(** [stop] at [now] *)
Definition stop (now : Z) (c : AbstractCollector) : AbstractCollector :=
  mkCollector (name c) (Some (default now (stop_requested c))) (source_available c) (source_log c).

(** [wait_stop] from [now], [stop] being called at [requested]: what it returns
    and when; [None]: it waits for ever. *)
Definition wait_stop (now : Z) (timeout requested : option Z) : option (bool * Z) :=
  match requested, timeout with
  | Some at_, None => Some (true, Z.max now at_)
  | Some at_, Some t => Some (if at_ <=? now + t then (true, Z.max now at_) else (false, now + t))
  | None, Some t => Some (false, now + t)
  | None, None => None
  end.

(** [run], for a collector that polls: the instants its drains start at.  A
    drain takes [took i]; the last one follows the loop.  [None]: still
    running after that many polls. *)
Fixpoint poll_loop (fuel : nat) (poll : Z) (requested : option Z) (took : nat → Z) (i : nat) (now : Z) : option (list Z) :=
  match fuel with
  | O => None
  | S fuel =>
      if (match requested with Some at_ => at_ <=? now | None => false end) then Some [now]
      else
        match wait_stop (now + took i) (Some poll) requested with
        | None => None
        | Some (true, woken) => Some [now; woken]
        | Some (false, woken) => rest ← poll_loop fuel poll requested took (S i) woken; Some (now :: rest)
        end
  end.

(** *** The log tells every change, and only changes *)

Lemma mark_all_log marks c :
  let c' := foldl (λ c m, mark_source m c) c marks in
  source_available c' = default (source_available c) (last marks) ∧
  ∃ new, source_log c' = source_log c ++ new ∧
    source_available c' = default (source_available c) (last new) ∧
    ∀ i m, new !! i = Some m → m = (if Nat.even i then negb (source_available c) else source_available c).
Proof.
  revert c. induction marks as [|m marks IH]; intros c; cbn [foldl]; cbv zeta.
  { split; [done|]. exists []. by rewrite app_nil_r. }
  assert (Hlast : default m (last marks) = default (source_available c) (last (m :: marks))).
  { destruct marks as [|m' ms]; [done|]. rewrite last_cons_cons. by destruct (last (m' :: ms)) eqn:Hl; [|apply last_None in Hl]. }
  rewrite <-Hlast. clear Hlast. destruct (eqb m (source_available c)) eqn:He.
  - assert (mark_source m c = c) as -> by (unfold mark_source; by rewrite He). apply eqb_prop in He as ->. apply IH.
  - set (c1 := mkCollector (name c) (stop_requested c) m (source_log c ++ [m])).
    assert (mark_source m c = c1) as -> by (unfold mark_source; by rewrite He).
    destruct (IH c1) as (Hav & new & Hlog & Hav' & Halt). split; [done|]. exists (m :: new).
    assert (Hneg : m = negb (source_available c)) by (by destruct m, (source_available c)).
    split; [by rewrite Hlog; cbn; rewrite <-app_assoc|]. split.
    + rewrite Hav'. destruct new as [|b new]; [done|]. rewrite last_cons_cons.
      by destruct (last (b :: new)) eqn:Hl; [|apply last_None in Hl].
    + intros [|i] b Hb; cbn in Hb; [by injection Hb as <-|]. apply Halt in Hb. cbn [source_available c1] in Hb. subst b.
      rewrite Nat.even_succ, <-Nat.negb_even, Hneg, negb_involutive. by destruct (Nat.even i).
Qed.

(** *** The last drain *)

Lemma poll_loop_ends poll at_ took i now fuel longest :
  0 < poll → (∀ i, 0 ≤ took i ≤ longest) → (Z.to_nat ((at_ - now) / poll + 1) < fuel)%nat →
  ∃ drains final, poll_loop fuel poll (Some at_) took i now = Some (drains ++ [final]) ∧
    Forall (λ d, now ≤ d < at_) drains ∧ at_ ≤ final ≤ Z.max now at_ + longest ∧
    len drains ≤ Z.max 0 ((at_ - now) / poll + 1) ∧ StronglySorted (λ a b, a + poll ≤ b) drains.
Proof.
  intros Hp Ht. revert i now. induction fuel as [|fuel IH]; intros i now Hf; [lia|]. cbn [poll_loop].
  destruct (at_ <=? now) eqn:Hnow.
  { apply Z.leb_le in Hnow. exists [], now. specialize (Ht 0%nat). split; [done|]. split; [constructor|]. split; [lia|].
    split; [rewrite len_nil; lia|constructor]. }
  apply Z.leb_gt in Hnow. pose proof (Ht i) as Hti. cbn [wait_stop].
  assert (0 ≤ (at_ - now) / poll) by (apply Z.div_pos; lia).
  destruct (at_ <=? now + took i + poll) eqn:Hw.
  - exists [now], (Z.max (now + took i) at_). split; [done|]. split; [repeat constructor; lia|]. split; [lia|].
    split; [rewrite len_cons, len_nil; lia|repeat constructor].
  - apply Z.leb_gt in Hw.
    assert (Hstep : (at_ - (now + took i + poll)) / poll + 1 ≤ (at_ - now) / poll).
    { rewrite <-Z.div_add by lia. apply Z.div_le_mono; lia. }
    destruct (IH (S i) (now + took i + poll)) as (drains & final & -> & Hall & Hfin & Hlen & Hsort); [lia|].
    exists (now :: drains), final. split; [done|]. split; [constructor; [lia|]; eapply Forall_impl; [exact Hall|]; cbn; lia|].
    split; [lia|]. split; [rewrite len_cons; lia|]. constructor; [done|]. eapply Forall_impl; [exact Hall|]. cbn. lia.
Qed.

(** A collector asked to stop stops, having seen everything before: however
    long its drains take, it polls no more than once a period, leaves its loop,
    and drains one last time, not before the request and no later than the
    longest drain after it; and its log tells every loss of its source and every
    return, in turn, and nothing else. *)
Theorem collector_stops poll requested took now longest marks c :
  0 < poll → (∀ i, 0 ≤ took i ≤ longest) →
  let fuel := S (S (Z.to_nat ((requested - now) / poll + 1))) in
  (∃ drains final, poll_loop fuel poll (Some requested) took 0 now = Some (drains ++ [final]) ∧
    Forall (λ d, now ≤ d < requested) drains ∧ StronglySorted (λ a b, a + poll ≤ b) drains ∧
    requested ≤ final ≤ Z.max now requested + longest) ∧
  let c' := foldl (λ c m, mark_source m c) c marks in
  source_available c' = default (source_available c) (last marks) ∧
  ∃ told, source_log c' = source_log c ++ told ∧
    source_available c' = default (source_available c) (last told) ∧
    ∀ i m, told !! i = Some m → m = (if Nat.even i then negb (source_available c) else source_available c).
Proof.
  intros Hp Ht fuel. split; [|apply mark_all_log].
  destruct (poll_loop_ends poll requested took 0 now fuel longest Hp Ht) as (drains & final & Hr & Hall & Hfin & _ & Hs); [lia|].
  by exists drains, final.
Qed.

Lemma collector_stops_witness :
  (∃ drains final, poll_loop 7 2 (Some 9) (λ _, 1) 0 0 = Some (drains ++ [final]) ∧ 9 ≤ final) ∧
  source_log (foldl (λ c m, mark_source m c) (mkCollector [97] None true []) [true; false; false; true]) = [false; true].
Proof.
  split; [|reflexivity].
  destruct (collector_stops 2 9 (λ _, 1) 0 1 [] (mkCollector [97] None true [])) as [(drains & final & Hr & _ & _ & Hf) _];
    [lia|lia|]. exists drains, final. split; [exact Hr|lia].
Defined.
