(* ===== verification/Process.v ===== *)
(** * The process collector ([collectors/process.py])

    What one poll reads of [/proc] is a [ProcFS]: every file is read at most
    once in a poll, so each may have changed or gone since the listing.  Texts
    are decoded ([errors="replace"]), a link is what [os_text] makes of it;
    [decode] is that decoding, for the command line, whose bytes are rewritten
    before it. *)

From S2P Require Import Prelude ODict PyText PyRe Events NetParse Normalizer Base.
Local Open Scope string_scope.
Local Open Scope Z_scope.

Definition DEFAULT_MAX_PROCS : Z := 100000.
Definition STAT_MIN_FIELDS : nat := 20.
Definition PPID_INDEX : nat := 1.
Definition STARTTIME_INDEX : nat := 19.

Definition ACTION_STARTED : string := "process_started".
Definition ACTION_STOPPED : string := "process_stopped".

Definition SEV_STARTED : Z := 3.
Definition SEV_STOPPED : Z := 2.

Record ProcState := mkProcState {
  ps_pid : Z; ps_ppid : Z; ps_starttime : Z; ps_comm : string;
  ps_cmdline : option string; ps_executable : option string; ps_settled : bool;
}.

#[export] Instance ProcState_eq_dec : EqDecision ProcState.
Proof. solve_decision. Defined.

(** [None] is an [OSError]. *)
Record ProcFS := mkProcFS {
  pf_entries : option (list string);
  pf_stat : Z → option string;
  pf_comm : Z → option string;
  pf_cmdline : Z → option string;
  pf_exe : Z → option string;
}.

(** ** Parsing *)

(** [s.find(c)] and [s.rfind(c)] *)
Fixpoint str_find (c : ascii) (s : string) : option nat :=
  match s with
  | "" => None
  | String d s' => if Ascii.eqb c d then Some 0%nat else S <$> str_find c s'
  end.

Fixpoint str_rfind (c : ascii) (s : string) : option nat :=
  match s with
  | "" => None
  | String d s' =>
      match str_rfind c s' with
      | Some i => Some (S i)
      | None => if Ascii.eqb c d then Some 0%nat else None
      end
  end.

Definition parse_stat (content : string) : option (Z * Z) :=
  match str_rfind ")" content with
  | None => None
  | Some rparen =>
      let fields := str_words (str_drop (rparen + 1) content) in
      if (length fields <? STAT_MIN_FIELDS)%nat then None
      else
        match py_int 10 (field fields PPID_INDEX), py_int 10 (field fields STARTTIME_INDEX) with
        | Ok ppid, Ok starttime => Some (ppid, starttime)
        | _, _ => None
        end
  end.

(** [_parse_comm_from_stat] *)
Definition parse_comm_from_stat (content : string) : string :=
  match str_find "(" content, str_rfind ")" content with
  | Some lparen, Some rparen =>
      if (lparen <? rparen)%nat then str_take (rparen - (lparen + 1)) (str_drop (lparen + 1) content) else ""
  | _, _ => ""
  end.

(** [s.isdigit()]: also the three superscripts of Latin-1 *)
Definition is_py_digit (c : ascii) : bool :=
  is_digit c || (code c =? 178)%N || (code c =? 179)%N || (code c =? 185)%N.

Definition isdigit (s : string) : bool := negb (String.eqb s "") && str_forall is_py_digit s.

(** ** Scanning *)

Section scan.
Context (decode : string → string) (max_procs : Z).

(** [_read_comm] *)
Definition read_comm (fs : ProcFS) (pid : Z) (stat_content : string) : string :=
  let comm := match pf_comm fs pid with Some text => str_strip text | None => "" end in
  if String.eqb comm "" then parse_comm_from_stat stat_content else comm.

Fixpoint replace_char (c d : ascii) (s : string) : string :=
  match s with "" => "" | String x s' => String (if Ascii.eqb x c then d else x) (replace_char c d s') end.

(** [_read_cmdline] *)
Definition read_cmdline (fs : ProcFS) (pid : Z) : option string :=
  raw ← pf_cmdline fs pid;
  let text := clip (str_strip (decode (replace_char (ascii_of_nat 0) " " raw))) MAX_COMMAND_LINE in
  if String.eqb text "" then None else Some text.

(** [_read_exe] *)
Definition read_exe (fs : ProcFS) (pid : Z) : option string :=
  target ← pf_exe fs pid; Some (clip target MAX_PATH).

(** [_read_proc] *)
Definition read_proc (fs : ProcFS) (pid : Z) (known : option ProcState) : option ProcState :=
  stat_content ← pf_stat fs pid;
  '(ppid, starttime) ← parse_stat stat_content;
  let instance := match known with Some k => if ps_starttime k =? starttime then Some k else None | None => None end in
  match instance with
  | Some k =>
      if ps_settled k then
        Some (if ps_ppid k =? ppid then k
              else mkProcState (ps_pid k) ppid (ps_starttime k) (ps_comm k) (ps_cmdline k) (ps_executable k) true)
      else
        let '(cmdline, executable) :=
          match read_cmdline fs pid, read_exe fs pid with
          | None, None => (ps_cmdline k, ps_executable k)
          | cmdline, executable => (cmdline, executable)
          end in
        Some (mkProcState pid ppid starttime (read_comm fs pid stat_content) cmdline executable true)
  | None =>
      Some (mkProcState pid ppid starttime (read_comm fs pid stat_content)
              (read_cmdline fs pid) (read_exe fs pid) false)
  end.

(** The entries [_iter_pids] yields, in turn *)
Definition iter_pids (fs : ProcFS) : list (result Z) :=
  map (py_int 10) (List.filter isdigit (default [] (pf_entries fs))).

(** The loop of [_scan] *)
Fixpoint scan_pids (fs : ProcFS) (previous : odict Z ProcState) (pids : list (result Z))
    (snapshot : odict Z ProcState) : result (odict Z ProcState) :=
  match pids with
  | [] => Ok snapshot
  | Raise e :: _ => Raise e
  | Ok pid :: pids' =>
      if max_procs <=? len snapshot then Ok snapshot
      else
        scan_pids fs previous pids'
          (match read_proc fs pid (od_get previous pid) with
           | Some state => od_set snapshot pid state
           | None => snapshot
           end)
  end.

(** [_scan] *)
Definition scan (fs : ProcFS) (previous : odict Z ProcState) : result (odict Z ProcState) :=
  scan_pids fs previous (iter_pids fs) [].
End scan.

(** ** Comparing *)

(** [_raw] but for the time *)
Definition raw_process (host : string) (action : string) (severity : Z) (s : ProcState) : draft :=
  λ now, RawProcess (mkRawProcess now host action severity (ps_pid s) (ps_ppid s) (ps_starttime s)
    (ps_comm s) (ps_cmdline s) (ps_executable s)).

(** [_started], [_stopped] *)
Definition started (host : string) : ProcState → draft := raw_process host ACTION_STARTED SEV_STARTED.
Definition stopped (host : string) : ProcState → draft := raw_process host ACTION_STOPPED SEV_STOPPED.

Definition appeared (host : string) (_ : Z) (state : ProcState) : list draft := [started host state].

Definition changed (host : string) (_ : Z) (previous state : ProcState) : list draft :=
  if negb (ps_starttime previous =? ps_starttime state) then [stopped host previous; started host state]
  else if negb (bool_decide ((ps_cmdline previous, ps_executable previous)
                             = (ps_cmdline state, ps_executable state))) then [started host state]
  else [].

Definition gone (host : string) (_ : Z) (previous : ProcState) : list draft := [stopped host previous].

(** [_diff] *)
Definition diff (host : string) : odict Z ProcState → odict Z ProcState → list draft :=
  diff_with (appeared host) (changed host) (gone host).

(** ** The collector *)

Record ProcessCollector := mkProcessCollector {
  pc_available : bool;
  pc_watcher : Watcher Z ProcState;
}.

Definition new_process_collector : ProcessCollector := mkProcessCollector true new_watcher.

(** [_drain_once]; the lookup of [/proc] also marks the source. *)
Definition drain_once (local_hostname host : string) (decode : string → string) (max_procs : Z)
    (fs : ProcFS) (now : nat → Z) (c : ProcessCollector) : result (list Event * ProcessCollector) :=
  snapshot ← scan decode max_procs fs (baseline (pc_watcher c));
  let '(events, w) := take_snapshot local_hostname (diff host) now snapshot (pc_watcher c) in
  Ok (events, mkProcessCollector (bool_decide (is_Some (pf_entries fs))) w).

Local Close Scope string_scope.

(** ** Lemmas *)

(** *** The line of [/proc/<pid>/stat] *)

Lemma str_rfind_none c s : str_mem c s = false → str_rfind c s = None.
Proof.
  induction s as [|d s IH]; [done|]. rewrite str_mem_cons. cbn [str_rfind].
  intros [-> Hs]%orb_false_iff. by rewrite IH.
Qed.

Lemma str_rfind_last c a b : str_mem c b = false → str_rfind c (a +:+ String c b) = Some (String.length a).
Proof.
  intros Hb. induction a as [|d a IH].
  - change ("" +:+ ?x)%string with x. cbn [str_rfind]. by rewrite str_rfind_none, Ascii.eqb_refl.
  - rewrite string_app_cons. cbn [str_rfind]. by rewrite IH.
Qed.

Lemma str_find_first c a b : str_mem c a = false → str_find c (a +:+ String c b) = Some (String.length a).
Proof.
  induction a as [|d a IH].
  - change ("" +:+ ?x)%string with x. cbn [str_find]. by rewrite Ascii.eqb_refl.
  - rewrite str_mem_cons, string_app_cons. cbn [str_find]. intros [-> Ha]%orb_false_iff. by rewrite IH.
Qed.

Lemma str_drop_past a c b : str_drop (String.length a + 1) (a +:+ String c b) = b.
Proof. rewrite Nat.add_1_r. induction a as [|d a IH]; [by destruct b|]. rewrite string_app_cons. exact IH. Qed.

Lemma str_take_app a b : str_take (String.length a) (a +:+ b) = a.
Proof. induction a as [|d a IH]; [by destruct b|]. rewrite string_app_cons. simpl. by rewrite IH. Qed.

Definition is_word (w : string) : Prop := w ≠ ""%string ∧ no_space w = true.

(** What follows a word *)
Definition breaks (s : string) : bool := match s with "" => true | String c _ => is_space c end.

Lemma str_words_word w s : is_word w → breaks s = true → str_words (w +:+ s) = w :: str_words s.
Proof.
  unfold no_space. intros [Hne Hw] Hs. revert Hne Hw. induction w as [|c w IH]; [done|]. intros _.
  cbn [str_forall]. intros [Hc Hw]%andb_true_iff. apply negb_true_iff in Hc.
  rewrite string_app_cons. cbn [str_words]. rewrite Hc. destruct w as [|d w].
  - change ("" +:+ s)%string with s. destruct s as [|e s]; [done|]. simpl in Hs. by rewrite Hs.
  - rewrite IH by done. rewrite string_app_cons. cbn [str_forall] in Hw. by apply andb_true_iff in Hw as [-> _].
Qed.

Lemma str_words_blank s : str_forall is_space s = true → str_words s = [].
Proof. induction s as [|c s IH]; [done|]. cbn [str_forall str_words]. intros [-> Hs]%andb_true_iff. auto. Qed.

Lemma str_words_join ws e :
  Forall is_word ws → str_forall is_space e = true → str_words (str_join " " ws +:+ e) = ws.
Proof.
  intros Hws He. assert (breaks e = true) as Hb.
  { destruct e; [done|]. cbn [str_forall] in He. by apply andb_true_iff in He as [? _]. }
  induction Hws as [|w ws Hw Hws IH]; [by apply str_words_blank|]. destruct ws as [|w' ws].
  - cbn [str_join]. rewrite str_words_word by done. by rewrite str_words_blank.
  - cbn [str_join] in *. rewrite !string_app_assoc in *. rewrite str_words_word by done. cbn [str_words].
    change (" " +:+ ?x)%string with (String " " x). cbn [str_words]. by rewrite IH.
Qed.

(** What the kernel prints: the name is whatever the process made it. *)
Definition kernel_stat (pid : Z) (comm : string) (fields : list string) : string :=
  (str_of_int pid +:+ " (" +:+ comm +:+ ") " +:+ str_join " " fields +:+ String NL "")%string.

Lemma kernel_stat_last pid comm fields :
  Forall (λ w, str_mem ")" w = false) fields →
  ∃ a b, kernel_stat pid comm fields = (a +:+ String ")" b)%string ∧ str_mem ")" b = false ∧
    b = String " " (str_join " " fields +:+ String NL "")%string ∧
    a = (str_of_int pid +:+ String " " "" +:+ String "(" comm)%string.
Proof.
  intros Hf. exists (str_of_int pid +:+ String " " "" +:+ String "(" comm)%string,
    (String " " (str_join " " fields +:+ String NL ""))%string.
  split_and!; [|clear -Hf|done|done].
  - unfold kernel_stat. by rewrite !string_app_assoc.
  - rewrite str_mem_cons, str_mem_app. cbn. rewrite orb_false_r. induction Hf as [|w ws Hw Hf IH]; [done|].
    destruct ws; [done|]. cbn [str_join] in *. by rewrite !str_mem_app, Hw, IH.
Qed.

Lemma int_no_char c n : is_digit c = false → 0 ≤ n → str_mem c (str_of_int n) = false.
Proof.
  intros Hc Hn. pose proof (str_of_int_digits n Hn) as Hd. unfold str_mem. apply negb_false_iff.
  revert Hd. induction (str_of_int n) as [|d s IH]; [done|]. cbn [str_forall].
  intros [Hd Hs]%andb_true_iff. rewrite IH by done. destruct (Ascii.eqb_spec c d) as [->|]; [congruence|done].
Qed.

(** *** Scans *)

(** The process directories listed, in order *)
Definition pids (fs : ProcFS) : list Z :=
  omap (λ r, match r with Ok pid => Some pid | Raise _ => None end) (iter_pids fs).

(** The kernel lists a process once. *)
Definition listed_once (fs : ProcFS) : Prop := NoDup (pids fs).

Definition readable (fs : ProcFS) (pid : Z) : Prop := is_Some (pf_stat fs pid ≫= parse_stat).

(** The instance of a process that runs, as its stat file shows it: of the
    processes whose stat file can be read, the collector watches as many as it
    may, those listed first. *)
Definition running (max_procs : Z) (fs : ProcFS) (pid : Z) : option (Z * Z) :=
  if bool_decide (pid ∈ take (Z.to_nat max_procs) (filter (readable fs) (pids fs)))
  then pf_stat fs pid ≫= parse_stat else None.

Section scans.
Context (decode : string → string) (max_procs : Z).

Lemma read_proc_instance fs pid known :
  (∀ k, known = Some k → ps_pid k = pid) →
  match read_proc decode fs pid known with
  | Some s => pf_stat fs pid ≫= parse_stat = Some (ps_ppid s, ps_starttime s) ∧ ps_pid s = pid
  | None => pf_stat fs pid ≫= parse_stat = None
  end.
Proof.
  intros Hk. unfold read_proc. destruct (pf_stat fs pid) as [content|]; [|done]. cbn.
  destruct (parse_stat content) as [[ppid starttime]|]; [|done]. cbn. destruct known as [k|]; [|done].
  specialize (Hk k eq_refl). destruct (Z.eqb_spec (ps_starttime k) starttime) as [<-|]; [|done].
  destruct (ps_settled k).
  - by destruct (Z.eqb_spec (ps_ppid k) ppid) as [<-|].
  - by destruct (read_cmdline decode fs pid), (read_exe fs pid).
Qed.

Definition keyed (d : odict Z ProcState) : Prop :=
  NoDup (od_keys d) ∧ Forall (λ kv, ps_pid kv.2 = kv.1) d.

Lemma keyed_nil : keyed [].
Proof. split; constructor. Qed.

Lemma keyed_get d pid k : keyed d → od_get d pid = Some k → ps_pid k = pid.
Proof. intros [_ Hd] Hget%od_get_elem_of. exact (proj1 (Forall_forall _ _) Hd _ Hget). Qed.

Lemma keyed_set d pid s : keyed d → ps_pid s = pid → keyed (od_set d pid s).
Proof. intros [? ?] ?. split; [by apply od_set_NoDup|]. by apply od_set_Forall. Qed.

(** A scan sees the processes listed whose stat file can be read, as long as
    there is room for them, as the instances those files show. *)
Lemma scan_pids_sees fs previous ps snapshot result :
  let found := omap (λ r, match r with Ok pid => Some pid | Raise _ => None end) ps in
  keyed previous → keyed snapshot → NoDup found → (∀ pid, pid ∈ found → pid ∉ od_keys snapshot) →
  scan_pids decode max_procs fs previous ps snapshot = Ok result →
  keyed result ∧
  ∀ pid, (λ s, (ps_ppid s, ps_starttime s)) <$> od_get result pid
         = if bool_decide (pid ∈ take (Z.to_nat (max_procs - len snapshot)) (filter (readable fs) found))
           then pf_stat fs pid ≫= parse_stat
           else (λ s, (ps_ppid s, ps_starttime s)) <$> od_get snapshot pid.
Proof.
  intros found Hprev. subst found. revert snapshot.
  induction ps as [|[pid|e] ps IH]; intros snapshot Hs Hnd Hnew Hrun; [|cbn in Hrun|done].
  - injection Hrun as <-. split; [done|]. intros pid. by destruct (Z.to_nat _).
  - set (found := omap _ ps) in *. change (omap _ _) with (pid :: found) in Hnd, Hnew |- *.
    apply NoDup_cons in Hnd as [Hpid Hnd]. destruct (Z.leb_spec max_procs (len snapshot)) as [Hfull|Hroom].
    { injection Hrun as <-. split; [done|]. intros pid'. by replace (Z.to_nat _) with 0%nat by lia. }
    replace (Z.to_nat (max_procs - len snapshot)) with (S (Z.to_nat (max_procs - (len snapshot + 1)))) by lia.
    pose proof (read_proc_instance fs pid (od_get previous pid) (λ k, keyed_get previous pid k Hprev)) as Hread.
    destruct (read_proc decode fs pid (od_get previous pid)) as [s|].
    + destruct Hread as [Hstat Hpid']. assert (Hk : pid ∉ od_keys snapshot) by (apply Hnew; by left).
      assert (Hlen : len (od_set snapshot pid s) = len snapshot + 1).
      { unfold len. rewrite od_set_length. case_decide; [done|lia]. }
      destruct (IH _ ltac:(by apply keyed_set) Hnd) with (2 := Hrun) as [Hkeyed Hget].
      { intros pid' Hin. rewrite od_keys_set_elem.
        intros [->|?]; [done|]. by apply (Hnew pid'); [right|]. }
      split; [done|]. intros pid'. rewrite Hget, Hlen, filter_cons_True by (unfold readable; by rewrite Hstat).
      cbn [take]. destruct (decide (pid' = pid)) as [->|Hne].
      * rewrite (bool_decide_false (pid ∈ take _ _)), bool_decide_true, od_get_set_eq; [by rewrite Hstat|by left|].
        intros Hin. apply elem_of_take in Hin as (i & Hin & _). apply list_elem_of_lookup_2, list_elem_of_filter in Hin.
        by destruct Hin.
      * rewrite od_get_set_ne by done. apply (f_equal (λ b : bool, if b then _ else _)), bool_decide_ext.
        rewrite elem_of_cons. tauto.
    + rewrite filter_cons_False by (unfold readable; rewrite Hread; by intros []).
      replace (S _) with (Z.to_nat (max_procs - len snapshot)) by lia.
      apply IH; [done..| |done]. intros pid' ?. apply Hnew. by right.
Qed.

Lemma scan_sees fs previous snapshot :
  keyed previous → listed_once fs → scan decode max_procs fs previous = Ok snapshot →
  keyed snapshot ∧ ∀ pid, (λ s, (ps_ppid s, ps_starttime s)) <$> od_get snapshot pid = running max_procs fs pid.
Proof.
  intros Hk Hone Hscan.
  destruct (scan_pids_sees fs previous (iter_pids fs) [] snapshot) as [Hk' Hget];
    [done|exact keyed_nil|done|by intros ? _ ?%elem_of_nil|done|].
  split; [done|]. intros pid. rewrite Hget. unfold running. by rewrite len_nil, Z.sub_0_r.
Qed.
End scans.

(** *** What the records tell *)

(** Of a process: which instance it is and what it runs. *)
Definition image (s : ProcState) : Z * option string * option string :=
  (ps_starttime s, ps_cmdline s, ps_executable s).

Definition tell_process (raw : RawEvent) (m : gmap Z (Z * option string * option string))
    : gmap Z (Z * option string * option string) :=
  match raw with
  | RawProcess r =>
      if String.eqb (rp_action r) ACTION_STARTED
      then <[rp_pid r := (rp_starttime r, rp_cmdline r, rp_executable r)]> m
      else delete (rp_pid r) m
  | _ => m
  end.

#[export] Instance process_telling host :
  Telling (W := Z * option string * option string) (appeared host) (changed host) (gone host).
Proof.
  refine {| tracked := λ pid s, ps_pid s = pid; aspect := image; tell := tell_process |}.
  - intros pid s m raws <- Hraws. by apply stamped_one in Hraws as [t ->].
  - intros pid s s' m raws <- Hs' Hm Hraws. unfold changed in Hraws.
    destruct (Z.eqb_spec (ps_starttime s) (ps_starttime s')) as [Heq|]; cbn [negb] in Hraws.
    + case_bool_decide as Himg; cbn [negb] in Hraws.
      * inversion Hraws; subst. simpl. injection Himg as Hc He. symmetry. apply insert_id.
        rewrite Hm. unfold image. by rewrite Heq, Hc, He.
      * apply stamped_one in Hraws as [t ->]. simpl. by rewrite Hs'.
    + apply Forall2_cons_inv_l in Hraws as (raw & raws' & [t ->] & Hraws & ->).
      apply stamped_one in Hraws as [t' ->]. simpl. rewrite Hs'. apply insert_delete_eq.
  - intros pid s m raws <- Hraws. by apply stamped_one in Hraws as [t ->].
Defined.

(** *** The life of the collector *)

Definition instances (d : odict Z ProcState) (pid : Z) : option (Z * Z) :=
  (λ s, (ps_ppid s, ps_starttime s)) <$> od_get d pid.

Section life.
Context (local_hostname host : string) (decode : string → string) (max_procs : Z).

Abbreviation seen := (view (appeared := appeared host) (changed := changed host) (gone := gone host)).
Abbreviation drain := (drain_once local_hostname host decode max_procs).
Abbreviation sees fs d := (∀ pid, instances d pid = running max_procs fs pid).

Lemma process_takes fs now c events c' :
  keyed (baseline (pc_watcher c)) → listed_once fs → drain fs now c = Ok (events, c') →
  if false then events = [] ∧ pc_watcher c' = pc_watcher c
  else ∃ snapshot, keyed snapshot ∧ sees fs snapshot ∧
    take_snapshot local_hostname (diff host) now snapshot (pc_watcher c) = (events, pc_watcher c').
Proof.
  intros Hk Hone Hrun. unfold drain_once in Hrun. apply result_bind_ok in Hrun as (snapshot & Hscan & Hrun).
  destruct (scan_sees _ _ _ _ _ Hk Hone Hscan) as [Hk' Hsees].
  exists snapshot. split_and!; [done..|]. destruct (take_snapshot _ _ _ _ _) as [es w]. by injection Hrun as <- <-.
Qed.

(** A record of the collector, and the event made of it, is of one start or of
    one stop, and of one process. *)
Definition of_one_process (raw : RawEvent) (e : Event) : Prop :=
  ∃ r, raw = RawProcess r ∧ (rp_action r = "process_started" ∨ rp_action r = "process_stopped")%string ∧
    em_action (ev_event e) = rp_action r ∧ proc_pid (ev_process e) = Some (rp_pid r).

Lemma map_process_fields r e :
  map_process local_hostname r = Ok e →
  em_action (ev_event e) = rp_action r ∧ proc_pid (ev_process e) = Some (rp_pid r).
Proof.
  unfold map_process, new_event. generalize (compute_id (process_id_parts r)). intros id.
  case_match; [|discriminate]. intros [= <-]. done.
Qed.

Lemma drafts_of_one_process raw e :
  (∃ old new (d : draft) t, d ∈ diff host old new ∧ raw = d t) → map_raw local_hostname raw = Ok e → of_one_process raw e.
Proof.
  intros (old & new & d & t & Hd & ->) Hmap.
  assert (Hdraft : ∃ s, d = started host s ∨ d = stopped host s).
  { unfold diff, diff_with in Hd. apply elem_of_app in Hd as [Hd|Hd];
      apply list_elem_of_In, in_flat_map in Hd as ([k s] & _ & Hd%list_elem_of_In).
    - destruct (od_get old k) as [s0|]; [|apply list_elem_of_singleton in Hd; eauto].
      unfold changed in Hd. repeat case_match; rewrite ?elem_of_cons, elem_of_nil in Hd; naive_solver.
    - destruct (od_mem new k); [by apply elem_of_nil in Hd|]. apply list_elem_of_singleton in Hd. eauto. }
  destruct Hdraft as [s [->| ->]]; eexists; (split; [reflexivity|]); (split; [by (left + right)|]);
    exact (map_process_fields _ _ Hmap).
Qed.

(** ** Properties *)

(** C16: whoever applies the events of the collector to the processes of its
    first poll knows at every later poll which process instances run (by pid
    and start time), however pids are recycled, programs replaced and files
    unreadable in between: each event is that of one start (a program that
    replaces itself starts anew) or one stop of one process, and replaying them gives exactly the instances whose stat file can
    be read, or, where these are more than the collector may watch, the first
    of them in the order of the listing (one beyond that place reads as
    stopped).  The listing shows a pid once, and no record was dead-lettered. *)
Theorem events_track_processes fs now polls events c :
  Forall (λ p, listed_once p.1) ((fs, now) :: polls) →
  drain_all drain ((fs, now) :: polls) new_process_collector = Ok (events, c) →
  dead_letters (w_normalizer (pc_watcher c)) = 0 →
  ∃ first raws,
    sees fs first ∧
    Forall2 (λ raw e, map_raw local_hostname raw = Ok e ∧ of_one_process raw e) raws events ∧
    foldl (flip tell_process) (seen first) raws = seen (baseline (pc_watcher c)) ∧
    ∀ pid, (λ i, i.1.1) <$> foldl (flip tell_process) (seen first) raws !! pid
           = snd <$> running max_procs (default fs (last polls.*1)) pid.
Proof.
  intros Hone Hrun Hdead.
  destruct (@life_tells _ _ _ _ _ _ _ _ (process_telling host) local_hostname _ _ drain pc_watcher listed_once (λ _, false) (λ fs d, sees fs d)
    process_takes _ new_process_collector events c fs polls.*1 eq_refl Hone Hrun Hdead)
    as (first & raws & Hfirst & Hlast & Hk & Hraws & Htell & Hdrafted).
  { exact (complete_all ((fs, now) :: polls)). }
  assert (foldl (flip tell_process) (seen first) raws = seen (baseline (pc_watcher c))) as Htold by exact Htell.
  exists first, raws. split_and!; [done| |done|].
  - apply (Forall2_with _ _ _ _ _ Hraws Hdrafted). intros raw e Hmap Hd. split; [exact Hmap|].
    by apply drafts_of_one_process.
  - intros pid. rewrite Htold, view_lookup, <-Hlast. unfold instances. by destruct (od_get (baseline (pc_watcher c)) pid).
Qed.
End life.

(** The line of [/proc/<pid>/stat] is read right whatever the process calls
    itself: blanks, parentheses and whole forged lines in the name change
    neither the parent, nor the start time, nor the name that is read. *)
Theorem parse_stat_any_name pid comm fields ppid starttime :
  0 ≤ pid → 0 ≤ ppid < 10 ^ 20 → 0 ≤ starttime < 10 ^ 20 →
  (STAT_MIN_FIELDS ≤ length fields)%nat → Forall is_word fields → Forall (λ w, str_mem ")" w = false) fields →
  fields !! PPID_INDEX = Some (str_of_int ppid) → fields !! STARTTIME_INDEX = Some (str_of_int starttime) →
  parse_stat (kernel_stat pid comm fields) = Some (ppid, starttime) ∧
  parse_comm_from_stat (kernel_stat pid comm fields) = comm.
Proof.
  intros Hpid Hppid Hst Hlen Hwords Hparen Hf1 Hf19.
  destruct (kernel_stat_last pid comm fields Hparen) as (a & b & Heq & Hb & -> & Ha). rewrite Heq. split.
  - unfold parse_stat. rewrite str_rfind_last, str_drop_past by done.
    cbn [str_words]. change (is_space " ") with true. cbn [is_space].
    rewrite str_words_join by done. rewrite (proj2 (Nat.ltb_ge _ _)) by done.
    unfold field. rewrite (nth_lookup_Some _ _ _ _ Hf1), (nth_lookup_Some _ _ _ _ Hf19).
    by rewrite !py_int_str_of_int by done.
  - unfold parse_comm_from_stat. rewrite str_rfind_last by done.
    assert (a = (str_of_int pid +:+ " ") +:+ String "(" comm)%string as Ha' by (rewrite Ha, string_app_assoc; done).
    rewrite Ha', string_app_assoc, string_app_cons. rewrite str_find_first.
    2: { rewrite str_mem_app, int_no_char by done. done. }
    rewrite (proj2 (Nat.ltb_lt _ _)) by (rewrite !string_length_app; simpl; lia).
    rewrite str_drop_past. rewrite !string_length_app. cbn [String.length].
    replace (_ - _)%nat with (String.length comm) by lia. apply str_take_app.
Qed.

(** Readings of one process by successive polls *)
Fixpoint follow (decode : string → string) (pid : Z) (polls : list ProcFS) (known : option ProcState)
    : option ProcState :=
  match polls with [] => known | fs :: polls' => follow decode pid polls' (read_proc decode fs pid known) end.

Definition command (decode : string → string) (fs : ProcFS) (pid : Z) : option string * option string :=
  (read_cmdline decode fs pid, read_exe fs pid).

Definition is_instance (fs : ProcFS) (pid starttime : Z) : Prop :=
  ∃ ppid, pf_stat fs pid ≫= parse_stat = Some (ppid, starttime).

Lemma read_proc_settled decode fs pid k :
  ps_settled k = true → is_instance fs pid (ps_starttime k) →
  ∃ s, read_proc decode fs pid (Some k) = Some s ∧ ps_settled s = true ∧ ps_starttime s = ps_starttime k ∧
    (ps_cmdline s, ps_executable s) = (ps_cmdline k, ps_executable k) ∧ ps_comm s = ps_comm k.
Proof.
  intros Hs (ppid & Hst). unfold read_proc. destruct (pf_stat fs pid) as [content|]; [|done]. cbn in *.
  rewrite Hst. cbn. rewrite Z.eqb_refl, Hs. destruct (ps_ppid k =? ppid); eauto 10.
Qed.

(** The image of a process is read twice, and the second reading is kept:
    however often it is polled after that, the collector reports the command
    line and program the second poll saw (the first poll's if the second could
    read neither), so a child caught between [fork] and [exec] is corrected and
    a settled one costs one read per poll. *)
Theorem second_reading_is_kept decode pid starttime first second later :
  Forall (λ fs, is_instance fs pid starttime) (first :: second :: later) →
  ∃ s, follow decode pid (first :: second :: later) None = Some s ∧
    ps_starttime s = starttime ∧ ps_settled s = true ∧
    (ps_cmdline s, ps_executable s)
      = if bool_decide (command decode second pid = (None, None)) then command decode first pid
        else command decode second pid.
Proof.
  intros [(ppid1 & H1) [(ppid2 & H2) Hlater]%Forall_cons]%Forall_cons. cbn [follow].
  assert (∃ k, read_proc decode second pid (read_proc decode first pid None) = Some k ∧
    ps_starttime k = starttime ∧ ps_settled k = true ∧
    (ps_cmdline k, ps_executable k)
      = if bool_decide (command decode second pid = (None, None)) then command decode first pid
        else command decode second pid) as (k & -> & Hst & Hs & Hc).
  { unfold read_proc at 2. destruct (pf_stat first pid) as [content1|]; [|done]. cbn in *. rewrite H1. cbn.
    unfold read_proc. destruct (pf_stat second pid) as [content2|]; [|done]. cbn in *. rewrite H2. cbn.
    rewrite Z.eqb_refl. unfold command.
    destruct (read_cmdline decode second pid), (read_exe second pid); cbn; eauto. }
  clear H1 H2. revert k Hst Hs Hc. induction Hlater as [|fs later Hfs _ IH]; intros k Hst Hs Hc; [by exists k|].
  cbn [follow]. rewrite <-Hst in Hfs.
  destruct (read_proc_settled decode fs pid k Hs Hfs) as (s & -> & Hs' & Hst' & Hc' & _).
  apply IH; [by rewrite Hst'|done|by rewrite Hc'].
Qed.

(** ** Witnesses *)

Definition example_fields (ppid starttime : Z) : list string :=
  ("S" :: str_of_int ppid :: replicate 17 "0" ++ [str_of_int starttime; "0"])%string.

Definition example_proc (processes : list (Z * (Z * string * string))) : ProcFS :=
  let entry pid := od_get processes pid in
  mkProcFS (Some (map str_of_int (od_keys processes) ++ ["meminfo"]%string))
    (λ pid, '(starttime, comm, _) ← entry pid; Some (kernel_stat pid comm (example_fields 1 starttime)))
    (λ pid, '(_, comm, _) ← entry pid; Some comm)
    (λ pid, '(_, comm, _) ← entry pid; Some comm)
    (λ pid, '(_, _, exe) ← entry pid; Some exe).

Definition forged_name : string := "x) S 7 7 (y".

(** A shell forks, the child execs, a pid is recycled, a process ends. *)
Definition example_polls : list (ProcFS * (nat → Z)) :=
  let now := λ i, Z.of_nat i in
  [(example_proc [(1, (10, "init", "/sbin/init")); (40, (50, forged_name, "/bin/sh"))]%string, now);
   (example_proc [(1, (10, "init", "/sbin/init")); (40, (90, "nc", "/bin/nc")); (41, (80, "sh", "/bin/sh"))]%string, now);
   (example_proc [(1, (10, "init", "/sbin/init")); (41, (80, "curl", "/usr/bin/curl"))]%string, now)].

Definition example_run : list Event * ProcessCollector :=
  match drain_all (drain_once "h" "h" id 100) example_polls new_process_collector with Ok r => r | Raise _ => ([], new_process_collector) end.

Example example_actions :
  map (λ e, (em_action (ev_event e), proc_pid (ev_process e), proc_executable (ev_process e))) example_run.1
  = [("process_stopped", Some 40, Some "/bin/sh"); ("process_started", Some 40, Some "/bin/nc");
     ("process_started", Some 41, Some "/bin/sh"); ("process_started", Some 41, Some "/usr/bin/curl");
     ("process_stopped", Some 40, Some "/bin/nc")]%string.
Proof. vm_compute. reflexivity. Qed.

Lemma events_track_processes_witness :
  drain_all (drain_once "h" "h" id 100) example_polls new_process_collector = Ok example_run ∧
  ∃ first raws, ∀ pid,
    (λ i, i.1.1) <$> foldl (flip tell_process) (view (appeared := appeared "h") (changed := changed "h") (gone := gone "h") first) raws !! pid
    = snd <$> running 100 (example_proc [(1, (10, "init", "/sbin/init")); (41, (80, "curl", "/usr/bin/curl"))]%string) pid.
Proof.
  split; [vm_compute; reflexivity|].
  destruct (events_track_processes "h" "h" id 100
    (example_proc [(1, (10, "init", "/sbin/init")); (40, (50, forged_name, "/bin/sh"))]%string) (λ i, Z.of_nat i)
    (tail example_polls) example_run.1 example_run.2)
    as (first & raws & _ & _ & _ & H).
  - repeat (apply Forall_cons_2; [apply (bool_decide_unpack (NoDup (pids _))); vm_compute; exact I|]). apply Forall_nil_2.
  - vm_compute. reflexivity.
  - vm_compute. reflexivity.
  - exists first, raws. exact H.
Defined.

Lemma parse_stat_any_name_witness :
  parse_stat (kernel_stat 40 forged_name (example_fields 1 77)) = Some (1, 77) ∧
  parse_comm_from_stat (kernel_stat 40 forged_name (example_fields 1 77)) = forged_name.
Proof.
  apply (parse_stat_any_name 40 forged_name (example_fields 1 77) 1 77).
  - lia.
  - lia.
  - lia.
  - vm_compute. repeat constructor.
  - repeat constructor; discriminate.
  - repeat constructor.
  - vm_compute. reflexivity.
  - vm_compute. reflexivity.
Defined.

Lemma second_reading_is_kept_witness :
  let at_ exe := example_proc [(41, (80, "sh", exe))]%string in
  let polls := [at_ "/bin/sh"; at_ "/usr/bin/curl"; at_ "/tmp/later"]%string in
  ∃ s, follow id 41 polls None = Some s ∧ ps_executable s = Some "/usr/bin/curl"%string.
Proof.
  intros at_ polls.
  destruct (second_reading_is_kept id 41 80 (at_ "/bin/sh"%string) (at_ "/usr/bin/curl"%string) [at_ "/tmp/later"%string])
    as (s & Hs & _ & _ & Hc).
  - repeat constructor; exists 1; vm_compute; reflexivity.
  - exists s. split; [exact Hs|]. vm_compute in Hc. injection Hc as _ Hc. exact Hc.
Defined.

(** ** What modelling showed *)

(** While [/proc] cannot be listed, every process reads as stopped, and once it
    can be again, as started. *)
Example outage_stops_everything :
  let fs := example_proc [(1, (10, "init", "/sbin/init"))]%string in
  let lost := mkProcFS None (λ _, None) (λ _, None) (λ _, None) (λ _, None) in
  let polls := map (λ fs, (fs, Z.of_nat)) [fs; lost; fs] in
  match drain_all (drain_once "h" "h" id 100) polls new_process_collector with
  | Ok (events, _) => map (λ e, em_action (ev_event e)) events
  | Raise _ => []
  end = ["process_stopped"; "process_started"]%string.
Proof. vm_compute. reflexivity. Qed.

(** [str.isdigit] is true of digits [int] does not take: one such name under the
    (injectable) root ends the collector. *)
Example superscript_entry :
  let fs := mkProcFS (Some [String (ascii_of_nat 178) ""]%string) (λ _, None) (λ _, None) (λ _, None) (λ _, None) in
  scan id 100 fs [] = Raise ValueError.
Proof. vm_compute. reflexivity. Qed.
