(* ===== verification/Network.v ===== *)
(** * The network collector ([collectors/network.py])

    What one poll reads is a [NetFS]: the two tables ([None]: unreadable) as
    decoded text, and the links under [/proc/self/fd] ([None]: closed since the
    listing).  The rows are parsed in [NetParse.v]. *)

From S2P Require Import Prelude ODict PyText PyRe Events NetParse Normalizer Base.
Local Open Scope string_scope.
Local Open Scope Z_scope.

Definition DEFAULT_MAX_SOCKETS : Z := 100000.

(** [_TRACKED_STATES], [_LISTEN_ONLY] *)
Definition TRACKED_STATES : list string := [STATE_LISTEN; STATE_ESTABLISHED].
Definition LISTEN_ONLY : list string := [STATE_LISTEN].

Definition SOURCES : list (string * string) := [("tcp", "tcp"); ("tcp6", "tcp6")].

Definition ACTION_LISTEN_OPEN : string := "network_listen_started".
Definition ACTION_LISTEN_CLOSE : string := "network_listen_stopped".
Definition ACTION_CONN_OPEN : string := "network_connection_opened".
Definition ACTION_CONN_CLOSE : string := "network_connection_closed".

Definition SEV_LISTEN_OPEN : Z := 4.
Definition SEV_LISTEN_CLOSE : Z := 3.
Definition SEV_CONN_OPEN : Z := 2.
Definition SEV_CONN_CLOSE : Z := 1.

Record NetFS := mkNetFS {
  nf_tables : string → option string;
  nf_self_fd : option (list (option string));
}.

Abbreviation SocketKey := (string * string * Z * string * Z * Z)%type.

(** ** The collector's own sockets *)

Definition SOCKET_LINK : re := Seqs [Lit "socket:["; Group "inode" (Plus Digit); Lit "]"].

(** [_own_socket_inodes] *)
Definition link_inode (link : option string) : option (result Z) :=
  target ← link; g ← re_fullmatch SOCKET_LINK target; text ← group g "inode"; Some (py_int 10 text).

Fixpoint link_inodes (links : list (option string)) : result (list Z) :=
  match links with
  | [] => Ok []
  | link :: links' =>
      match link_inode link with
      | None => link_inodes links'
      | Some inode => i ← inode; inodes ← link_inodes links'; Ok (i :: inodes)
      end
  end.

Definition own_socket_inodes (fs : NetFS) : result (list Z) :=
  link_inodes (default [] (nf_self_fd fs)).

(** ** Scanning *)

Section scan.
Context (tracked_states : list string) (max_sockets : Z).

Definition of_interest (own : list Z) (s : Socket) : bool :=
  bool_decide (sk_state s ∈ tracked_states) && negb (bool_decide (sk_inode s ∈ own)).

(** The rows of one table *)
Fixpoint table_sockets (own : list Z) (proto : string) (lines : list string) : result (list Socket) :=
  match lines with
  | [] => Ok []
  | line :: lines' =>
      sock ← parse_net_line line proto;
      rest ← table_sockets own proto lines';
      Ok (match sock with Some s => if of_interest own s then s :: rest else rest | None => rest end)
  end.

(** ... and of all of them, in the order of [_SOURCES] *)
Fixpoint all_sockets (own : list Z) (fs : NetFS) (sources : list (string * string)) : result (list Socket) :=
  match sources with
  | [] => Ok []
  | (proto, filename) :: sources' =>
      these ← table_sockets own proto (str_splitlines (default "" (nf_tables fs filename)));
      rest ← all_sockets own fs sources';
      Ok (these ++ rest)%list
  end.

Definition is_listener (s : Socket) : bool := String.eqb (sk_state s) STATE_LISTEN.

(** The last loop of [_scan]: the snapshot, and whether it was capped *)
Fixpoint fill (sockets : list Socket) (snapshot : odict SocketKey Socket) : odict SocketKey Socket * bool :=
  match sockets with
  | [] => (snapshot, false)
  | s :: sockets' =>
      if max_sockets <=? len snapshot then (snapshot, true)
      else fill sockets' (od_set snapshot (socket_key s) s)
  end.

(** [_scan]; [_mark_source] and [_capped] are in [drain_once]. *)
Definition scan (fs : NetFS) : result (odict SocketKey Socket * bool) :=
  own ← own_socket_inodes fs;
  sockets ← all_sockets own fs SOURCES;
  let listeners := List.filter is_listener sockets in
  let connections := List.filter (λ s, negb (is_listener s)) sockets in
  Ok (fill (listeners ++ connections)%list []).
End scan.

Definition source_readable (fs : NetFS) : bool :=
  existsb (λ source, bool_decide (is_Some (nf_tables fs source.2))) SOURCES.

(** ** Comparing *)

(** [_raw] but for the time *)
Definition raw_socket (host : string) (s : Socket) (action : string) (severity : Z) : draft :=
  λ now, RawNetwork (mkRawNetwork now host action severity (sk_proto s) (sk_local_ip s) (sk_local_port s)
    (sk_remote_ip s) (sk_remote_port s) (sk_state s) (sk_uid s) (sk_inode s)).

(** [_appeared] *)
Definition appeared (host : string) (_ : SocketKey) (s : Socket) : list draft :=
  [if is_listener s then raw_socket host s ACTION_LISTEN_OPEN SEV_LISTEN_OPEN
   else raw_socket host s ACTION_CONN_OPEN SEV_CONN_OPEN].

(** [_disappeared] *)
Definition disappeared (host : string) (_ : SocketKey) (s : Socket) : list draft :=
  [if is_listener s then raw_socket host s ACTION_LISTEN_CLOSE SEV_LISTEN_CLOSE
   else raw_socket host s ACTION_CONN_CLOSE SEV_CONN_CLOSE].

Definition unchanged (_ : SocketKey) (_ _ : Socket) : list draft := [].

(** [_diff] *)
Definition diff (host : string) : odict SocketKey Socket → odict SocketKey Socket → list draft :=
  diff_with (appeared host) unchanged (disappeared host).

(** ** The collector *)

Record NetworkCollector := mkNetworkCollector {
  nc_available : bool;
  nc_capped : bool;
  nc_watcher : Watcher SocketKey Socket;
}.

Definition new_network_collector : NetworkCollector := mkNetworkCollector true false new_watcher.

(** [_drain_once] *)
Definition drain_once (local_hostname host : string) (track_connections : bool) (max_sockets : Z)
    (fs : NetFS) (now : nat → Z) (c : NetworkCollector) : result (list Event * NetworkCollector) :=
  '(snapshot, capped) ← scan (if track_connections then TRACKED_STATES else LISTEN_ONLY) max_sockets fs;
  let '(events, w) := take_snapshot local_hostname (diff host) now snapshot (nc_watcher c) in
  Ok (events, mkNetworkCollector (source_readable fs) capped w).

Local Close Scope string_scope.

(** ** Lemmas *)

Definition parsed (proto line : string) : option Socket :=
  match parse_net_line line proto with Ok s => s | Raise _ => None end.

Lemma parse_net_line_parsed line proto : parse_net_line line proto = Ok (parsed proto line).
Proof. unfold parsed. by destruct (parse_net_line_total line proto) as [->|(s & -> & _)]. Qed.

(** The rows a scan looks at, in order *)
Definition rows (fs : NetFS) : list Socket :=
  flat_map (λ '(proto, filename), omap (parsed proto) (str_splitlines (default ""%string (nf_tables fs filename)))) SOURCES.

Section scans.
Context (tracked_states : list string) (max_sockets : Z).

Abbreviation of_interest := (of_interest tracked_states).
Abbreviation fill := (fill max_sockets).

Definition visible (own : list Z) (fs : NetFS) : list Socket := List.filter (of_interest own) (rows fs).

Lemma table_sockets_rows own proto lines :
  table_sockets tracked_states own proto lines = Ok (List.filter (of_interest own) (omap (parsed proto) lines)).
Proof.
  induction lines as [|line lines IH]; [done|]. cbn [table_sockets]. rewrite parse_net_line_parsed. cbn.
  rewrite IH. cbn. by destruct (parsed proto line).
Qed.

Lemma all_sockets_visible own fs : all_sockets tracked_states own fs SOURCES = Ok (visible own fs).
Proof.
  unfold visible, rows. induction SOURCES as [|[proto filename] sources IH]; [done|].
  cbn [all_sockets flat_map]. rewrite table_sockets_rows. cbn. rewrite IH. cbn. by rewrite List.filter_app.
Qed.

Definition listeners_first (l : list Socket) : list Socket :=
  List.filter is_listener l ++ List.filter (λ s, negb (is_listener s)) l.

Lemma listeners_first_elem l s : s ∈ listeners_first l ↔ s ∈ l.
Proof.
  unfold listeners_first. rewrite elem_of_app, !list_elem_of_In, !filter_In.
  destruct (is_listener s); naive_solver.
Qed.

Lemma scan_visible fs own :
  own_socket_inodes fs = Ok own →
  scan tracked_states max_sockets fs = Ok (fill (listeners_first (visible own fs)) []).
Proof. intros Hown. unfold scan. rewrite Hown. unfold mbind, result_bind at 1. by rewrite all_sockets_visible. Qed.

Lemma fill_keeps l snapshot k : k ∈ od_keys snapshot → k ∈ od_keys (fill l snapshot).1.
Proof.
  revert snapshot. induction l as [|s l IH]; intros snapshot Hk; [done|]. cbn [Network.fill].
  case_match; [done|]. apply IH. apply od_keys_set_elem. by right.
Qed.

Lemma fill_takes l l' snapshot s :
  len snapshot + len l ≤ max_sockets → s ∈ l → socket_key s ∈ od_keys (fill (l ++ l') snapshot).1.
Proof.
  revert snapshot. induction l as [|s' l IH]; intros snapshot Hlen Hs; [by apply elem_of_nil in Hs|].
  rewrite len_cons in Hlen. pose proof (len_nonneg l). cbn [app Network.fill].
  rewrite (proj2 (Z.leb_gt _ _)) by lia. apply elem_of_cons in Hs as [->|Hs].
  - apply fill_keeps, od_keys_set_elem. by left.
  - apply IH; [|done]. unfold len in *. rewrite od_set_length. case_decide; lia.
Qed.

Lemma fill_bounded l snapshot : len snapshot ≤ max_sockets → len (fill l snapshot).1 ≤ max_sockets.
Proof.
  revert snapshot. induction l as [|s l IH]; intros snapshot Hlen; [done|]. cbn [Network.fill].
  destruct (Z.leb_spec max_sockets (len snapshot)); [done|]. apply IH.
  unfold len in *. rewrite od_set_length. case_decide; lia.
Qed.

Definition keyed (d : odict SocketKey Socket) : Prop :=
  NoDup (od_keys d) ∧ Forall (λ kv, socket_key kv.2 = kv.1) d.

Lemma fill_from l snapshot (P : Socket → Prop) :
  keyed snapshot → Forall (λ kv, P kv.2) snapshot → Forall P l →
  keyed (fill l snapshot).1 ∧ Forall (λ kv, P kv.2) (fill l snapshot).1.
Proof.
  intros Hk Hp Hl. revert snapshot Hk Hp. induction Hl as [|s l Hs _ IH]; intros snapshot Hk Hp; [done|].
  cbn [Network.fill]. case_match; [done|]. destruct Hk as [Hn Hk]. apply IH; [split|].
  - by apply od_set_NoDup.
  - by apply od_set_Forall.
  - by apply od_set_Forall.
Qed.

Lemma keyed_elem d k s : keyed d → (k, s) ∈ d → socket_key s = k.
Proof. intros [_ Hk] Hin. exact (proj1 (Forall_forall _ _) Hk _ Hin). Qed.
End scans.

(** *** What the records tell *)

Definition raw_key (r : RawNetworkEvent) : SocketKey :=
  (rn_proto r, rn_local_ip r, rn_local_port r, rn_remote_ip r, rn_remote_port r, rn_inode r).

Definition tell_network (raw : RawEvent) (m : gmap SocketKey unit) : gmap SocketKey unit :=
  match raw with
  | RawNetwork r =>
      if String.eqb (rn_action r) ACTION_LISTEN_OPEN || String.eqb (rn_action r) ACTION_CONN_OPEN
      then <[raw_key r := tt]> m else delete (raw_key r) m
  | _ => m
  end.

#[export] Instance network_telling host : Telling (W := unit) (appeared host) unchanged (disappeared host).
Proof.
  refine {| tracked := λ k s, socket_key s = k; aspect := λ _, tt; tell := tell_network |}.
  - intros k s m raws <- Hraws. unfold appeared in Hraws. destruct (is_listener s);
      by apply stamped_one in Hraws as [t ->].
  - intros k s s' m raws _ _ Hm Hraws. inversion Hraws; subst. symmetry. by apply insert_id.
  - intros k s m raws <- Hraws. unfold disappeared in Hraws. destruct (is_listener s);
      by apply stamped_one in Hraws as [t ->].
Defined.

Section life.
Context (local_hostname host : string) (track_connections : bool) (max_sockets : Z).

Abbreviation states := (if track_connections then TRACKED_STATES else LISTEN_ONLY).
Abbreviation seen := (view (appeared := appeared host) (changed := unchanged) (gone := disappeared host)).
Abbreviation drain := (drain_once local_hostname host track_connections max_sockets).

(** A poll that is not capped *)
Definition all_rows (fs : NetFS) : Prop := len (rows fs) ≤ max_sockets.

Definition shows (fs : NetFS) (d : odict SocketKey Socket) : Prop :=
  ∃ own, own_socket_inodes fs = Ok own ∧
    ∀ k, is_Some (od_get d k) ↔ k ∈ socket_key <$> visible states own fs.

Lemma listeners_first_length l : len (listeners_first l) = len l.
Proof.
  unfold listeners_first, len. rewrite length_app. induction l as [|s l IH]; [done|]. simpl.
  destruct (is_listener s); simpl; lia.
Qed.

Lemma visible_length own fs : len (visible states own fs) ≤ len (rows fs).
Proof. unfold visible, len. pose proof (List.filter_length_le (of_interest states own) (rows fs)). lia. Qed.

Lemma network_takes fs now c events c' :
  keyed (baseline (nc_watcher c)) → all_rows fs → drain fs now c = Ok (events, c') →
  if false then events = [] ∧ nc_watcher c' = nc_watcher c
  else ∃ snapshot, keyed snapshot ∧ shows fs snapshot ∧
    take_snapshot local_hostname (diff host) now snapshot (nc_watcher c) = (events, nc_watcher c').
Proof.
  intros _ Hall Hrun. unfold drain_once in Hrun. apply result_bind_ok in Hrun as ([snapshot capped] & Hscan & Hrun).
  assert (∃ own, own_socket_inodes fs = Ok own) as [own Hown].
  { unfold scan in Hscan. apply result_bind_ok in Hscan as (own & Hown & _). by exists own. }
  rewrite (scan_visible _ _ _ _ Hown) in Hscan. injection Hscan as Hfill.
  destruct (fill_from max_sockets (listeners_first (visible states own fs)) []
    (λ s, s ∈ visible states own fs)) as [Hk Hfrom]; [by repeat constructor|constructor| |].
  { apply Forall_forall. intros s. by rewrite listeners_first_elem. }
  assert (∀ s, s ∈ visible states own fs → socket_key s ∈ od_keys snapshot) as Htakes.
  { intros s Hs. pose proof (fill_takes max_sockets (listeners_first (visible states own fs)) [] [] s) as Ht.
    rewrite app_nil_r, Hfill in Ht. apply Ht; [|by apply listeners_first_elem].
    rewrite len_nil, listeners_first_length. pose proof (visible_length own fs). unfold all_rows in Hall. lia. }
  rewrite Hfill in Hk, Hfrom. cbn [fst] in *.
  exists snapshot. split_and!; [done| |].
  - exists own. split; [done|]. intros k. rewrite od_get_is_Some, list_elem_of_fmap. split.
    + intros (s & Hget)%od_get_is_Some. apply od_get_elem_of in Hget. exists s.
      rewrite (keyed_elem _ _ _ Hk Hget). split; [done|]. exact (proj1 (Forall_forall _ _) Hfrom _ Hget).
    + intros (s & -> & Hs). by apply Htakes.
  - destruct (take_snapshot _ _ _ _ _) as [es w]. by injection Hrun as <- <-.
Qed.

(** ** Properties *)

(** C18: no flood of connections hides a listening socket: as long as the
    listeners alone fit in the budget, every row of either table that parses to
    a listening socket which is not the collector's own is in the snapshot,
    wherever it stands; the snapshot never exceeds the budget, and holds nothing
    but parsed rows of tracked states that are not the collector's own. *)
Theorem no_listener_hidden fs own snapshot capped proto filename text line s :
  own_socket_inodes fs = Ok own → scan states max_sockets fs = Ok (snapshot, capped) →
  0 ≤ max_sockets → len (List.filter is_listener (visible states own fs)) ≤ max_sockets →
  (proto, filename) ∈ SOURCES → nf_tables fs filename = Some text → line ∈ str_splitlines text →
  parse_net_line line proto = Ok (Some s) → sk_state s = STATE_LISTEN → sk_inode s ∉ own →
  od_mem snapshot (socket_key s) = true ∧ len snapshot ≤ max_sockets ∧
  Forall (λ kv, kv.1 = socket_key kv.2 ∧ kv.2 ∈ rows fs ∧ sk_state kv.2 ∈ states ∧ sk_inode kv.2 ∉ own) snapshot.
Proof.
  intros Hown Hscan Hmax Hlen Hsource Htext Hline Hparse Hstate Hinode.
  rewrite (scan_visible _ _ _ _ Hown) in Hscan. injection Hscan as Hfill.
  assert (s ∈ visible states own fs) as Hvis.
  { unfold visible. apply list_elem_of_In, filter_In. split.
    - unfold rows. apply in_flat_map. exists (proto, filename). split; [by apply list_elem_of_In|].
      rewrite Htext. apply list_elem_of_In, list_elem_of_omap. exists line. split; [done|].
      unfold parsed. by rewrite Hparse.
    - unfold of_interest. rewrite Hstate, (bool_decide_false (_ ∈ own)), bool_decide_true; [done| |done].
      destruct track_connections; [by left|by left]. }
  split_and!.
  - apply od_mem_true. unfold listeners_first in Hfill.
    pose proof (fill_takes max_sockets (List.filter is_listener (visible states own fs))
      (List.filter (λ s, negb (is_listener s)) (visible states own fs)) [] s) as Ht. rewrite Hfill in Ht. apply Ht.
    + by rewrite len_nil.
    + apply list_elem_of_In, filter_In. split; [by apply list_elem_of_In|]. unfold is_listener. rewrite Hstate.
      apply String.eqb_refl.
  - pose proof (fill_bounded max_sockets (listeners_first (visible states own fs)) [] Hmax) as Hb.
    by rewrite Hfill in Hb.
  - destruct (fill_from max_sockets (listeners_first (visible states own fs)) []
      (λ s, s ∈ rows fs ∧ sk_state s ∈ states ∧ sk_inode s ∉ own)) as [Hk Hfrom];
      [by repeat constructor|constructor| |].
    { apply Forall_forall. intros s'. rewrite listeners_first_elem. unfold visible.
      rewrite list_elem_of_In, filter_In. unfold of_interest. rewrite andb_true_iff, negb_true_iff.
      intros (Hin & H1%bool_decide_eq_true & H2%bool_decide_eq_false). by rewrite list_elem_of_In. }
    rewrite Hfill in Hk, Hfrom. cbn [fst] in *. destruct Hk as [_ Hk]. apply Forall_forall. intros kv Hkv.
    split; [symmetry; exact (proj1 (Forall_forall _ _) Hk _ Hkv)|].
    exact (proj1 (Forall_forall _ _) Hfrom _ Hkv).
Qed.

(** Whoever applies the events of the collector to the sockets of its first
    poll knows at every later poll which sockets are there, by protocol,
    endpoints and inode: those of the rows of both tables in a tracked state
    that are not the collector's own. *)
Theorem events_track_sockets fs now polls events c :
  Forall (λ p, all_rows p.1) ((fs, now) :: polls) →
  drain_all drain ((fs, now) :: polls) new_network_collector = Ok (events, c) →
  dead_letters (w_normalizer (nc_watcher c)) = 0 →
  ∃ first raws own,
    shows fs first ∧
    Forall2 (λ raw e, map_raw local_hostname raw = Ok e) raws events ∧
    own_socket_inodes (default fs (last polls.*1)) = Ok own ∧
    ∀ k, is_Some (foldl (flip tell_network) (seen first) raws !! k)
         ↔ k ∈ socket_key <$> visible states own (default fs (last polls.*1)).
Proof.
  intros Hall Hrun Hdead.
  destruct (@life_tells _ _ _ _ _ _ _ _ (network_telling host) local_hostname _ _ drain nc_watcher all_rows
    (λ _, false) shows network_takes _ new_network_collector events c fs polls.*1 eq_refl Hall Hrun Hdead)
    as (first & raws & Hfirst & (own & Hown & Hlast) & _ & Hraws & Htell & Hdrafted).
  { exact (complete_all ((fs, now) :: polls)). }
  assert (foldl (flip tell_network) (seen first) raws = seen (baseline (nc_watcher c))) as Htold by exact Htell.
  exists first, raws, own. split_and!; [done..|]. intros k. rewrite Htold, view_lookup, fmap_is_Some. apply Hlast.
Qed.
End life.

(** ** Witnesses *)

Definition row (i : nat) (local remote state inode : string) : string :=
  ("   " +:+ str_of_int (Z.of_nat i) +:+ ": " +:+ local +:+ " " +:+ remote +:+ " " +:+ state
   +:+ " 00000000:00000000 00:00000000 00000000  1000        0 " +:+ inode +:+ " 1 0" +:+ String NL "")%string.

Definition example_net (rows rows6 : list string) : NetFS :=
  mkNetFS (λ name, if String.eqb name "tcp" then Some (foldr String.append "" rows)%string
                   else Some (foldr String.append "" rows6)%string)
    (Some [Some "socket:[99]"; Some "/dev/null"; None])%string.

Definition ssh_row : string := row 0 "0100007F:0016" "00000000:0000" "0A" "7".
Definition own_row : string := row 1 "0100007F:1F90" "00000000:0000" "0A" "99".
Definition call_row : string := row 2 "0100007F:D431" "0200000A:01BB" "01" "12".
Definition backdoor_row : string := row 0 (("00000000000000000000000001000000:115C"))%string "00000000000000000000000000000000:0000" "0A" "13".

Definition flooded : NetFS := example_net [call_row; ssh_row; own_row] [backdoor_row].

Definition backdoor : Socket := mkSocket "tcp6" "::1" 4444 "::" 0 "LISTEN" 1000 13.

(** Two listeners and a connection, room for two: the connection is left out. *)
Lemma no_listener_hidden_witness :
  ∃ snapshot, scan TRACKED_STATES 2 flooded = Ok (snapshot, true) ∧ od_mem snapshot (socket_key backdoor) = true.
Proof.
  eexists. split; [vm_compute; reflexivity|].
  refine (proj1 (no_listener_hidden true 2 flooded [99] _ true "tcp6" "tcp6" backdoor_row
    (str_take (String.length backdoor_row - 1) backdoor_row) backdoor _ _ _ _ _ _ _ _ _ _)).
  - vm_compute. reflexivity.
  - vm_compute. reflexivity.
  - lia.
  - vm_compute. discriminate.
  - right. left.
  - vm_compute. reflexivity.
  - vm_compute. left.
  - vm_compute. reflexivity.
  - vm_compute. reflexivity.
  - apply (bool_decide_unpack _). vm_compute. exact I.
Defined.

Definition example_net_polls : list (NetFS * (nat → Z)) :=
  map (λ fs, (fs, Z.of_nat)) [example_net [ssh_row; own_row] []; flooded; example_net [ssh_row] [backdoor_row]].

Definition example_net_run : list Event * NetworkCollector :=
  match drain_all (drain_once "h" "h" true 100) example_net_polls new_network_collector with
  | Ok r => r | Raise _ => ([], new_network_collector) end.

Example example_net_actions :
  map (λ e, (em_action (ev_event e), ev_message e)) example_net_run.1
  = [("network_listen_started", "network_listen_started: tcp6 ::1:4444 (uid=1000)");
     ("network_connection_opened", "network_connection_opened: tcp 127.0.0.1:54321 -> 10.0.0.2:443 (uid=1000)");
     ("network_connection_closed", "network_connection_closed: tcp 127.0.0.1:54321 -> 10.0.0.2:443 (uid=1000)")]%string.
Proof. vm_compute. reflexivity. Qed.

Lemma events_track_sockets_witness :
  drain_all (drain_once "h" "h" true 100) example_net_polls new_network_collector = Ok example_net_run ∧
  ∃ first raws,
    is_Some (foldl (flip tell_network)
      (view (appeared := appeared "h") (changed := unchanged) (gone := disappeared "h") first) raws !! socket_key backdoor).
Proof.
  split; [vm_compute; reflexivity|].
  destruct (events_track_sockets "h" "h" true 100 (example_net [ssh_row; own_row] []) Z.of_nat
    (tail example_net_polls) example_net_run.1 example_net_run.2)
    as (first & raws & own & _ & _ & Hown & H).
  - repeat constructor; vm_compute; discriminate.
  - vm_compute. reflexivity.
  - vm_compute. reflexivity.
  - exists first, raws. apply H. vm_compute in Hown. injection Hown as <-. apply (bool_decide_unpack _). vm_compute. exact I.
Defined.
