(* ===== verification/Integrity.v ===== *)
(** * The file-integrity collector ([collectors/integrity.py])

    One scan of the watched paths, its stat cache, the comparison of two scans.
    A scan is given as what it meets ([FileView]): the visits are numbered, for
    a path may be visited twice (under two roots) and may change between any two
    calls.  File names are those [os_text] leaves as they are; times are
    nanoseconds. *)

From S2P Require Import Prelude ODict PyText Sha256 Events NetParse Normalizer Base.
Local Open Scope string_scope.
Local Open Scope Z_scope.

Definition HASH_CHUNK : Z := 2 ^ 16.
Definition DEFAULT_MAX_HASH_BYTES : Z := 50 * 1024 * 1024.
Definition DEFAULT_MAX_FILES : Z := 50000.
Definition RACY_WINDOW_NS : Z := 2000000000.

Definition ACTION_CREATED : string := "file_created".
Definition ACTION_MODIFIED : string := "file_modified".
Definition ACTION_ATTRS : string := "file_attributes_modified".
Definition ACTION_DELETED : string := "file_deleted".

Definition SEV_CREATED : Z := 3.
Definition SEV_MODIFIED : Z := 4.
Definition SEV_ATTRS : Z := 5.
Definition SEV_DELETED : Z := 5.

(** ** What a scan meets *)

Inductive node := Regular | Directory | Special.

#[export] Instance node_eq_dec : EqDecision node.
Proof. solve_decision. Defined.

(** [os.stat_result]; [st_mode] without the file type *)
Record Stat := mkStat {
  st_kind : node; st_mode : Z; st_size : Z; st_mtime_ns : Z; st_ctime_ns : Z;
  st_ino : Z; st_dev : Z; st_uid : Z; st_gid : Z;
}.

(** A file opened: its [fstat] and its bytes ([None]: an [OSError]) *)
Record OpenFile := mkOpenFile { of_stat : option Stat; of_bytes : option (list Z) }.

Record Visit := mkVisit {
  v_late : bool;                    (* past the deadline *)
  v_lstat : option Stat;
  v_open : option OpenFile;
}.

Record FileView := mkFileView {
  fv_time_ns : Z;
  fv_root : Path → option Stat;             (* the [lstat] of a root *)
  fv_walk : Path → list (Path * list string); (* [os.walk], top down, without the directory names *)
  fv_visit : nat → Path → Visit;
}.

(** ** States *)

Record FileState := mkFileState {
  fs_size : Z; fs_mtime_ns : Z; fs_mode : Z; fs_sha256 : option string;
  fs_ctime_ns : Z; fs_inode : Z; fs_device : Z; fs_cacheable : bool; fs_uid : Z; fs_gid : Z;
}.

(** [_FileState.same_stat] *)
Definition same_stat (a b : FileState) : bool :=
  (fs_size a =? fs_size b) && (fs_mtime_ns a =? fs_mtime_ns b) && (fs_ctime_ns a =? fs_ctime_ns b)
  && (fs_inode a =? fs_inode b) && (fs_device a =? fs_device b).

Definition with_sha256 (sha256 : option string) (s : FileState) : FileState :=
  mkFileState (fs_size s) (fs_mtime_ns s) (fs_mode s) sha256 (fs_ctime_ns s) (fs_inode s) (fs_device s)
    (fs_cacheable s) (fs_uid s) (fs_gid s).

(** ** Hashing *)

Section scan.
Context (max_hash_bytes max_files : Z) (host_root : Path) (recursive : bool).

(** The loop of [_digest_if_same_file]: [hashed] has been read, [bytes] are left. *)
Fixpoint digest_loop (fuel : nat) (remaining : Z) (hashed bytes : list Z) : option string :=
  match fuel with
  | O => None
  | S fuel' =>
      if remaining <=? 0 then None
      else
        let n := Z.to_nat (Z.min HASH_CHUNK remaining) in
        match take n bytes with
        | [] => Some (sha256_hexdigest hashed)
        | chunk => digest_loop fuel' (remaining - len chunk) (hashed ++ chunk)%list (drop n bytes)
        end
  end.

(** [_digest_if_same_file]; every read but the last takes a byte. *)
Definition digest_if_same_file (f : OpenFile) (expected : Stat) : option string :=
  opened ← of_stat f;
  if negb (bool_decide (st_kind opened = Regular)) then None
  else if negb (bool_decide ((st_ino opened, st_dev opened) = (st_ino expected, st_dev expected))) then None
  else bytes ← of_bytes f; digest_loop (S (length bytes)) (max_hash_bytes + 1) [] bytes.

(** [_hash_file] *)
Definition hash_file (v : Visit) (expected : Stat) : option string :=
  f ← v_open v; digest_if_same_file f expected.

(** ** Scanning *)

Record Scan := mkScan {
  sc_snapshot : odict string FileState;
  sc_visits : nat;
  sc_hashed : Z;
  sc_reused : Z;
  sc_missing : list string;
}.

Definition state_of (lst : Stat) (racy_after_ns : Z) : FileState :=
  mkFileState (st_size lst) (st_mtime_ns lst) (st_mode lst) None (st_ctime_ns lst) (st_ino lst) (st_dev lst)
    (st_ctime_ns lst <? racy_after_ns) (st_uid lst) (st_gid lst).

(** The end of [_snapshot_file], when no digest can be reused *)
Definition hash_state (v : Visit) (lst : Stat) (state : FileState) : FileState * Z :=
  if st_size lst <=? max_hash_bytes then (with_sha256 (hash_file v lst) state, 1) else (state, 0).

(** [_snapshot_file]: the state, files hashed, digests reused *)
Definition snapshot_file (v : Visit) (previous : option FileState) (racy_after_ns : Z)
    : option FileState * Z * Z :=
  match v_lstat v with
  | None => (None, 0, 0)
  | Some lst =>
      if negb (bool_decide (st_kind lst = Regular)) then (None, 0, 0)
      else
        let state := state_of lst racy_after_ns in
        let reusable := match previous with
                        | Some p => if fs_cacheable p && same_stat p state then Some p else None
                        | None => None
                        end in
        match reusable with
        | Some p => (Some (with_sha256 (fs_sha256 p) state), 0, 1)
        | None => let '(state, hashed) := hash_state v lst state in (Some state, hashed, 0)
        end
  end.

(** [path.relative_to(root)] *)
Fixpoint strip_prefix (prefix parts : list string) : option (list string) :=
  match prefix, parts with
  | [], _ => Some parts
  | p :: prefix', q :: parts' => if String.eqb p q then strip_prefix prefix' parts' else None
  | _ :: _, [] => None
  end.

Definition relative_to (path root : Path) : option (list string) :=
  if String.eqb (path_root path) (path_root root) then strip_prefix (path_parts root) (path_parts path) else None.

(** [_host_path] *)
Definition host_path (on_disk : Path) : string :=
  if bool_decide (host_root = HOST_ROOT) then path_str on_disk
  else match relative_to on_disk host_root with
       | Some parts => path_str (mkPath "/" parts)
       | None => path_str on_disk
       end.

(** [_walk]; clearing the directory names stops after the first one. *)
Definition walk (view : FileView) (directory : Path) : list Path :=
  let listing := fv_walk view directory in
  flat_map (λ '(current, filenames),
      map (λ filename, mkPath (path_root current) (path_parts current ++ [filename])%list) filenames)
    (if recursive then listing else take 1 listing).

(** [_iter_files]: the paths, and the roots now missing *)
Definition iter_files (view : FileView) (root : Path) (missing : list string) : list Path * list string :=
  match fv_root view root with
  | None => ([], if bool_decide (path_str root ∈ missing) then missing else (path_str root :: missing))
  | Some lst =>
      (match st_kind lst with Regular => [root] | Directory => walk view root | Special => [] end,
       filter (λ m, m ≠ path_str root) missing)
  end.

(** How a scan ends *)
Inductive ending :=
  | Continue (s : Scan)
  | Full (s : Scan)                 (* [max_files] reached *)
  | Interrupted (s : Scan).         (* [_ScanInterruptedError] *)

Section view.
Context (view : FileView) (previous : odict string FileState).

Definition racy_after_ns : Z := fv_time_ns view - RACY_WINDOW_NS.

Fixpoint scan_paths (paths : list Path) (s : Scan) : ending :=
  match paths with
  | [] => Continue s
  | path :: paths' =>
      let v := fv_visit view (sc_visits s) path in
      if v_late v then Interrupted s
      else if max_files <=? len (sc_snapshot s) then Full s
      else
        let key := host_path path in
        let '(state, hashed, reused) := snapshot_file v (od_get previous key) racy_after_ns in
        scan_paths paths'
          (mkScan (match state with Some state => od_set (sc_snapshot s) key state | None => sc_snapshot s end)
             (S (sc_visits s)) (sc_hashed s + hashed) (sc_reused s + reused) (sc_missing s))
  end.

(** [_scan] *)
Fixpoint scan_roots (roots : list Path) (s : Scan) : ending :=
  match roots with
  | [] => Continue s
  | root :: roots' =>
      let '(paths, missing) := iter_files view (under_host_root host_root root) (sc_missing s) in
      match scan_paths paths (mkScan (sc_snapshot s) (sc_visits s) (sc_hashed s) (sc_reused s) missing) with
      | Continue s => scan_roots roots' s
      | e => e
      end
  end.
End view.
End scan.

(** ** Comparing *)

(** [f"{mode:04o}"] *)
Fixpoint octal_go (fuel : nat) (n : Z) (s : string) : string :=
  match fuel with
  | O => s
  | S fuel' =>
      let s := String (hex_digit (n mod 8)) s in if n <? 8 then s else octal_go fuel' (n / 8) s
  end.

Fixpoint pad_zeros (n : nat) (s : string) : string := match n with O => s | S n' => String "0" (pad_zeros n' s) end.

Definition octal_mode (mode : Z) : string :=
  let digits := octal_go (S (Z.to_nat (Z.log2 mode))) mode "" in pad_zeros (4 - String.length digits) digits.

Example octal_modes : map octal_mode [420; 2541; 7; 0; 32768] = ["0644"; "4755"; "0007"; "0000"; "100000"].
Proof. vm_compute. reflexivity. Qed.

(** [_fingerprint] *)
Definition fingerprint (s : FileState) : string :=
  let content := match fs_sha256 s with
                 | Some digest => if String.eqb digest "" then str_of_int (fs_size s) +:+ ":" +:+ str_of_int (fs_mtime_ns s)
                                  else digest
                 | None => str_of_int (fs_size s) +:+ ":" +:+ str_of_int (fs_mtime_ns s)
                 end in
  content +:+ ":" +:+ str_of_int (fs_ctime_ns s) +:+ ":" +:+ str_of_int (fs_inode s).

(** [_content_changed] *)
Definition content_changed (old new : FileState) : bool :=
  match fs_sha256 old, fs_sha256 new with
  | Some a, Some b => negb (String.eqb a b)
  | _, _ =>
      if negb (fs_size old =? fs_size new) || negb (fs_mtime_ns old =? fs_mtime_ns new) then true
      else negb (fs_ctime_ns old =? 0) && negb (fs_ctime_ns new =? 0) && negb (fs_ctime_ns old =? fs_ctime_ns new)
  end.

(** [_attributes_changed] *)
Definition attributes_changed (old new : FileState) : bool :=
  negb (bool_decide ((fs_mode old, fs_uid old, fs_gid old) = (fs_mode new, fs_uid new, fs_gid new))).

(** [_raw] but for the time *)
Definition raw_file (host path : string) (s : FileState) (action : string) (severity : Z) (seed : string) : draft :=
  λ now, RawFile (mkRawFile now host action severity (clip path MAX_PATH) (fs_size s) (octal_mode (fs_mode s))
    (fs_sha256 s) seed).

(** [_created], [_modified], [_attrs_modified], [_deleted] *)
Definition created (host path : string) (s : FileState) : draft :=
  raw_file host path s ACTION_CREATED SEV_CREATED (fingerprint s).
Definition modified (host path : string) (s : FileState) : draft :=
  raw_file host path s ACTION_MODIFIED SEV_MODIFIED (fingerprint s).
Definition attrs_modified (host path : string) (s : FileState) : draft :=
  raw_file host path s ACTION_ATTRS SEV_ATTRS
    (octal_mode (fs_mode s) +:+ ":" +:+ str_of_int (fs_uid s) +:+ ":" +:+ str_of_int (fs_gid s)
     +:+ ":" +:+ str_of_int (fs_ctime_ns s)).
Definition deleted (host path : string) (s : FileState) : draft :=
  raw_file host path s ACTION_DELETED SEV_DELETED (fingerprint s).

Definition appeared (host path : string) (s : FileState) : list draft := [created host path s].
Definition changed (host path : string) (previous s : FileState) : list draft :=
  ((if content_changed previous s then [modified host path s] else [])
   ++ (if attributes_changed previous s then [attrs_modified host path s] else []))%list.
Definition vanished (host path : string) (previous : FileState) : list draft := [deleted host path previous].

(** [_diff] *)
Definition diff (host : string) : odict string FileState → odict string FileState → list draft :=
  diff_with (appeared host) (changed host) (vanished host).

(** ** The collector *)

Record FileIntegrityCollector := mkIntegrity {
  ic_missing : list string;
  ic_hashed : Z;
  ic_reused : Z;
  ic_watcher : Watcher string FileState;
}.

Definition new_integrity : FileIntegrityCollector := mkIntegrity [] 0 0 new_watcher.

(** [source_available] *)
Definition source_available (c : FileIntegrityCollector) : bool := bool_decide (ic_missing c = []).

(** The settings of a collector *)
Record Watched := mkWatched {
  w_paths : list Path; w_recursive : bool; w_host : string;
  w_max_hash_bytes : Z; w_max_files : Z; w_host_root : Path;
}.

(** [_scan], its counters those of the collector *)
Definition scan (w : Watched) (view : FileView) (c : FileIntegrityCollector) : ending :=
  scan_roots (w_max_hash_bytes w) (w_max_files w) (w_host_root w) (w_recursive w) view (baseline (ic_watcher c))
    (w_paths w) (mkScan [] 0 (ic_hashed c) (ic_reused c) (ic_missing c)).

(** [_drain_once] *)
Definition drain_once (local_hostname : string) (w : Watched) (view : FileView) (now : nat → Z)
    (c : FileIntegrityCollector) : result (list Event * FileIntegrityCollector) :=
  match scan w view c with
  | Interrupted s => Ok ([], mkIntegrity (sc_missing s) (sc_hashed s) (sc_reused s) (ic_watcher c))
  | Continue s | Full s =>
      let '(events, watcher) := take_snapshot local_hostname (diff (w_host w)) now (sc_snapshot s) (ic_watcher c) in
      Ok (events, mkIntegrity (sc_missing s) (sc_hashed s) (sc_reused s) watcher)
  end.

Local Close Scope string_scope.

(** ** Lemmas *)

(** *** Hashing *)

(** The loop hashes the whole file, unless it exceeds the cap. *)
Lemma digest_loop_spec fuel remaining hashed bytes :
  (length bytes < fuel)%nat →
  digest_loop fuel remaining hashed bytes
  = if len bytes <? remaining then Some (sha256_hexdigest (hashed ++ bytes)) else None.
Proof.
  revert remaining hashed bytes. induction fuel as [|fuel IH]; intros remaining hashed bytes Hfuel; [lia|].
  cbn [digest_loop]. destruct (Z.leb_spec remaining 0) as [Hle|Hgt].
  { pose proof (len_nonneg bytes). by rewrite (proj2 (Z.ltb_ge _ _)) by lia. }
  set (n := Z.to_nat (Z.min HASH_CHUNK remaining)).
  assert (0 < n)%nat as Hn by (unfold n, HASH_CHUNK; lia).
  assert (length (take n bytes) + length (drop n bytes) = length bytes)%nat as Hsum.
  { rewrite length_take, length_drop. lia. }
  destruct (take n bytes) as [|b chunk] eqn:Htake.
  - assert (bytes = []) as ->; [|by rewrite app_nil_r, len_nil, (proj2 (Z.ltb_lt _ _)) by lia].
    destruct bytes; [done|]. by destruct n; [lia|].
  - rewrite IH.
    2: { simpl in Hsum. lia. }
    rewrite <-(app_assoc hashed), <-Htake, take_drop.
    assert (len (drop n bytes) = len bytes - len (b :: chunk)) as ->.
    { unfold len. rewrite <-Htake, length_take, length_drop. lia. }
    rewrite Htake. destruct (Z.ltb_spec (len bytes - len (b :: chunk)) (remaining - len (b :: chunk))), (Z.ltb_spec (len bytes) remaining);
      done || lia.
Qed.

(** The digest of an open file *)
Lemma digest_spec max_hash_bytes f expected digest :
  digest_if_same_file max_hash_bytes f expected = Some digest ↔
  ∃ opened bytes, of_stat f = Some opened ∧ of_bytes f = Some bytes ∧ st_kind opened = Regular ∧
    st_ino opened = st_ino expected ∧ st_dev opened = st_dev expected ∧
    len bytes ≤ max_hash_bytes ∧ digest = sha256_hexdigest bytes.
Proof.
  unfold digest_if_same_file, mbind, option_bind.
  destruct (of_stat f) as [opened|]; [|by split; [|intros (? & ? & ? & _)]].
  case_bool_decide as Hkind; cbv beta iota delta [negb]; [|by split; [|intros (? & ? & [= <-] & _ & ? & _)]].
  case_bool_decide as Hid; cbv beta iota.
  2: { split; [done|]. intros (? & ? & [= <-] & _ & _ & Hi & Hd & _). by rewrite Hi, Hd in Hid. }
  injection Hid as Hino Hdev.
  destruct (of_bytes f) as [bytes|]; [|by split; [|intros (? & ? & _ & ? & _)]].
  rewrite digest_loop_spec by lia. destruct (Z.ltb_spec (len bytes) (max_hash_bytes + 1)) as [Hlt|Hge]; split.
  - intros [= <-]. exists opened, bytes. split_and!; (done || lia).
  - by intros (? & ? & [= <-] & [= <-] & _ & _ & _ & _ & ->).
  - done.
  - intros (? & ? & [= <-] & [= <-] & _ & _ & _ & Hle & _). lia.
Qed.

(** *** The kernel's bookkeeping

    What the stat cache relies on: the kernel stamps the time of every change of
    an inode (a write, a change of its mode, its reuse for another file) on it,
    from a clock that may lag, by less than the racy window. *)

Record change := mkChange { ch_at : Z; ch_content : list Z }.

Section kernel.
(** An inode's changes, oldest first, and the clock they are stamped from *)
Context (history : Z * Z → list change) (stamp_clock : Z → Z).

Definition last_change (i : Z * Z) (t : Z) : option change := last (filter (λ c, ch_at c ≤ t) (history i)).
Definition content_at (i : Z * Z) (t : Z) : list Z := from_option ch_content [] (last_change i t).
Definition ctime_at (i : Z * Z) (t : Z) : option Z := (λ c, stamp_clock (ch_at c)) <$> last_change i t.

(** Nothing happens to the inode after [t1] up to [t2]. *)
Definition quiet (i : Z * Z) (t1 t2 : Z) : Prop := Forall (λ c, ¬ (t1 < ch_at c ≤ t2)) (history i).

(** The documented behaviour of the kernel *)
Definition kernel_contract : Prop :=
  (∀ i, StronglySorted (λ c d, ch_at c ≤ ch_at d) (history i)) ∧ (∀ t, t - RACY_WINDOW_NS ≤ stamp_clock t).

Hypothesis kernel : kernel_contract.

Lemma quiet_content i t1 t2 : t1 ≤ t2 → quiet i t1 t2 → content_at i t2 = content_at i t1.
Proof.
  intros Hle Hq. unfold content_at, last_change. do 2 f_equal. unfold quiet in Hq.
  induction Hq as [|c l Hc _ IH]; [done|]. destruct (decide (ch_at c ≤ t1)).
  - rewrite !filter_cons_True by lia. by rewrite IH.
  - rewrite !filter_cons_False by lia. done.
Qed.

Lemma quiet_shorter i t1 t2 t3 : t2 ≤ t3 → quiet i t1 t3 → quiet i t1 t2.
Proof. intros Hle Hq. eapply Forall_impl; [exact Hq|]. intros c Hc. simpl in *. lia. Qed.

(** A ctime that is old enough and has not moved: nothing happened. *)
Lemma old_ctime_quiet i t1 t2 ctime :
  ctime_at i t2 = Some ctime → ctime < t1 - RACY_WINDOW_NS → quiet i t1 t2.
Proof.
  destruct kernel as [Hsorted Hstamp]. intros Hct Hold. unfold ctime_at in Hct.
  destruct (last_change i t2) as [c|] eqn:Hlast; [|done]. injection Hct as <-.
  unfold last_change in Hlast. apply last_Some in Hlast as [before Hf].
  apply Forall_forall. intros d Hd [Hd1 Hd2]. assert (d ∈ before ++ [c]) as Hin.
  { rewrite <-Hf. by apply list_elem_of_filter. }
  assert (ch_at d ≤ ch_at c) as Hle.
  { pose proof (StronglySorted_sublist _ _ _ (sublist_filter (λ c, ch_at c ≤ t2) (history i)) (Hsorted i)) as Hs.
    rewrite Hf in Hs. apply StronglySorted_snoc in Hs as [_ Hs]. apply elem_of_app in Hin as [Hin|Hin].
    - exact (proj1 (Forall_forall _ _) Hs _ Hin).
    - by apply list_elem_of_singleton in Hin as ->. }
  specialize (Hstamp (ch_at c)). lia.
Qed.

(** *** What a visit saw *)

(** A visit between [tl], its [lstat], and [te]: what it read is the content of
    the inode it opened, unless that was changed meanwhile. *)
Record faithful (v : Visit) (tl te : Z) : Prop := {
  f_order : tl ≤ te;
  f_stat : ∀ st, v_lstat v = Some st → ctime_at (st_ino st, st_dev st) tl = Some (st_ctime_ns st);
  f_bytes : ∀ f st bytes, v_open v = Some f → of_stat f = Some st → of_bytes f = Some bytes →
    quiet (st_ino st, st_dev st) tl te → bytes = content_at (st_ino st, st_dev st) tl;
}.

(** A scan between [t0] and [t1] *)
Definition faithful_view (view : FileView) (t0 t1 : Z) : Prop :=
  t0 ≤ t1 ∧ ∀ i path, ∃ tl te, fv_time_ns view ≤ tl ∧ t0 ≤ tl ∧ te ≤ t1 ∧ faithful (fv_visit view i path) tl te.

Definition identity (s : FileState) : Z * Z := (fs_inode s, fs_device s).

(** What a state says of its file: the digest is that of the content, as of the
    visit from [tl] to [te], unless the file was changed during the visit. *)
Definition says (s : FileState) (tl te : Z) : Prop :=
  tl ≤ te ∧ ctime_at (identity s) tl = Some (fs_ctime_ns s) ∧
  (∀ digest, fs_sha256 s = Some digest → quiet (identity s) tl te →
     digest = sha256_hexdigest (content_at (identity s) tl)) ∧
  (fs_cacheable s = true → fs_ctime_ns s < tl - RACY_WINDOW_NS).

Definition dated (t0 t1 : Z) (d : odict string FileState) : Prop :=
  Forall (λ kv, ∃ tl te, t0 ≤ tl ∧ te ≤ t1 ∧ says kv.2 tl te) d.

Lemma dated_get t0 t1 d k s :
  dated t0 t1 d → od_get d k = Some s → ∃ tl te, t0 ≤ tl ∧ te ≤ t1 ∧ says s tl te.
Proof. intros Hd Hget%od_get_elem_of. exact (proj1 (Forall_forall _ _) Hd _ Hget). Qed.

Lemma same_stat_eq a b :
  same_stat a b = true → identity a = identity b ∧ fs_ctime_ns a = fs_ctime_ns b.
Proof. unfold same_stat, identity. rewrite !andb_true_iff, !Z.eqb_eq. intuition congruence. Qed.

(** The cache says of a file what hashing it would. *)
Lemma reuse_says p s tl0 te0 tl te :
  says p tl0 te0 → te0 ≤ tl → tl ≤ te → ctime_at (identity s) tl = Some (fs_ctime_ns s) →
  fs_cacheable p = true → same_stat p s = true → (fs_cacheable s = true → fs_ctime_ns s < tl - RACY_WINDOW_NS) →
  says (with_sha256 (fs_sha256 p) s) tl te.
Proof.
  intros (Hle & Hct & Hdigest & Hold) Hte Htl Hs Hp Hsame Hcache. apply same_stat_eq in Hsame as [Hid Hctime].
  split_and!; [done|done| |done]. intros digest Hd _. specialize (Hold Hp).
  assert (quiet (identity p) tl0 tl) as Hq.
  { apply (old_ctime_quiet _ _ _ (fs_ctime_ns p)); [by rewrite Hid, Hctime|done]. }
  cbn [fs_sha256 with_sha256] in Hd. rewrite (Hdigest digest Hd) by (by eapply quiet_shorter).
  change (identity (with_sha256 (fs_sha256 p) s)) with (identity s). rewrite <-Hid.
  by rewrite (quiet_content _ tl0 tl) by (done || lia).
Qed.

Lemma hash_state_says max_hash_bytes v lst racy tl te :
  faithful v tl te → v_lstat v = Some lst → racy ≤ tl - RACY_WINDOW_NS →
  says (hash_state max_hash_bytes v lst (state_of lst racy)).1 tl te.
Proof.
  intros Hf Hlst Hracy. pose proof (f_stat _ _ _ Hf lst Hlst) as Hct.
  assert ((st_ctime_ns lst <? racy) = true → st_ctime_ns lst < tl - RACY_WINDOW_NS) as Hcache.
  { rewrite Z.ltb_lt. lia. }
  unfold hash_state. case_match; (split_and!; [by destruct Hf|done| |done]); [|done].
  intros digest Hd Hq. cbn [fst fs_sha256 with_sha256] in Hd. unfold hash_file in Hd.
  apply bind_Some in Hd as (f & Hopen & Hd).
  apply digest_spec in Hd as (opened & bytes & Hst & Hbytes & _ & Hino & Hdev & _ & ->).
  cbn [fst] in *. change (identity (with_sha256 _ _)) with (st_ino lst, st_dev lst) in *. rewrite <-Hino, <-Hdev in *.
  by rewrite (f_bytes _ _ _ Hf f opened bytes).
Qed.

Lemma snapshot_file_says max_hash_bytes v previous racy tl te s hashed reused :
  faithful v tl te → racy ≤ tl - RACY_WINDOW_NS →
  (∀ p, previous = Some p → ∃ tl0 te0, te0 ≤ tl ∧ says p tl0 te0) →
  snapshot_file max_hash_bytes v previous racy = (Some s, hashed, reused) → says s tl te.
Proof.
  intros Hf Hracy Hprev. unfold snapshot_file. destruct (v_lstat v) as [lst|] eqn:Hlst; [|done].
  case_bool_decide; cbn [negb]; [|done]. set (reusable := match previous with Some _ => _ | None => None end).
  destruct reusable as [p|] eqn:Hreuse; unfold reusable in Hreuse.
  - destruct previous as [p'|]; [|done].
    destruct (fs_cacheable p' && same_stat p' (state_of lst racy)) eqn:Hboth; [|done]. injection Hreuse as ->.
    apply andb_true_iff in Hboth as [Hp Hsame]. intros [= <- <- <-].
    destruct (Hprev p eq_refl) as (tl0 & te0 & Hte & Hsays).
    apply (reuse_says p _ tl0 te0); [done|done|by destruct Hf|exact (f_stat _ _ _ Hf lst Hlst)|done|done|].
    simpl. rewrite Z.ltb_lt. lia.
  - pose proof (hash_state_says max_hash_bytes v lst racy tl te Hf Hlst Hracy) as Hsays.
    destruct (hash_state _ _ _ _) as [s0 h]. by intros [= <- <- <-].
Qed.

(** *** A scan *)

Definition scan_of (e : ending) : Scan := match e with Continue s | Full s | Interrupted s => s end.

Lemma racy_before view tl : fv_time_ns view ≤ tl → racy_after_ns view ≤ tl - RACY_WINDOW_NS.
Proof. unfold racy_after_ns. lia. Qed.

Lemma scan_paths_says max_hash_bytes max_files host_root view previous paths s t0 t0' t1 :
  faithful_view view t0 t1 → dated t0' t0 previous → dated t0 t1 (sc_snapshot s) →
  dated t0 t1 (sc_snapshot (scan_of (scan_paths max_hash_bytes max_files host_root view previous paths s))).
Proof.
  intros [_ Hview] Hprev. revert s. induction paths as [|path paths IH]; intros s Hs; [done|]. cbn [scan_paths].
  case_match; [done|]. case_match; [done|].
  destruct (snapshot_file _ _ _ _) as [[state hashed] reused] eqn:Hsnap. apply IH. cbn [sc_snapshot].
  destruct state as [state|]; [|done]. apply od_set_Forall; [done|]. cbn [snd].
  destruct (Hview (sc_visits s) path) as (tl & te & Hnow & Ht0 & Ht1 & Hf). exists tl, te. split_and!; [done..|].
  eapply snapshot_file_says; [done|by apply racy_before| |done].
  intros p Hget. destruct (dated_get _ _ _ _ _ Hprev Hget) as (tl0 & te0 & _ & Hte & Hsays).
  exists tl0, te0. split; [lia|done].
Qed.

Lemma scan_roots_says max_hash_bytes max_files host_root recursive view previous roots s t0 t0' t1 :
  faithful_view view t0 t1 → dated t0' t0 previous → dated t0 t1 (sc_snapshot s) →
  dated t0 t1 (sc_snapshot (scan_of
    (scan_roots max_hash_bytes max_files host_root recursive view previous roots s))).
Proof.
  intros Hview Hprev. revert s. induction roots as [|root roots IH]; intros s Hs; [done|]. cbn [scan_roots].
  destruct (iter_files _ _ _ _) as [paths missing].
  pose proof (scan_paths_says max_hash_bytes max_files host_root view previous paths
    (mkScan (sc_snapshot s) (sc_visits s) (sc_hashed s) (sc_reused s) missing) t0 t0' t1 Hview Hprev Hs) as Hpaths.
  destruct (scan_paths _ _ _ _ _ _ _) as [s'|s'|s']; [by apply IH|done|done].
Qed.

Lemma scan_says w view c t0 t0' t1 :
  faithful_view view t0 t1 → dated t0' t0 (baseline (ic_watcher c)) →
  dated t0 t1 (sc_snapshot (scan_of (scan w view c))).
Proof. intros. unfold scan. eapply scan_roots_says; [done..|constructor]. Qed.

Lemma dated_later t0 t1 t0' t1' d : t0' ≤ t0 → t1 ≤ t1' → dated t0 t1 d → dated t0' t1' d.
Proof.
  intros H0 H1 Hd. eapply Forall_impl; [exact Hd|]. intros kv (tl & te & ? & ? & ?). exists tl, te. split_and!; (done || lia).
Qed.

(** *** The life of the collector *)

Section life.
Context (local_hostname : string) (w : Watched).

Abbreviation drain := (drain_once local_hostname w).

Definition interrupted (view : FileView) (c : FileIntegrityCollector) : bool :=
  match scan w view c with Interrupted _ => true | _ => false end.

Lemma drain_once_baseline view now c events c' :
  drain view now c = Ok (events, c') →
  if interrupted view c then events = [] ∧ ic_watcher c' = ic_watcher c
  else baseline (ic_watcher c') = sc_snapshot (scan_of (scan w view c)) ∧
    take_snapshot local_hostname (diff (w_host w)) now (sc_snapshot (scan_of (scan w view c))) (ic_watcher c)
      = (events, ic_watcher c').
Proof.
  unfold drain_once, interrupted. destruct (scan w view c) as [s|s|s]; cbn [scan_of]; [| |by intros [= <- <-]].
  all: pose proof (take_snapshot_state (appeared := appeared (w_host w)) (changed := changed (w_host w))
         (gone := vanished (w_host w)) local_hostname now (sc_snapshot s) (ic_watcher c)) as [Hb _];
       fold (diff (w_host w)) in Hb;
       destruct (take_snapshot _ _ _ _ _) as [es watcher]; intros [= <- <-]; done.
Qed.

(** The scans, one after the other *)
Fixpoint in_order (t0 : Z) (polls : list (FileView * (nat → Z))) (t1 : Z) : Prop :=
  match polls with
  | [] => t0 ≤ t1
  | (view, _) :: polls' => ∃ t, faithful_view view t0 t ∧ in_order t polls' t1
  end.

Lemma in_order_le t0 polls t1 : in_order t0 polls t1 → t0 ≤ t1.
Proof.
  revert t0. induction polls as [|[view now] polls IH]; intros t0; [done|]. intros (t & [Hle _] & Hrest).
  specialize (IH t Hrest). lia.
Qed.

Lemma drain_all_dated t0 polls t1 c events c' :
  in_order t0 polls t1 → (∃ t, dated t t0 (baseline (ic_watcher c))) → drain_all drain polls c = Ok (events, c') →
  ∃ t, dated t t1 (baseline (ic_watcher c')).
Proof.
  revert t0 c events. induction polls as [|[view now] polls IH]; intros t0 c events Hord [t Hd] Hrun.
  { injection Hrun as <- <-. exists t. by eapply dated_later. }
  cbn [drain_all] in Hrun. apply result_bind_ok in Hrun as ([es c1] & Hrun1 & Hrun).
  apply result_bind_ok in Hrun as ([more c2] & Hrun2 & [= <- <-]). destruct Hord as (t2 & Hview & Hord).
  apply (IH t2 c1 more); [done| |done]. pose proof (drain_once_baseline _ _ _ _ _ Hrun1) as Hbase.
  destruct (interrupted view c).
  - destruct Hbase as [_ ->]. exists t. destruct Hview as [Hle _]. by eapply dated_later.
  - destruct Hbase as [-> _]. exists t0. by eapply scan_says.
Qed.
End life.
End kernel.

(** *** What does not depend on the cache *)

Definition bare (s : FileState) : FileState := with_sha256 None s.

Definition bare_all (d : odict string FileState) : odict string FileState := prod_map id bare <$> d.

(** How far a scan has got, digests aside *)
Definition shape (s : Scan) : odict string FileState * nat := (bare_all (sc_snapshot s), sc_visits s).

Definition same_ending (a b : ending) : Prop :=
  match a, b with
  | Continue s, Continue s' | Full s, Full s' | Interrupted s, Interrupted s' => shape s = shape s'
  | _, _ => False
  end.

Lemma bare_all_set d k s : bare_all (od_set d k s) = od_set (bare_all d) k (bare s).
Proof. unfold bare_all. induction d as [|[k' s'] d IH]; csimpl; [done|]. case_decide; csimpl; [done|]. by rewrite IH. Qed.

Lemma bare_all_length d : len (bare_all d) = len d.
Proof. unfold len, bare_all. by rewrite length_fmap. Qed.

Lemma bare_all_keys d : od_keys (bare_all d) = od_keys d.
Proof. unfold bare_all, od_keys. rewrite <-list_fmap_compose. apply list_fmap_ext. by intros ? [??] _. Qed.

Lemma bare_all_get d k : od_get (bare_all d) k = bare <$> od_get d k.
Proof. unfold bare_all. induction d as [|[k' s] d IH]; csimpl; [done|]. by case_decide. Qed.

Lemma snapshot_file_bare max_hash_bytes v previous racy :
  bare <$> (snapshot_file max_hash_bytes v previous racy).1.1
  = match v_lstat v with
    | Some lst => if bool_decide (st_kind lst = Regular) then Some (state_of lst racy) else None
    | None => None
    end.
Proof.
  unfold snapshot_file. destruct (v_lstat v) as [lst|]; [|done]. case_bool_decide; [|done]. cbn [negb].
  destruct (match previous with Some _ => _ | None => None end); [done|].
  unfold hash_state. by destruct (st_size lst <=? max_hash_bytes).
Qed.

Section shape.
Context (max_hash_bytes max_files : Z) (host_root : Path) (recursive : bool) (view : FileView).

Lemma scan_paths_shape p1 p2 paths s1 s2 :
  shape s1 = shape s2 →
  same_ending (scan_paths max_hash_bytes max_files host_root view p1 paths s1)
    (scan_paths max_hash_bytes max_files host_root view p2 paths s2).
Proof.
  revert s1 s2. induction paths as [|path paths IH]; intros s1 s2 Hs; [done|]. cbn [scan_paths].
  injection Hs as Hsnap Hvis. rewrite Hvis. case_match; [by unfold same_ending, shape; rewrite Hsnap, Hvis|].
  rewrite <-(bare_all_length (sc_snapshot s1)), Hsnap, bare_all_length.
  case_match; [by unfold same_ending, shape; rewrite Hsnap, Hvis|].
  set (v := fv_visit view (sc_visits s2) path).
  pose proof (snapshot_file_bare max_hash_bytes v (od_get p1 (host_path host_root path)) (racy_after_ns view)) as H1.
  pose proof (snapshot_file_bare max_hash_bytes v (od_get p2 (host_path host_root path)) (racy_after_ns view)) as H2.
  destruct (snapshot_file max_hash_bytes v (od_get p1 _) _) as [[st1 h1] r1].
  destruct (snapshot_file max_hash_bytes v (od_get p2 _) _) as [[st2 h2] r2]. cbn [fst] in *. rewrite <-H2 in H1.
  apply IH. unfold shape. cbn [sc_snapshot sc_visits]. f_equal.
  destruct st1 as [st1|], st2 as [st2|]; [|done|done|done]. apply (inj Some) in H1. by rewrite !bare_all_set, Hsnap, H1.
Qed.

Lemma iter_files_paths root m1 m2 : (iter_files recursive view root m1).1 = (iter_files recursive view root m2).1.
Proof. unfold iter_files. by destruct (fv_root view root). Qed.

Lemma scan_roots_shape p1 p2 roots s1 s2 :
  shape s1 = shape s2 →
  same_ending (scan_roots max_hash_bytes max_files host_root recursive view p1 roots s1)
    (scan_roots max_hash_bytes max_files host_root recursive view p2 roots s2).
Proof.
  revert s1 s2. induction roots as [|root roots IH]; intros s1 s2 Hs; [done|]. cbn [scan_roots].
  pose proof (iter_files_paths (under_host_root host_root root) (sc_missing s1) (sc_missing s2)) as Hpaths.
  destruct (iter_files _ _ _ (sc_missing s1)) as [paths m1]. destruct (iter_files _ _ _ (sc_missing s2)) as [paths' m2].
  cbn [fst] in Hpaths. subst paths'.
  pose proof (scan_paths_shape p1 p2 paths (mkScan (sc_snapshot s1) (sc_visits s1) (sc_hashed s1) (sc_reused s1) m1)
    (mkScan (sc_snapshot s2) (sc_visits s2) (sc_hashed s2) (sc_reused s2) m2) Hs) as He.
  destruct (scan_paths _ _ _ _ p1 _ _), (scan_paths _ _ _ _ p2 _ _); try done. by apply IH.
Qed.

Lemma scan_paths_NoDup p paths s :
  NoDup (od_keys (sc_snapshot s)) →
  NoDup (od_keys (sc_snapshot (scan_of (scan_paths max_hash_bytes max_files host_root view p paths s)))).
Proof.
  revert s. induction paths as [|path paths IH]; intros s Hs; [done|]. cbn [scan_paths].
  case_match; [done|]. case_match; [done|]. destruct (snapshot_file _ _ _ _) as [[state h] r]. apply IH.
  cbn [sc_snapshot]. destruct state; [by apply od_set_NoDup|done].
Qed.

Lemma scan_roots_NoDup p roots s :
  NoDup (od_keys (sc_snapshot s)) →
  NoDup (od_keys (sc_snapshot (scan_of (scan_roots max_hash_bytes max_files host_root recursive view p roots s)))).
Proof.
  revert s. induction roots as [|root roots IH]; intros s Hs; [done|]. cbn [scan_roots].
  destruct (iter_files _ _ _ _) as [paths missing].
  pose proof (scan_paths_NoDup p paths (mkScan (sc_snapshot s) (sc_visits s) (sc_hashed s) (sc_reused s) missing) Hs) as Hp.
  destruct (scan_paths _ _ _ _ _ _ _); [by apply IH|done|done].
Qed.
End shape.

(** *** What the records tell *)

Definition tell_file (raw : RawEvent) (m : gmap string string) : gmap string string :=
  match raw with
  | RawFile r =>
      if String.eqb (rf_action r) ACTION_DELETED then delete (rf_path r) m else <[rf_path r := rf_mode r]> m
  | _ => m
  end.

Lemma strip_prefix_app a b : strip_prefix a (a ++ b) = Some b.
Proof. induction a as [|x a IH]; [done|]. simpl. by rewrite String.eqb_refl. Qed.

Definition path_fits (path : string) : Prop := strlen path ≤ MAX_PATH.

Lemma clip_fits path : path_fits path → clip path MAX_PATH = path.
Proof. unfold path_fits, clip. intros. by rewrite (proj2 (Z.leb_le _ _)). Qed.

(** Of a file: that it is there, and its permission bits. *)
#[export] Instance integrity_telling host : Telling (W := string) (appeared host) (changed host) (vanished host).
Proof.
  refine {| tracked := λ path _, path_fits path; aspect := λ s, octal_mode (fs_mode s); tell := tell_file |}.
  - intros path s m raws Hfit Hraws. apply stamped_one in Hraws as [t ->]. simpl. by rewrite clip_fits.
  - intros path s s' m raws Hfit _ Hm Hraws. unfold changed in Hraws.
    apply Forall2_app_inv_l in Hraws as (raws1 & raws2 & H1 & H2 & ->).
    rewrite foldl_app. destruct (attributes_changed s s') eqn:Ha.
    + apply stamped_one in H2 as [t2 ->]. destruct (content_changed s s').
      * apply stamped_one in H1 as [t1 ->]. simpl. by rewrite clip_fits, insert_insert_eq.
      * inversion H1; subst. simpl. by rewrite clip_fits.
    + inversion H2; subst. simpl. apply negb_false_iff, bool_decide_eq_true in Ha. injection Ha as Hmode _ _.
      destruct (content_changed s s').
      * apply stamped_one in H1 as [t1 ->]. simpl. by rewrite clip_fits.
      * inversion H1; subst. simpl. symmetry. apply insert_id. by rewrite Hm, Hmode.
  - intros path s m raws Hfit Hraws. apply stamped_one in Hraws as [t ->]. simpl. by rewrite clip_fits.
Defined.

(** Files are reported by the host's own paths: whatever is found beneath a
    watched path, looked up under the mount point, is reported beneath that path. *)
Theorem files_reported_by_host_path host_root watched rest :
  path_root watched = "/"%string → path_root host_root ≠ ""%string →
  let on_disk := under_host_root host_root watched in
  host_path host_root (mkPath (path_root on_disk) (path_parts on_disk ++ rest))
  = path_str (mkPath "/" (path_parts watched ++ rest)).
Proof.
  intros Hw Hroot. unfold under_host_root, host_path. rewrite Hw. case_bool_decide as Heq; cbn [orb].
  - by rewrite Hw.
  - change (String.eqb "/" "") with false. cbn [path_root path_parts]. unfold relative_to. cbn [path_root path_parts].
    rewrite String.eqb_refl, <-app_assoc. by rewrite strip_prefix_app.
Qed.

Section tracking.
Context (local_hostname : string) (w : Watched).

Abbreviation drain := (drain_once local_hostname w).
Abbreviation seen := (view (appeared := appeared (w_host w)) (changed := changed (w_host w)) (gone := vanished (w_host w))).

(** A scan without a cache *)
Definition bare_scan (view : FileView) : ending := scan w view new_integrity.

Definition cut_short (view : FileView) : bool :=
  match bare_scan view with Interrupted _ => true | _ => false end.

(** The files a scan finds, with what [lstat] says of them *)
Definition found (view : FileView) : odict string FileState := bare_all (sc_snapshot (scan_of (bare_scan view))).

Definition paths_fit (view : FileView) : Prop := Forall path_fits (od_keys (found view)).

Lemma scan_bare view c :
  interrupted w view c = cut_short view ∧ bare_all (sc_snapshot (scan_of (scan w view c))) = found view.
Proof.
  pose proof (scan_roots_shape (w_max_hash_bytes w) (w_max_files w) (w_host_root w) (w_recursive w) view
    (baseline (ic_watcher c)) [] (w_paths w) (mkScan [] 0 (ic_hashed c) (ic_reused c) (ic_missing c))
    (mkScan [] 0 0 0 []) eq_refl) as Hs.
  unfold interrupted, cut_short, found, bare_scan, scan. cbn [ic_hashed ic_reused ic_missing ic_watcher baseline new_integrity new_watcher].
  destruct (scan_roots _ _ _ _ view (baseline (ic_watcher c)) _ _), (scan_roots _ _ _ _ view [] _ _); try done;
    injection Hs as Hs _; done.
Qed.

Lemma integrity_takes view now c events c' :
  well_formed (changed := changed (w_host w)) (baseline (ic_watcher c)) → paths_fit view → drain view now c = Ok (events, c') →
  if cut_short view then events = [] ∧ ic_watcher c' = ic_watcher c
  else ∃ snapshot, (NoDup (od_keys snapshot) ∧ Forall (λ kv, path_fits kv.1) snapshot) ∧
    bare_all snapshot = found view ∧
    take_snapshot local_hostname (diff (w_host w)) now snapshot (ic_watcher c) = (events, ic_watcher c').
Proof.
  intros _ Hfit Hrun. destruct (scan_bare view c) as [Hcut Hbare]. apply drain_once_baseline in Hrun. rewrite Hcut in Hrun.
  destruct (cut_short view); [done|]. destruct Hrun as [_ Htake].
  exists (sc_snapshot (scan_of (scan w view c))). split; [split|split; [exact Hbare|exact Htake]].
  - apply scan_roots_NoDup. constructor.
  - unfold paths_fit in Hfit. rewrite <-Hbare, bare_all_keys in Hfit. unfold od_keys in Hfit.
    rewrite Forall_fmap in Hfit. exact Hfit.
Qed.

(** ** Properties *)

(** C17: whoever applies the events of the collector to the files of its first
    complete scan knows after every complete scan which watched files exist and
    with which permission bits: a scan cut short by a stop reports nothing and
    forgets nothing, and digests read from the cache change none of it. *)
Theorem events_track_files polls events c first rest :
  Forall (λ p, paths_fit p.1) polls →
  drain_all drain polls new_integrity = Ok (events, c) →
  dead_letters (w_normalizer (ic_watcher c)) = 0 →
  complete cut_short polls = first :: rest →
  ∃ s0 raws,
    bare_all s0 = found first ∧
    Forall2 (λ raw e, map_raw local_hostname raw = Ok e) raws events ∧
    ∀ path, foldl (flip tell_file) (seen s0) raws !! path
            = (λ s, octal_mode (fs_mode s)) <$> od_get (found (default first (last rest))) path.
Proof.
  intros Hfit Hrun Hdead Hcomplete.
  destruct (@life_tells _ _ _ _ _ _ _ _ (integrity_telling (w_host w)) local_hostname _ _ drain ic_watcher paths_fit
    cut_short (λ view d, bare_all d = found view) integrity_takes polls new_integrity events c first rest
    eq_refl Hfit Hrun Hdead Hcomplete) as (s0 & raws & Hfirst & Hlast & _ & Hraws & Htell & Hdrafted).
  assert (foldl (flip tell_file) (seen s0) raws = seen (baseline (ic_watcher c))) as Htold by exact Htell.
  exists s0, raws. split; [done|split; [done|]]. intros path.
  rewrite Htold, view_lookup, <-Hlast, bare_all_get. by destruct (od_get (baseline (ic_watcher c)) path).
Qed.
End tracking.

Section cache.
Context (history : Z * Z → list change) (stamp_clock : Z → Z).
Context (local_hostname : string) (w : Watched).

Abbreviation drain := (drain_once local_hostname w).
Abbreviation content_at := (content_at history).
Abbreviation quiet := (quiet history).

(** C14: a digest from the stat cache is the one hashing the file again would
    give: after any sequence of scans, each entry of the last one that has a
    digest has that of the content its inode had during that very scan, when it
    was visited, unless it was changed in the course of the visit. *)
Theorem stat_cache_is_sound t0 polls t1 events c view now t2 events' c' path s digest :
  kernel_contract history stamp_clock → in_order history stamp_clock t0 polls t1 →
  drain_all drain polls new_integrity = Ok (events, c) →
  faithful_view history stamp_clock view t1 t2 → drain view now c = Ok (events', c') → interrupted w view c = false →
  od_get (baseline (ic_watcher c')) path = Some s → fs_sha256 s = Some digest →
  ∃ tl te, t1 ≤ tl ∧ tl ≤ te ∧ te ≤ t2 ∧
    (quiet (identity s) tl te → digest = sha256_hexdigest (content_at (identity s) tl)).
Proof.
  intros Hkernel Hord Hrun Hview Hstep Hint Hget Hdigest.
  destruct (drain_all_dated history stamp_clock Hkernel local_hostname w t0 polls t1 new_integrity events c)
    as [t Hdated]; [done|exists t0; constructor|done|].
  pose proof (drain_once_baseline _ _ _ _ _ _ _ Hstep) as Hbase. rewrite Hint in Hbase. destruct Hbase as [Hbase _].
  pose proof (scan_says history stamp_clock Hkernel w view c t1 t t2 Hview Hdated) as Hd. rewrite <-Hbase in Hd.
  destruct (dated_get _ _ _ _ _ _ _ Hd Hget) as (tl & te & Ht1 & Ht2 & Hle & _ & Hsays & _).
  exists tl, te. split_and!; [done..|]. by apply Hsays.
Qed.

(** What was found, was found by a scan. *)
Lemma baseline_seeded polls c events c' :
  (seeded (ic_watcher c) = false → baseline (ic_watcher c) = []) → drain_all drain polls c = Ok (events, c') →
  seeded (ic_watcher c') = false → baseline (ic_watcher c') = [].
Proof.
  revert c events. induction polls as [|[view now] polls IH]; intros c events Hc Hrun; [by injection Hrun as <- <-|].
  cbn [drain_all] in Hrun. apply result_bind_ok in Hrun as ([es c1] & Hrun1 & Hrun).
  apply result_bind_ok in Hrun as ([more c2] & Hrun2 & [= <- <-]). apply (IH c1 more); [|done].
  apply drain_once_baseline in Hrun1. destruct (interrupted w view c); [by destruct Hrun1 as [_ ->]|].
  destruct Hrun1 as [_ Htake].
  pose proof (take_snapshot_state (appeared := appeared (w_host w)) (changed := changed (w_host w))
    (gone := vanished (w_host w)) local_hostname now (sc_snapshot (scan_of (scan w view c))) (ic_watcher c)) as [_ Hs].
  unfold diff in Htake. rewrite Htake in Hs. cbn in Hs. congruence.
Qed.

(** The file an event is about, and the digest it states *)
Definition file_of (e : Event) : option string := file_path <$> ev_file e.
Definition digest_of (e : Event) : option string := f ← ev_file e; fh_sha256 (file_hash f).

Lemma raw_file_event host path s action severity seed t e :
  map_raw local_hostname (raw_file host path s action severity seed t) = Ok e →
  em_action (ev_event e) = action ∧ file_of e = Some (clip path MAX_PATH) ∧ digest_of e = fs_sha256 s.
Proof.
  unfold raw_file. cbn [map_raw]. unfold map_file, new_event.
  cbn [rf_action rf_path rf_id_seed rf_sha256 rf_size rf_mode]. generalize (clip path MAX_PATH). intros shown.
  generalize (compute_id [PartStr shown; PartStr action; PartStr seed]). intros id.
  case_match; [|discriminate]. intros [= <-]. done.
Qed.

(** A draft that says a file was modified is that of a file of the new snapshot
    with another digest. *)
Lemma modified_draft host old new (d : draft) t e :
  Forall (λ kv, path_fits kv.1) new →
  d ∈ diff host old new → map_raw local_hostname (d t) = Ok e → em_action (ev_event e) = "file_modified"%string →
  ∃ path p q, od_get old path = Some p ∧ (path, q) ∈ new ∧ content_changed p q = true ∧ file_of e = Some path.
Proof.
  intros Hnew Hd Hmap Hact. unfold diff, diff_with in Hd. apply elem_of_app in Hd as [Hd|Hd];
    apply list_elem_of_In, in_flat_map in Hd as ([path q] & Hin%list_elem_of_In & Hd%list_elem_of_In).
  - pose proof (proj1 (Forall_forall _ _) Hnew _ Hin) as Hfit. cbn in Hfit.
    destruct (od_get old path) as [p|] eqn:Hp.
    + exists path, p, q. unfold changed in Hd. apply elem_of_app in Hd as [Hd|Hd].
      * destruct (content_changed p q); [|by apply elem_of_nil in Hd]. apply list_elem_of_singleton in Hd as ->.
        destruct (raw_file_event _ _ _ _ _ _ _ _ Hmap) as (_ & Hf & _). by rewrite clip_fits in Hf.
      * destruct (attributes_changed p q); [|by apply elem_of_nil in Hd]. apply list_elem_of_singleton in Hd as ->.
        destruct (raw_file_event _ _ _ _ _ _ _ _ Hmap) as (Ha & _). by rewrite Ha in Hact.
    + apply list_elem_of_singleton in Hd as ->. destruct (raw_file_event _ _ _ _ _ _ _ _ Hmap) as (Ha & _).
      by rewrite Ha in Hact.
  - destruct (od_mem new path); [by apply elem_of_nil in Hd|]. apply list_elem_of_singleton in Hd as ->.
    destruct (raw_file_event _ _ _ _ _ _ _ _ Hmap) as (Ha & _). by rewrite Ha in Hact.
Qed.

(** What a complete scan reports of a file it and the last one could hash *)
Lemma drain_reports_digests view now c events c' path p q dp dq :
  seeded (ic_watcher c) = true →
  Forall (λ kv, path_fits kv.1) (baseline (ic_watcher c')) →
  drain view now c = Ok (events, c') → interrupted w view c = false →
  dead_letters (w_normalizer (ic_watcher c')) = dead_letters (w_normalizer (ic_watcher c)) →
  od_get (baseline (ic_watcher c)) path = Some p → fs_sha256 p = Some dp →
  od_get (baseline (ic_watcher c')) path = Some q → fs_sha256 q = Some dq →
  if String.eqb dp dq
  then ∀ e, e ∈ events → em_action (ev_event e) = "file_modified"%string → file_of e ≠ Some path
  else ∃ e, e ∈ events ∧ em_action (ev_event e) = "file_modified"%string ∧ file_of e = Some path ∧ digest_of e = Some dq.
Proof.
  intros Hseed Hfit Hstep Hint Hdead Hp Hdp Hq Hdq. apply drain_once_baseline in Hstep. rewrite Hint in Hstep.
  destruct Hstep as [Hbase Htake]. set (snapshot := sc_snapshot _) in *. rewrite Hbase in *.
  assert (Hnd : NoDup (od_keys snapshot)) by (apply scan_roots_NoDup; constructor).
  destruct (String.eqb_spec dp dq) as [Heq|Hne].
  - intros e He Hact Hfile. pose proof (take_snapshot_events local_hostname (diff (w_host w)) now snapshot (ic_watcher c) e) as Hev.
    rewrite Htake in Hev. destruct (Hev He) as (d & t & Hd & Hmap).
    destruct (modified_draft _ _ _ _ _ _ Hfit Hd Hmap Hact) as (path' & p' & q' & Hp' & Hq' & Hch & Hfile').
    rewrite Hfile in Hfile'. injection Hfile' as <-. apply (od_elem_of_get _ _ _ Hnd) in Hq'.
    rewrite Hp in Hp'. rewrite Hq in Hq'. injection Hp' as <-. injection Hq' as <-.
    unfold content_changed in Hch. rewrite Hdp, Hdq, Heq, String.eqb_refl in Hch. done.
  - pose proof (take_snapshot_reports (appeared := appeared (w_host w)) (changed := changed (w_host w))
      (gone := vanished (w_host w)) local_hostname now snapshot (ic_watcher c) (modified (w_host w) path q)) as Hrep.
    fold (diff (w_host w)) in Hrep. rewrite Htake in Hrep. destruct Hrep as (e & t & He & Hmap); [done|done| |].
    + unfold diff, diff_with. apply elem_of_app. left. apply list_elem_of_In, in_flat_map. exists (path, q).
      split; [apply list_elem_of_In; by apply od_get_elem_of|]. rewrite Hp. unfold changed, content_changed.
      rewrite Hdp, Hdq. destruct (String.eqb_spec dp dq); [done|]. by left.
    + pose proof (proj1 (Forall_forall _ _) Hfit _ (od_get_elem_of _ _ _ Hq)) as Hpath. cbn in Hpath.
      destruct (raw_file_event _ _ _ _ _ _ _ _ Hmap) as (? & Hf & ?). rewrite clip_fits in Hf by done. exists e. by rewrite <-Hdq.
Qed.

(** C13: between two scans a change of content is reported and nothing else is
    taken for one.  Of a file both scans could hash, visited undisturbed, the
    second puts out a modification event with its path and new digest if its
    content differs (whatever was done to its times and size to hide that), and
    no modification event for that path if it does not.  The paths watched are
    no longer than a record takes, and the scan dead-letters nothing. *)
Theorem content_changes_reported t0 polls t1 events c view now t2 events' c' path p q dp dq :
  kernel_contract history stamp_clock → in_order history stamp_clock t0 polls t1 →
  drain_all drain polls new_integrity = Ok (events, c) →
  faithful_view history stamp_clock view t1 t2 → drain view now c = Ok (events', c') → interrupted w view c = false →
  paths_fit w view →
  dead_letters (w_normalizer (ic_watcher c')) = dead_letters (w_normalizer (ic_watcher c)) →
  od_get (baseline (ic_watcher c)) path = Some p → fs_sha256 p = Some dp →
  od_get (baseline (ic_watcher c')) path = Some q → fs_sha256 q = Some dq →
  ∃ tl te tl' te', tl ≤ te ∧ te ≤ t1 ∧ t1 ≤ tl' ∧ tl' ≤ te' ∧ te' ≤ t2 ∧
    (quiet (identity p) tl te → quiet (identity q) tl' te' →
     let before := content_at (identity p) tl in
     let after := content_at (identity q) tl' in
     (sha256_hexdigest before = sha256_hexdigest after → before = after) →
     if bool_decide (before = after)
     then ∀ e, e ∈ events' → em_action (ev_event e) = "file_modified"%string → file_of e ≠ Some path
     else ∃ e, e ∈ events' ∧ em_action (ev_event e) = "file_modified"%string ∧ file_of e = Some path ∧
            digest_of e = Some (sha256_hexdigest after)).
Proof.
  intros Hkernel Hord Hrun Hview Hstep Hint Hfit Hdead Hp Hdp Hq Hdq.
  destruct (drain_all_dated history stamp_clock Hkernel local_hostname w t0 polls t1 new_integrity events c)
    as [t Hdated]; [done|exists t0; constructor|done|].
  pose proof (drain_once_baseline _ _ _ _ _ _ _ Hstep) as Hbase. rewrite Hint in Hbase. destruct Hbase as [Hbase _].
  pose proof (scan_says history stamp_clock Hkernel w view c t1 t t2 Hview Hdated) as Hd. rewrite <-Hbase in Hd.
  destruct (dated_get _ _ _ _ _ _ _ Hdated Hp) as (tl & te & _ & Ht1 & Hle & _ & Hsays & _).
  destruct (dated_get _ _ _ _ _ _ _ Hd Hq) as (tl' & te' & Ht1' & Ht2 & Hle' & _ & Hsays' & _).
  exists tl, te, tl', te'. do 5 (split; [done|]). intros Hquiet Hquiet' before after Hinj.
  pose proof (Hsays _ Hdp Hquiet) as ->. pose proof (Hsays' _ Hdq Hquiet') as ->. fold before in Hdp. fold after in Hdq.
  assert (Hseed : seeded (ic_watcher c) = true).
  { apply not_false_is_true. intros Hs. by rewrite (baseline_seeded polls new_integrity events c (λ _, eq_refl) Hrun Hs) in Hp. }
  assert (Hshort : Forall (λ kv, path_fits kv.1) (baseline (ic_watcher c'))).
  { rewrite Hbase. unfold paths_fit in Hfit. rewrite <-(proj2 (scan_bare w view c)), bare_all_keys in Hfit.
    unfold od_keys in Hfit. by rewrite Forall_fmap in Hfit. }
  pose proof (drain_reports_digests _ _ _ _ _ _ _ _ _ _ Hseed Hshort Hstep Hint Hdead Hp Hdp Hq Hdq) as Hrep.
  case_bool_decide as Heq; destruct (String.eqb_spec (sha256_hexdigest before) (sha256_hexdigest after)) as [Hsame|Hsame].
  - exact Hrep.
  - by rewrite Heq in Hsame.
  - by destruct (Heq (Hinj Hsame)).
  - exact Hrep.
Qed.
End cache.

(** ** Witnesses *)

Lemma files_reported_by_host_path_witness :
  host_path (path_of "/host") (path_of "/host/etc/ssh/sshd_config") = "/etc/ssh/sshd_config"%string.
Proof.
  exact (files_reported_by_host_path (path_of "/host") (path_of "/etc") ["ssh"; "sshd_config"]%string
    ltac:(vm_compute; reflexivity) ltac:(vm_compute; discriminate)).
Defined.

(** One watched file, written at the start and again ten seconds later by
    someone who restores its size and its modification time. *)
Definition example_history (i : Z * Z) : list change :=
  if bool_decide (i = (5, 1)) then [mkChange 1000 [97]; mkChange 10000000000 [98]] else [].

Definition example_stat (mode ctime : Z) : Stat := mkStat Regular mode 1 1000 ctime 5 1 0 0.

Definition example_view (time : Z) (late : bool) (st : Stat) (bytes : list Z) : FileView :=
  mkFileView time (λ _, Some st) (λ _, [])
    (λ _ _, mkVisit late (Some st) (Some (mkOpenFile (Some st) (Some bytes)))).

Definition example_watched : Watched := mkWatched [path_of "/etc/passwd"] true "h" 1000 100 HOST_ROOT.

Definition before_change (time : Z) : FileView := example_view time false (example_stat 420 1000) [97].
Definition after_change (time : Z) : FileView := example_view time false (example_stat 420 10000000000) [98].

Lemma example_kernel : kernel_contract example_history id.
Proof.
  split; [|by intros t; unfold RACY_WINDOW_NS, id; lia]. intros i. unfold example_history.
  case_bool_decide; repeat constructor; simpl; lia.
Qed.

Lemma example_faithful time st bytes :
  ctime_at example_history id (5, 1) time = Some (st_ctime_ns st) → st_ino st = 5 → st_dev st = 1 →
  bytes = content_at example_history (5, 1) time →
  faithful_view example_history id (example_view time false st bytes) time time.
Proof.
  intros Hct Hino Hdev ->. split; [lia|]. intros i path. exists time, time. split_and!; [done..|].
  constructor; cbn [fv_visit example_view v_lstat v_open]; [lia| |].
  - intros s [= <-]. by rewrite Hino, Hdev.
  - intros f s b [= <-] [= <-] [= <-] _. by rewrite Hino, Hdev.
Qed.

Definition example_poll (view : FileView) : FileView * (nat → Z) := (view, Z.of_nat).

Definition drained (polls : list (FileView * (nat → Z))) : list Event * FileIntegrityCollector :=
  match drain_all (drain_once "h" example_watched) polls new_integrity with Ok r => r | Raise _ => ([], new_integrity) end.

(** The second scan reads the digest from the cache, the third cannot. *)
Example example_cached :
  let c := (drained (map example_poll [before_change 4000000000; before_change 6000000000; after_change 20000000000])).2 in
  (ic_hashed c, ic_reused c) = (2, 1).
Proof. vm_compute. reflexivity. Qed.

Example example_reported :
  map (λ e, (em_action (ev_event e), ev_message e))
    (drained (map example_poll [before_change 4000000000; example_view 5 true (example_stat 420 0) [];
       after_change 20000000000; example_view 21000000000 false (example_stat 2541 21000000000) [98]])).1
  = [("file_modified", "file_modified: /etc/passwd");
     ("file_attributes_modified", "file_attributes_modified: /etc/passwd")]%string.
Proof. vm_compute. reflexivity. Qed.

Lemma events_track_files_witness :
  let view := example_view 21000000000 false (example_stat 2541 21000000000) [98] in
  let polls := map example_poll [before_change 4000000000; view] in
  drain_all (drain_once "h" example_watched) polls new_integrity = Ok (drained polls) ∧
  ∃ s0 raws,
    foldl (flip tell_file) (Base.view (appeared := appeared "h") (changed := changed "h") (gone := vanished "h") s0) raws
      !! "/etc/passwd"%string = Some "4755"%string.
Proof.
  intros view polls. split; [vm_compute; reflexivity|].
  destruct (events_track_files "h" example_watched polls (drained polls).1 (drained polls).2 (before_change 4000000000) [view])
    as (s0 & raws & _ & _ & H).
  - repeat constructor; vm_compute; discriminate.
  - vm_compute. reflexivity.
  - vm_compute. reflexivity.
  - reflexivity.
  - exists s0, raws. etransitivity; [exact (H "/etc/passwd"%string)|vm_compute; reflexivity].
Defined.

Lemma stat_cache_is_sound_witness :
  let polls := map example_poll [before_change 4000000000] in
  let c := (drained polls).2 in
  let later := drained (polls ++ [example_poll (before_change 6000000000)]) in
  ic_reused later.2 = 1 ∧
  ∃ tl te, 6000000000 ≤ tl ∧ te ≤ 6000000000 ∧
    (quiet example_history (5, 1) tl te →
     sha256_hexdigest [97] = sha256_hexdigest (content_at example_history (5, 1) tl)).
Proof.
  intros polls c later. split; [vm_compute; reflexivity|].
  destruct (stat_cache_is_sound example_history id "h" example_watched 4000000000 polls 6000000000 [] c
    (before_change 6000000000) Z.of_nat 6000000000 [] later.2 "/etc/passwd"
    (mkFileState 1 1000 420 (Some (sha256_hexdigest [97])) 1000 5 1 true 0 0) (sha256_hexdigest [97]))
    as (tl & te & H1 & _ & H2 & H3).
  - exact example_kernel.
  - exists 4000000000. split; [|simpl; lia]. apply example_faithful; vm_compute; reflexivity.
  - vm_compute. reflexivity.
  - apply example_faithful; vm_compute; reflexivity.
  - vm_compute. reflexivity.
  - vm_compute. reflexivity.
  - vm_compute. reflexivity.
  - reflexivity.
  - exists tl, te. split; [exact H1|split; [exact H2|exact H3]].
Defined.

Lemma content_changes_reported_witness :
  let polls := map example_poll [before_change 4000000000] in
  let later := drained (polls ++ [example_poll (after_change 20000000000)]) in
  map (λ e, em_action (ev_event e)) later.1 = ["file_modified"%string] ∧
  ∃ tl te tl' te', te ≤ 20000000000 ∧ 20000000000 ≤ tl' ∧
    (quiet example_history (5, 1) tl te → quiet example_history (5, 1) tl' te' →
     content_at example_history (5, 1) tl = [97] → content_at example_history (5, 1) tl' = [98] →
     ∃ e, e ∈ later.1 ∧ em_action (ev_event e) = "file_modified"%string ∧ file_of e = Some "/etc/passwd"%string ∧
       digest_of e = Some (sha256_hexdigest [98])).
Proof.
  intros polls later. split; [vm_compute; reflexivity|].
  destruct (content_changes_reported example_history id "h" example_watched 4000000000 polls 20000000000 [] (drained polls).2
    (after_change 20000000000) Z.of_nat 20000000000 later.1 later.2 "/etc/passwd"
    (mkFileState 1 1000 420 (Some (sha256_hexdigest [97])) 1000 5 1 true 0 0)
    (mkFileState 1 1000 420 (Some (sha256_hexdigest [98])) 10000000000 5 1 true 0 0)
    (sha256_hexdigest [97]) (sha256_hexdigest [98]))
    as (tl & te & tl' & te' & _ & H1 & H2 & _ & _ & H3).
  - exact example_kernel.
  - exists 4000000000. split; [|simpl; lia]. apply example_faithful; vm_compute; reflexivity.
  - vm_compute. reflexivity.
  - apply example_faithful; vm_compute; reflexivity.
  - vm_compute. reflexivity.
  - vm_compute. reflexivity.
  - repeat constructor; vm_compute; discriminate.
  - vm_compute. reflexivity.
  - vm_compute. reflexivity.
  - reflexivity.
  - vm_compute. reflexivity.
  - reflexivity.
  - exists tl, te, tl', te'. split; [exact H1|split; [exact H2|]]. intros Hq Hq' Hb Ha.
    specialize (H3 Hq Hq'). cbv beta zeta delta [identity] in H3.
    cbn [fs_inode fs_device] in H3. rewrite Hb, Ha in H3. apply H3.
    intros Hsame. vm_compute in Hsame. discriminate.
Defined.
