(* ===== verification/AuthParse.v ===== *)
(** * Auth-log lines ([collectors/authlog.py], the parser)

    The patterns, the two timestamp formats, and [parse_auth_records]: what one
    line of an sshd log stands for.  A line is its decoded text; the zone is a
    fixed offset in microseconds; [now] is the instant the call reads the clock
    at, which is far from the end of the calendar. *)

From S2P Require Import Prelude ODict PyText PyRe Events Calendar NetParse Normalizer.
Local Open Scope string_scope.
Local Open Scope Z_scope.

(** ** Constants *)

Definition MAX_LINE_LEN : Z := 8192.
Definition MAX_REPEAT : Z := 1000.

Definition SEV_ACCEPTED : Z := 2.
Definition SEV_FAILED : Z := 4.
Definition SEV_INVALID : Z := 5.
Definition ACTION_OK : string := "ssh_login_succeeded".
Definition ACTION_FAIL : string := "ssh_login_failed".
Definition OUTCOME_OK : string := "success".
Definition OUTCOME_FAIL : string := "failure".

Definition MONTHS : odict string Z := [
  ("Jan", 1); ("Feb", 2); ("Mar", 3); ("Apr", 4); ("May", 5); ("Jun", 6);
  ("Jul", 7); ("Aug", 8); ("Sep", 9); ("Oct", 10); ("Nov", 11); ("Dec", 12)].

(** ** Patterns *)

Definition CLOCK : re :=
  Seqs [Times 2 Digit; Chr ":"; Times 2 Digit; Chr ":"; Times 2 Digit].

Definition BSD : re :=
  Seqs [Cls is_upper; Times 2 (Cls is_lower); Plus Space; Between 1 2 Digit; Space; CLOCK].

Definition ISO : re :=
  Seqs [Times 4 Digit; Chr "-"; Times 2 Digit; Chr "-"; Times 2 Digit; Chr "T"; CLOCK;
        Opt (Seqs [Chr "."; Between 1 9 Digit]);
        Alt (Chr "Z")
          (Seqs [Cls (λ c, Ascii.eqb c "+" || Ascii.eqb c "-"); Times 2 Digit; Opt (Chr ":"); Times 2 Digit])].

Definition is_proc (c : ascii) : bool :=
  is_word c || Ascii.eqb c "/" || Ascii.eqb c "." || Ascii.eqb c "-".

(** [_SYSLOG_RE] *)
Definition SYSLOG_RE : re :=
  Seqs [Alt (Group "bsd" BSD) (Group "iso" ISO); Space;
        Group "host" (Plus NonSpace); Space;
        Group "proc" (PlusLazy (Cls is_proc));
        Opt (Seqs [Chr "["; Group "pid" (Between 1 10 Digit); Chr "]"]); Chr ":"; Space;
        Group "msg" (Star Dot); Eol].

Definition SSHD_PROCS : list string := ["sshd"; "sshd-session"].

(** [_REPEAT_RE] *)
Definition REPEAT_RE : re :=
  Seqs [Lit "message repeated "; Group "count" (Between 1 9 Digit); Lit " times: [";
        Opt Space; Group "inner" (Star Dot); Chr "]"; Eol].

(** [_METHODS] *)
Definition METHODS : re :=
  Group "method"
    (Alts (Lit "password") [Lit "publickey"; Seq (Lit "keyboard-interactive") (Opt (Lit "/pam"));
                            Lit "hostbased"; Lit "gssapi-with-mic"]).

(** [_TAIL] *)
Definition TAIL : re :=
  Seqs [Lit " from "; Group "ip" (Plus NonSpace); Lit " port "; Group "port" (Between 1 5 Digit);
        Opt (Seqs [Plus Space; Lit "ssh2"; WordEnd; Star Dot]); Eol].

Definition USER : re := Group "user" (Plus Dot).

Definition FAILED_RE : re :=
  Seqs [Lit "Failed "; METHODS; Lit " for "; Opt (Group "invalid" (Lit "invalid user ")); USER; TAIL].
Definition ACCEPTED_RE : re := Seqs [Lit "Accepted "; METHODS; Lit " for "; USER; TAIL].
Definition INVALID_RE : re := Seqs [Lit "Invalid user "; USER; TAIL].

(** ** Message bodies *)

Record Body := mkBody {
  bd_user : string; bd_ip : string; bd_port : string;
  bd_action : string; bd_outcome : string; bd_severity : Z;
}.

(** A group that takes part in every match *)
Definition always (g : captures) (name : string) : string := default "" (group g name).

Definition body_of (g : captures) (action outcome : string) (severity : Z) : Body :=
  mkBody (always g "user") (always g "ip") (always g "port") action outcome severity.

(** [_match_body] *)
Definition match_body (msg : string) : option Body :=
  match re_match FAILED_RE msg with
  | Some failed =>
      let invalid := match group failed "invalid" with Some s => negb (String.eqb s "") | None => false end in
      Some (body_of failed ACTION_FAIL OUTCOME_FAIL (if invalid then SEV_INVALID else SEV_FAILED))
  | None =>
      match re_match ACCEPTED_RE msg with
      | Some accepted => Some (body_of accepted ACTION_OK OUTCOME_OK SEV_ACCEPTED)
      | None =>
          match re_match INVALID_RE msg with
          | Some invalid => Some (body_of invalid ACTION_FAIL OUTCOME_FAIL SEV_INVALID)
          | None => None
          end
      end
  end.

(** ** Timestamps *)

(** [except ValueError: return None] *)
Definition catch_value_error {A} (r : result (option A)) : result (option A) :=
  match r with Raise ValueError => Ok None | r => r end.

(** [_parse_bsd_timestamp] *)
Definition parse_bsd_timestamp (year : option Z) (tz now : Z) (raw : string) : result (option datetime) :=
  match str_words raw with
  | [month_name; day; clock] =>
      match od_get MONTHS month_name with
      | None => Ok None
      | Some month =>
          let current_year := year_of (now + tz) in
          local ← catch_value_error (
            parts ← mapM (py_int 10) (str_split ":" clock);
            match parts with
            | [hour; minute; second] =>
                d ← py_int 10 day;
                let chosen := match year with Some y => if y =? 0 then current_year else y | None => current_year end in
                let c := mkCivil chosen month d hour minute second 0 in
                local ← make_datetime c tz;
                if bool_decide (year = None) && (now + DAY_US <? dt_instant local)
                then Some <$> make_datetime (with_year (current_year - 1) c) tz
                else Ok (Some local)
            | _ => Raise ValueError
            end);
          match local with Some local => Some <$> to_utc local | None => Ok None end
      end
  | _ => Raise ValueError
  end.

Definition num (s : string) : Z := digits_value 10 0 s.

Fixpoint span_digits (s : string) : string * string :=
  match s with
  | String c s' => if is_digit c then let '(d, r) := span_digits s' in (String c d, r) else ("", s)
  | "" => ("", "")
  end.

(** [datetime.fromisoformat], on text of the shape [ISO] *)
Definition fromisoformat (raw : string) : result datetime :=
  let at_ i n := num (str_take n (str_drop i raw)) in
  let '(fraction, zone) :=
    match str_drop 19 raw with
    | String "." rest => span_digits rest
    | rest => ("", rest)
    end in
  let digits := str_take 6 fraction in
  let us := num digits * 10 ^ (6 - strlen digits) in
  let offset :=
    match zone with
    | String sign rest =>
        if Ascii.eqb sign "Z" then 0
        else
          let hh := num (str_take 2 rest) in
          let mm := num (match str_drop 2 rest with String ":" r => r | r => r end) in
          (if Ascii.eqb sign "-" then -1 else 1) * (hh * 3600 + mm * 60) * SECOND
    | "" => 0
    end in
  _ ← raise_if (DAY_US <=? Z.abs offset) ValueError;
  make_datetime (mkCivil (at_ 0 4) (at_ 5 2) (at_ 8 2) (at_ 11 2) (at_ 14 2) (at_ 17 2) us)%nat offset.

(** [_parse_iso_timestamp] *)
Definition parse_iso_timestamp (raw : string) : result (option datetime) :=
  catch_value_error (t ← fromisoformat raw; Some <$> to_utc t).

(** ** Lines *)

Fixpoint rstrip_newlines (s : string) : string :=
  match s with
  | "" => ""
  | String c s' =>
      match rstrip_newlines s' with
      | "" => if Ascii.eqb c NL then "" else String c ""
      | t => String c t
      end
  end.

Definition with_occurrence (n : Z) (r : RawAuthEvent) : RawAuthEvent :=
  mkRawAuth (ra_occurred_at r) (ra_host r) (ra_syslog_ts r) (ra_pid r) (ra_action r) (ra_outcome r)
    (ra_severity r) (ra_user r) (ra_ip r) (ra_port r) n (ra_message r).

Section parse.
Context (year : option Z) (tz : Z) (host_override : option string) (now : Z).

(** The text to parse and how often it counts *)
Definition unfold_repeat (message : string) : result (string * Z) :=
  match re_match REPEAT_RE message with
  | Some repeat => n ← py_int 10 (always repeat "count"); Ok (always repeat "inner", Z.min n MAX_REPEAT)
  | None => Ok (message, 1)
  end.

(** The header's timestamp, as written and read *)
Definition header_time (syslog : captures) : result (string * option datetime) :=
  match group syslog "bsd" with
  | Some raw => t ← parse_bsd_timestamp year tz now raw; Ok (raw, t)
  | None => let raw := always syslog "iso" in t ← parse_iso_timestamp raw; Ok (raw, t)
  end.

(** [parse_auth_records] *)
Definition parse_auth_records (line : string) : result (list RawAuthEvent) :=
  if MAX_LINE_LEN <? strlen line then Ok []
  else
    match re_match SYSLOG_RE (rstrip_newlines line) with
    | None => Ok []
    | Some syslog =>
        if negb (bool_decide (always syslog "proc" ∈ SSHD_PROCS)) then Ok []
        else
          '(message, count) ← unfold_repeat (always syslog "msg");
          match match_body message with
          | None => Ok []
          | Some body =>
              '(raw_ts, timestamp) ← header_time syslog;
              match timestamp with
              | None => Ok []
              | Some timestamp =>
                  match py_int 10 (bd_port body) with
                  | Raise _ => Ok []
                  | Ok port =>
                      let first := mkRawAuth timestamp (or_else host_override (always syslog "host")) raw_ts
                        (or_else (group syslog "pid") "") (bd_action body) (bd_outcome body)
                        (bd_severity body) (bd_user body) (bd_ip body) port 0 message in
                      if valid_raw_auth first
                      then Ok (map (λ n, with_occurrence n first) (seqZ 0 count))
                      else Ok []
                  end
              end
          end
    end.

(** [parse_auth_line] *)
Definition parse_auth_line (line : string) : result (option RawAuthEvent) :=
  records ← parse_auth_records line; Ok (head records).
End parse.

(** A reading of the clock: 16 June 2026, noon *)
Definition example_now : Z := civil_us (mkCivil 2026 6 16 12 0 0 0).

Example auth_line :
  parse_auth_records None 0 None example_now
    "Jun 16 12:00:00 web1 sshd-session[42]: Failed password for invalid user a from b from 6.6.6.6 port 1 from 10.0.0.7 port 50022 ssh2"
  = Ok [mkRawAuth (mkDatetime example_now (Some 0)) "web1" "Jun 16 12:00:00" "42" ACTION_FAIL OUTCOME_FAIL
          SEV_INVALID "a from b from 6.6.6.6 port 1" "10.0.0.7" 50022 0
          "Failed password for invalid user a from b from 6.6.6.6 port 1 from 10.0.0.7 port 50022 ssh2"].
Proof. vm_compute. reflexivity. Qed.

Example repeated_line :
  (map ra_occurrence <$> parse_auth_records None 0 None example_now
    "2026-06-16T14:00:00.5+02:00 h sshd[1]: message repeated 3 times: [ Accepted publickey for root from ::1 port 22 ssh2: RSA SHA256:x]")
  = Ok [0; 1; 2].
Proof. vm_compute. reflexivity. Qed.

(** ** What modelling showed *)

(** The key id of a certificate is chosen by the client (it can sign its own)
    and [sshd] writes it behind the address: the greedy user name swallows the
    real address, and the one in the key id is reported. *)
Example key_id_spoofs_address :
  let line := "Jun 16 12:00:00 h sshd[7]: Failed publickey for root from 10.0.0.7 port 50022 ssh2: ED25519-CERT SHA256:abc ID x from 6.6.6.6 port 1 ssh2 (serial 0) CA ED25519 SHA256:def" in
  (map ra_ip <$> parse_auth_records None 0 None example_now line) = Ok ["6.6.6.6"].
Proof. vm_compute. reflexivity. Qed.

(** An offset that leads out of the calendar raises [OverflowError], which is
    not the [ValueError] that is caught: one such line ends the collector. *)
Example overflow_escapes :
  map (λ ts, is_ok (parse_auth_records None 0 None example_now
               (ts +:+ " h sshd[7]: Accepted password for root from 10.0.0.7 port 1 ssh2")))
    ["0001-01-01T00:00:00+14:00"; "0001-01-01T00:00:00Z"; "9999-12-31T23:59:59-14:00"; "0000-01-01T00:00:00Z"]
  = [false; true; false; true].
Proof. vm_compute. reflexivity. Qed.

(** At the turn of the year a line stamped a moment ahead of the clock (a zone
    east of the configured one suffices) is dated a year back. *)
Example new_year_dated_back :
  parse_bsd_timestamp None 0 (civil_us (mkCivil 2026 12 31 23 59 59 0)) "Jan  1 00:00:01"
  = Ok (Some (mkDatetime (civil_us (mkCivil 2026 1 1 0 0 1 0)) (Some 0))).
Proof. vm_compute. reflexivity. Qed.

Local Close Scope string_scope.

(** ** Lemmas *)

#[local] Arguments run_re : simpl never.
#[local] Arguments Lit : simpl never.
#[local] Arguments str_startswith : simpl never.

Definition one_line (s : string) : bool := str_forall (λ c, negb (Ascii.eqb c NL)) s.

Lemma contains_suffix p a b : str_contains p (a +:+ b) = false → str_startswith b p = false.
Proof.
  induction a as [|c a IH].
  - change ("" +:+ b)%string with b. intros H. destruct b; cbn [str_contains] in H;
      apply orb_false_iff in H as [H _]; exact H.
  - rewrite string_app_cons. simpl. intros [_ H]%orb_false_iff. by apply IH.
Qed.

Section blanks.
Local Open Scope string_scope.

(** What starts with a blank is not found inside a word. *)
Lemma contains_word p w s :
  no_space w = true → str_contains (String " " p) (w +:+ s) = str_contains (String " " p) s.
Proof.
  induction w as [|c w IH]; [done|]. unfold no_space in *. cbn [str_forall].
  intros [Hc Hw]%andb_true_iff. rewrite string_app_cons. cbn [str_contains]. rewrite prefix_cons, IH by done.
  by destruct (Ascii.eqb_spec " " c) as [<-|].
Qed.

Lemma prefix_word w v s :
  no_space w = true → no_space v = true →
  String.prefix (w +:+ " ") (v +:+ String " " s) = String.eqb w v.
Proof.
  unfold no_space. revert v. induction w as [|c w IH]; intros [|d v]; cbn [str_forall String.eqb];
    rewrite ?string_app_cons; intros Hw Hv.
  - by destruct s.
  - change ("" +:+ " ") with " ". rewrite prefix_cons. apply andb_true_iff in Hv as [Hd _].
    by destruct (Ascii.eqb_spec " " d) as [<-|].
  - change ("" +:+ String " " s) with (String " " s). rewrite prefix_cons.
    apply andb_true_iff in Hw as [Hc _]. by destruct (Ascii.eqb_spec c " ") as [->|].
  - rewrite prefix_cons. apply andb_true_iff in Hw as [_ Hw], Hv as [_ Hv]. rewrite IH by done.
    by destruct (Ascii.eqb c d).
Qed.

(** What [sshd] may write behind the port: nothing, or the protocol and more,
    in which no other address appears. *)
Definition ending_ok (ending : string) : Prop :=
  str_contains " from " ending = false ∧
  (ending = "" ∨ ∃ e, ending = " ssh2" +:+ e ∧ word_follows e = false ∧ one_line e = true).

Definition is_port (port : string) : Prop :=
  str_forall is_digit port = true ∧ (1 ≤ String.length port ≤ 5)%nat.

Definition is_address (ip : string) : Prop := ip ≠ "" ∧ ip ≠ "from" ∧ no_space ip = true.

Definition tail_text (ip port ending : string) : string :=
  " from " +:+ ip +:+ " port " +:+ port +:+ ending.

Lemma digits_word s : str_forall is_digit s = true → no_space s = true.
Proof.
  unfold no_space. induction s as [|c s IH]; [done|]. simpl. intros [Hc Hs]%andb_true_iff.
  rewrite IH by done. rewrite andb_true_r. revert c Hc. clear.
  intros c. assert (implb (is_digit c) (negb (is_space c)) = true) as H.
  { revert c. apply all_chars_forall. by vm_compute. }
  by destruct (is_digit c).
Qed.

Lemma no_later_address ip port ending t1 t2 :
  is_address ip → is_port port → ending_ok ending →
  tail_text ip port ending = t1 +:+ t2 → t1 ≠ "" → str_startswith t2 " from " = false.
Proof.
  intros (Hip0 & Hipf & Hip) [Hd Hl] [Hend _] Ht Hne. destruct t1 as [|c t1]; [done|].
  unfold tail_text in Ht. rewrite !string_app_cons in Ht. injection Ht as _ Ht.
  change (String "f" ?x) with ("from" +:+ String " " (ip +:+ " port " +:+ port +:+ ending)) in Ht.
  apply (contains_suffix _ t1). rewrite <-Ht. rewrite contains_word by done.
  cbn [str_contains]. apply orb_false_iff. split.
  - rewrite prefix_cons. change "from " with ("from" +:+ " ").
    change (" port " +:+ ?x) with (String " " ("port " +:+ x)). rewrite prefix_word by done.
    by destruct (String.eqb_spec "from" ip).
  - rewrite contains_word by done. change (" port " +:+ ?x) with (String " " ("port" +:+ String " " x)).
    cbn [str_contains]. apply orb_false_iff. split; [by rewrite prefix_cons|]. rewrite contains_word by done.
    cbn [str_contains]. apply orb_false_iff. split.
    + destruct port as [|d port]; [simpl in Hl; lia|]. rewrite string_app_cons, !prefix_cons.
      cbn [str_forall] in Hd. apply andb_true_iff in Hd as [Hd _]. by destruct (Ascii.eqb_spec "f" d) as [<-|].
    + rewrite contains_word by (by apply digits_word). done.
Qed.

(** The end of a message is read as written. *)
Lemma tail_match ip port ending g :
  is_address ip → is_port port → ending_ok ending →
  run_re TAIL (tail_text ip port ending) g (λ _ g, Some g) = Some (od_set (od_set g "ip" ip) "port" port).
Proof.
  intros (Hip0 & _ & Hip) [Hd Hl] [_ Hend]. unfold TAIL, tail_text. cbn [Seqs]. rewrite run_seq, run_lit.
  rewrite run_seq, run_group. unfold NonSpace, Plus.
  apply run_cls_exact; [done|done|destruct ip; [done|simpl; lia]|done|].
  rewrite consumed_app, run_seq, run_lit, run_seq, run_group. unfold Between, Digit.
  apply run_cls_exact; [done|by destruct Hend as [->|(e & -> & _)]|lia|simpl; apply Nat.leb_le; lia|].
  rewrite consumed_app, run_seq, run_opt. destruct Hend as [->|(e & -> & Hw & He)]; [done|].
  rewrite run_seq. change (" ssh2" +:+ e) with (" " +:+ ("ssh2" +:+ e)).
  rewrite (run_cls_exact is_space 1 None _ (od_set (od_set g "ip" ip) "port" port)); [done|done|done|simpl; lia|done|].
  rewrite run_seq, run_lit, run_seq. unfold run_re at 1. rewrite Hw. fold (@run_re captures).
  unfold Dot. by apply run_star_all.
Qed.
End blanks.

(** *** What [sshd] writes *)

Section messages.
Local Open Scope string_scope.

Definition METHOD_NAMES : list string :=
  ["password"; "publickey"; "keyboard-interactive"; "keyboard-interactive/pam"; "hostbased"; "gssapi-with-mic"].

Inductive sshd_event :=
  | FailedLogin (method : string) (invalid : bool)
  | AcceptedLogin (method : string)
  | InvalidUser.

Definition sshd_message (e : sshd_event) (user ip port ending : string) : string :=
  match e with
  | FailedLogin m invalid =>
      "Failed " +:+ m +:+ " for " +:+ (if invalid then "invalid user " else "") +:+ user
      +:+ tail_text ip port ending
  | AcceptedLogin m => "Accepted " +:+ m +:+ " for " +:+ user +:+ tail_text ip port ending
  | InvalidUser => "Invalid user " +:+ user +:+ tail_text ip port ending
  end.

Definition event_ok (e : sshd_event) (user : string) : Prop :=
  match e with
  | FailedLogin m invalid =>
      m ∈ METHOD_NAMES ∧ (invalid = false → str_startswith (user +:+ " ") "invalid user " = false)
  | AcceptedLogin m => m ∈ METHOD_NAMES
  | InvalidUser => True
  end.

Definition event_body (e : sshd_event) (user ip port : string) : Body :=
  match e with
  | FailedLogin _ invalid =>
      mkBody user ip port ACTION_FAIL OUTCOME_FAIL (if invalid then SEV_INVALID else SEV_FAILED)
  | AcceptedLogin _ => mkBody user ip port ACTION_OK OUTCOME_OK SEV_ACCEPTED
  | InvalidUser => mkBody user ip port ACTION_FAIL OUTCOME_FAIL SEV_INVALID
  end.

Lemma run_methods m s g (k : string → captures → option captures) x :
  m ∈ METHOD_NAMES → k (" for " +:+ s) (od_set g "method" m) = Some x →
  run_re METHODS (m +:+ " for " +:+ s) g k = Some x.
Proof.
  intros Hm Hk. unfold METHODS. rewrite run_group. cbn [Alts].
  assert (∀ p q, str_startswith (m +:+ " for " +:+ s) p = false →
    run_re (Seq (Lit p) q) (m +:+ " for " +:+ s) g
      (λ s' g', k s' (od_set g' "method" (consumed (m +:+ " for " +:+ s) s'))) = None) as Hseq.
  { intros p q Hp. by rewrite run_seq, run_lit_none. }
  unfold METHOD_NAMES in Hm. rewrite !elem_of_cons, elem_of_nil in Hm.
  destruct Hm as [->|[->|[->|[->|[->|[->|[]]]]]]];
    repeat (rewrite run_alt_r by (first [by apply run_lit_none|by apply Hseq]));
    try (by first [apply run_alt_l|idtac]; rewrite run_lit, consumed_app).
  - apply run_alt_l. by rewrite run_seq, run_lit, run_opt, run_lit_none, consumed_app.
  - apply run_alt_l. rewrite run_seq.
    change ("keyboard-interactive/pam" +:+ ?x) with ("keyboard-interactive" +:+ ("/pam" +:+ x)).
    rewrite run_lit, run_opt, run_lit.
    change ("keyboard-interactive" +:+ ("/pam" +:+ ?x)) with ("keyboard-interactive/pam" +:+ x).
    rewrite consumed_app. replace (_ <? _)%nat with true; [by rewrite Hk|].
    symmetry. apply Nat.ltb_lt. rewrite !string_length_app. simpl. lia.
Qed.

(** The greedy user name ends before the last address: nothing a client puts
    in it moves the address that is read. *)
Lemma run_user user ip port ending g :
  user ≠ "" → one_line user = true → is_address ip → is_port port → ending_ok ending →
  run_re (Seq USER TAIL) (user +:+ tail_text ip port ending) g (λ _ g, Some g)
  = Some (od_set (od_set (od_set g "user" user) "ip" ip) "port" port).
Proof.
  intros Hne Hone Hip Hport Hend. unfold USER. rewrite run_seq, run_group. unfold Dot.
  apply run_plus_dot; [done|done| |].
  - rewrite consumed_app. by apply tail_match.
  - intros t1 t2 Ht Hne1 _. unfold TAIL. cbn [Seqs]. rewrite run_seq, run_lit_none; [done|].
    by eapply no_later_address.
Qed.

Lemma not_invalid user ip port ending :
  str_startswith (user +:+ " ") "invalid user " = false →
  str_startswith (user +:+ tail_text ip port ending) "invalid user " = false.
Proof.
  unfold str_startswith. intros H.
  do 13 (destruct user as [|? user];
    [first [reflexivity|discriminate H]|rewrite !string_app_cons, !prefix_cons in *];
    destruct (Ascii.eqb _ _); [cbn [andb] in *|done]). by destruct (user +:+ " ").
Qed.

Lemma match_body_exact e user ip port ending :
  event_ok e user → user ≠ "" → one_line user = true → is_address ip → is_port port → ending_ok ending →
  match_body (sshd_message e user ip port ending) = Some (event_body e user ip port).
Proof.
  intros He Hne Hone Hip Hport Hend. unfold match_body, re_match.
  assert (∀ p q s, str_startswith s p = false → run_re (Seq (Lit p) q) s [] (λ _ g, Some g) = None) as Hno
    by (intros; by rewrite run_seq, run_lit_none).
  destruct e as [m invalid|m|]; cbn [sshd_message].
  - destruct He as [Hm Hinv]. unfold FAILED_RE. cbn [Seqs]. rewrite run_seq, run_lit, run_seq.
    destruct invalid.
    + erewrite run_methods; [|done|]; cycle 1. rewrite run_seq, run_lit, run_seq, run_opt, run_group.
      rewrite run_lit, consumed_app. replace (_ <? _)%nat with true; [by rewrite run_user|].
      * symmetry. apply Nat.ltb_lt. rewrite !string_length_app. simpl. lia.
      * done.
    + erewrite run_methods; [|done|]; cycle 1. rewrite run_seq, run_lit, run_seq, run_opt, run_group.
      change ("" +:+ ?x) with x. rewrite run_lit_none by (apply not_invalid; by apply Hinv).
      * by rewrite run_user.
      * done.
  - unfold FAILED_RE at 1. cbn [Seqs]. rewrite Hno by done. unfold ACCEPTED_RE. cbn [Seqs].
    rewrite run_seq, run_lit, run_seq. erewrite run_methods; [|done|]; cycle 1.
    + rewrite run_seq, run_lit. by rewrite run_user.
    + done.
  - unfold FAILED_RE, ACCEPTED_RE at 1. cbn [Seqs]. rewrite !Hno by done. unfold INVALID_RE. cbn [Seqs].
    rewrite run_seq, run_lit. by rewrite run_user.
Qed.

(** *** The header *)

Definition pid_text (pid : option string) : string :=
  match pid with Some p => "[" +:+ p +:+ "]" | None => "" end.

Definition header_rest (host proc : string) (pid : option string) (msg : string) : string :=
  " " +:+ host +:+ " " +:+ proc +:+ pid_text pid +:+ ": " +:+ msg.

Definition header_ok (host proc : string) (pid : option string) : Prop :=
  host ≠ "" ∧ no_space host = true ∧ proc ∈ SSHD_PROCS ∧
  match pid with
  | Some p => str_forall is_digit p = true ∧ (1 ≤ String.length p ≤ 10)%nat
  | None => True
  end.

Definition header_captures (g : captures) (host proc : string) (pid : option string) (msg : string) : captures :=
  let g := od_set (od_set g "host" host) "proc" proc in
  od_set (match pid with Some p => od_set g "pid" p | None => g end) "msg" msg.

Definition AFTER_PROC : re :=
  Seqs [Opt (Seqs [Chr "["; Group "pid" (Between 1 10 Digit); Chr "]"]); Chr ":"; Space;
        Group "msg" (Star Dot); Eol].

Lemma run_msg msg g :
  one_line msg = true →
  run_re (Seqs [Chr ":"; Space; Group "msg" (Star Dot); Eol]) (": " +:+ msg) g (λ _ g, Some g)
  = Some (od_set g "msg" msg).
Proof.
  intros Hm. cbn [Seqs]. unfold Chr, Space. rewrite run_seq, !string_app_cons, run_cls, run_seq, run_cls.
  cbn [Ascii.eqb eqb]. change (is_space " ") with true. cbv iota. change ("" +:+ msg) with msg.
  rewrite run_seq, run_group. unfold Dot. apply run_star_all; [done|]. by rewrite consumed_all.
Qed.

Lemma run_after_proc host proc pid msg g :
  header_ok host proc pid → one_line msg = true →
  run_re AFTER_PROC (pid_text pid +:+ ": " +:+ msg) g (λ _ g, Some g)
  = Some (od_set (match pid with Some p => od_set g "pid" p | None => g end) "msg" msg).
Proof.
  intros (_ & _ & _ & Hpid) Hm. unfold AFTER_PROC. cbn [Seqs]. rewrite run_seq, run_opt.
  fold (Seqs [Chr ":"; Space; Group "msg" (Star Dot); Eol]).
  destruct pid as [p|]; cbn [pid_text].
  - destruct Hpid as [Hp Hl]. rewrite run_seq. unfold Chr at 1. rewrite !string_app_assoc, string_app_cons, run_cls.
    rewrite Ascii.eqb_refl. change ("" +:+ ?x) with x. rewrite run_seq, run_group. unfold Between, Digit.
    erewrite (run_cls_exact is_digit 1 (Some 10%nat)); [done|done|done|lia|simpl; apply Nat.leb_le; lia|].
    rewrite consumed_app. unfold Chr at 1. rewrite string_app_cons, run_cls, Ascii.eqb_refl.
    change ("" +:+ ?x) with x. replace (_ <? _)%nat with true; [by rewrite run_msg|].
    symmetry. apply Nat.ltb_lt. simpl. rewrite !string_length_app. simpl. rewrite !string_length_app. simpl. lia.
  - change ("" +:+ ?x) with x. rewrite run_seq. by rewrite run_msg.
Qed.

Lemma proc_class proc : proc ∈ SSHD_PROCS → str_forall is_proc proc = true ∧ proc ≠ "".
Proof.
  unfold SSHD_PROCS. rewrite !elem_of_cons, elem_of_nil. by intros [->|[->|[]]].
Qed.

Lemma after_proc_none c s g : is_proc c = true → run_re AFTER_PROC (String c s) g (λ _ g, Some g) = None.
Proof.
  intros Hc. unfold AFTER_PROC. cbn [Seqs]. unfold Chr. rewrite !run_seq, run_opt, !run_seq, !run_cls.
  destruct (Ascii.eqb_spec "[" c) as [<-|]; [done|]. by destruct (Ascii.eqb_spec ":" c) as [<-|].
Qed.

Lemma header_match host proc pid msg g :
  header_ok host proc pid → one_line msg = true →
  run_re (Seqs [Space; Group "host" (Plus NonSpace); Space; Group "proc" (PlusLazy (Cls is_proc));
                Opt (Seqs [Chr "["; Group "pid" (Between 1 10 Digit); Chr "]"]); Chr ":"; Space;
                Group "msg" (Star Dot); Eol])
    (header_rest host proc pid msg) g (λ _ g, Some g)
  = Some (header_captures g host proc pid msg).
Proof.
  intros Hok Hm. pose proof Hok as (Hh0 & Hh & Hproc & _). apply proc_class in Hproc as [Hpc Hp0].
  cbn [Seqs]. unfold header_rest, Space at 1. rewrite run_seq, string_app_cons, run_cls.
  change (is_space " ") with true. cbv iota. change ("" +:+ ?x) with x.
  rewrite run_seq, run_group. unfold Plus, NonSpace.
  apply run_cls_exact; [done|done|destruct host; [done|simpl; lia]|done|].
  rewrite consumed_app, run_seq. unfold Space at 1. rewrite string_app_cons, run_cls.
  change (is_space " ") with true. cbv iota. change ("" +:+ ?x) with x. rewrite run_seq, run_group.
  unfold PlusLazy. unfold run_re at 1. fold (@run_re captures).
  apply rep_lazy; [rewrite string_length_app; lia|done|destruct proc; [done|simpl; lia]| |].
  - intros w1 w2 -> Hne _. destruct w2 as [|c w2]; [done|]. rewrite string_app_cons. apply after_proc_none.
    rewrite str_forall_app in Hpc. apply andb_true_iff in Hpc as [_ Hpc]. cbn [str_forall] in Hpc.
    by apply andb_true_iff in Hpc as [? _].
  - rewrite consumed_app. by apply (run_after_proc host proc).
Qed.

(** *** BSD timestamps *)

Definition two (n : Z) : string := String (hex_digit (n / 10)) (String (hex_digit (n mod 10)) "").

Definition month_name (m : Z) : string := fst (nth (Z.to_nat (m - 1)) MONTHS ("", 0)).

Definition clock_text (c : civil) : string :=
  two (cv_hour c) +:+ ":" +:+ two (cv_minute c) +:+ ":" +:+ two (cv_second c).

(** [Mon DD HH:MM:SS], a one-digit day padded with a blank *)
Definition bsd_text (c : civil) : string :=
  month_name (cv_month c) +:+ (if (cv_day c <? 10)%Z then "  " else " ") +:+ str_of_int (cv_day c) +:+ " "
  +:+ clock_text c.

Lemma bounded_forall lo hi (f : Z → bool) n :
  forallb f (seqZ lo (hi - lo)) = true → (lo ≤ n < hi)%Z → f n = true.
Proof.
  intros Hall Hn. rewrite forallb_forall in Hall. apply Hall, list_elem_of_In, elem_of_seqZ. lia.
Qed.

Definition int_reads (w : string) (n : Z) : bool := bool_decide (py_int 10 w = Ok n).

Lemma two_ok n :
  (0 ≤ n < 100)%Z → str_forall is_digit (two n) = true ∧ py_int 10 (two n) = Ok n.
Proof.
  intros Hn. assert (str_forall is_digit (two n) && int_reads (two n) n = true) as H.
  { revert Hn. by apply (bounded_forall 0 100 (λ n, str_forall is_digit (two n) && int_reads (two n) n)). }
  apply andb_true_iff in H as [? H]. split; [done|]. by apply bool_decide_eq_true in H.
Qed.

Lemma day_ok n :
  (1 ≤ n ≤ 31)%Z →
  str_forall is_digit (str_of_int n) = true ∧ (1 ≤ String.length (str_of_int n) ≤ 2)%nat ∧
  py_int 10 (str_of_int n) = Ok n.
Proof.
  intros Hn. set (f := λ n, str_forall is_digit (str_of_int n) && (1 <=? String.length (str_of_int n))%nat
    && (String.length (str_of_int n) <=? 2)%nat && int_reads (str_of_int n) n).
  assert (f n = true) as H by (apply (bounded_forall 1 32 f); [by vm_compute|lia]).
  unfold f in H. rewrite !andb_true_iff, !Nat.leb_le in H. destruct H as [[[? ?] ?] H].
  apply bool_decide_eq_true in H. split_and!; done.
Qed.

Lemma month_ok m :
  (1 ≤ m ≤ 12)%Z →
  ∃ c w, month_name m = String c w ∧ is_upper c = true ∧ str_forall is_lower w = true ∧
    String.length w = 2%nat ∧ no_space (month_name m) = true ∧ od_get MONTHS (month_name m) = Some m.
Proof. intros Hm. each_month m; by do 2 eexists. Qed.

Lemma run_two n s g (k : string → captures → option captures) x :
  (0 ≤ n < 100)%Z → k s g = Some x → run_re (Times 2 Digit) (two n +:+ s) g k = Some x.
Proof. intros Hn Hk. unfold Digit. apply run_times; [by apply two_ok|done|done]. Qed.

Lemma run_chr c s g (k : string → captures → option captures) :
  run_re (Chr c) (String c s) g k = k s g.
Proof. unfold Chr. by rewrite run_cls, Ascii.eqb_refl. Qed.

Lemma run_clock c s g (k : string → captures → option captures) x :
  valid_civil c = true → k s g = Some x → run_re CLOCK (clock_text c +:+ s) g k = Some x.
Proof.
  intros Hv Hk. pose proof (civil_bounds c Hv).
  unfold CLOCK, clock_text. cbn [Seqs]. rewrite !string_app_assoc, run_seq.
  apply run_two; [lia|]. rewrite run_seq, string_app_cons, run_chr, run_seq.
  change ("" +:+ ?x) with x. apply run_two; [lia|]. rewrite run_seq, string_app_cons, run_chr.
  change ("" +:+ ?x) with x. apply run_two; [lia|done].
Qed.

Lemma run_bsd c s g (k : string → captures → option captures) x :
  valid_civil c = true → k s (od_set g "bsd" (bsd_text c)) = Some x →
  run_re (Group "bsd" BSD) (bsd_text c +:+ s) g k = Some x.
Proof.
  intros Hv Hk. rewrite run_group. rewrite <-(consumed_app (bsd_text c) s) in Hk.
  revert Hk. generalize (bsd_text c +:+ s) at 1 3. intros whole Hk.
  pose proof (civil_bounds c Hv) as Hb.
  destruct (month_ok (cv_month c)) as (u & w & Hmn & Hu & Hw & Hl & _); [lia|].
  destruct (day_ok (cv_day c)) as (Hd & Hdl & _); [lia|].
  unfold BSD, bsd_text. cbn [Seqs]. rewrite Hmn, !string_app_assoc, string_app_cons, run_seq, run_cls, Hu.
  rewrite run_seq. apply run_times; [done|done|]. rewrite run_seq. unfold Space, Plus.
  apply run_cls_exact; [by destruct (_ <? _)%Z| |destruct (_ <? _)%Z; simpl; lia|done|].
  - apply digits_word in Hd. destruct (str_of_int (cv_day c)) as [|d t]; [simpl in Hdl; lia|].
    rewrite string_app_cons. unfold no_space in Hd. cbn [str_forall] in Hd. by apply andb_true_iff in Hd as [? _].
  - rewrite run_seq. unfold Between, Digit.
    apply run_cls_exact; [done|done|lia|simpl; apply Nat.leb_le; lia|].
    rewrite run_seq, string_app_cons, run_cls. change (is_space " ") with true. cbv iota.
    change ("" +:+ ?x) with x. by apply run_clock.
Qed.

Lemma words_blank c s : is_space c = true → str_words (String c s) = str_words s.
Proof. intros Hc. cbn [str_words]. by rewrite Hc. Qed.

Lemma words_word w c s :
  w ≠ "" → no_space w = true → is_space c = true →
  str_words (w +:+ String c s) = w :: str_words s.
Proof.
  unfold no_space. intros Hne Hw Hc. induction w as [|d w IH]; [done|]. rewrite string_app_cons.
  cbn [str_forall] in Hw. apply andb_true_iff in Hw as [Hd Hw]. apply negb_true_iff in Hd.
  cbn [str_words]. rewrite Hd. destruct w as [|e w].
  - change ("" +:+ ?x) with x. rewrite words_blank by done. cbv iota. by rewrite Hc.
  - rewrite IH by done. rewrite string_app_cons. cbn [str_forall] in Hw. apply andb_true_iff in Hw as [He _].
    by rewrite He.
Qed.

Lemma words_last w : w ≠ "" → no_space w = true → str_words w = [w].
Proof.
  unfold no_space. intros Hne Hw. induction w as [|d w IH]; [done|].
  cbn [str_forall] in Hw. apply andb_true_iff in Hw as [Hd Hw]. apply negb_true_iff in Hd.
  cbn [str_words]. rewrite Hd. destruct w as [|e w]; [done|]. rewrite IH by done.
  cbn [str_forall] in Hw. apply andb_true_iff in Hw as [He _]. by rewrite He.
Qed.

Lemma split_word sep w s :
  str_mem sep w = false → str_split sep (w +:+ String sep s) = w :: str_split sep s.
Proof.
  induction w as [|c w IH]; intros Hw.
  - change ("" +:+ ?x) with x. cbn [str_split]. by rewrite Ascii.eqb_refl.
  - rewrite str_mem_cons in Hw. apply orb_false_iff in Hw as [Hc Hw]. rewrite string_app_cons. cbn [str_split].
    rewrite Ascii.eqb_sym, Hc, IH; done.
Qed.

Lemma clock_words c :
  valid_civil c = true →
  no_space (clock_text c) = true ∧
  mapM (py_int 10) (str_split ":" (clock_text c)) = Ok [cv_hour c; cv_minute c; cv_second c].
Proof.
  intros Hv. pose proof (civil_bounds c Hv). unfold clock_text.
  destruct (two_ok (cv_hour c)) as [Hh Hih]; [lia|]. destruct (two_ok (cv_minute c)) as [Hm Him]; [lia|].
  destruct (two_ok (cv_second c)) as [Hs His]; [lia|].
  assert (∀ n, (0 ≤ n < 100)%Z → str_mem ":" (two n) = false) as Hcolon.
  { intros n Hn. apply negb_true_iff.
    exact (bounded_forall 0 100 (λ n, negb (str_mem ":" (two n))) n ltac:(by vm_compute) Hn). }
  split.
  - apply digits_word in Hh, Hm, Hs. unfold no_space in *. rewrite !str_forall_app. rewrite Hh, Hm, Hs. done.
  - assert (∀ x, ":" +:+ x = String ":" x) as Hc by done. rewrite !Hc, !split_word by (apply Hcolon; lia).
    assert (str_split ":" (two (cv_second c)) = [two (cv_second c)]) as ->.
    { apply hex_not_colon. revert Hs. generalize (two (cv_second c)). intros w.
      induction w as [|d w IH]; [done|]. cbn [str_forall]. intros [Hd Hw]%andb_true_iff.
      rewrite IH by done. unfold is_hex, is_hex_lower. by rewrite Hd. }
    cbn [mapM]. by rewrite Hih, Him, His.
Qed.

(** When a BSD stamp can be dated: not more than a day ahead of the clock; of
    this year, or of the last and more than two days younger than a year (and
    then a date of this year too). *)
Definition datable (tz now : Z) (c : civil) : Prop :=
  (civil_us c - tz ≤ now + DAY_US)%Z ∧ between MIN_US MAX_US (civil_us c - tz) = true ∧
  (year_of (now + tz) = cv_year c ∨
   year_of (now + tz) = (cv_year c + 1)%Z ∧ (now - (civil_us c - tz) < 363 * DAY_US)%Z ∧
   valid_civil (with_year (cv_year c + 1) c) = true).

Lemma civil_eta c : cv_microsecond c = 0%Z →
  mkCivil (cv_year c) (cv_month c) (cv_day c) (cv_hour c) (cv_minute c) (cv_second c) 0 = c.
Proof. by destruct c; simpl; intros ->. Qed.

(** The year the stamp leaves out is found, and the instant with it. *)
Lemma bsd_timestamp_recovered tz now c :
  valid_civil c = true → cv_microsecond c = 0%Z → datable tz now c →
  parse_bsd_timestamp None tz now (bsd_text c) = Ok (Some (mkDatetime (civil_us c - tz) (Some 0%Z))).
Proof.
  intros Hv Hus (Hahead & Hin & Hyear). pose proof (civil_bounds c Hv) as Hb.
  destruct (month_ok (cv_month c)) as (u & w & Hmn & _ & _ & _ & Hms & Hmo); [lia|].
  destruct (day_ok (cv_day c)) as (Hd & Hdl & Hdi); [lia|]. destruct (clock_words c Hv) as [Hcs Hci].
  assert (str_words (bsd_text c) = [month_name (cv_month c); str_of_int (cv_day c); clock_text c]) as Hwords.
  { unfold bsd_text. apply digits_word in Hd. assert (month_name (cv_month c) ≠ "") by (by rewrite Hmn).
    assert (str_of_int (cv_day c) ≠ "") by (intros He; rewrite He in Hdl; simpl in Hdl; lia).
    destruct (cv_day c <? 10)%Z; rewrite !string_app_cons, words_word by done;
      change ("" +:+ ?x) with x; rewrite ?words_blank by done; rewrite words_word by done;
      by rewrite words_last by (done || by destruct (cv_hour c / 10)%Z). }
  unfold parse_bsd_timestamp. rewrite Hwords, Hmo, Hci. cbn [mbind result_bind]. rewrite Hdi.
  cbn [mbind result_bind]. rewrite (bool_decide_true (None = None)) by done. cbn [andb].
  assert (to_utc (mkDatetime (civil_us c - tz) (Some tz)) = Ok (mkDatetime (civil_us c - tz) (Some 0%Z))) as Hutc.
  { unfold to_utc. cbn [dt_instant]. by rewrite Hin. }
  destruct Hyear as [->|(-> & Hage & Hv1)].
  - rewrite civil_eta, (make_valid c) by done. cbn [mbind result_bind dt_instant].
    rewrite (proj2 (Z.ltb_ge _ _)) by lia. cbn [catch_value_error mbind result_bind]. by rewrite Hutc.
  - change (mkCivil (cv_year c + 1) _ _ _ _ _ 0) with (with_year (cv_year c + 1)
      (mkCivil (cv_year c) (cv_month c) (cv_day c) (cv_hour c) (cv_minute c) (cv_second c) 0)).
    rewrite civil_eta, (make_valid (with_year (cv_year c + 1) c)) by done. cbn [mbind result_bind dt_instant].
    pose proof (civil_us_next_year c Hv). rewrite (proj2 (Z.ltb_lt _ _)) by (unfold DAY_US in *; lia).
    replace (with_year (cv_year c + 1 - 1) (with_year (cv_year c + 1) c)) with c
      by (destruct c; unfold with_year; simpl; f_equal; lia).
    rewrite (make_valid c) by done. cbn [fmap result_fmap catch_value_error mbind result_bind]. by rewrite Hutc.
Qed.

(** *** The whole line *)

Definition syslog_line (c : civil) (host proc : string) (pid : option string) (msg : string) : string :=
  bsd_text c +:+ header_rest host proc pid msg.

Lemma no_space_one_line s : no_space s = true → one_line s = true.
Proof.
  unfold no_space, one_line. induction s as [|c s IH]; [done|]. cbn [str_forall]. intros [Hc Hs]%andb_true_iff.
  rewrite IH by done. by destruct (Ascii.eqb_spec c NL) as [->|].
Qed.

Lemma port_text n : (0 ≤ n ≤ 65535)%Z → is_port (str_of_int n) ∧ py_int 10 (str_of_int n) = Ok n.
Proof.
  intros Hn. split; [|apply py_int_str_of_int; lia]. split; [apply str_of_int_digits; lia|].
  pose proof (str_of_int_length 5 n ltac:(lia) ltac:(simpl; lia)) as H. unfold strlen in H. lia.
Qed.

Lemma message_one_line e user ip port ending :
  event_ok e user → one_line user = true → is_address ip → is_port port → ending_ok ending →
  one_line (sshd_message e user ip port ending) = true ∧ sshd_message e user ip port ending ≠ "".
Proof.
  intros He Hu (_ & _ & Hip) [Hport _] (_ & Hend). apply no_space_one_line in Hip.
  apply digits_word, no_space_one_line in Hport.
  assert (one_line ending = true) as Hend'.
  { destruct Hend as [->|(e' & -> & _ & He')]; [done|]. unfold one_line in *. by rewrite str_forall_app, He'. }
  assert (one_line (tail_text ip port ending) = true) as Ht.
  { unfold tail_text, one_line in *. by rewrite !str_forall_app, Hip, Hport, Hend'. }
  assert (∀ m, m ∈ METHOD_NAMES → one_line m = true) as Hm.
  { intros m. unfold METHOD_NAMES. rewrite !elem_of_cons, elem_of_nil.
    by intros [->|[->|[->|[->|[->|[->|[]]]]]]]. }
  destruct e as [m invalid|m|]; cbn [sshd_message event_ok] in *; (split; [|done]); unfold one_line in *;
    rewrite !str_forall_app, Hu, Ht; [|by rewrite (Hm m)|done].
  rewrite (Hm m) by apply He. by destruct invalid.
Qed.

Lemma rstrip_one_line s : one_line s = true → rstrip_newlines s = s.
Proof.
  unfold one_line. induction s as [|c s IH]; [done|]. cbn [str_forall rstrip_newlines].
  intros [Hc Hs]%andb_true_iff. rewrite IH by done. apply negb_true_iff in Hc. destruct s; [by rewrite Hc|done].
Qed.

Lemma rstrip_app a s : rstrip_newlines s = s → s ≠ "" → rstrip_newlines (a +:+ s) = a +:+ s.
Proof.
  intros Hs Hne. induction a as [|c a IH]; [done|]. rewrite string_app_cons. cbn [rstrip_newlines].
  rewrite IH. destruct (a +:+ s) as [|d t] eqn:Heq; [|done]. by destruct a, s.
Qed.

Lemma syslog_match c host proc pid msg :
  valid_civil c = true → header_ok host proc pid → one_line msg = true →
  re_match SYSLOG_RE (syslog_line c host proc pid msg)
  = Some (header_captures (od_set [] "bsd" (bsd_text c)) host proc pid msg).
Proof.
  intros Hv Hh Hm. unfold re_match, SYSLOG_RE, syslog_line. cbn [Seqs]. rewrite run_seq.
  apply run_alt_l, run_bsd; [done|]. by apply header_match.
Qed.

Definition event_record (tz : Z) (c : civil) (host : string) (pid : option string) (e : sshd_event)
    (user ip : string) (port : Z) (ending : string) : RawAuthEvent :=
  let b := event_body e user ip (str_of_int port) in
  mkRawAuth (mkDatetime (civil_us c - tz) (Some 0%Z)) host (bsd_text c) (default "" pid) (bd_action b)
    (bd_outcome b) (bd_severity b) user ip port 0 (sshd_message e user ip (str_of_int port) ending).
End messages.

(** ** Properties *)

(** C19: a client cannot choose a user name that changes what its login line says.
    Of a line [sshd] writes for a failed login, an accepted one or an unknown
    user, behind a BSD stamp, not longer than the collector reads: one record,
    with the real peer address and port (a name containing
    [" from 6.6.6.6 port 1"] does not move them), the user, the outcome and its
    severity, and the instant of the stamp with the year that is left out; it is
    withheld only if the raw schema refuses it.  The name is any non-empty text
    without a newline, except that a known user's must not start with
    [invalid user] (such a line is also one of an unknown user).  Left out:
    stamps in RFC 3339, a stamp more than a day ahead of the clock or nearly a
    year old ([datable]), and an ending that holds [" from "] itself, which a
    certificate's key id can (see [key_id_spoofs_address]). *)
Theorem sshd_line_recognised tz now host_override c host proc pid e user ip port ending :
  valid_civil c = true → cv_microsecond c = 0 → datable tz now c →
  header_ok host proc pid → event_ok e user → user ≠ ""%string → one_line user = true →
  is_address ip → 0 ≤ port ≤ 65535 → ending_ok ending →
  let line := syslog_line c host proc pid (sshd_message e user ip (str_of_int port) ending) in
  let r := event_record tz c (or_else host_override host) pid e user ip port ending in
  strlen line ≤ MAX_LINE_LEN →
  parse_auth_records None tz host_override now line = Ok (if valid_raw_auth r then [r] else []).
Proof.
  intros Hv Hus Hdate Hh He Hne Hone Hip Hp Hend line r Hlen.
  destruct (port_text port Hp) as [Hport Hpi].
  destruct (message_one_line e user ip (str_of_int port) ending) as [Hm Hmne]; [done..|].
  unfold parse_auth_records. rewrite (proj2 (Z.ltb_ge _ _) Hlen).
  assert (rstrip_newlines line = line) as ->.
  { unfold line, syslog_line, header_rest. rewrite <-!string_app_assoc.
    apply rstrip_app; [by apply rstrip_one_line|done]. }
  unfold line. rewrite syslog_match by done.
  assert (always (header_captures (od_set [] "bsd" (bsd_text c)) host proc pid
            (sshd_message e user ip (str_of_int port) ending)) "proc" = proc) as -> by (by destruct pid).
  destruct Hh as (_ & _ & Hproc & _). rewrite (bool_decide_true (proc ∈ _)) by done. cbn [negb].
  assert (always (header_captures (od_set [] "bsd" (bsd_text c)) host proc pid
            (sshd_message e user ip (str_of_int port) ending)) "msg"
          = sshd_message e user ip (str_of_int port) ending) as -> by (by destruct pid).
  unfold unfold_repeat, re_match, REPEAT_RE. cbn [Seqs].
  rewrite run_seq, run_lit_none by (by destruct e). cbn [mbind result_bind].
  rewrite match_body_exact by done.
  unfold header_time.
  assert (group (header_captures (od_set [] "bsd" (bsd_text c)) host proc pid
            (sshd_message e user ip (str_of_int port) ending)) "bsd" = Some (bsd_text c)) as -> by (by destruct pid).
  rewrite bsd_timestamp_recovered by done. cbn [mbind result_bind].
  assert (bd_port (event_body e user ip (str_of_int port)) = str_of_int port) as -> by (by destruct e).
  rewrite Hpi.
  match goal with |- (if valid_raw_auth ?x then _ else _) = _ => assert (x = r) as -> end.
  { unfold r, event_record. f_equal; try (by destruct e); [by destruct pid|].
    destruct pid as [p|]; [|done]. change (or_else (Some p) "" = p). simpl.
    by destruct (String.eqb_spec p "") as [->|]. }
  by destruct (valid_raw_auth r).
Qed.

(** ** Witnesses *)

(** A user name that imitates the end of the message *)
Lemma sshd_line_recognised_witness :
  let c := mkCivil 2026 6 6 12 0 0 0 in
  let user := "x from 6.6.6.6 port 1 ssh2"%string in
  let r := event_record 0 c "web1" (Some "42"%string) (FailedLogin "password" true) user "10.0.0.7" 50022 " ssh2" in
  valid_raw_auth r = true ∧
  parse_auth_records None 0 None example_now
    (syslog_line c "web1" "sshd" (Some "42"%string)
       (sshd_message (FailedLogin "password" true) user "10.0.0.7" (str_of_int 50022) " ssh2"))
  = Ok (if valid_raw_auth r then [r] else []).
Proof.
  split; [vm_compute; reflexivity|].
  apply (sshd_line_recognised 0 example_now None (mkCivil 2026 6 6 12 0 0 0) "web1" "sshd" (Some "42"%string)
    (FailedLogin "password" true) "x from 6.6.6.6 port 1 ssh2" "10.0.0.7" 50022 " ssh2").
  - vm_compute; reflexivity.
  - reflexivity.
  - split_and!; [vm_compute; discriminate|vm_compute; reflexivity|left; vm_compute; reflexivity].
  - split_and!; [discriminate|reflexivity|by left|reflexivity|simpl; lia..].
  - split; [by left|discriminate].
  - discriminate.
  - reflexivity.
  - split_and!; [discriminate|discriminate|reflexivity].
  - lia.
  - split; [reflexivity|]. right. exists ""%string. split_and!; reflexivity.
  - vm_compute; discriminate.
Defined.
