(* ===== verification/AuthTail.v ===== *)
(** * The auth-log collector ([collectors/authlog.py], the tail)

    Reading what is new in a log that grows, is rotated (renamed, a successor
    created) or truncated in place: complete lines out of chunks, the partial
    line kept for the next read, over-long lines dropped, identical lines of
    one second numbered.  A file is an inode with its bytes; a poll sees the
    file system as it is at one instant.  [decode] is
    [bytes.decode("utf-8", errors="replace")]. *)

From stdpp Require Import functions.
From S2P Require Import Prelude ODict PyText PyRe Events Calendar NetParse Normalizer AuthParse.
Local Open Scope string_scope.
Local Open Scope Z_scope.

Definition MAX_READ : Z := 2 ^ 20.

(** ** The file system, as one poll sees it *)

Record FileSystem := mkFS {
  fs_path : result (option Z);      (* the inode at the path, if any; or the lookup fails *)
  fs_data : Z → string;
  fs_denied : Z → bool;             (* may not be opened *)
}.

(** ** State *)

Abbreviation occurrence_key := (string * string * string * string)%type.

Record AuthLog := mkAuthLog {
  al_handle : option Z;             (* the open file *)
  al_pos : Z;
  al_buf : string;
  al_discarding : bool;
  al_skip_history : bool;
  al_seen_ts : string;
  al_seen : odict occurrence_key Z;
  al_parsed : Z;
  al_skipped : Z;
  al_available : bool;
  al_normalizer : Normalizer;
}.

(** [AuthLogCollector.__init__] *)
Definition new_auth_log (start_at_end : bool) : AuthLog :=
  mkAuthLog None 0 "" false start_at_end "" [] 0 0 true new_normalizer.

Definition with_handle (h : option Z) (pos : Z) (c : AuthLog) : AuthLog :=
  mkAuthLog h pos (al_buf c) (al_discarding c) (al_skip_history c) (al_seen_ts c) (al_seen c)
    (al_parsed c) (al_skipped c) (al_available c) (al_normalizer c).

Definition with_buffer (buf : string) (discarding : bool) (c : AuthLog) : AuthLog :=
  mkAuthLog (al_handle c) (al_pos c) buf discarding (al_skip_history c) (al_seen_ts c) (al_seen c)
    (al_parsed c) (al_skipped c) (al_available c) (al_normalizer c).

Definition with_seen (ts : string) (seen : odict occurrence_key Z) (c : AuthLog) : AuthLog :=
  mkAuthLog (al_handle c) (al_pos c) (al_buf c) (al_discarding c) (al_skip_history c) ts seen
    (al_parsed c) (al_skipped c) (al_available c) (al_normalizer c).

Definition without_history (c : AuthLog) : AuthLog :=
  mkAuthLog (al_handle c) (al_pos c) (al_buf c) (al_discarding c) false (al_seen_ts c) (al_seen c)
    (al_parsed c) (al_skipped c) (al_available c) (al_normalizer c).

Definition with_counts (parsed skipped : Z) (n : Normalizer) (c : AuthLog) : AuthLog :=
  mkAuthLog (al_handle c) (al_pos c) (al_buf c) (al_discarding c) (al_skip_history c) (al_seen_ts c)
    (al_seen c) parsed skipped (al_available c) n.

(** [_mark_source], its log lines left out *)
Definition mark_source (available : bool) (c : AuthLog) : AuthLog :=
  mkAuthLog (al_handle c) (al_pos c) (al_buf c) (al_discarding c) (al_skip_history c) (al_seen_ts c)
    (al_seen c) (al_parsed c) (al_skipped c) available (al_normalizer c).

Definition skip_line (c : AuthLog) : AuthLog :=
  with_counts (al_parsed c) (al_skipped c + 1) (al_normalizer c) c.

(** ** Lines out of bytes *)

(** [*complete, rest = data.split(b"\n")] *)
Fixpoint unsnoc (first : string) (rest : list string) : list string * string :=
  match rest with
  | [] => ([], first)
  | s :: rest' => let '(complete, last) := unsnoc s rest' in (first :: complete, last)
  end.

Definition cut_lines (data : string) : list string * string :=
  match str_split NL data with [] => ([], "") | s :: rest => unsnoc s rest end.

(** [_split] *)
Definition split_chunk (chunk : string) (c : AuthLog) : list string * AuthLog :=
  let '(complete, rest) := cut_lines (al_buf c +:+ chunk) in
  let '(complete, discarding) :=
    match complete with
    | _ :: complete' => if al_discarding c then (complete', false) else (complete, false)
    | [] => ([], al_discarding c)
    end in
  if MAX_LINE_LEN <? strlen rest then (complete, skip_line (with_buffer "" true c))
  else (complete, with_buffer rest discarding c).

(** [_flush_partial] *)
Definition flush_partial (c : AuthLog) : list string * AuthLog :=
  (if al_discarding c || String.eqb (al_buf c) "" then [] else [al_buf c], with_buffer "" false c).

(** [_close] *)
Definition close (c : AuthLog) : AuthLog := with_handle None (al_pos c) c.

Definition last_char (s : string) : option ascii := String.get (String.length s - 1) s.

(** [_open]: the collector now has a handle, or there is no file ([false]). *)
Definition open_log (fs : FileSystem) (c : AuthLog) : result bool * AuthLog :=
  match fs_path fs with
  | Raise e => (Raise e, c)
  | Ok None => (Ok false, mark_source false (without_history c))
  | Ok (Some ino) =>
      if fs_denied fs ino then (Raise OSError, c)
      else if negb (al_skip_history c) then (Ok true, with_handle (Some ino) (al_pos c) c)
      else
        let size := strlen (fs_data fs ino) in
        let c := with_handle (Some ino) size (without_history c) in
        (Ok true,
         if size =? 0 then c
         else with_buffer (al_buf c) (negb (bool_decide (last_char (fs_data fs ino) = Some NL))) c)
  end.

Section reader.
Context (fs : FileSystem) (max_read : Z).

(** [_follow_rotation], given how the successor is read. *)
Definition follow_rotation (read_new : AuthLog → result (list string) * AuthLog) (opened : Z) (c : AuthLog)
    : result (list string) * AuthLog :=
  match fs_path fs with
  | Raise e => (Raise e, c)
  | Ok None => (Ok [], c)
  | Ok (Some current) =>
      if negb (current =? opened) then
        let '(tail, c) := flush_partial c in
        let c := with_handle None 0 (close c) in
        match read_new c with
        | (Ok lines, c) => (Ok (tail ++ lines)%list, c)
        | (Raise OSError, c) => (Ok tail, mark_source false c)
        | (Raise e, c) => (Raise e, c)
        end
      else if strlen (fs_data fs current) <? al_pos c then
        (Ok [], with_seen (al_seen_ts c) [] (with_buffer "" false (with_handle (al_handle c) 0 c)))
      else (Ok [], c)
  end.

(** [_read_new_lines]; the fuel bounds how many files it opens. *)
Fixpoint read_new_lines (fuel : nat) (c : AuthLog) : result (list string) * AuthLog :=
  match fuel with
  | O => (Raise RuntimeError, c)
  | S fuel' =>
      let '(opened, c) := match al_handle c with Some _ => (Ok true, c) | None => open_log fs c end in
      match opened, al_handle c with
      | Raise e, _ => (Raise e, c)
      | Ok _, None => (Ok [], c)
      | Ok _, Some ino =>
          let unread := str_drop (Z.to_nat (al_pos c)) (fs_data fs ino) in
          let chunk := if strlen unread <=? max_read then unread else str_take (Z.to_nat max_read) unread in
          let c := with_handle (Some ino) (al_pos c + strlen chunk) c in
          let '(lines, c) := split_chunk chunk c in
          if strlen chunk <? max_read then
            match follow_rotation (read_new_lines fuel') ino c with
            | (Ok more, c) => (Ok (lines ++ more)%list, c)
            | (Raise e, c) => (Raise e, c)
            end
          else (Ok lines, c)
      end
  end.
End reader.

(** ** Records out of lines *)

Definition key_of (r : RawAuthEvent) : occurrence_key := (ra_host r, ra_pid r, ra_message r, ra_action r).

(** [_number] *)
Definition number (records : list RawAuthEvent) (c : AuthLog) : list RawAuthEvent * AuthLog :=
  match records with
  | [] => ([], c)
  | first :: _ =>
      let seen := if String.eqb (ra_syslog_ts first) (al_seen_ts c) then al_seen c else [] in
      let base := default 0 (od_get seen (key_of first)) in
      (if base =? 0 then records else map (λ r, with_occurrence (base + ra_occurrence r) r) records,
       with_seen (ra_syslog_ts first) (od_set seen (key_of first) (base + len records)) c)
  end.

Section drain.
Context (local_hostname : string) (decode : string → string).
Context (year : option Z) (tz : Z) (host_override : option string).

Fixpoint enqueue (raws : list RawAuthEvent) (c : AuthLog) : list Event * AuthLog :=
  match raws with
  | [] => ([], c)
  | raw :: raws' =>
      let '(event, n) := normalize local_hostname (RawAuth raw) (al_normalizer c) in
      let parsed := al_parsed c + match event with Some _ => 1 | None => 0 end in
      let '(events, c) := enqueue raws' (with_counts parsed (al_skipped c) n c) in
      (match event with Some e => e :: events | None => events end, c)
  end.

(** What one line of [_drain_once]'s loop puts on the queue. *)
Definition take_line (now : Z) (line : string) (c : AuthLog) : result (list Event) * AuthLog :=
  match parse_auth_records year tz host_override now (decode line) with
  | Raise e => (Raise e, c)
  | Ok records =>
      let c := match records with [] => skip_line c | _ => c end in
      let '(raws, c) := number records c in
      let '(events, c) := enqueue raws c in (Ok events, c)
  end.

(** The loop: the events put before it ended, and how it did. *)
Fixpoint take_lines (now : nat → Z) (lines : list string) (c : AuthLog) : list Event * result unit * AuthLog :=
  match lines with
  | [] => ([], Ok tt, c)
  | line :: lines' =>
      match take_line (now 0%nat) line c with
      | (Raise e, c) => ([], Raise e, c)
      | (Ok events, c) =>
          let '(more, r, c) := take_lines (λ i, now (S i)) lines' c in ((events ++ more)%list, r, c)
      end
  end.

(** [_drain_once] *)
Definition drain_once (fs : FileSystem) (max_read : Z) (now : nat → Z) (c : AuthLog)
    : list Event * result unit * AuthLog :=
  match read_new_lines fs max_read 2 c with
  | (Raise OSError, c) => ([], Ok tt, mark_source false c)
  | (Raise e, c) => ([], Raise e, c)
  | (Ok lines, c) =>
      let c := match al_handle c with Some _ => mark_source true c | None => c end in
      take_lines now lines c
  end.
End drain.

Local Close Scope string_scope.

(** ** Lemmas *)

(** *** Cutting lines *)

Definition prepend (p : string) (lr : list string * string) : list string * string :=
  match lr with
  | ([], r) => ([], p +:+ r)
  | (h :: tl, r) => ((p +:+ h) :: tl, r)
  end.

Lemma cut_nil : cut_lines "" = ([], ""%string).
Proof. done. Qed.

Lemma str_split_ne sep s : str_split sep s ≠ [].
Proof. destruct s; simpl; repeat case_match; done. Qed.

Lemma cut_cons c s :
  cut_lines (String c s)
  = if Ascii.eqb c NL then (""%string :: (cut_lines s).1, (cut_lines s).2)
    else prepend (String c "") (cut_lines s).
Proof.
  unfold cut_lines. cbn [str_split]. destruct (Ascii.eqb c NL).
  - destruct (str_split NL s) as [|w ws] eqn:Hs; [by apply str_split_ne in Hs|].
    cbn [unsnoc]. by destruct (unsnoc w ws).
  - destruct (str_split NL s) as [|w ws] eqn:Hs; [by apply str_split_ne in Hs|]. destruct ws as [|w' ws]; [done|].
    cbn [unsnoc]. by destruct (unsnoc w' ws).
Qed.

Lemma prepend_app p q lr : prepend (p +:+ q) lr = prepend p (prepend q lr).
Proof. destruct lr as [[|h tl] r]; simpl; by rewrite string_app_assoc. Qed.

Lemma cut_prefix p s : one_line p = true → cut_lines (p +:+ s) = prepend p (cut_lines s).
Proof.
  unfold one_line. induction p as [|c p IH].
  { change ("" +:+ s)%string with s. by destruct (cut_lines s) as [[|h tl] r]. }
  cbn [str_forall]. intros [Hc Hp]%andb_true_iff. rewrite string_app_cons, cut_cons, IH by done.
  apply negb_true_iff in Hc. rewrite Hc. symmetry. change (String c p) with (String c "" +:+ p)%string.
  apply prepend_app.
Qed.

Lemma cut_partial_one_line s : one_line (cut_lines s).2 = true.
Proof.
  unfold one_line. induction s as [|c s IH]; [done|]. rewrite cut_cons.
  destruct (Ascii.eqb c NL) eqn:Hc; [done|]. destruct (cut_lines s) as [[|h tl] r]; [|done].
  change (str_forall (λ c, negb (Ascii.eqb c NL)) (String c r) = true). cbn [str_forall]. by rewrite Hc.
Qed.

(** What comes later only continues the partial line. *)
Lemma cut_app a b :
  cut_lines (a +:+ b)
  = ((cut_lines a).1 ++ (cut_lines ((cut_lines a).2 +:+ b)).1, (cut_lines ((cut_lines a).2 +:+ b)).2).
Proof.
  induction a as [|c a IH].
  - rewrite cut_nil. cbn [fst snd]. change ("" +:+ b)%string with b. by destruct (cut_lines b).
  - rewrite string_app_cons, !cut_cons, IH. destruct (Ascii.eqb c NL) eqn:Hc; [done|].
    destruct (cut_lines a) as [[|h tl] r] eqn:Ha; cbn [prepend fst snd]; [|done].
    rewrite string_app_assoc. assert (one_line (String c "") = true) as Hone.
    { unfold one_line. cbn [str_forall]. by rewrite Hc. }
    rewrite (cut_prefix (String c "") (r +:+ b)) by done. by destruct (cut_lines (r +:+ b)) as [[|h tl] r'].
Qed.

(** *** What one file shows *)

(** The lines a record can come from *)
Definition short (l : string) : Prop := strlen l ≤ MAX_LINE_LEN.

#[export] Instance short_dec l : Decision (short l).
Proof. unfold short. apply _. Defined.

(** The complete lines of a text; [mid]: the first is only the end of one. *)
Definition whole_lines (mid : bool) (s : string) : list string :=
  if mid then tail (cut_lines s).1 else (cut_lines s).1.

(** ... and the last one, unless it is empty or itself only an end. *)
Definition final_line (mid : bool) (s : string) : list string :=
  match (cut_lines s).1 with
  | [] => if mid || String.eqb s "" then [] else [s]
  | _ => if String.eqb (cut_lines s).2 "" then [] else [(cut_lines s).2]
  end.

(** Is the partial line the end of one whose start was not read? *)
Definition still_mid (mid : bool) (s : string) : bool := mid && bool_decide ((cut_lines s).1 = []).

(** The buffer of a collector that has read [s] of a file: the partial line, or
    the end of one too long to keep or not read from its start. *)
Definition buffered (mid : bool) (s : string) (c : AuthLog) : Prop :=
  if al_discarding c then
    (still_mid mid s = true ∨ MAX_LINE_LEN < strlen (cut_lines s).2) ∧
    ∃ p, (cut_lines s).2 = (p +:+ al_buf c)%string
  else still_mid mid s = false ∧ al_buf c = (cut_lines s).2.

Lemma still_mid_app mid a b :
  still_mid mid (a +:+ b) = still_mid mid a && bool_decide ((cut_lines ((cut_lines a).2 +:+ b)).1 = []).
Proof.
  unfold still_mid. rewrite cut_app. cbn [fst]. destruct mid; [|done]. cbn [andb].
  destruct (cut_lines a).1; [done|]. rewrite !bool_decide_false by done. done.
Qed.

Lemma whole_lines_app mid a b :
  whole_lines mid (a +:+ b)
  = whole_lines mid a ++ (if still_mid mid a then tail else id) (cut_lines ((cut_lines a).2 +:+ b)).1.
Proof.
  unfold whole_lines, still_mid. rewrite cut_app. cbn [fst]. destruct mid; [|done]. cbn [andb].
  destruct (cut_lines a).1; [done|]. rewrite bool_decide_false by done. done.
Qed.

(** One chunk more: the lines handed out, over-long ones aside, are those it
    completes. *)
Lemma split_chunk_lines mid s chunk c :
  buffered mid s c →
  let '(lines, c') := split_chunk chunk c in
  buffered mid (s +:+ chunk) c' ∧
  filter short (whole_lines mid (s +:+ chunk)) = filter short (whole_lines mid s ++ lines).
Proof.
  intros Hb.
  assert (∃ p, (cut_lines s).2 = (p +:+ al_buf c)%string ∧ one_line p = true ∧ one_line (al_buf c) = true)
    as (p & Hp & Hp1 & Hb1).
  { pose proof (cut_partial_one_line s) as H. unfold buffered in Hb.
    assert (∃ p, (cut_lines s).2 = (p +:+ al_buf c)%string) as [p Hp].
    { destruct (al_discarding c); destruct Hb as [_ Hb]; [done|by exists ""%string]. }
    exists p. rewrite Hp in H. unfold one_line in *. rewrite str_forall_app in H.
    by apply andb_true_iff in H as [? ?]. }
  unfold split_chunk. rewrite whole_lines_app. unfold buffered at 1. rewrite still_mid_app, (cut_app s chunk).
  rewrite Hp, string_app_assoc, !cut_prefix by done. cbn [snd].
  pose proof (strlen_nonneg p). pose proof (strlen_nonneg (al_buf c)).
  destruct (cut_lines chunk) as [[|h tl] r]; cbn [prepend fst snd].
  - pose proof (strlen_nonneg r). rewrite !strlen_app.
    assert ((if still_mid mid s then tail else id) ([] : list string) = []) as -> by (by destruct (still_mid mid s)).
    rewrite bool_decide_true, andb_true_r by done. unfold buffered in Hb.
    destruct (Z.ltb_spec MAX_LINE_LEN (strlen (al_buf c) + strlen r)); (split; [|done]);
      cbn [al_discarding al_buf skip_line with_counts with_buffer].
    + split; [right; lia|]. exists (p +:+ (al_buf c +:+ r))%string. by rewrite string_app_nil.
    + destruct (al_discarding c); destruct Hb as [Hs Hbuf].
      * split; [|by exists p]. destruct Hs as [->|Hs]; [by left|right]. rewrite Hp, strlen_app in Hs. lia.
      * split; [done|]. rewrite Hp in Hbuf. by rewrite <-string_app_assoc, <-Hbuf.
  - rewrite bool_decide_false, andb_false_r by done.
    assert (filter short ((if still_mid mid s then tail else id) ((p +:+ al_buf c +:+ h)%string :: tl))
            = filter short (if al_discarding c then tl else (al_buf c +:+ h)%string :: tl)) as Hf.
    { unfold buffered in Hb. destruct (al_discarding c); destruct Hb as [Hs Hbuf].
      - destruct (still_mid mid s); [done|]. destruct Hs as [Hs|Hs]; [done|]. cbn [id]. rewrite filter_cons_False; [done|].
        unfold short. rewrite Hp in Hs. rewrite !strlen_app in *. pose proof (strlen_nonneg h). lia.
      - rewrite Hs. rewrite Hp in Hbuf. cbn [id]. by rewrite <-string_app_assoc, <-Hbuf. }
    destruct (Z.ltb_spec MAX_LINE_LEN (strlen r)), (al_discarding c); rewrite !filter_app, Hf; (split; [|done]);
      cbn [al_discarding al_buf skip_line with_counts with_buffer]; (split; [by auto|]); try done;
      by exists r; rewrite string_app_nil.
Qed.

Lemma cut_none s : (cut_lines s).1 = [] → (cut_lines s).2 = s.
Proof.
  induction s as [|c s IH]; [done|]. rewrite cut_cons. destruct (Ascii.eqb c NL); [done|].
  destruct (cut_lines s) as [[|h tl] r]; [|done]. cbn [prepend fst snd] in *. intros _. rewrite IH; done.
Qed.

Lemma flush_partial_lines mid s c :
  buffered mid s c →
  filter short (flush_partial c).1 = filter short (final_line mid s).
Proof.
  unfold buffered, flush_partial, final_line, still_mid. cbn [fst]. pose proof (cut_none s) as Hnone.
  destruct (al_discarding c); intros [Hs Hbuf]; cbn [orb].
  - destruct (cut_lines s) as [[|h tl] r]; cbn [fst snd] in *.
    + rewrite bool_decide_true, andb_true_r in Hs by done. destruct mid; [done|]. destruct Hs as [?|Hs]; [done|].
      cbn [orb]. destruct (String.eqb s ""); [done|]. rewrite <-Hnone by done.
      rewrite filter_cons_False by (unfold short; lia). done.
    + rewrite bool_decide_false, andb_false_r in Hs by done. destruct Hs as [?|Hs]; [done|].
      destruct (String.eqb r ""); [done|]. rewrite filter_cons_False by (unfold short; lia). done.
  - rewrite Hbuf. destruct (cut_lines s) as [[|h tl] r]; cbn [fst snd] in *; [|done].
    rewrite bool_decide_true, andb_true_r in Hs by done. rewrite Hs, Hnone by done. done.
Qed.

(** *** Files read one after the other *)

(** What was read of one file: the text after [sg_before], which was skipped. *)
Record segment := mkSegment { sg_ino : Z; sg_before : string; sg_text : string }.

Definition sg_mid (sg : segment) : bool :=
  match last_char (sg_before sg) with Some c => negb (Ascii.eqb c NL) | None => false end.

Definition open_lines (sg : segment) : list string := whole_lines (sg_mid sg) (sg_text sg).
Definition closed_lines (sg : segment) : list string :=
  whole_lines (sg_mid sg) (sg_text sg) ++ final_line (sg_mid sg) (sg_text sg).

Definition shown (closed : list segment) (cur : option segment) : list string :=
  concat (closed_lines <$> closed) ++ match cur with Some sg => open_lines sg | None => [] end.

(** The text is there in the file, which may have grown since. *)
Definition in_file (data : Z → string) (sg : segment) : Prop :=
  ∃ later, data (sg_ino sg) = (sg_before sg +:+ sg_text sg +:+ later)%string.

Definition befores (closed : list segment) (cur : option segment) : list string :=
  (sg_before <$> closed) ++ match cur with Some sg => [sg_before sg] | None => [] end.

Section tracking.
Context (start : bool).

(** [out] is what was handed out of the files [closed] and [cur], in this
    order; only the first may have been entered at its end, if so told. *)
Record reads (data : Z → string) (closed : list segment) (cur : option segment) (out : list string)
    (c : AuthLog) : Prop := {
  r_out : filter short out = filter short (shown closed cur);
  r_closed : Forall (in_file data) closed;
  r_cur :
    match cur with
    | Some sg => al_handle c = Some (sg_ino sg) ∧ in_file data sg ∧ al_skip_history c = false ∧
                 al_pos c = strlen (sg_before sg +:+ sg_text sg) ∧ buffered (sg_mid sg) (sg_text sg) c
    | None => al_handle c = None ∧ al_buf c = ""%string ∧ al_discarding c = false ∧ al_pos c = 0
    end;
  r_before : Forall (λ b, b = ""%string) (if start then tail (befores closed cur) else befores closed cur);
  r_skip : al_skip_history c = true → start = true ∧ befores closed cur = [];
}.

Lemma split_chunk_fields chunk c :
  let c' := (split_chunk chunk c).2 in
  al_handle c' = al_handle c ∧ al_pos c' = al_pos c ∧ al_skip_history c' = al_skip_history c.
Proof.
  unfold split_chunk. destruct (cut_lines _) as [[|h tl] r]; [|destruct (al_discarding c)];
    by destruct (MAX_LINE_LEN <? strlen r).
Qed.

Lemma str_drop_app a b : str_drop (String.length a) (a +:+ b) = b.
Proof. induction a as [|c a IH]; [by destruct b|done]. Qed.

(** One read continues the open file's text. *)
Lemma read_chunk data closed sg out c chunk later :
  reads data closed (Some sg) out c →
  data (sg_ino sg) = (sg_before sg +:+ sg_text sg +:+ chunk +:+ later)%string →
  let sg' := mkSegment (sg_ino sg) (sg_before sg) (sg_text sg +:+ chunk) in
  let '(lines, c') := split_chunk chunk (with_handle (Some (sg_ino sg)) (al_pos c + strlen chunk) c) in
  reads data closed (Some sg') (out ++ lines) c' ∧ al_pos c' = al_pos c + strlen chunk.
Proof.
  intros [Hout Hclosed (Hh & _ & Hskip & Hpos & Hbuf) Hbef _] Hdata. cbv zeta.
  set (c1 := with_handle _ _ c). pose proof (split_chunk_fields chunk c1) as (Hh1 & Hp1 & Hs1).
  pose proof (split_chunk_lines (sg_mid sg) (sg_text sg) chunk c1 Hbuf) as Hs.
  destruct (split_chunk chunk c1) as [lines c']. cbn [snd] in *. destruct Hs as [Hb' Hf].
  assert (al_pos c' = al_pos c + strlen chunk) as Hp' by (rewrite Hp1; done).
  split; [|done]. constructor.
  - unfold shown, open_lines in *. cbn [sg_text sg_mid sg_before]. rewrite !filter_app in *.
    change (sg_mid (mkSegment _ (sg_before sg) _)) with (sg_mid sg). rewrite Hf, Hout. by rewrite app_assoc.
  - done.
  - cbn [sg_ino sg_before sg_text]. split_and!; [by rewrite Hh1|..].
    + exists later. cbn [sg_ino sg_before sg_text]. rewrite Hdata. by rewrite !string_app_assoc.
    + by rewrite Hs1.
    + rewrite Hp', Hpos, !strlen_app. lia.
    + done.
  - done.
  - rewrite Hs1. change (al_skip_history c1) with (al_skip_history c). congruence.
Qed.

Lemma close_segment data closed sg out c :
  reads data closed (Some sg) out c →
  let '(tl, c1) := flush_partial c in
  reads data (closed ++ [sg]) None (out ++ tl) (with_handle None 0 (close c1)).
Proof.
  intros [Hout Hclosed (Hh & Hin & Hskip & Hpos & Hbuf) Hbef _].
  pose proof (flush_partial_lines _ _ _ Hbuf) as Hf. unfold flush_partial in *. cbn [fst] in Hf.
  assert (befores (closed ++ [sg]) None = befores closed (Some sg)) as Hb
    by (unfold befores; by rewrite fmap_app, app_nil_r).
  constructor; [| |done|by rewrite Hb|simpl; congruence].
  - unfold shown in *. rewrite fmap_app, concat_app. cbn [fmap list_fmap concat]. rewrite !app_nil_r.
    rewrite !filter_app, Hf, Hout, !filter_app. unfold closed_lines, open_lines. rewrite filter_app.
    by rewrite app_assoc.
  - apply Forall_app. split; [done|]. by constructor.
Qed.

Section polls.
Context (data : Z → string) (path : option Z) (denied : Z → bool) (max_read : Z).
Let fs : FileSystem := mkFS (Ok path) data denied.

Lemma open_segment closed out c p :
  reads data closed None out c → path = Some p → denied p = false →
  ∃ before, open_log fs c = (Ok true, (open_log fs c).2) ∧
    reads data closed (Some (mkSegment p before "")) out (open_log fs c).2.
Proof.
  intros [Hout Hclosed (Hh & Hbuf & Hd & Hpos) Hbef Hsk] -> Hp. unfold open_log, fs. cbn [fs_path fs_denied fs_data].
  rewrite Hp. assert (∀ mid, shown closed (Some (mkSegment p mid "")) = shown closed None) as Hshown.
  { intros mid. unfold shown, open_lines, whole_lines. cbn [sg_text]. rewrite cut_nil. by destruct (sg_mid _). }
  assert (∀ sg, befores closed (Some sg) = befores closed None ++ [sg_before sg]) as Hb
    by (intros; unfold befores; by rewrite app_nil_r).
  destruct (al_skip_history c) eqn:Hskip; cbn [negb].
  - destruct (Hsk eq_refl) as [Hst Hnone]. exists (data p). split; [done|].
    constructor; [by rewrite Hshown|done| |by rewrite Hb, Hnone, Hst|by destruct (_ =? _)]. cbn [sg_ino sg_before sg_text snd].
    assert (in_file data (mkSegment p (data p) "")) as Hin.
    { exists ""%string. cbn [sg_ino sg_before sg_text]. symmetry. apply string_app_nil. }
    destruct (Z.eqb_spec (strlen (data p)) 0) as [H0|H0].
    + split_and!; [done|done|done|by rewrite string_app_nil|]. unfold buffered. cbn [al_discarding with_handle without_history].
      rewrite Hd. destruct (data p) as [|x s] eqn:Hdp; [|unfold strlen in H0; simpl in H0; lia].
      unfold sg_mid. cbn [sg_before]. split; [done|]. exact Hbuf.
    + split_and!; [done|done|done|by rewrite string_app_nil|]. unfold buffered. cbn [al_discarding with_buffer].
      unfold sg_mid. cbn [sg_before al_buf with_handle without_history]. rewrite cut_nil. cbn [fst snd].
      assert (∃ x, last_char (data p) = Some x) as [x Hx].
      { unfold last_char. destruct (data p) as [|y s] eqn:Hdp; [done|]. simpl String.length.
        rewrite Nat.sub_succ, Nat.sub_0_r. clear. revert y. induction s as [|z s IH]; intros y; [by eexists|].
        destruct (IH z) as [w Hw]. exists w. done. }
      rewrite Hx. destruct (Ascii.eqb_spec x NL) as [->|Hne].
      * rewrite bool_decide_true by done. cbn. by rewrite Hbuf.
      * rewrite bool_decide_false by congruence. cbn. split; [by left|]. exists ""%string. by rewrite Hbuf.
  - exists ""%string. split; [done|]. constructor; [by rewrite Hshown|done| | |simpl; congruence].
    2: { rewrite Hb. destruct start; [|apply Forall_app; by repeat constructor].
         destruct (befores closed None); [by constructor|]. apply Forall_app. by repeat constructor. }
    cbn [sg_ino sg_before sg_text snd].
    split_and!; [done|by exists (data p)|done|by rewrite Hpos|].
    unfold buffered. cbn [al_discarding with_handle al_buf]. by rewrite Hd, Hbuf.
Qed.

(** The end of the file, and of what is to be read there *)
Definition caught_up (cur : option segment) : Prop :=
  ∃ sg, cur = Some sg ∧ path = Some (sg_ino sg) ∧ data (sg_ino sg) = (sg_before sg +:+ sg_text sg)%string.

Definition unread (c : AuthLog) (ino : Z) : string := str_drop (Z.to_nat (al_pos c)) (data ino).
Definition next_chunk (c : AuthLog) (ino : Z) : string :=
  if strlen (unread c ino) <=? max_read then unread c ino else str_take (Z.to_nat max_read) (unread c ino).

Lemma next_chunk_later closed sg out c :
  reads data closed (Some sg) out c →
  ∃ later, data (sg_ino sg) = (sg_before sg +:+ sg_text sg +:+ next_chunk c (sg_ino sg) +:+ later)%string ∧
    (strlen (unread c (sg_ino sg)) < max_read → later = ""%string) ∧
    strlen (unread c (sg_ino sg)) ≤ strlen (data (sg_ino sg)).
Proof.
  intros [_ _ (_ & [post Hin] & _ & Hpos & _)].
  assert (unread c (sg_ino sg) = post) as Hu.
  { unfold unread. rewrite Hpos, Hin, <-string_app_assoc. unfold strlen. rewrite Nat2Z.id. apply str_drop_app. }
  unfold next_chunk. rewrite Hu. destruct (Z.leb_spec (strlen post) max_read).
  - exists ""%string. split_and!; [by rewrite string_app_nil|done|]. rewrite Hin, !strlen_app.
    pose proof (strlen_nonneg (sg_before sg)). pose proof (strlen_nonneg (sg_text sg)). lia.
  - exists (str_drop (Z.to_nat max_read) post). split_and!; [by rewrite str_take_drop|lia|].
    rewrite Hin, !strlen_app. pose proof (strlen_nonneg (sg_before sg)). pose proof (strlen_nonneg (sg_text sg)). lia.
Qed.

Lemma read_handle fuel c ino :
  al_handle c = Some ino →
  read_new_lines fs max_read (S fuel) c
  = let chunk := next_chunk c ino in
    let '(lines, c') := split_chunk chunk (with_handle (Some ino) (al_pos c + strlen chunk) c) in
    if strlen chunk <? max_read then
      match follow_rotation fs (read_new_lines fs max_read fuel) ino c' with
      | (Ok more, c'') => (Ok (lines ++ more), c'')
      | (Raise e, c'') => (Raise e, c'')
      end
    else (Ok lines, c').
Proof. intros Hh. cbn [read_new_lines]. rewrite Hh. cbn [fst snd]. by rewrite Hh. Qed.

(** Reading an open file that is still the one at the path, or has no
    successor yet. *)
Lemma read_same fuel closed sg out c :
  reads data closed (Some sg) out c → (path = None ∨ path = Some (sg_ino sg)) →
  ∃ lines c' text, read_new_lines fs max_read (S fuel) c = (Ok lines, c') ∧
    let sg' := mkSegment (sg_ino sg) (sg_before sg) text in
    reads data closed (Some sg') (out ++ lines) c' ∧
    (path ≠ None → strlen (data (sg_ino sg)) < max_read → caught_up (Some sg')).
Proof.
  intros Hr Hpath. destruct (next_chunk_later _ _ _ _ Hr) as (later & Hlater & Hall & Hle).
  pose proof (read_chunk _ _ _ _ _ _ _ Hr Hlater) as Hc. pose proof (r_cur _ _ _ _ _ Hr) as (Hh & _).
  rewrite (read_handle _ _ _ Hh). cbv zeta in *. destruct (split_chunk _ _) as [lines c'].
  destruct Hc as [Hr' Hpos'].
  assert (path ≠ None → strlen (data (sg_ino sg)) < max_read →
    caught_up (Some (mkSegment (sg_ino sg) (sg_before sg) (sg_text sg +:+ next_chunk c (sg_ino sg))))) as Hend.
  { intros Hne Hlt. eexists. split; [done|]. cbn [sg_ino sg_before sg_text]. destruct Hpath as [?|Hp]; [done|].
    split; [done|]. by rewrite Hlater, Hall, string_app_nil by lia. }
  destruct (strlen _ <? max_read); [|by exists lines, c', (sg_text sg +:+ next_chunk c (sg_ino sg))%string].
  assert (follow_rotation fs (read_new_lines fs max_read fuel) (sg_ino sg) c' = (Ok [], c')) as ->.
  { unfold follow_rotation, fs. cbn [fs_path fs_data]. destruct Hpath as [->| ->]; [done|].
    rewrite Z.eqb_refl. cbn [negb]. rewrite (proj2 (Z.ltb_ge _ _)); [done|].
    destruct (r_cur _ _ _ _ _ Hr') as (_ & [l Hin] & _ & -> & _). cbn [sg_ino sg_before sg_text] in *.
    rewrite Hin, !strlen_app. pose proof (strlen_nonneg l). lia. }
  exists lines, c', (sg_text sg +:+ next_chunk c (sg_ino sg))%string. by rewrite app_nil_r.
Qed.

Definition inodes (closed : list segment) (cur : option segment) : list Z :=
  (sg_ino <$> closed) ++ match cur with Some sg => [sg_ino sg] | None => [] end.

(** With no file open: nothing to open, or the file at the path is read from
    its start (its end, the first time, if so told). *)
Lemma read_fresh fuel closed out c :
  reads data closed None out c →
  (∃ c', reads data closed None out c' ∧
     (read_new_lines fs max_read (S fuel) c = (Raise OSError, c') ∧ (∃ p, path = Some p ∧ denied p = true) ∨
      read_new_lines fs max_read (S fuel) c = (Ok [], c') ∧ path = None)) ∨
  ∃ p lines c' sg, path = Some p ∧ denied p = false ∧ sg_ino sg = p ∧
    read_new_lines fs max_read (S fuel) c = (Ok lines, c') ∧ reads data closed (Some sg) (out ++ lines) c' ∧
    (strlen (data p) < max_read → caught_up (Some sg)).
Proof.
  intros Hr. pose proof (r_cur _ _ _ _ _ Hr) as (Hh & Hbuf & Hd & Hpos).
  assert (path = None ∨ ∃ p, path = Some p) as [Hpath|[p Hpath]]
    by (clear; destruct path; [right; by eexists|by left]).
  - left. exists (mark_source false (without_history c)). split; [by destruct Hr; constructor|]. right. split; [|done].
    cbn [read_new_lines]. rewrite Hh. unfold open_log, fs. cbn [fs_path]. rewrite Hpath. cbn [al_handle mark_source without_history fst snd]. by rewrite Hh.
  - destruct (denied p) eqn:Hp.
    + left. exists c. split; [done|]. left. split; [|by exists p]. cbn [read_new_lines]. rewrite Hh.
      unfold open_log, fs. cbn [fs_path fs_denied]. by rewrite ?Hpath, Hp.
    + right. destruct (open_segment closed out c p Hr Hpath Hp) as (before & Ho & Hr1).
      destruct (read_same fuel _ _ _ _ Hr1) as (lines & c' & text & Hread & Hr2 & Hend); [by right|].
      exists p, lines, c'. eexists. split_and!; [done|done| | |exact Hr2|]; [done| |].
      * rewrite <-Hread. pose proof (r_cur _ _ _ _ _ Hr1) as (Hh1 & _). clear Hread. revert Ho Hh1.
        generalize (open_log fs c).2. intros c1 Ho Hh1. cbn [read_new_lines]. rewrite Hh, Ho. by do 2 rewrite Hh1.
      * intros Hlt. apply Hend; [by rewrite ?Hpath|done].
Qed.

(** How a poll changes what is open: nothing new, or the file now at the path. *)
Definition moved (closed closed' : list segment) (cur cur' : option segment) : Prop :=
  (inodes closed' cur' = inodes closed cur ∧
   (cur' = None → cur = None ∨ ∃ sg p, cur = Some sg ∧ path = Some p ∧ p ≠ sg_ino sg)) ∨
  ∃ p, path = Some p ∧ inodes closed' cur' = inodes closed cur ++ [p] ∧ cur' ≠ None ∧
       ∀ sg, cur = Some sg → p ≠ sg_ino sg.

(** The file was read to its end, and another one is at the path. *)
Definition finished (sg : segment) : Prop :=
  data (sg_ino sg) = (sg_before sg +:+ sg_text sg)%string ∧ ∃ p, path = Some p ∧ p ≠ sg_ino sg.

(** A poll leaves a file only then. *)
Definition leaves (closed closed' : list segment) : Prop :=
  closed' = closed ∨ ∃ sg, closed' = closed ++ [sg] ∧ finished sg.

Lemma next_chunk_last c ino : strlen (next_chunk c ino) < max_read → strlen (unread c ino) < max_read.
Proof.
  unfold next_chunk. destruct (Z.leb_spec (strlen (unread c ino)) max_read) as [|Hgt]; [done|].
  destruct (Z.ltb_spec max_read 0); [pose proof (strlen_nonneg (str_take (Z.to_nat max_read) (unread c ino))); lia|].
  unfold strlen in *. rewrite str_take_length. lia.
Qed.

Lemma inodes_close closed sg cur : inodes (closed ++ [sg]) cur = inodes closed (Some sg) ++ inodes [] cur.
Proof. unfold inodes. by rewrite fmap_app. Qed.

(** One poll, whatever is at the path: what it hands out continues the log, and
    it fails only while the file there cannot be opened. *)
Lemma poll_reads closed cur out c :
  reads data closed cur out c →
  ∃ r c' closed' cur', read_new_lines fs max_read 2 c = (r, c') ∧
    reads data closed' cur' (out ++ match r with Ok lines => lines | Raise _ => [] end) c' ∧
    moved closed closed' cur cur' ∧
    leaves closed closed' ∧
    (is_ok r = false → r = Raise OSError ∧ ∃ p, path = Some p ∧ denied p = true) ∧
    (∀ p, path = Some p → denied p = false → (∀ i, strlen (data i) < max_read) → is_ok r = true ∧ caught_up cur').
Proof.
  intros Hr. destruct cur as [sg|].
  - assert (path = None ∨ path = Some (sg_ino sg) ∨ ∃ p, path = Some p ∧ p ≠ sg_ino sg) as Hp.
    { clear. destruct path as [p|]; [|by left]. right. destruct (decide (p = sg_ino sg)) as [->|]; [by left|right; eauto]. }
    destruct Hp as [Hp|[Hp|(p & Hp & Hne)]].
    + destruct (read_same 1 _ _ _ _ Hr) as (lines & c' & text & Hread & Hr' & _); [by left|].
      exists (Ok lines), c', closed. eexists. split_and!; [done|exact Hr'|by left|by left|done|]. intros p ?. congruence.
    + destruct (read_same 1 _ _ _ _ Hr) as (lines & c' & text & Hread & Hr' & Hend); [by right|].
      exists (Ok lines), c', closed. eexists. split_and!; [done|exact Hr'|by left|by left|done|].
      intros p _ _ Hall. split; [done|]. apply Hend; [by rewrite Hp|done].
    + destruct (next_chunk_later _ _ _ _ Hr) as (later & Hlater & Hall' & Hle).
      pose proof (read_chunk _ _ _ _ _ _ _ Hr Hlater) as Hc. pose proof (r_cur _ _ _ _ _ Hr) as (Hh & _).
      rewrite (read_handle _ _ _ Hh). cbv zeta in *. destruct (split_chunk _ _) as [lines c1].
      destruct Hc as [Hr1 _]. set (sg' := mkSegment _ _ _) in Hr1.
      destruct (Z.ltb_spec (strlen (next_chunk c (sg_ino sg))) max_read) as [Hlt|Hge].
      * unfold follow_rotation. assert (fs_path fs = Ok (Some p)) as -> by (unfold fs; cbn [fs_path]; by rewrite Hp).
        rewrite (proj2 (Z.eqb_neq _ _) Hne). cbn [negb].
        assert (Hleaves : leaves closed (closed ++ [sg'])).
        { right. exists sg'. split; [done|]. split; [|by exists p]. subst sg'. cbn [sg_ino sg_before sg_text].
          by rewrite Hlater, Hall', string_app_nil by by apply next_chunk_last. }
        pose proof (close_segment _ _ _ _ _ Hr1) as Hr2. destruct (flush_partial c1) as [tl c2].
        destruct (read_fresh 0 _ _ _ Hr2) as [(c3 & Hr3 & [[Hread Hd]|[_ Hnone]])|Hopen]; [|congruence|].
        -- rewrite Hread. eexists (Ok (lines ++ tl)), _, (closed ++ [sg']), None. split_and!; [done| | |done|done|].
           ++ rewrite app_assoc. destruct Hr3. by constructor.
           ++ left. rewrite inodes_close. split; [by rewrite app_nil_r|]. intros _. right. by exists sg, p.
           ++ intros q Hq Hdq. destruct Hd as (q' & Hq' & Hdq'). congruence.
        -- destruct Hopen as (q & more & c3 & sg3 & Hq & Hd & Hino & Hread & Hr3 & Hend). rewrite Hread.
           exists (Ok (lines ++ tl ++ more)), c3, (closed ++ [sg']), (Some sg3). split_and!; [done| | |done|done|].
           ++ by rewrite !app_assoc in *.
           ++ right. exists p. rewrite inodes_close. unfold inodes at 2. cbn. assert (q = p) as -> by congruence.
              rewrite Hino. split_and!; [done|done|done|]. intros ? [= <-]. done.
           ++ intros ? _ _ Hall. split; [done|]. by apply Hend.
      * exists (Ok lines), c1, closed, (Some sg'). split_and!; [done|done|by left|by left|done|].
        intros _ _ _ Hall. specialize (Hall (sg_ino sg)).
        assert (strlen (next_chunk c (sg_ino sg)) ≤ strlen (data (sg_ino sg))); [|lia].
        rewrite Hlater, !strlen_app. pose proof (strlen_nonneg (sg_before sg)).
        pose proof (strlen_nonneg (sg_text sg)). pose proof (strlen_nonneg later). lia.
  - destruct (read_fresh 1 _ _ _ Hr) as [(c3 & Hr3 & [[Hread Hd]|[Hread Hnone]])|Hopen].
    + exists (Raise OSError), c3, closed, None. rewrite app_nil_r. split_and!; [done|done|left; eauto|by left|done|].
      intros q Hq Hdq. destruct Hd as (q' & Hq' & Hdq'). congruence.
    + exists (Ok []), c3, closed, None. rewrite app_nil_r. split_and!; [done|done|left; eauto|by left|done|].
      intros q Hq. congruence.
    + destruct Hopen as (q & more & c3 & sg3 & Hq & Hd & Hino & Hread & Hr3 & Hend).
      exists (Ok more), c3, closed, (Some sg3). split_and!; [done|done| |by left|done|].
      * right. exists q. unfold inodes. rewrite app_nil_r, Hino. split_and!; done.
      * intros ? _ _ Hall. split; [done|]. by apply Hend.
Qed.
End polls.
End tracking.

(** *** Numbering *)

(** Records as one line gives them: copies of one, numbered from 0. *)
Definition one_line_records (ts : string) (rs : list RawAuthEvent) : Prop :=
  ∃ r n, rs = map (λ i, with_occurrence i r) (seqZ 0 n) ∧ ra_syslog_ts r = ts.

Fixpoint number_all (groups : list (list RawAuthEvent)) (c : AuthLog) : list RawAuthEvent * AuthLog :=
  match groups with
  | [] => ([], c)
  | rs :: groups' =>
      let '(rs, c) := number rs c in let '(more, c) := number_all groups' c in (rs ++ more, c)
  end.

Definition identity (r : RawAuthEvent) : occurrence_key * Z := (key_of r, ra_occurrence r).

(** The identities given to the copies of one record, [n] of them, from [base] on *)
Definition identities (k : occurrence_key) (base n : Z) : list (occurrence_key * Z) := (k,.) <$> seqZ base n.

(** One line's records get the numbers that follow those its key has. *)
Lemma number_line ts rs c :
  one_line_records ts rs → rs ≠ [] →
  let seen := if String.eqb ts (al_seen_ts c) then al_seen c else [] in
  ∃ k n, 0 < n ∧
    identity <$> (number rs c).1 = identities k (default 0 (od_get seen k)) n ∧
    al_seen_ts (number rs c).2 = ts ∧
    al_seen (number rs c).2 = od_set seen k (default 0 (od_get seen k) + n).
Proof.
  intros (r & n & -> & Hts) Hne. assert (0 < n) as Hn.
  { destruct (Z.lt_ge_cases 0 n); [done|]. by rewrite seqZ_nil in Hne by lia. }
  assert (len (map (λ i, with_occurrence i r) (seqZ 0 n)) = n) as Hlen.
  { unfold len. rewrite length_map, length_seqZ. lia. }
  exists (key_of r), n. split; [done|]. rewrite <-Hts. unfold number.
  destruct (map (λ i, with_occurrence i r) (seqZ 0 n)) as [|first tl] eqn:Hmap; [done|].
  assert (first = with_occurrence 0 r) as Hfirst.
  { rewrite (seqZ_cons 0 n) in Hmap by done. by injection Hmap as <- _. }
  assert (key_of first = key_of r ∧ ra_syslog_ts first = ra_syslog_ts r) as [-> ->] by (by subst first).
  rewrite Hlen, <-Hmap. split_and!; [|done|done]. cbn [fst].
  set (base := default 0 _). unfold identities. destruct (Z.eqb_spec base 0) as [->|_].
  - rewrite <-list_fmap_compose. done.
  - rewrite map_map, <-list_fmap_compose. unfold compose, identity. cbn.
    replace (seqZ base n) with (Z.add base <$> seqZ 0 n) by (rewrite fmap_add_seqZ; f_equal; lia).
    rewrite <-list_fmap_compose. done.
Qed.

Lemma identities_NoDup k base n : NoDup (identities k base n).
Proof. apply NoDup_fmap; [by intros ? ? [= ->]|apply NoDup_seqZ]. Qed.

Lemma number_all_fresh ts groups c :
  Forall (λ rs, one_line_records ts rs) groups →
  let seen := if String.eqb ts (al_seen_ts c) then al_seen c else [] in
  (∀ k, 0 ≤ default 0 (od_get seen k)) →
  NoDup (identity <$> (number_all groups c).1) ∧
  Forall (λ ki, default 0 (od_get seen ki.1) ≤ ki.2) (identity <$> (number_all groups c).1).
Proof.
  intros Hall. revert c. induction Hall as [|rs groups Hrs _ IH]; intros c seen Hnn; [split; constructor|].
  cbn [number_all]. destruct (decide (rs = [])) as [->|Hne].
  { cbn [number]. specialize (IH c Hnn). by destruct (number_all groups c). }
  destruct (number_line ts rs c Hrs Hne) as (k & n & Hn & Hid & Hts & Hseen). fold seen in Hid, Hseen.
  destruct (number rs c) as [out c1]. cbn [fst snd] in *. specialize (IH c1). rewrite Hts, String.eqb_refl in IH.
  cbv zeta in IH. rewrite Hseen in IH. destruct IH as [IHn IHf].
  { intros k'. destruct (decide (k' = k)) as [->|Hk]; [rewrite od_get_set_eq|rewrite od_get_set_ne by done];
      [simpl; specialize (Hnn k); lia|done]. }
  destruct (number_all groups c1) as [more c2]. cbn [fst snd] in *. rewrite fmap_app, Hid.
  assert (∀ k' i, (k', i) ∈ identities k (default 0 (od_get seen k)) n →
    k' = k ∧ default 0 (od_get seen k) ≤ i < default 0 (od_get seen k) + n) as Hin.
  { intros k' i. unfold identities. rewrite list_elem_of_fmap. intros (j & [= -> ->] & Hj).
    apply elem_of_seqZ in Hj. by split. }
  split.
  - apply NoDup_app. split_and!; [apply identities_NoDup| |done]. intros [k' i] H1 H2.
    apply Hin in H1 as [-> H1]. eapply Forall_forall in IHf; [|exact H2]. cbn [fst snd] in IHf.
    rewrite od_get_set_eq in IHf. simpl in IHf. lia.
  - apply Forall_app. split; apply Forall_forall; intros [k' i] H1; cbn [fst snd].
    + apply Hin in H1 as [-> H1]. lia.
    + eapply Forall_forall in IHf; [|exact H1]. cbn [fst snd] in IHf.
      destruct (decide (k' = k)) as [->|Hk];
        [rewrite od_get_set_eq in IHf; simpl in IHf; lia|by rewrite od_get_set_ne in IHf].
Qed.

(** The numbers depend on the lines alone once a second begins. *)
Lemma number_all_same ts groups c c' :
  Forall (λ rs, one_line_records ts rs) groups →
  (if String.eqb ts (al_seen_ts c) then al_seen c else [])
  = (if String.eqb ts (al_seen_ts c') then al_seen c' else []) →
  (number_all groups c).1 = (number_all groups c').1.
Proof.
  intros Hall. revert c c'. induction Hall as [|rs groups Hrs _ IH]; intros c c' Heq; [done|].
  cbn [number_all]. destruct Hrs as (r & n & Hrs & Hts).
  assert (∀ d, number rs d = match rs with [] => ([], d) | _ =>
    let seen := if String.eqb ts (al_seen_ts d) then al_seen d else [] in
    let base := default 0 (od_get seen (key_of r)) in
    (if base =? 0 then rs else map (λ r, with_occurrence (base + ra_occurrence r) r) rs,
     with_seen ts (od_set seen (key_of r) (base + len rs)) d) end) as Hnum.
  { intros d. destruct rs as [|first rs']; [done|]. cbn [number].
    assert (∃ i, first = with_occurrence i r) as [i ->]; [|by rewrite <-Hts].
    destruct (seqZ 0 n); [done|]. injection Hrs as -> _. by eexists. }
  rewrite !Hnum. destruct rs as [|first rs'].
  - specialize (IH c c' Heq). destruct (number_all groups c), (number_all groups c'). simpl in *. by rewrite IH.
  - cbv zeta. rewrite Heq. match goal with |- context [with_seen ts ?s c] =>
      specialize (IH (with_seen ts s c) (with_seen ts s c')) end.
    cbn [al_seen_ts al_seen with_seen] in IH. rewrite String.eqb_refl in IH. specialize (IH eq_refl).
    destruct (number_all groups (with_seen _ _ c)), (number_all groups (with_seen _ _ c')). simpl in *. by rewrite IH.
Qed.

(** What a line parses to is one record, repeated. *)
Lemma parse_one_line year tz host_override now line rs :
  parse_auth_records year tz host_override now line = Ok rs →
  ∃ r n, rs = map (λ i, with_occurrence i r) (seqZ 0 n).
Proof.
  assert (∃ r n, [] = map (λ i, with_occurrence i r) (seqZ 0 n)) as Hnil.
  { by exists (mkRawAuth (mkDatetime 0 None) "" "" "" "" "" 0 "" "" 0 0 ""), 0. }
  unfold parse_auth_records. case_match; [by intros [= <-]|]. case_match; [|by intros [= <-]].
  case_match; [by intros [= <-]|]. destruct (unfold_repeat _) as [[message count]|]; [|done]. cbn.
  case_match; [|by intros [= <-]]. destruct (header_time _ _ _ _) as [[raw_ts timestamp]|]; [|done]. cbn.
  case_match; [|by intros [= <-]]. case_match; [|by intros [= <-]].
  case_match; intros [= <-]; [|done]. by eexists _, _.
Qed.

(** Records of one second *)
Lemma parsed_together year tz host_override now line rs ts :
  parse_auth_records year tz host_override now line = Ok rs →
  Forall (λ r, ra_syslog_ts r = ts) rs → one_line_records ts rs.
Proof.
  intros (r & n & ->)%parse_one_line Hts. destruct (Z.lt_ge_cases 0 n) as [Hn|Hn].
  - exists r, n. split; [done|]. rewrite seqZ_cons in Hts by done. by apply Forall_cons in Hts as [Hts _].
  - rewrite seqZ_nil by done. exists (mkRawAuth (mkDatetime 0 None) "" ts "" "" "" 0 "" "" 0 0 ""), 0. done.
Qed.

Lemma number_all_length groups c : length (number_all groups c).1 = length (concat groups).
Proof.
  revert c. induction groups as [|rs groups IH]; intros c; [done|]. cbn [number_all concat].
  assert (length (number rs c).1 = length rs) as Hl.
  { unfold number. destruct rs; [done|]. cbn [fst]. case_match; [done|]. by rewrite length_map. }
  destruct (number rs c) as [out c1]. specialize (IH c1). destruct (number_all groups c1). simpl in *.
  rewrite !length_app. lia.
Qed.

(** *** A log that grows and is rotated *)

Record World := mkWorld {
  w_data : Z → string;
  w_created : list Z;          (* every file that was ever at the path, in order *)
  w_path : option Z;
  w_log : AuthLog;
  w_out : list string;         (* the lines handed out *)
}.

Inductive happening :=
  | Append (ino : Z) (text : string)      (* also to a file that was renamed *)
  | Create (ino : Z)                      (* a new file at the path *)
  | Unlink                                (* none for now *)
  | Poll (denied : Z → bool).

Definition step (max_read : Z) (h : happening) (w : World) : option World :=
  match h with
  | Append ino text =>
      if bool_decide (ino ∈ w_created w) then
        Some (mkWorld (<[ino := (w_data w ino +:+ text)%string]> (w_data w)) (w_created w) (w_path w) (w_log w) (w_out w))
      else None
  | Create ino =>
      if bool_decide (ino ∈ w_created w) then None
      else Some (mkWorld (<[ino := ""%string]> (w_data w)) (w_created w ++ [ino]) (Some ino) (w_log w) (w_out w))
  | Unlink => Some (mkWorld (w_data w) (w_created w) None (w_log w) (w_out w))
  | Poll denied =>
      let '(r, c) := read_new_lines (mkFS (Ok (w_path w)) (w_data w) denied) max_read 2 (w_log w) in
      Some (mkWorld (w_data w) (w_created w) (w_path w) c
              (w_out w ++ match r with Ok lines => lines | Raise _ => [] end))
  end.

Fixpoint happens (max_read : Z) (hs : list happening) (w : World) : option World :=
  match hs with
  | [] => Some w
  | h :: hs' => w' ← step max_read h w; happens max_read hs' w'
  end.

Definition no_files (start_at_end : bool) : World :=
  mkWorld (λ _, ""%string) [] None (new_auth_log start_at_end) [].

(** What holds between two happenings *)
Record tailing (start : bool) (closed : list segment) (cur : option segment) (w : World) : Prop := {
  t_reads : reads start (w_data w) closed cur (w_out w) (w_log w);
  t_created : NoDup (w_created w);
  t_path : match w_path w with Some p => last (w_created w) = Some p | None => True end;
  t_order : inodes closed cur `sublist_of` w_created w;
  t_closed : cur = None → inodes closed None `sublist_of` removelast (w_created w);
}.

Lemma in_file_append data ino text sg :
  in_file data sg → in_file (<[ino := (data ino +:+ text)%string]> data) sg.
Proof.
  intros [later Hl]. destruct (decide (sg_ino sg = ino)) as [<-|Hne].
  - exists (later +:+ text)%string. rewrite fn_lookup_insert, Hl. by rewrite !string_app_assoc.
  - exists later. by rewrite fn_lookup_insert_ne.
Qed.

Lemma reads_data start data data' closed cur out c :
  (∀ sg, sg_ino sg ∈ inodes closed cur → in_file data sg → in_file data' sg) →
  reads start data closed cur out c → reads start data' closed cur out c.
Proof.
  intros Hd [Hout Hclosed Hcur Hb Hs]. constructor; [done| | |done|done].
  - apply Forall_forall. intros sg Hsg. apply Hd; [|by apply (proj1 (Forall_forall _ _) Hclosed)].
    apply elem_of_app. left. by apply list_elem_of_fmap_2.
  - destruct cur as [sg|]; [|done]. destruct Hcur as (? & ? & ?). split; [done|split; [|done]]. apply Hd; [|done].
    apply elem_of_app. right. by left.
Qed.

Lemma sublist_snoc_ne {A} (l k : list A) x y :
  l ++ [y] `sublist_of` k ++ [x] → y ≠ x → l ++ [y] `sublist_of` k.
Proof.
  intros Hs Hne. apply sublist_app_r in Hs as (l1 & l2 & Heq & H1 & H2).
  apply sublist_cons_r in H2 as [H2|(l2' & -> & H2)].
  - apply sublist_nil_r in H2 as ->. rewrite app_nil_r in Heq. by rewrite Heq.
  - apply sublist_nil_r in H2 as ->. apply app_inj_tail in Heq as [_ ->]. done.
Qed.

Lemma tailing_start start : tailing start [] None (no_files start).
Proof. constructor; [by constructor; destruct start|constructor|done|constructor|done]. Qed.

(** Every file is opened after those before it, and once. *)
Lemma tailing_step start max_read h w w' closed cur :
  tailing start closed cur w → step max_read h w = Some w' →
  ∃ closed' cur', tailing start closed' cur' w' ∧ leaves (w_data w) (w_path w) closed closed'.
Proof.
  intros [Hr Hnd Hp Ho Hc] Hstep. destruct h as [ino text|ino| |denied]; cbn [step] in Hstep.
  - case_bool_decide; [|done]. injection Hstep as <-. exists closed, cur. split; [|by left]. constructor; try done.
    eapply reads_data; [|done]. intros. by apply in_file_append.
  - case_bool_decide as Hin; [done|]. injection Hstep as <-. exists closed, cur. split; [|by left].
    constructor; cbn [w_data w_created w_path w_log w_out].
    + eapply reads_data; [|done]. intros sg Hsg [later Hl]. exists later.
      rewrite fn_lookup_insert_ne; [done|]. intros ->. apply Hin. by eapply elem_of_sublist.
    + apply NoDup_app. split_and!; [done| |by apply NoDup_singleton].
      intros x Hx ->%list_elem_of_singleton. done.
    + by rewrite last_snoc.
    + by apply sublist_inserts_r.
    + intros ->. rewrite removelast_last. done.
  - injection Hstep as <-. exists closed, cur. split; [by constructor|by left].
  - destruct (poll_reads start (w_data w) (w_path w) denied max_read closed cur (w_out w) (w_log w) Hr)
      as (r & c' & closed' & cur' & Hread & Hr' & Hmoved & Hleaves & _). rewrite Hread in Hstep. injection Hstep as <-.
    exists closed', cur'. split; [|done]. constructor; cbn [w_data w_created w_path w_log w_out]; [done..| |].
    + destruct Hmoved as [[-> _]|(p & Hpath & -> & _ & Hne)]; [done|].
      rewrite Hpath in Hp. apply last_Some in Hp as [init Hinit]. rewrite Hinit in *.
      apply sublist_app; [|done]. rewrite removelast_last in Hc. destruct cur as [sg|]; [|by apply Hc].
      apply sublist_snoc_ne in Ho; [done|]. by apply not_eq_sym, Hne.
    + intros ->. destruct Hmoved as [[Heq Hnone]|(p & _ & _ & Hne & _)]; [|done]. rewrite Heq.
      destruct (Hnone eq_refl) as [->|(sg & p & -> & Hpath & Hne)]; [by apply Hc|].
      rewrite Hpath in Hp. apply last_Some in Hp as [init Hinit]. rewrite Hinit in *. rewrite removelast_last.
      apply sublist_snoc_ne in Ho; [done|]. by apply not_eq_sym.
Qed.

(** At some instant of a history *)
Definition once (max_read : Z) (hs : list happening) (w : World) (P : World → Prop) : Prop :=
  ∃ before after w1, hs = before ++ after ∧ happens max_read before w = Some w1 ∧ P w1.

Lemma tailing_happens start max_read hs w w' closed cur :
  tailing start closed cur w → happens max_read hs w = Some w' →
  ∃ left cur', tailing start (closed ++ left) cur' w' ∧
    Forall (λ sg, once max_read hs w (λ w1, finished (w_data w1) (w_path w1) sg)) left.
Proof.
  revert w closed cur. induction hs as [|h hs IH]; intros w closed cur Ht Hrun.
  - injection Hrun as <-. exists [], cur. rewrite app_nil_r. split; [done|]. apply Forall_nil_2.
  - simpl in Hrun. apply bind_Some in Hrun as (w1 & Hstep & Hrun).
    destruct (tailing_step _ _ _ _ _ _ _ Ht Hstep) as (closed1 & cur1 & Ht1 & Hleaves).
    destruct (IH _ _ _ Ht1 Hrun) as (left & cur' & Ht' & Hleft).
    assert (Hlater : Forall (λ sg, once max_read (h :: hs) w (λ w1, finished (w_data w1) (w_path w1) sg)) left).
    { eapply Forall_impl; [exact Hleft|]. intros sg (before & after & w2 & -> & Hb & Hf).
      exists (h :: before), after, w2. split_and!; [done| |done]. simpl. by rewrite Hstep. }
    destruct Hleaves as [->|(sg & -> & Hsg)]; [by exists left, cur'|].
    exists (sg :: left), cur'. split; [by rewrite <-app_assoc in Ht'|]. apply Forall_cons_2; [|done].
    exists [], (h :: hs), w. by split_and!.
Qed.

(** ** Properties *)

(** C15: following the log loses, doubles, reorders and cuts no line: however it
    grows, is renamed, replaced, missing or unreadable for a while between the
    polls (not truncated in place), the lines handed out (over-long ones aside)
    are exactly the lines of what was read, file after file in the order they
    appeared at the path, no file twice, each from its start (the first from its
    end if so told); a file is left only when another one is at the path and it
    has been read up to the end it had then, its last line included; and a poll
    that can open the file at the path leaves nothing of it unread, if the files
    are shorter than one read. *)
Theorem tail_reads_lines_once start max_read hs w :
  happens max_read hs (no_files start) = Some w →
  ∃ closed cur,
    filter short (w_out w) = filter short (shown closed cur) ∧
    Forall (in_file (w_data w)) (closed ++ option_list cur) ∧
    Forall (λ sg, once max_read hs (no_files start) (λ w1,
      w_data w1 (sg_ino sg) = (sg_before sg +:+ sg_text sg)%string ∧ ∃ p, w_path w1 = Some p ∧ p ≠ sg_ino sg)) closed ∧
    inodes closed cur `sublist_of` w_created w ∧ NoDup (inodes closed cur) ∧
    Forall (λ b, b = ""%string) (if start then tail (befores closed cur) else befores closed cur) ∧
    ∀ p denied, w_path w = Some p → denied p = false → (∀ i, strlen (w_data w i) < max_read) →
      ∃ lines c' closed' cur',
        read_new_lines (mkFS (Ok (w_path w)) (w_data w) denied) max_read 2 (w_log w) = (Ok lines, c') ∧
        filter short (w_out w ++ lines) = filter short (shown closed' cur') ∧
        caught_up (w_data w) (w_path w) cur'.
Proof.
  intros Hrun.
  destruct (tailing_happens _ _ _ _ _ _ _ (tailing_start start) Hrun) as (closed & cur & [Hr Hnd Hp Ho _] & Hleft).
  exists closed, cur. split_and!.
  - by destruct Hr.
  - apply Forall_app. split; [by destruct Hr|]. destruct Hr as [_ _ Hcur _ _]. destruct cur; [|by constructor].
    constructor; [by destruct Hcur as (_ & ? & _)|by constructor].
  - exact Hleft.
  - done.
  - by eapply sublist_NoDup.
  - by destruct Hr.
  - intros p denied Hpath Hd Hall.
    destruct (poll_reads start (w_data w) (w_path w) denied max_read closed cur (w_out w) (w_log w) Hr)
      as (r & c' & closed' & cur' & Hread & Hr' & _ & _ & _ & Hcaught).
    destruct (Hcaught p Hpath Hd Hall) as [Hok Hc]. destruct r as [lines|]; [|done].
    exists lines, c', closed', cur'. split_and!; [done|by destruct Hr'|done].
Qed.

(** Identical lines stay distinct: of the records parsed from the lines of
    one second, however often [sshd] (or rsyslog's reduction) repeats a line, no
    two get the same line identity and number; and reading the same lines again,
    after a truncation or a restart, gives them the same numbers; no record is
    lost by it. *)
Theorem repeated_lines_numbered year tz host_override ts lines groups c c' :
  Forall2 (λ line rs, ∃ now, parse_auth_records year tz host_override now line = Ok rs) lines groups →
  Forall (Forall (λ r, ra_syslog_ts r = ts)) groups →
  al_seen c = [] ∨ al_seen_ts c ≠ ts → al_seen c' = [] ∨ al_seen_ts c' ≠ ts →
  NoDup (identity <$> (number_all groups c).1) ∧
  (number_all groups c).1 = (number_all groups c').1 ∧
  length (number_all groups c).1 = length (concat groups).
Proof.
  intros Hparsed Hts Hc Hc'.
  assert (Forall (λ rs, one_line_records ts rs) groups) as Hall.
  { revert Hts. clear -Hparsed. induction Hparsed as [|line rs lines groups [now Hrs] _ IH]; [by constructor|].
    intros [Hrs_ts Hts]%Forall_cons. constructor; [|by apply IH]. by eapply parsed_together. }
  assert (∀ d, al_seen d = [] ∨ al_seen_ts d ≠ ts →
    (if String.eqb ts (al_seen_ts d) then al_seen d else []) = []) as Hfresh.
  { intros d Hd. destruct (String.eqb_spec ts (al_seen_ts d)); [|done]. destruct Hd as [|Hd]; [done|]. by destruct Hd. }
  split_and!.
  - apply (number_all_fresh ts); [done|]. by rewrite Hfresh by done.
  - apply (number_all_same ts); [done|]. by rewrite !Hfresh by done.
  - apply number_all_length.
Qed.

(** ** Witnesses *)

(** A line read in two parts, one written to the file after it was renamed, a
    successor that may not be opened at first. *)
Definition example_history : list happening :=
  [Create 1; Append 1 ("one" +:+ String NL "tw")%string; Poll (λ _, false);
   Append 1 ("o" +:+ String NL "")%string; Create 2; Append 1 "three"%string;
   Append 2 ("four" +:+ String NL "")%string; Poll (λ ino, ino =? 2); Poll (λ _, false)].

Definition example_world : World := default (no_files false) (happens 64 example_history (no_files false)).

Example example_lines : w_out example_world = ["one"; "two"; "three"; "four"]%string.
Proof. vm_compute. reflexivity. Qed.

Lemma tail_reads_lines_once_witness :
  ∃ closed cur,
    filter short (w_out example_world) = filter short (shown closed cur) ∧
    Forall (λ sg, ∃ p, p ≠ sg_ino sg) closed ∧ inodes closed cur `sublist_of` [1; 2] ∧ NoDup (inodes closed cur).
Proof.
  destruct (tail_reads_lines_once false 64 example_history example_world) as (closed & cur & H1 & _ & H4 & H2 & H3 & _).
  - vm_compute. reflexivity.
  - exists closed, cur. split; [exact H1|split; [|split; [exact H2|exact H3]]].
    eapply Forall_impl; [exact H4|]. intros sg (_ & _ & _ & _ & _ & _ & p & _ & H). exists p. exact H.
Defined.

Definition example_line : string :=
  "Jun 16 12:00:00 h sshd[7]: Failed password for root from 10.0.0.7 port 1 ssh2".

Definition example_reduction : string :=
  "Jun 16 12:00:00 h sshd[7]: message repeated 2 times: [ Failed password for root from 10.0.0.7 port 1 ssh2]".

Definition parsed (line : string) : list RawAuthEvent :=
  match parse_auth_records None 0 None example_now line with Ok rs => rs | Raise _ => [] end.

Example example_numbers :
  map ra_occurrence (number_all (map parsed [example_line; example_reduction; example_line]) (new_auth_log false)).1
  = [0; 1; 2; 3].
Proof. vm_compute. reflexivity. Qed.

Lemma repeated_lines_numbered_witness :
  NoDup (identity <$> (number_all (map parsed [example_line; example_reduction]) (new_auth_log false)).1).
Proof.
  destruct (repeated_lines_numbered None 0 None "Jun 16 12:00:00" [example_line; example_reduction]
    (map parsed [example_line; example_reduction]) (new_auth_log false) (new_auth_log false)) as [H _].
  - repeat constructor; exists example_now; vm_compute; reflexivity.
  - vm_compute. repeat constructor.
  - left. reflexivity.
  - left. reflexivity.
  - exact H.
Defined.

(** ** What modelling showed *)

(** A lookup of the path that fails for another reason than a missing file
    (say the directory may not be searched for a moment) loses the lines of the
    chunk just read: the offset is already past them. *)
Example lookup_failure_loses_lines :
  let c := with_handle (Some 1) 0 (new_auth_log false) in
  let data := λ _ : Z, ("one" +:+ String NL "")%string in
  let poll := λ path, read_new_lines (mkFS path data (λ _, false)) 64 2 in
  let '(r, c) := poll (Raise OSError) c in
  r = Raise OSError ∧ (poll (Ok (Some 1)) c).1 = Ok [].
Proof. vm_compute. by split. Qed.

(** Two lines of one connection in one second that differ in the method alone
    are told apart by [_number] but not by the event id: both are number 0 and
    the id leaves the message out, so the second is dropped as a duplicate. *)
Example methods_share_an_id :
  let line m := ("Jun 16 12:00:00 h sshd[7]: Failed " +:+ m +:+ " for root from 10.0.0.7 port 1 ssh2")%string in
  let '(records, _) := number_all (map parsed [line "publickey"; line "password"]%string) (new_auth_log false) in
  match enqueue "h" records (new_auth_log false) with
  | ([a; b], _) => bool_decide (em_id (ev_event a) = em_id (ev_event b))
  | _ => false
  end = true.
Proof. vm_compute. reflexivity. Qed.
