(* ===== verification/Sinks.v ===== *)
(** * Alert sinks ([alerting/sinks/console.py], [email.py], [webhook.py])

    The console line and its escaping, the SMTP conversation of the email sink,
    and the webhook sink: the URL as [urlsplit] reads it, the SSRF guard over
    [ipaddress]'s classification, the pinned destination and the retries.
    Name resolution, the HTTP client's answers and the SMTP server's are
    arguments; what the sinks do with them is the source's. *)

From S2P Require Import Prelude ODict PyText Sha256 IpAddress Events Rules Engine Alerting.
Local Open Scope string_scope.
Local Open Scope Z_scope.

(** ** Console *)

(** [_CONTROL_ESCAPES] *)
Definition is_control (c : ascii) : bool := in_range 0 31 c || in_range 127 159 c.

Definition hex2 (n : Z) : string :=
  String (hex_digit (n / 16)) (String (hex_digit (n mod 16)) "").

Definition backslash : ascii := ascii_of_nat 92.

(** [line.translate(_CONTROL_ESCAPES)] *)
Fixpoint escape_controls (s : string) : string :=
  match s with
  | "" => ""
  | String c s' =>
      if is_control c
      then String backslash (String "x" (hex2 (Z.of_N (code c)) +:+ escape_controls s'))
      else String c (escape_controls s')
  end.

Section console.
(** [f"{timestamp:%Y-%m-%dT%H:%M:%SZ}"] *)
Context (strftime : datetime → string).

(** [ConsoleSink.render] *)
Definition render (a : Alert) : string :=
  escape_controls
    (strftime (al_timestamp a) +:+ " [" +:+ severity_label (al_severity a) +:+ "] " +:+
     al_rule_id a +:+ " (" +:+ str_join "," (al_attack a) +:+ ") host=" +:+ al_host a +:+ " :: "
     +:+ al_summary a).

(** ** Email *)

Record EmailSink := mkEmail {
  em_host : string; em_port : Z; em_sender : string; em_recipients : list string;
  em_username : option string; em_password : option string;
  em_use_starttls : bool; em_implicit_tls : bool;
}.

(** [bool(x)] of an optional string *)
Definition truthy (x : option string) : bool :=
  match x with Some s => negb (String.eqb s "") | None => false end.

(** [EmailSink.__init__] *)
Definition new_email (s : EmailSink) : result EmailSink :=
  _ ← raise_if (String.eqb (em_host s) "") ValueError;
  _ ← raise_if (bool_decide (em_recipients s = [])) ValueError;
  _ ← raise_if (negb (eqb (truthy (em_username s)) (truthy (em_password s)))) ValueError;
  _ ← raise_if (truthy (em_username s) && negb (em_use_starttls s || em_implicit_tls s)) ValueError;
  Ok s.

Record EmailMessage := mkMessage { ms_from : string; ms_to : string; ms_subject : string; ms_text : string }.

Definition newline : string := String (ascii_of_nat 10) "".

(** [message[name] = value]: a header is one line. *)
Definition header (value : string) : result string :=
  _ ← raise_if (1 <? len (str_splitlines value)) ValueError; Ok value.

(** [_build_message]; the dash of the text is outside Latin-1 and written [-]. *)
Definition build_message (s : EmailSink) (a : Alert) : result EmailMessage :=
  let label := severity_label (al_severity a) in
  from ← header (em_sender s);
  to ← header (str_join ", " (em_recipients s));
  subject ← header ("[Sentinel][" +:+ label +:+ "] " +:+ al_rule_id a +:+ " on " +:+ al_host a);
  Ok (mkMessage from to subject
    ("Rule:      " +:+ al_rule_id a +:+ " - " +:+ al_title a +:+ newline +:+
     "Severity:  " +:+ str_of_int (al_severity a) +:+ " (" +:+ label +:+ ")" +:+ newline +:+
     "ATT&CK:    " +:+ str_join ", " (al_attack a) +:+ newline +:+
     "NIST CSF:  " +:+ str_join ", " (al_nist_csf a) +:+ newline +:+
     "Host:      " +:+ al_host a +:+ newline +:+
     "Time:      " +:+ strftime (al_timestamp a) +:+ newline +:+
     "Event id:  " +:+ al_event_id a +:+ newline +:+ newline +:+ al_summary a +:+ newline)).

(** [ConsoleSink.emit]: what is written to the stream; [render_json] is a
    [json.dumps]. *)
Definition console_emit (render_json : Alert → string) (json_lines : bool) (a : Alert) : string :=
  (if json_lines then render_json a else render a) +:+ newline.
End console.

(** What the sink does on the connection; [Connect true] is TLS from the first
    byte, with a verifying context. *)
Inductive smtp_call :=
  | Connect (implicit_tls : bool)
  | StartTls
  | Login (user password : string)
  | SendMessage
  | Quit.

(** Calls in order, each with whether it succeeds, up to and including the first
    that raises ([oks] tells which succeed), and whether all did. *)
Fixpoint attempt_calls (calls : list smtp_call) (oks : list bool) : list (smtp_call * bool) * bool :=
  match calls with
  | [] => ([], true)
  | c :: calls' =>
      if default true (head oks)
      then let '(done, ok) := attempt_calls calls' (tail oks) in ((c, true) :: done, ok)
      else ([(c, false)], false)
  end.

(** [_send]: no [quit] without a connection; a failed [quit] is suppressed. *)
Definition send (s : EmailSink) (connect_ok : bool) (oks : list bool) (quit_ok : bool) : list (smtp_call * bool) * bool :=
  let connect := Connect (em_implicit_tls s) in
  if connect_ok then
    let calls :=
      ((if em_use_starttls s && negb (em_implicit_tls s) then [StartTls] else [])
       ++ match em_username s, em_password s with
          | Some u, Some p =>
              if negb (String.eqb u "") && negb (String.eqb p "") then [Login u p] else []
          | _, _ => []
          end
       ++ [SendMessage])%list in
    let '(done, ok) := attempt_calls calls oks in (((connect, true) :: done ++ [(Quit, quit_ok)])%list, ok)
  else ([(connect, false)], false).

(** ** Webhook: reading the URL *)

Definition is_c0_or_space (c : ascii) : bool := in_range 0 32 c.
Definition is_scheme_char (c : ascii) : bool :=
  is_alpha c || is_digit c || Ascii.eqb c "+" || Ascii.eqb c "-" || Ascii.eqb c ".".

Fixpoint lstrip_where (P : ascii → bool) (s : string) : string :=
  match s with String c s' => if P c then lstrip_where P s' else s | "" => "" end.

Fixpoint remove_where (P : ascii → bool) (s : string) : string :=
  match s with
  | "" => ""
  | String c s' => if P c then remove_where P s' else String c (remove_where P s')
  end.

(** The longest prefix without a character of [P], and the rest. *)
Fixpoint span_until (P : ascii → bool) (s : string) : string * string :=
  match s with
  | "" => ("", "")
  | String c s' => if P c then ("", s) else let '(a, b) := span_until P s' in (String c a, b)
  end.

(** [s.rpartition("@")[2]] *)
Fixpoint after_last_at (s : string) : string :=
  match s with
  | "" => ""
  | String c s' => if str_mem "@" s' then after_last_at s' else if Ascii.eqb c "@" then s' else s
  end.

Record split_url := mkSplit { us_scheme : string; us_netloc : string; us_rest : string }.

(** [_check_bracketed_host] *)
Definition bracketed_host_ok (host : string) : bool :=
  if str_startswith host "v" then
    let '(version, dot, address) := str_partition "." (str_drop 1 host) in
    negb (String.eqb version "") && str_forall is_hex version && dot && negb (String.eqb address "")
      && str_forall (λ c, negb (Ascii.eqb c (ascii_of_nat 10))) address
  else match ip_address host with Ok (IPv6 _ _) => true | _ => false end.

(** [_check_bracketed_netloc] *)
Definition bracketed_netloc_ok (netloc : string) : bool :=
  let '(before, open_br, bracketed) := str_partition "[" (after_last_at netloc) in
  if open_br then
    let '(host, _, port) := str_partition "]" bracketed in
    String.eqb before "" && (String.eqb port "" || str_startswith port ":") && bracketed_host_ok host
  else let '(host, _, _) := str_partition ":" (after_last_at netloc) in bracketed_host_ok host.

(** [urlsplit]: scheme, network location and what follows it. *)
Definition urlsplit (url : string) : result split_url :=
  let url := remove_where (λ c, Ascii.eqb c (ascii_of_nat 9) || Ascii.eqb c (ascii_of_nat 10)
                                || Ascii.eqb c (ascii_of_nat 13)) (lstrip_where is_c0_or_space url) in
  let '(head, colon, after) := str_partition ":" url in
  let has_scheme := colon && negb (String.eqb head "") && str_forall is_scheme_char head
                      && match head with String c _ => is_alpha c | "" => false end in
  let scheme := if has_scheme then str_lower head else "" in
  let url := if has_scheme then after else url in
  if str_startswith url "//" then
    let '(netloc, rest) := span_until (λ c, Ascii.eqb c "/" || Ascii.eqb c "?" || Ascii.eqb c "#")
                             (str_drop 2 url) in
    let brackets := (str_mem "[" netloc, str_mem "]" netloc) in
    _ ← raise_if (negb (eqb (fst brackets) (snd brackets))) ValueError;
    _ ← raise_if (fst brackets && negb (bracketed_netloc_ok netloc)) ValueError;
    Ok (mkSplit scheme netloc rest)
  else Ok (mkSplit scheme "" url).

(** [_hostinfo]: host and port as text *)
Definition hostinfo (p : split_url) : string * string :=
  let info := after_last_at (us_netloc p) in
  let '(_, open_br, bracketed) := str_partition "[" info in
  if open_br then
    let '(host, _, after) := str_partition "]" bracketed in
    let '(_, _, port) := str_partition ":" after in (host, port)
  else let '(host, _, port) := str_partition ":" info in (host, port).

(** [.hostname]: lower case, but a scope as it is; empty for none. *)
Definition hostname (p : split_url) : string :=
  let '(host, percent, zone) := str_partition "%" (hostinfo p).1 in
  str_lower host +:+ (if percent then "%" else "") +:+ zone.

(** [.port] *)
Definition port (p : split_url) : result (option Z) :=
  let text := (hostinfo p).2 in
  if String.eqb text "" then Ok None
  else if negb (str_forall is_digit text) || (65535 <? digits_value 10 0 text) then Raise ValueError
  else Ok (Some (digits_value 10 0 text)).

(** ** Webhook: the SSRF guard *)

Definition HTTPS_PORT : Z := 443.

(** [address in network] for a network given by its base and prefix length *)
Definition in_net (width : Z) (n : Z) (net : Z * Z) : bool :=
  Z.shiftr n (width - snd net) =? Z.shiftr (fst net) (width - snd net).

Definition v4 (a b c d : Z) : Z := ((a * 256 + b) * 256 + c) * 256 + d.

(** [_IPv4Constants] *)
Definition V4_PRIVATE : list (Z * Z) := [
  (v4 0 0 0 0, 8); (v4 10 0 0 0, 8); (v4 127 0 0 0, 8); (v4 169 254 0 0, 16); (v4 172 16 0 0, 12);
  (v4 192 0 0 0, 24); (v4 192 0 0 170, 31); (v4 192 0 2 0, 24); (v4 192 168 0 0, 16);
  (v4 198 18 0 0, 15); (v4 198 51 100 0, 24); (v4 203 0 113 0, 24); (v4 240 0 0 0, 4);
  (v4 255 255 255 255, 32)].
Definition V4_PRIVATE_EXCEPTIONS : list (Z * Z) := [(v4 192 0 0 9, 32); (v4 192 0 0 10, 32)].
Definition V4_SHARED : Z * Z := (v4 100 64 0 0, 10).
Definition V4_MULTICAST : Z * Z := (v4 224 0 0 0, 4).

(** An IPv6 base from its leading hextets *)
Definition v6 (hextets : list Z) : Z :=
  Z.shiftl (foldl (λ n h, n * 65536 + h) 0 hextets) (16 * (8 - len hextets)).

(** [_IPv6Constants] *)
Definition V6_PRIVATE : list (Z * Z) := [
  (1, 128); (0, 128); (v6 [0; 0; 0; 0; 0; 65535], 96); (v6 [100; 65435; 1], 48); (v6 [256], 64);
  (v6 [8193], 23); (v6 [8193; 3512], 32); (v6 [8194], 16); (v6 [16383], 20); (v6 [64512], 7);
  (v6 [65152], 10)].
Definition V6_PRIVATE_EXCEPTIONS : list (Z * Z) := [
  (v6 [8193; 1; 0; 0; 0; 0; 0; 1], 128); (v6 [8193; 1; 0; 0; 0; 0; 0; 2], 128); (v6 [8193; 3], 32);
  (v6 [8193; 4; 274], 48); (v6 [8193; 32], 28); (v6 [8193; 48], 28)].
Definition V6_MULTICAST : Z * Z := (v6 [65280], 8).

Definition in_any (width n : Z) (nets : list (Z * Z)) : bool := existsb (in_net width n) nets.

(** [is_global] and [is_multicast] of an IPv4 address *)
Definition v4_global (n : Z) : bool :=
  negb (in_net 32 n V4_SHARED)
    && negb (in_any 32 n V4_PRIVATE && negb (in_any 32 n V4_PRIVATE_EXCEPTIONS)).

Definition v6_global (n : Z) : bool :=
  negb (in_any 128 n V6_PRIVATE && negb (in_any 128 n V6_PRIVATE_EXCEPTIONS)).

(** [is_blocked_address] of a parsed address *)
Definition blocked_ip (a : ip) : bool :=
  match a with
  | IPv4 n => negb (v4_global n) || in_net 32 n V4_MULTICAST
  | IPv6 n _ =>
      match ipv4_mapped n with
      | Some m => negb (v4_global m) || in_net 32 m V4_MULTICAST
      | None => negb (v6_global n) || in_net 128 n V6_MULTICAST
      end
  end.

Definition is_blocked_address (address : string) : result bool :=
  a ← ip_address address; Ok (blocked_ip a).

Definition is_ip_literal (host : string) : bool := is_ok (ip_address host).

(** [_split] *)
Definition split_destination (url : string) : result (string * Z) :=
  parts ← urlsplit url;
  _ ← raise_if (negb (String.eqb (us_scheme parts) "https")) DestinationBlockedError;
  _ ← raise_if (String.eqb (hostname parts) "") DestinationBlockedError;
  match port parts with
  | Raise _ => Raise DestinationBlockedError
  | Ok p => Ok (hostname parts, match p with Some p => if p =? 0 then HTTPS_PORT else p | None => HTTPS_PORT end)
  end.

Definition validate_destination (url : string) (allow_private : bool) : result unit :=
  '(host, _) ← split_destination url;
  if negb allow_private && is_ip_literal host then
    blocked ← is_blocked_address host; raise_if blocked DestinationBlockedError
  else Ok tt.

Record Destination := mkDestination { ds_host : string; ds_port : Z; ds_addresses : list string }.

(** [any(is_blocked_address(a) for a in addresses)] *)
Fixpoint any_blocked (addresses : list string) : result bool :=
  match addresses with
  | [] => Ok false
  | a :: rest => blocked ← is_blocked_address a; if blocked : bool then Ok true else any_blocked rest
  end.

(** [resolve_destination]; [resolver] is what the lookup gives or raises. *)
Definition resolve_destination (resolver : string → Z → result (list string)) (allow_private : bool)
    (url : string) : result Destination :=
  '(host, port) ← split_destination url;
  addresses ← (if is_ip_literal host then Ok [host] else resolver host port);
  _ ← raise_if (bool_decide (addresses = [])) DestinationBlockedError;
  blocked ← (if allow_private then Ok false else any_blocked addresses);
  _ ← raise_if blocked DestinationBlockedError;
  Ok (mkDestination host port addresses).

(** The network location of [_pinned_url] *)
Definition pinned_netloc (d : Destination) : string :=
  let address := List.hd "" (ds_addresses d) in
  let literal := if str_mem ":" address then "[" +:+ address +:+ "]" else address in
  literal +:+ ":" +:+ str_of_int (ds_port d).

(** ** Webhook: delivery *)

Definition BACKOFF_BASE : Z := SECOND / 2.
Definition retryable (status : Z) : bool := bool_decide (status ∈ [429; 500; 502; 503; 504]).

(** The result of one attempt: a status, or a network failure or time-out. *)
Inductive attempt := Status (code : Z) | Unreachable.

(** What happens on the wire: a request, or a pause. *)
Inductive webhook_act := Post | Sleep (duration : Z).

(** [_post_with_retry] from the attempt [i] on, [left] more being allowed: the
    acts, and whether it returns or raises. *)
Fixpoint post_with_retry (left : nat) (i : Z) (answer : Z → attempt)
    : list webhook_act * result unit :=
  match left with
  | O => ([], Raise WebhookError)
  | S left' =>
      let again :=
        let '(acts, r) := post_with_retry left' (i + 1) answer in
        ((Post :: (match left' with O => [] | _ => [Sleep (BACKOFF_BASE * 2 ^ i)] end) ++ acts)%list, r) in
      match answer i with
      | Unreachable => again
      | Status code =>
          if between 200 299 code then ([Post], Ok tt)
          else if negb (retryable code) then ([Post], Raise WebhookError)
          else again
      end
  end.

(** [WebhookSink] *)
Record WebhookSink := mkWebhook {
  ws_url : string; ws_secret : list Z; ws_max_retries : Z; ws_allow_private : bool;
}.

(** [WebhookSink.__init__] *)
Definition new_webhook (url secret : string) (max_retries : Z) (allow_private : bool) : result WebhookSink :=
  _ ← raise_if (String.eqb secret "") ValueError;
  Ok (mkWebhook url (utf8_encode secret) (Z.max 1 max_retries) allow_private).

Definition SIGNATURE_HEADER : string := "X-Sentinel-Signature".

(** What every attempt sends: to which location, which bytes and headers, and
    the name TLS verifies if it is not the location itself *)
Record WebhookRequest := mkRequest {
  rq_netloc : string; rq_body : list Z; rq_headers : odict string string; rq_sni : option string;
}.

(** [WebhookSink.emit], with what comes of it; [dump_json] is pydantic's
    [model_dump_json]. *)
Definition emit (dump_json : Alert → string) (resolver : string → Z → result (list string)) (s : WebhookSink)
    (a : Alert) (answer : Z → attempt) : result (WebhookRequest * (list webhook_act * result unit)) :=
  d ← resolve_destination resolver (ws_allow_private s) (ws_url s);
  parts ← urlsplit (ws_url s);
  let body := utf8_encode (dump_json a) in
  let headers := [("Content-Type", "application/json");
                  (SIGNATURE_HEADER, "sha256=" +:+ hmac_sha256_hexdigest (ws_secret s) body);
                  ("Host", after_last_at (us_netloc parts))] in
  let sni := if is_ip_literal (ds_host d) then None else Some (ds_host d) in
  Ok (mkRequest (pinned_netloc d) body headers sni, post_with_retry (Z.to_nat (ws_max_retries s)) 0 answer).

Example urls :
  map split_destination
    ["https://hooks.example.com/x?y#z"; "http://a/"; "https://user:pw@[2001:DB8::1%eTh]:8443/p";
     "https:///x"; "https://a:99999/"; "HTTPS://A:0"; "https://[::1"; "https://[1.2.3.4]/"]
  = [Ok ("hooks.example.com", 443); Raise DestinationBlockedError; Ok ("2001:db8::1%eTh", 8443);
     Raise DestinationBlockedError; Raise DestinationBlockedError; Ok ("a", 443); Raise ValueError;
     Raise ValueError].
Proof. vm_compute. reflexivity. Qed.

Example guard :
  map is_blocked_address
    ["127.0.0.1"; "10.1.2.3"; "169.254.169.254"; "100.64.0.1"; "224.0.0.1"; "8.8.8.8"; "::1";
     "::ffff:127.0.0.1"; "fe80::1"; "2606:4700::1111"; "::ffff:8.8.8.8"; "ff02::1"; "2001:db8::1"]
  = map Ok [true; true; true; true; true; false; true; true; true; false; false; true; true].
Proof. vm_compute. reflexivity. Qed.

Local Close Scope string_scope.

(** ** Lemmas *)

Lemma hex2_printable n : 0 ≤ n < 256 → str_forall (λ c, negb (is_control c)) (hex2 n) = true.
Proof.
  intros Hn. unfold hex2. simpl.
  assert (Hd : ∀ k, 0 ≤ k < 16 → is_control (hex_digit k) = false).
  { intros k Hk. assert (∃ j, (j < 16)%nat ∧ k = Z.of_nat j) as (j & Hj & ->)
      by (exists (Z.to_nat k); lia).
    do 16 (destruct j as [|j]; [reflexivity|]). lia. }
  pose proof (Z.mod_pos_bound n 16). pose proof (Z.div_mod n 16).
  rewrite !Hd by lia. done.
Qed.

(** No control character reaches the terminal. *)
Lemma escape_controls_safe s : str_forall (λ c, negb (is_control c)) (escape_controls s) = true.
Proof.
  induction s as [|c s IH]; [done|]. cbn [escape_controls]. destruct (is_control c) eqn:Hc.
  - cbn [str_forall]. rewrite str_forall_app, hex2_printable, IH; [done|].
    unfold code. pose proof (N_ascii_bounded c). lia.
  - cbn [str_forall]. by rewrite Hc, IH.
Qed.

(** *** Networks *)

Lemma in_net_narrow width n net sub :
  snd net ≤ snd sub ≤ width → in_net width n sub = true →
  in_net width n net = in_net width (fst sub) net.
Proof.
  unfold in_net. intros Hle Hsub. apply Z.eqb_eq in Hsub. f_equal.
  replace (width - snd net) with ((width - snd sub) + (snd sub - snd net)) by lia.
  rewrite <-!Z.shiftr_shiftr by lia. by rewrite Hsub.
Qed.

(** Networks no alert may be sent to. *)
Definition INTERNAL4 : list (Z * Z) := [
  (v4 0 0 0 0, 8); (v4 10 0 0 0, 8); (v4 127 0 0 0, 8); (v4 169 254 0 0, 16); (v4 172 16 0 0, 12);
  (v4 192 168 0 0, 16); (v4 100 64 0 0, 10); (v4 224 0 0 0, 4); (v4 240 0 0 0, 4)].
Definition INTERNAL6 : list (Z * Z) := [
  (0, 128); (1, 128); (v6 [64512], 7); (v6 [65152], 10); (v6 [65280], 8); (v6 [8193; 3512], 32)].

Definition internal (a : ip) : bool :=
  match a with
  | IPv4 n => in_any 32 n INTERNAL4
  | IPv6 n _ =>
      match ipv4_mapped n with Some m => in_any 32 m INTERNAL4 | None => in_any 128 n INTERNAL6 end
  end.

Lemma in_any_true width n nets : in_any width n nets = true ↔ ∃ net, net ∈ nets ∧ in_net width n net = true.
Proof.
  unfold in_any. rewrite existsb_exists. split; intros (x & Hx & ?); exists x; (split; [|done]);
    by apply list_elem_of_In.
Qed.

(** Two networks apart: one is not inside the other. *)
Definition apart (width : Z) (a b : Z * Z) : Prop :=
  (snd a ≤ snd b ≤ width ∧ in_net width (fst b) a = false) ∨
  (snd b ≤ snd a ≤ width ∧ in_net width (fst a) b = false).

Lemma not_excepted width n net exceptions :
  Forall (apart width net) exceptions → in_net width n net = true → in_any width n exceptions = false.
Proof.
  intros Hall Hn. apply not_true_iff_false. intros (sub & Hin & Hsub)%in_any_true.
  apply (proj1 (Forall_forall _ _) Hall) in Hin as [[Hle Hf]|[Hle Hf]].
  - by rewrite (in_net_narrow width n net sub Hle Hsub), Hf in Hn.
  - by rewrite (in_net_narrow width n sub net Hle Hn), Hf in Hsub.
Qed.

(** A private network that meets none of the exceptions is refused whole. *)
Lemma refused_net width n net privates exceptions :
  net ∈ privates → Forall (apart width net) exceptions → in_net width n net = true →
  in_any width n privates && negb (in_any width n exceptions) = true.
Proof.
  intros Hp He Hn. rewrite (not_excepted _ _ _ _ He Hn), andb_true_r. apply in_any_true. eauto.
Qed.

Ltac check_exceptions :=
  repeat (apply Forall_cons; split; [first [left; by vm_compute|right; by vm_compute]|]);
  by apply Forall_nil.

Lemma internal4_blocked n :
  in_any 32 n INTERNAL4 = true → negb (v4_global n) || in_net 32 n V4_MULTICAST = true.
Proof.
  intros (net & Hin & Hn)%in_any_true. apply orb_true_iff. unfold v4_global. rewrite negb_andb, !negb_involutive.
  unfold INTERNAL4 in Hin. rewrite !elem_of_cons, elem_of_nil in Hin.
  repeat destruct Hin as [->|Hin]; try done;
    first [ right; exact Hn | left; apply orb_true_iff; left; exact Hn
          | left; apply orb_true_iff; right; eapply refused_net; [| |exact Hn];
            [by apply (bool_decide_unpack _)|check_exceptions] ].
Qed.

Lemma internal6_blocked n :
  in_any 128 n INTERNAL6 = true → negb (v6_global n) || in_net 128 n V6_MULTICAST = true.
Proof.
  intros (net & Hin & Hn)%in_any_true. apply orb_true_iff. unfold v6_global. rewrite negb_involutive.
  unfold INTERNAL6 in Hin. rewrite !elem_of_cons, elem_of_nil in Hin.
  repeat destruct Hin as [->|Hin]; try done;
    first [ right; exact Hn
          | left; eapply refused_net; [| |exact Hn]; [by apply (bool_decide_unpack _)|check_exceptions] ].
Qed.

Lemma internal_blocked a : internal a = true → blocked_ip a = true.
Proof.
  destruct a as [n|n scope]; unfold internal, blocked_ip; [apply internal4_blocked|].
  destruct (ipv4_mapped n) as [m|]; [apply internal4_blocked|apply internal6_blocked].
Qed.

Lemma any_blocked_false addresses :
  any_blocked addresses = Ok false →
  Forall (λ s, ∃ a, ip_address s = Ok a ∧ blocked_ip a = false) addresses.
Proof.
  induction addresses as [|s rest IH]; [constructor|]. cbn [any_blocked]. unfold is_blocked_address.
  destruct (ip_address s) as [a|] eqn:Ha; [|done]. cbn [mbind result_bind].
  destruct (blocked_ip a) eqn:Hb; [done|]. intros Hr. apply Forall_cons. split; [by exists a|by apply IH].
Qed.

(** *** Locations *)

(** How a location names an address: IPv6 in brackets, then the port. *)
Definition location_of (address : string) (port : Z) : string :=
  match ip_address address with
  | Ok (IPv6 _ _) => "[" +:+ address +:+ "]:" +:+ str_of_int port
  | _ => address +:+ ":" +:+ str_of_int port
  end.

Lemma digits_no_colon s : str_forall is_digit s = true → str_mem ":" s = false.
Proof.
  induction s as [|c s IH]; [done|]. cbn [str_forall]. intros [Hc Hs]%andb_true_iff. rewrite str_mem_cons, IH by done.
  by destruct (Ascii.eqb_spec ":" c) as [<-|].
Qed.

Lemma octet_no_colon s n : parse_octet s = Some n → str_mem ":" s = false.
Proof.
  unfold parse_octet. case_match eqn:Hs; [done|]. intros _. rewrite !orb_false_iff, negb_false_iff in Hs.
  apply digits_no_colon. tauto.
Qed.

Lemma ipv4_no_colon s n : parse_ipv4 s = Some n → str_mem ":" s = false.
Proof.
  unfold parse_ipv4. rewrite (split_mem ":" "." s) by done.
  destruct (str_split "." s) as [|a [|b [|c [|d []]]]]; try done. intros Hp.
  apply bind_Some in Hp as (? & Ha%octet_no_colon & Hp). apply bind_Some in Hp as (? & Hb%octet_no_colon & Hp).
  apply bind_Some in Hp as (? & Hc%octet_no_colon & Hp). apply bind_Some in Hp as (? & Hd%octet_no_colon & _).
  cbn. by rewrite Ha, Hb, Hc, Hd.
Qed.

Lemma ipv6_colon s a : parse_ipv6 s = Some a → str_mem ":" s = true ∧ ∃ n scope, a = IPv6 n scope.
Proof.
  unfold parse_ipv6, split_scope. destruct (str_mem "/" s); [done|]. intros Hp.
  apply bind_Some in Hp as ([addr scope] & Hs & Hp). apply bind_Some in Hp as (n & Hn & [= <-]). split; [|by eexists _, _].
  pose proof (partition_before "%" s) as [rest Hs']. destruct (str_partition "%" s) as [[b f] c]. cbn [fst] in Hs'.
  assert (b = addr) as -> by (destruct f; cbn [negb] in Hs; repeat case_match; by simplify_eq). rewrite Hs', str_mem_app.
  destruct (str_mem ":" addr) eqn:Hm; [done|]. unfold parse_ipv6_int in Hn. by rewrite (str_split_single _ _ Hm) in Hn.
Qed.

Lemma pinned_location d address :
  head (ds_addresses d) = Some address → is_Some (match ip_address address with Ok a => Some a | Raise _ => None end) →
  pinned_netloc d = location_of address (ds_port d).
Proof.
  unfold pinned_netloc, location_of. destruct (ds_addresses d) as [|address' rest]; [done|]. intros [= ->]. cbn [List.hd].
  unfold ip_address. destruct (if str_mem "/" address then None else parse_ipv4 address) as [n|] eqn:H4.
  - destruct (str_mem "/" address); [done|]. by rewrite (ipv4_no_colon _ _ H4).
  - destruct (parse_ipv6 address) as [a|] eqn:H6; [|by intros []]. apply ipv6_colon in H6 as [-> (n & scope & ->)].
    intros _. by rewrite !string_app_assoc.
Qed.

(** *** Retries *)

Definition delivered (a : attempt) : bool := match a with Status c => between 200 299 c | _ => false end.
Definition try_again (a : attempt) : bool :=
  match a with Unreachable => true | Status c => negb (between 200 299 c) && retryable c end.

Definition posts (acts : list webhook_act) : Z :=
  len (filter (λ a, match a with Post => true | _ => false end = true) acts).
Definition pauses (acts : list webhook_act) : list Z :=
  omap (λ a, match a with Sleep d => Some d | _ => None end) acts.

Lemma post_unfold n i answer :
  post_with_retry (S n) i answer
  = if try_again (answer i) then
      let '(acts, r) := post_with_retry n (i + 1) answer in
      ((Post :: (match n with O => [] | _ => [Sleep (BACKOFF_BASE * 2 ^ i)] end) ++ acts)%list, r)
    else ([Post], if delivered (answer i) then Ok tt else Raise WebhookError).
Proof.
  cbn [post_with_retry]. unfold try_again, delivered. destruct (answer i) as [c|]; [|done].
  destruct (between 200 299 c); simpl; [done|]. by destruct (retryable c).
Qed.

Lemma posts_app a b : posts (a ++ b) = posts a + posts b.
Proof. unfold posts. by rewrite filter_app, len_app. Qed.

Lemma post_count n i answer :
  posts (post_with_retry n i answer).1 ≤ Z.of_nat n ∧
  (n ≠ 0%nat → 1 ≤ posts (post_with_retry n i answer).1).
Proof.
  revert i. induction n as [|n IH]; intros i; [by split|]. rewrite post_unfold.
  destruct (try_again (answer i)); [|cbn [fst]; change (posts [Post]) with 1; lia].
  specialize (IH (i + 1)). destruct (post_with_retry n (i + 1) answer) as [acts r]. cbn [fst] in *.
  change (Post :: ?l) with ([Post] ++ l). rewrite !posts_app. change (posts [Post]) with 1.
  assert (posts (match n with O => [] | _ => [Sleep (BACKOFF_BASE * 2 ^ i)] end) = 0) as -> by (by destruct n).
  assert (0 ≤ posts acts) by apply len_nonneg. lia.
Qed.

Lemma post_pauses n i answer :
  pauses (post_with_retry n i answer).1
  = (λ k, BACKOFF_BASE * 2 ^ k) <$> seqZ i (posts (post_with_retry n i answer).1 - 1).
Proof.
  revert i. induction n as [|n IH]; intros i; [done|]. rewrite post_unfold.
  destruct (try_again (answer i)); [|done].
  pose proof (post_count n (i + 1) answer) as [_ Hpos]. specialize (IH (i + 1)).
  destruct n as [|n]; [done|]. specialize (Hpos ltac:(done)).
  destruct (post_with_retry (S n) (i + 1) answer) as [acts r]. cbn [fst] in *.
  change (Post :: ?l) with ([Post] ++ l). rewrite !posts_app. change (posts [Post]) with 1.
  change (posts [Sleep _]) with 0. unfold pauses in *. rewrite !omap_app, IH. cbn [omap list_omap app].
  rewrite (seqZ_cons i) by lia. rewrite fmap_cons. do 3 f_equal; lia.
Qed.

Lemma post_result n i answer :
  (post_with_retry n i answer).2 = Ok tt ↔
  ∃ k, i ≤ k < i + Z.of_nat n ∧ delivered (answer k) = true ∧ ∀ j, i ≤ j < k → try_again (answer j) = true.
Proof.
  revert i. induction n as [|n IH]; intros i.
  - split; [done|]. intros (k & ? & _). lia.
  - rewrite post_unfold. destruct (try_again (answer i)) eqn:Ht.
    + specialize (IH (i + 1)). destruct (post_with_retry n (i + 1) answer) as [acts r].
      cbn [snd] in *. rewrite IH. split; intros (k & Hk & Hd & Hj); exists k.
      * split_and!; [lia|lia|done|]. intros j Hji. destruct (decide (j = i)) as [->|]; [done|].
        apply Hj. lia.
      * assert (k ≠ i).
        { intros ->. unfold try_again, delivered in *. destruct (answer i); [|done].
          by rewrite Hd in Ht. }
        split_and!; [lia|lia|done|]. intros j Hji. apply Hj. lia.
    + cbn [snd]. destruct (delivered (answer i)) eqn:Hd.
      * split; [|done]. intros _. exists i. split_and!; [lia|lia|done|]. intros j Hji. lia.
      * split; [done|]. intros (k & Hk & Hdk & Hj). destruct (decide (k = i)) as [->|]; [congruence|].
        rewrite Hj in Ht by lia. done.
Qed.

(** *** The SMTP conversation *)

(** A login only follows what protects it: a verified TLS connection, or a
    STARTTLS that succeeded. *)
Definition login_protected (trace : list (smtp_call * bool)) : Prop :=
  ∀ pre u p ok post, trace = pre ++ (Login u p, ok) :: post →
    pre = [(Connect true, true)] ∨ pre = [(Connect false, true); (StartTls, true)].

(** The message only follows calls that all succeeded, the login with the
    credentials among them. *)
Definition message_after (login : list (smtp_call * bool)) (trace : list (smtp_call * bool)) : Prop :=
  ∀ pre ok post, trace = pre ++ (SendMessage, ok) :: post →
    Forall (λ c, c.2 = true) pre ∧ login `suffix_of` pre.

(** The login of a sink with credentials *)
Definition login_of (s : EmailSink) : list smtp_call :=
  match em_username s, em_password s with
  | Some u, Some p => if negb (String.eqb u "") && negb (String.eqb p "") then [Login u p] else []
  | _, _ => []
  end.

Ltac place_call :=
  let pre := fresh in intros pre; intros;
  match goal with Heq : _ = pre ++ _ |- _ => destruct pre as [|? [|? [|? [|? [|? ?]]]]]; simplify_eq/= end; eauto;
  match goal with H : [] = ?l ++ _ :: _ |- _ => by destruct l | _ => idtac end.

Lemma login_choice s :
  login_of s = [] ∨ ∃ u p, login_of s = [Login u p] ∧ truthy (em_username s) = true.
Proof.
  unfold login_of. destruct (em_username s) as [u|], (em_password s) as [p|]; eauto. simpl.
  destruct (String.eqb u ""), (String.eqb p ""); simpl; eauto.
Qed.

Lemma send_trace s connect_ok oks quit_ok trace ok :
  (truthy (em_username s) = true → em_use_starttls s || em_implicit_tls s = true) →
  send s connect_ok oks quit_ok = (trace, ok) →
  login_protected trace ∧ message_after ((., true) <$> login_of s) trace ∧
  (ok = true ↔ (SendMessage, true) ∈ trace) ∧
  (connect_ok = true → last trace = Some (Quit, quit_ok)) ∧
  (connect_ok = false → trace = [(Connect (em_implicit_tls s), false)]).
Proof.
  intros Htls. unfold send, login_protected, message_after. fold (login_of s). destruct connect_ok.
  - destruct (login_choice s) as [->|(u & p & -> & Hu)]; [clear Htls|specialize (Htls Hu)];
      destruct (em_use_starttls s), (em_implicit_tls s); try done; clear;
      destruct oks as [|[] [|[] [|[] oks]]]; simpl; intros [= <- <-].
    all: split; [place_call|split; [place_call; (split; [repeat (apply Forall_cons_2; [reflexivity|]); apply Forall_nil_2|])|]].
    all: try (by repeat first [apply suffix_nil|reflexivity|apply suffix_cons_r]).
    all: split; [rewrite !elem_of_cons, elem_of_nil; naive_solver|by split].
  - intros [= <- <-]. split; [place_call|split; [place_call|]]. rewrite elem_of_cons, elem_of_nil. naive_solver.
Qed.

(** ** Properties *)

(** C28: the SSRF guard: whatever the resolver answers, a request is only ever
    sent to an address that was resolved and checked (the location it goes to
    is that address and the URL's port, never a name), by an https URL, and
    (unless private targets are allowed) neither it nor any other address the
    name resolves to is loopback, private, link-local, shared, multicast,
    reserved or unspecified, IPv4-mapped forms included; TLS verifies the name
    of the URL, not the address, and the body is signed with the secret. *)
Theorem webhook_target_is_checked dump_json resolver url secret max_retries s a answer rq sent :
  new_webhook url secret max_retries false = Ok s → emit dump_json resolver s a answer = Ok (rq, sent) →
  ∃ parts d, urlsplit url = Ok parts ∧ us_scheme parts = "https"%string ∧
    resolve_destination resolver false url = Ok d ∧
    (∃ address, head (ds_addresses d) = Some address ∧ rq_netloc rq = location_of address (ds_port d)) ∧
    (ds_addresses d = [ds_host d] ∨ resolver (ds_host d) (ds_port d) = Ok (ds_addresses d)) ∧
    ds_addresses d ≠ [] ∧
    Forall (λ s, ∃ a, ip_address s = Ok a ∧ blocked_ip a = false ∧ internal a = false) (ds_addresses d) ∧
    (is_ip_literal (ds_host d) = false → rq_sni rq = Some (ds_host d)) ∧
    secret ≠ ""%string ∧
    od_get (rq_headers rq) SIGNATURE_HEADER
      = Some ("sha256=" +:+ hmac_sha256_hexdigest (utf8_encode secret) (rq_body rq))%string.
Proof.
  unfold new_webhook, emit. intros Hn He. apply result_bind_ok in Hn as (? & Hsecret%raise_if_ok & [= <-]).
  apply String.eqb_neq in Hsecret. cbn [ws_allow_private ws_url ws_secret] in He.
  apply result_bind_ok in He as (d & Hd & He). apply result_bind_ok in He as (parts' & _ & [= <- _]). pose proof Hd as Hres.
  unfold resolve_destination in Hd. apply result_bind_ok in Hd as ([host p] & Hsplit & Hd).
  apply result_bind_ok in Hd as (addresses & Haddr & Hd).
  apply result_bind_ok in Hd as (? & Hne & Hd). apply raise_if_ok, bool_decide_eq_false in Hne.
  apply result_bind_ok in Hd as (blocked & Hb & Hd). apply result_bind_ok in Hd as (? & Hnb & [= <-]).
  apply raise_if_ok in Hnb as ->. apply any_blocked_false in Hb.
  unfold split_destination in Hsplit. apply result_bind_ok in Hsplit as (parts & Hparts & Hs).
  apply result_bind_ok in Hs as (? & Hscheme & _). apply raise_if_ok, negb_false_iff, String.eqb_eq in Hscheme.
  exists parts. eexists. split_and!; [done|done|exact Hres| | |done| | |done|done];
    cbn [ds_addresses ds_host ds_port rq_sni rq_netloc]; [| | |by intros ->].
  - destruct addresses as [|address addresses]; [done|]. exists address. split; [done|].
    apply Forall_cons in Hb as [(b & Hb & _) _]. apply (pinned_location (mkDestination host p (address :: addresses)) address); [done|]. by rewrite Hb.
  - destruct (is_ip_literal host); [left; by simplify_eq|by right].
  - eapply Forall_impl; [exact Hb|]. cbv beta. intros t (b & Hb0 & Hbl). exists b. split_and!; [done|done|].
    destruct (internal b) eqn:Hi; [|done]. apply internal_blocked in Hi. congruence.
Qed.

Lemma header_cases value :
  (header value = Ok value ∧ len (str_splitlines value) ≤ 1)
  ∨ (header value = Raise ValueError ∧ 1 < len (str_splitlines value)).
Proof. unfold header. destruct (Z.ltb_spec 1 (len (str_splitlines value))); [by right|by left]. Qed.

(** No header injection: a message is built exactly when each of its headers
    would be one line, and carries them as they are; otherwise the delivery
    fails. *)
Lemma email_headers_are_lines strftime s a :
  match build_message strftime s a with
  | Ok m => Forall (λ h, len (str_splitlines h) ≤ 1) [ms_from m; ms_to m; ms_subject m]
  | Raise e => e = ValueError ∧ ∃ value, 1 < len (str_splitlines value)
  end.
Proof.
  unfold build_message.
  destruct (header_cases (em_sender s)) as [[-> ?]|[-> ?]]; cbn [mbind result_bind]; [|by split; [|eexists]].
  destruct (header_cases (str_join ", " (em_recipients s))) as [[-> ?]|[-> ?]]; cbn [mbind result_bind];
    [|by split; [|eexists]].
  match goal with |- context [header ?v] => destruct (header_cases v) as [[-> ?]|[-> ?]] end; cbn [mbind result_bind];
    [|by split; [|eexists]].
  rewrite !Forall_cons. cbn [ms_from ms_to ms_subject]. by split_and!; [..|apply Forall_nil].
Qed.

(** Delivery is bounded and exact: at most [max(1, max_retries)] requests,
    pauses that double from half a second between them and none after the last;
    it succeeds exactly when some attempt is answered with success and every
    earlier one failed in a way worth retrying, and otherwise raises. *)
Theorem webhook_delivery_bounded max_retries answer :
  let n := Z.max 1 max_retries in
  let '(acts, r) := post_with_retry (Z.to_nat n) 0 answer in
  1 ≤ posts acts ≤ n ∧
  pauses acts = (λ k, BACKOFF_BASE * 2 ^ k) <$> seqZ 0 (posts acts - 1) ∧
  (r = Ok tt ↔ ∃ k, 0 ≤ k < n ∧ delivered (answer k) = true ∧ ∀ j, 0 ≤ j < k → try_again (answer j) = true).
Proof.
  cbv zeta. pose proof (post_count (Z.to_nat (Z.max 1 max_retries)) 0 answer) as [Hle Hge].
  pose proof (post_pauses (Z.to_nat (Z.max 1 max_retries)) 0 answer) as Hp.
  pose proof (post_result (Z.to_nat (Z.max 1 max_retries)) 0 answer) as Hr.
  destruct (post_with_retry _ 0 answer) as [acts r]. cbn [fst snd] in *.
  rewrite Z2Nat.id, Z.add_0_l in * by lia. split_and!; [apply Hge; lia|lia|done|done].
Qed.

(** C26: credentials only travel over TLS: in every conversation of a sink that
    could be constructed, whichever calls fail, a login comes after a
    verified TLS connection or a STARTTLS that succeeded; the message is only
    sent when every earlier call succeeded, the login of a sink with credentials
    among them; the delivery succeeds exactly when the message was accepted, and
    an opened connection is always closed, last. *)
Theorem email_login_over_tls s s' connect_ok oks quit_ok trace ok :
  new_email s = Ok s' → send s' connect_ok oks quit_ok = (trace, ok) →
  login_protected trace ∧ message_after ((., true) <$> login_of s') trace ∧
  (ok = true ↔ (SendMessage, true) ∈ trace) ∧
  (connect_ok = true → last trace = Some (Quit, quit_ok)) ∧
  (connect_ok = false → trace = [(Connect (em_implicit_tls s'), false)]).
Proof.
  intros Hn Hs. unfold new_email in Hn. repeat (apply result_bind_ok in Hn as (? & ?%raise_if_ok & Hn)).
  injection Hn as <-. eapply send_trace; [|exact Hs]. intros Hu.
  repeat match goal with H : _ && _ = false |- _ => apply andb_false_iff in H end.
  destruct (em_use_starttls s), (em_implicit_tls s); simpl in *; try done; try tauto.
  destruct (truthy (em_username s)); [|done]. by intuition.
Qed.

(** ** Witnesses *)

Definition example_resolver (host : string) (port : Z) : result (list string) :=
  Ok ["8.8.8.8"; "2606:4700::1111"]%string.

Definition example_webhook : WebhookSink :=
  mkWebhook "https://hooks.example.com/x" (utf8_encode "secret") 3 false.

Definition example_alert : Alert :=
  mkAlert "k" "R1" "title" 5 [] [] "e" "web1" (mkDatetime 0 (Some 0)) "summary" true.

Definition example_request : WebhookRequest :=
  mkRequest "8.8.8.8:443" (utf8_encode "{}")
    [("Content-Type", "application/json");
     (SIGNATURE_HEADER, "sha256=" +:+ hmac_sha256_hexdigest (utf8_encode "secret") (utf8_encode "{}"));
     ("Host", "hooks.example.com")]%string (Some "hooks.example.com"%string).

Lemma webhook_target_is_checked_witness :
  ∃ parts d address, urlsplit "https://hooks.example.com/x" = Ok parts ∧ us_scheme parts = "https"%string ∧
    head (ds_addresses d) = Some address ∧ "8.8.8.8:443"%string = location_of address (ds_port d) ∧
    Forall (λ s, ∃ a, ip_address s = Ok a ∧ blocked_ip a = false ∧ internal a = false) (ds_addresses d).
Proof.
  destruct (webhook_target_is_checked (λ _, "{}"%string) example_resolver "https://hooks.example.com/x" "secret" 3
    example_webhook example_alert (λ _, Status 204) example_request ([Post], Ok tt))
    as (parts & d & H1 & H2 & _ & (address & H3 & H4) & _ & _ & H5 & _).
  - vm_compute. reflexivity.
  - vm_compute. reflexivity.
  - exists parts, d, address. split; [exact H1|split; [exact H2|split; [exact H3|split; [exact H4|exact H5]]]].
Defined.

Definition example_email : EmailSink :=
  mkEmail "smtp" 587 "a@b" ["c@d"]%string (Some "u"%string) (Some "p"%string) true false.

Lemma email_login_over_tls_witness :
  login_protected [(Connect false, true); (StartTls, true); (Login "u" "p", false); (Quit, true)].
Proof.
  apply (email_login_over_tls example_email example_email true [true; false] true
    [(Connect false, true); (StartTls, true); (Login "u" "p", false); (Quit, true)] false); vm_compute; reflexivity.
Defined.
