(* ===== verification/Settings.v ===== *)
(** * Settings ([settings.py])

    The fields with their defaults and bounds, the validators, and the derived
    properties.  Durations are in microseconds.  Reading the environment is
    pydantic-settings' work: a [Settings] value is what it hands to the
    validators; SQLAlchemy's reading of the database URL is a parameter. *)

From S2P Require Import Prelude PyText Events Queue.
Local Open Scope string_scope.
Local Open Scope Z_scope.

Inductive Environment := DEVELOPMENT | TEST | PRODUCTION.
Inductive LogLevel := DEBUG | INFO | WARNING | ERROR | CRITICAL.
Inductive LogFormat := JSON | CONSOLE.

#[export] Instance Environment_eq_dec : EqDecision Environment.
Proof. solve_decision. Defined.
#[export] Instance LogFormat_eq_dec : EqDecision LogFormat.
Proof. solve_decision. Defined.

Definition ENV_PREFIX : string := "SENTINEL_".
Definition API_KEY_PLACEHOLDER : string := "replace-with-a-long-random-token".
Definition API_KEY_MIN_LENGTH : Z := 32.
Definition ASYNC_DATABASE_DRIVERS : list string := ["sqlite+aiosqlite"; "postgresql+asyncpg"].
Definition KNOWN_COLLECTORS : list string := ["auth-log"; "file-integrity"; "process"; "network"].

(** [split_csv] *)
Definition split_csv (value : string) : list string :=
  List.filter (λ item, negb (String.eqb item "")) (map str_strip (str_split "," value)).

Record Settings := mkSettings {
  st_env : Environment;
  log_level : LogLevel;
  log_format : LogFormat;
  queue_maxsize : Z;
  queue_backpressure : BackpressurePolicy;
  dedup_window_seconds : Z;
  dedup_max_entries : Z;
  alert_min_severity : Z;
  alert_dedup_window_seconds : Z;
  alert_throttle_max : Z;
  alert_throttle_window_seconds : Z;
  webhook_url : option string;
  webhook_hmac_secret : option string;
  webhook_allow_private : bool;
  smtp_host : option string;
  smtp_port : Z;
  smtp_username : option string;
  smtp_password : option string;
  email_from : option string;
  email_recipients : option string;
  smtp_starttls : bool;
  database_url : string;
  persist_batch_size : Z;
  persist_flush_interval_seconds : Z;
  persist_max_buffered : Z;
  retention_days : option Z;
  persist_write_timeout_seconds : Z;
  api_key : option string;
  api_cors_origins : string;
  api_rate_limit : Z;
  api_rate_window_seconds : Z;
  api_max_page_size : Z;
  collectors : string;
  host_root : string;
  host_name : option string;
  auth_log_path : string;
  auth_log_backfill : bool;
  fim_paths : string;
  rules_dir : string;
}.

(** The settings when only the required one is given *)
Definition default_settings (env : Environment) : Settings :=
  mkSettings env INFO JSON 10000 BLOCK (60 * SECOND) 100000 0 (300 * SECOND) 10 (60 * SECOND)
    None None false None 587 None None None None true "sqlite+aiosqlite:///./sentinel.db"
    256 (SECOND / 2) 10000 None (10 * SECOND) None "" 100 (60 * SECOND) 100
    (str_join "," KNOWN_COLLECTORS) "/" None "/var/log/auth.log" false "/etc,/var/spool/cron" "rules".

(** [0 < v <= hi] *)
Definition positive_upto (hi v : Z) : bool := (0 <? v) && (v <=? hi).

(** The declared bounds *)
Definition valid_fields (s : Settings) : bool :=
  between 1 1000000 (queue_maxsize s)
    && positive_upto (86400 * SECOND) (dedup_window_seconds s)
    && between 1 10000000 (dedup_max_entries s)
    && between 0 7 (alert_min_severity s)
    && positive_upto (86400 * SECOND) (alert_dedup_window_seconds s)
    && between 1 10000 (alert_throttle_max s)
    && positive_upto (86400 * SECOND) (alert_throttle_window_seconds s)
    && optionally (λ v, 32 <=? strlen v) (webhook_hmac_secret s)
    && between 1 65535 (smtp_port s)
    && (1 <=? strlen (database_url s))
    && between 1 10000 (persist_batch_size s)
    && positive_upto (60 * SECOND) (persist_flush_interval_seconds s)
    && between 1 1000000 (persist_max_buffered s)
    && optionally (between 1 36500) (retention_days s)
    && positive_upto (300 * SECOND) (persist_write_timeout_seconds s)
    && optionally (λ v, API_KEY_MIN_LENGTH <=? strlen v) (api_key s)
    && between 1 100000 (api_rate_limit s)
    && positive_upto (3600 * SECOND) (api_rate_window_seconds s)
    && between 1 1000 (api_max_page_size s)
    && optionally (λ v, between 1 253 (strlen v)) (host_name s).

(** [Path(value).is_absolute()] *)
Definition is_absolute (path : string) : bool := str_startswith path "/".

(** The names of the model's fields, upper-cased behind the prefix *)
Definition field_names : list string := [
  "ENV"; "LOG_LEVEL"; "LOG_FORMAT"; "QUEUE_MAXSIZE"; "QUEUE_BACKPRESSURE"; "DEDUP_WINDOW_SECONDS";
  "DEDUP_MAX_ENTRIES"; "ALERT_MIN_SEVERITY"; "ALERT_DEDUP_WINDOW_SECONDS"; "ALERT_THROTTLE_MAX";
  "ALERT_THROTTLE_WINDOW_SECONDS"; "WEBHOOK_URL"; "WEBHOOK_HMAC_SECRET"; "WEBHOOK_ALLOW_PRIVATE";
  "SMTP_HOST"; "SMTP_PORT"; "SMTP_USERNAME"; "SMTP_PASSWORD"; "EMAIL_FROM"; "EMAIL_RECIPIENTS";
  "SMTP_STARTTLS"; "DATABASE_URL"; "PERSIST_BATCH_SIZE"; "PERSIST_FLUSH_INTERVAL_SECONDS";
  "PERSIST_MAX_BUFFERED"; "RETENTION_DAYS"; "PERSIST_WRITE_TIMEOUT_SECONDS"; "API_KEY";
  "API_CORS_ORIGINS"; "API_RATE_LIMIT"; "API_RATE_WINDOW_SECONDS"; "API_MAX_PAGE_SIZE"; "COLLECTORS";
  "HOST_ROOT"; "HOST_NAME"; "AUTH_LOG_PATH"; "AUTH_LOG_BACKFILL"; "FIM_PATHS"; "RULES_DIR"].

Section validators.
(** [make_url(url).drivername], or [None] if it is no URL *)
Context (drivername : string → option string).

Definition require_async_driver (url : string) : bool :=
  match drivername url with Some d => bool_decide (d ∈ ASYNC_DATABASE_DRIVERS) | None => false end.

Definition reject_placeholder_key (key : option string) : bool :=
  optionally (λ k, negb (String.eqb k API_KEY_PLACEHOLDER)) key.

Definition reject_wildcard_origin (origins : string) : bool := bool_decide ("*" ∉ split_csv origins).

Definition check_collectors (value : string) : bool :=
  bool_decide (split_csv value ≠ [])
    && forallb (λ name, bool_decide (name ∈ KNOWN_COLLECTORS)) (split_csv value).

Definition check_fim_paths (value : string) : bool := forallb is_absolute (split_csv value).

Definition check_buffer_holds_a_batch (s : Settings) : bool :=
  persist_batch_size s <=? persist_max_buffered s.

Definition reject_unknown_prefixed_env (environ : list string) : bool :=
  forallb (λ key, negb (str_startswith (str_upper key) ENV_PREFIX)
                  || bool_decide (str_upper key ∈ (λ name, ENV_PREFIX +:+ name) <$> field_names)) environ.

(** [Settings(...)]: field bounds and validators, then the model's. *)
Definition validate_settings (environ : list string) (s : Settings) : result Settings :=
  if valid_fields s && is_absolute (host_root s) && is_absolute (auth_log_path s)
       && require_async_driver (database_url s) && reject_placeholder_key (api_key s)
       && reject_wildcard_origin (api_cors_origins s) && check_collectors (collectors s)
       && check_fim_paths (fim_paths s) && check_buffer_holds_a_batch s
       && reject_unknown_prefixed_env environ
  then Ok s else Raise ValidationError.
End validators.

(** ** Derived values *)

Definition is_production (s : Settings) : bool := bool_decide (st_env s = PRODUCTION).
Definition enabled_collectors (s : Settings) : list string := split_csv (collectors s).
Definition fim_path_list (s : Settings) : list string := split_csv (fim_paths s).
Definition email_recipient_list (s : Settings) : list string :=
  split_csv (default "" (email_recipients s)).
Definition cors_origin_list (s : Settings) : list string := split_csv (api_cors_origins s).

(** ** Lemmas *)

Lemma default_settings_valid env :
  validate_settings (λ _, Some "sqlite+aiosqlite") ["SENTINEL_ENV"; "PATH"] (default_settings env)
  = Ok (default_settings env).
Proof. by destruct env. Qed.

(** A misspelt variable is refused whatever its case. *)
Lemma misspelt_variable_refused drivername environ key s :
  key ∈ environ → str_startswith (str_upper key) ENV_PREFIX = true →
  str_upper key ∉ (λ name, ENV_PREFIX +:+ name) <$> field_names →
  validate_settings drivername environ s = Raise ValidationError.
Proof.
  intros Hin Hp Hk. unfold validate_settings.
  assert (reject_unknown_prefixed_env environ = false) as ->.
  { apply not_true_iff_false. unfold reject_unknown_prefixed_env. rewrite forallb_forall.
    intros Hall. specialize (Hall key). rewrite <-list_elem_of_In in Hall. specialize (Hall Hin).
    rewrite Hp in Hall. by rewrite bool_decide_false in Hall. }
  by rewrite andb_false_r.
Qed.

Lemma positive_upto_pos hi v : positive_upto hi v = true → 0 < v ≤ hi.
Proof. unfold positive_upto. rewrite andb_true_iff, Z.ltb_lt, Z.leb_le. tauto. Qed.
