(* ===== verification/Metrics.v ===== *)
(** * Prometheus metrics ([metrics.py])

    The instruments the consumer updates, the snapshot of the running system
    and the families it is exported as.  [prometheus_client] is outside: a
    counter is its value per label values, a family what is added to it; the
    text format and the latency histogram are the library's. *)

From S2P Require Import Prelude ODict PyText.
Local Open Scope string_scope.
Local Open Scope Z_scope.

(** ** The snapshot *)

Record RuntimeSnapshot := mkSnapshot {
  queue_depth : Z;
  queue_capacity : Z;
  dropped : odict string Z;
  alerts_delivered : odict string Z;
  alerts_suppressed : odict string Z;
  sink_errors : Z;
  alert_deliveries_dropped : odict string Z;
  snap_alerts_unpersisted : Z;
  persist_buffered : odict string Z;
  snap_persist_failures : Z;
  persist_healthy : bool;
  retention_deleted : odict string Z;
  pipeline_up : bool;
  collector_restarts : odict string Z;
  sources_up : odict string bool;
}.

(** ** Families *)

Inductive metric_kind := GAUGE | COUNTER.

Record Family := mkFamily {
  fam_kind : metric_kind;
  fam_name : string;
  fam_labels : list string;
  fam_samples : list (list string * Z);
}.

(** [family.add_metric] *)
Definition add_metric (labels : list string) (v : Z) (f : Family) : Family :=
  mkFamily (fam_kind f) (fam_name f) (fam_labels f) (fam_samples f ++ [(labels, v)])%list.

(** A family without labels and its one value *)
Definition single (kind : metric_kind) (name : string) (v : Z) : Family :=
  add_metric [] v (mkFamily kind name [] []).

(** [sorted] of a mapping's keys *)
Definition string_le (s1 s2 : string) : Prop := String.leb s1 s2 = true.
#[export] Instance string_le_dec s1 s2 : Decision (string_le s1 s2) := decide (_ = _).
Definition sorted_keys {V} (d : odict string V) : list string := merge_sort string_le (od_keys d).

(** [for key in sorted(values): family.add_metric([key], values[key])] *)
Definition labelled (kind : metric_kind) (name label : string) (values : odict string Z) : Family :=
  foldl (λ f key, add_metric [key] (default 0 (od_get values key)) f) (mkFamily kind name [label] [])
    (sorted_keys values).

(** [_labelled_counter] *)
Definition labelled_counter (name label : string) (values : odict string Z) : Family :=
  labelled COUNTER name label values.

(** [{key: int(value)}] *)
Definition as_ints (d : odict string bool) : odict string Z := prod_map id Z.b2z <$> d.

(** [_RuntimeCollector.collect] *)
Definition collect (snap : RuntimeSnapshot) : list Family :=
  [ single GAUGE "sentinel_pipeline_up" (Z.b2z (pipeline_up snap));
    labelled_counter "sentinel_collector_restarts" "collector" (collector_restarts snap);
    labelled GAUGE "sentinel_collector_source_up" "collector" (as_ints (sources_up snap));
    single GAUGE "sentinel_queue_depth" (queue_depth snap);
    single GAUGE "sentinel_queue_capacity" (queue_capacity snap);
    labelled_counter "sentinel_events_dropped" "reason" (dropped snap);
    labelled_counter "sentinel_alerts_emitted" "sink" (alerts_delivered snap);
    labelled_counter "sentinel_alerts_suppressed" "reason" (alerts_suppressed snap);
    labelled_counter "sentinel_alert_deliveries_dropped" "sink" (alert_deliveries_dropped snap);
    single COUNTER "sentinel_alert_sink_errors" (sink_errors snap);
    single COUNTER "sentinel_alerts_unpersisted" (snap_alerts_unpersisted snap);
    labelled GAUGE "sentinel_persist_buffered" "kind" (persist_buffered snap);
    single COUNTER "sentinel_persist_failures" (snap_persist_failures snap);
    single GAUGE "sentinel_persist_healthy" (Z.b2z (persist_healthy snap));
    labelled_counter "sentinel_retention_deleted" "kind" (retention_deleted snap) ].

(** ** The consumer's instruments *)

Record Metrics := mkMetrics {
  events_ingested : Z;
  detections_fired : odict (list string) Z;
}.

(** [Metrics.__init__] *)
Definition new_metrics : Metrics := mkMetrics 0 [].

(** [self._metrics.events_ingested.inc()] *)
Definition count_event (m : Metrics) : Metrics := mkMetrics (events_ingested m + 1) (detections_fired m).

(** [counter.labels(...).inc()] *)
Definition inc (labels : list string) (d : odict (list string) Z) : odict (list string) Z :=
  od_set d labels (default 0 (od_get d labels) + 1).

(** [self._metrics.detections_fired.labels(rule_id, severity).inc()] *)
Definition count_detection (rule_id : string) (severity : Z) (m : Metrics) : Metrics :=
  mkMetrics (events_ingested m) (inc [rule_id; str_of_int severity] (detections_fired m)).

(** What a scrape exports: the instruments and the source [observe_runtime]
    registered, the latency histogram aside. *)
Definition exported (m : Metrics) (snap : RuntimeSnapshot) : list Family :=
  single COUNTER "sentinel_events_ingested" (events_ingested m)
  :: mkFamily COUNTER "sentinel_detections_fired" ["rule_id"; "severity"] (detections_fired m)
  :: collect snap.

(** A sample of a scrape *)
Fixpoint find_family (name : string) (families : list Family) : option Family :=
  match families with
  | [] => None
  | f :: families' => if String.eqb (fam_name f) name then Some f else find_family name families'
  end.

Definition sample (families : list Family) (name : string) (labels : list string) : option Z :=
  f ← find_family name families; od_get (fam_samples f) labels.

(** ** What is exported *)

Lemma labelled_fold kind name label values keys done_ :
  foldl (λ f key, add_metric [key] (default 0 (od_get values key)) f) (mkFamily kind name [label] done_) keys
  = mkFamily kind name [label] (done_ ++ ((λ key, ([key], default 0 (od_get values key))) <$> keys))%list.
Proof.
  revert done_. induction keys as [|k keys IH]; intros done_; simpl; [by rewrite app_nil_r|].
  unfold add_metric at 2. cbn. by rewrite IH, <-app_assoc.
Qed.

Lemma labelled_eq kind name label values :
  labelled kind name label values
  = mkFamily kind name [label] ((λ key, ([key], default 0 (od_get values key))) <$> sorted_keys values).
Proof. unfold labelled. by rewrite labelled_fold. Qed.

Lemma labelled_samples kind name label values :
  fam_samples (labelled kind name label values)
  = (λ key, ([key], default 0 (od_get values key))) <$> sorted_keys values.
Proof. by rewrite labelled_eq. Qed.

Lemma labelled_name kind name label values : fam_name (labelled kind name label values) = name.
Proof. by rewrite labelled_eq. Qed.

Lemma get_labelled (f : string → Z) keys key :
  od_get ((λ k, ([k], f k)) <$> keys) [key] = if decide (key ∈ keys) then Some (f key) else None.
Proof.
  induction keys as [|k keys IH]; [done|].  rewrite fmap_cons. cbn [od_get].
  destruct (decide ([key] = [k])) as [[= ->]|Hk]; [rewrite decide_True by (apply elem_of_cons; by left); done|].
  rewrite IH. assert (key ∈ k :: keys ↔ key ∈ keys) as Hiff by (rewrite elem_of_cons; split; [intros [->|]|]; [done|..]; tauto).
  by destruct (decide (key ∈ keys)), (decide (key ∈ k :: keys)); [|tauto..|].
Qed.

(** A labelled family has exactly the mapping's entries. *)
Lemma labelled_get kind name label values key :
  od_get (fam_samples (labelled kind name label values)) [key] = od_get values key.
Proof.
  rewrite labelled_samples, get_labelled. unfold sorted_keys. case_decide as Hin.
  - rewrite merge_sort_Permutation in Hin. apply od_get_is_Some in Hin as [v ->]. done.
  - rewrite merge_sort_Permutation in Hin. by apply od_get_None in Hin as ->.
Qed.

(** One sample per key, the keys in order *)
#[export] Instance string_le_total : Total string_le.
Proof. intros s1 s2. unfold string_le. pose proof (String.leb_total s1 s2). tauto. Qed.

Lemma labelled_sorted kind name label values :
  (fam_samples (labelled kind name label values)).*1 = (λ key, [key]) <$> sorted_keys values ∧
  Sorted string_le (sorted_keys values) ∧ sorted_keys values ≡ₚ od_keys values.
Proof.
  rewrite labelled_samples, <-list_fmap_compose. split; [done|]. unfold sorted_keys.
  split; [apply (Sorted_merge_sort _)|apply merge_sort_Permutation].
Qed.

(** *** Counters *)

Definition total {K} (d : odict K Z) : Z := foldr (λ p n, p.2 + n) 0 d.

Lemma inc_get labels labels' d :
  default 0 (od_get (inc labels d) labels') = default 0 (od_get d labels') + (if decide (labels' = labels) then 1 else 0).
Proof. unfold inc. rewrite od_get_set. repeat case_decide; subst; cbn; try done; lia. Qed.

Lemma total_set {K} `{EqDecision K} (d : odict K Z) k v :
  total (od_set d k v) = total d + v - default 0 (od_get d k).
Proof.
  unfold total. induction d as [|[k' v'] d IH]; cbn [od_set od_get foldr snd from_option id]; [lia|].
  case_decide; cbn [foldr snd from_option id]; [|rewrite IH]; lia.
Qed.

Lemma inc_total labels d : total (inc labels d) = total d + 1.
Proof. unfold inc. rewrite total_set. lia. Qed.
