(* ===== verification/Runtime.v ===== *)
(** * The composition root ([runtime.py])

    How the settings become collectors, sinks, an alert manager and a running
    system; what happens to one event on its way through it; the retention
    task.  The write-behind buffer itself is [Persist.v]. *)

From S2P Require Import Prelude ODict PyText Events Dedup Queue Pipeline Rules Evaluator Engine Alerting.
From S2P Require Import Base Storage Persist Sinks Settings Metrics.
Local Open Scope string_scope.
Local Open Scope Z_scope.

(** ** Which failures are rejections *)

(** A failure of a database call, as SQLAlchemy reports it. *)
Inductive db_failure :=
  | DataError
  | IntegrityError
  | DBAPIError (sqlstate : option string)
  | OtherFailure.

Definition REJECTED_SQLSTATE_CLASSES : list string := ["22"; "23"].

(** [_is_rejection] *)
Definition is_rejection (e : db_failure) : bool :=
  match e with
  | DataError | IntegrityError => true
  | DBAPIError (Some sqlstate) => bool_decide (str_take 2 sqlstate ∈ REJECTED_SQLSTATE_CLASSES)
  | DBAPIError None | OtherFailure => false
  end.

(** [_save], as [flush] reads it *)
Definition save_outcome (failure : option db_failure) : outcome :=
  match failure with
  | None => Done
  | Some e => if is_rejection e then Rejected else Outage
  end.

(** ** Rules whose paths are not watched *)

Definition REGEX_META : string := ".^$*+?{}[]()|" +:+ String (ascii_of_nat 92) "".
Definition QUANTIFIERS : string := "?*{".

Fixpoint drop_last (s : string) : string :=
  match s with "" => "" | String c "" => "" | String c s' => String c (drop_last s') end.

(** The loop of [_literal_prefix], from the literal text read so far. *)
Fixpoint literal_prefix_from (prefix pattern : string) : string :=
  match pattern with
  | "" => prefix
  | String char rest =>
      if str_mem char REGEX_META then
        if str_mem char QUANTIFIERS then drop_last prefix else prefix
      else
        match rest with
        | String next _ =>
            if str_mem next QUANTIFIERS then prefix
            else literal_prefix_from (prefix +:+ String char "") rest
        | "" => prefix +:+ String char ""
        end
  end.

Definition literal_prefix (pattern : string) : string := literal_prefix_from "" pattern.

(** [_regex_path_prefixes] *)
Definition regex_path_prefixes (pattern : string) : list string :=
  if negb (str_startswith pattern "^") then []
  else
    let body := str_drop 1 pattern in
    if str_startswith body "(?:" && str_mem ")" body then
      let '(group, _, rest) := str_partition ")" (str_drop 3 body) in
      map (λ alternative, literal_prefix (alternative +:+ rest)) (str_split "|" group)
    else [literal_prefix body].

(** The tests of one leaf *)
Definition leaf_prefixes (f : option string) (o : option Operator) (v : option rule_value) : list string :=
  match f, v with
  | Some "file.path", Some (VScalar (SStr value)) =>
      match o with
      | Some EQUALS | Some STARTSWITH => [value]
      | Some REGEX => List.filter (λ p, negb (String.eqb p "")) (regex_path_prefixes value)
      | _ => []
      end
  | _, _ => []
  end.

(** [_file_path_prefixes] *)
Fixpoint file_path_prefixes (c : Condition) : list string :=
  match c with
  | mkCondition f o v al an nt th =>
      match th with
      | Some t => file_path_prefixes (th_match t)
      | None =>
          match al, an, nt with
          | Some ((_ :: _) as cs), _, _ => flat_map file_path_prefixes cs
          | _, Some ((_ :: _) as cs), _ => flat_map file_path_prefixes cs
          | _, _, Some c' => file_path_prefixes c'
          | _, _, None => leaf_prefixes f o v
          end
      end
  end.

(** [s.rstrip("/")] *)
Fixpoint rstrip_slash (s : string) : string :=
  match s with
  | "" => ""
  | String c s' =>
      let r := rstrip_slash s' in
      if Ascii.eqb c "/" && String.eqb r "" then "" else String c r
  end.

Definition covered (watched : list string) (prefix : string) : bool :=
  existsb (λ root, str_startswith prefix (rstrip_slash root +:+ "/") || String.eqb prefix root
                   || str_startswith root prefix) watched.

(** [unwatched_rule_paths] *)
Definition unwatched_rule_paths (rules : list Rule) (watched : list string) : odict string (list string) :=
  foldl (λ d r,
    match List.filter (λ p, negb (covered watched p)) (file_path_prefixes (rule_condition r)) with
    | [] => d
    | missing => od_set d (rule_id r) missing
    end) [] rules.

Example prefixes :
  map regex_path_prefixes ["^(?:/etc/cron|/var/spool)"; "^/etc/pass?wd"; "/etc"; "^/a/.*"; "^(?:/x|/y)/z+"]
  = [["/etc/cron"; "/var/spool"]; ["/etc/pas"]; []; ["/a/"]; ["/x/z"; "/y/z"]].
Proof. vm_compute. reflexivity. Qed.

(** An alternation outside a leading group is read as its first branch only. *)
Example top_level_alternation : regex_path_prefixes "^/etc|^/srv/www" = ["/etc"].
Proof. vm_compute. reflexivity. Qed.

(** ** The host's name *)

Definition PROC : Path := mkPath "/" ["proc"].
Definition SMTPS_PORT : Z := 465.

Section names.
(** [(host_root / "etc" / "hostname").read_text(...)] and [socket.gethostname()] *)
Context (etc_hostname : result string) (gethostname : string).

(** [resolve_host_name] *)
Definition resolve_host_name (s : Settings) : string :=
  let fallback := if String.eqb gethostname "" then "localhost" else gethostname in
  match Settings.host_name s with
  | Some name => name
  | None =>
      if bool_decide (path_of (host_root s) = HOST_ROOT) then fallback
      else
        let lines := match etc_hostname with Ok text => text | Raise _ => "" end in
        match List.filter (λ l, negb (String.eqb l "")) (map str_strip (str_splitlines lines)) with
        | name :: _ => if strlen name <=? 253 then name else fallback
        | [] => fallback
        end
  end.

(** ** Collectors *)

(** The four of the service, and one a caller gives the runtime. *)
Inductive collector :=
  | AuthLogCollector (path : Path) (start_at_end : bool)
  | FileIntegrityCollector (paths : list string) (host_root : Path) (host : string)
  | ProcessCollector (proc_root : Path) (host : string)
  | NetworkCollector (proc_root : Path) (netns_pid : option Z) (host : string)
  | GivenCollector (name : string).

Definition collector_name (c : collector) : string :=
  match c with
  | AuthLogCollector _ _ => "auth-log"
  | FileIntegrityCollector _ _ _ => "file-integrity"
  | ProcessCollector _ _ => "process"
  | NetworkCollector _ _ _ => "network"
  | GivenCollector name => name
  end.

(** [build_collectors] *)
Definition build_collectors (s : Settings) : list collector :=
  let root := path_of (host_root s) in
  let host := resolve_host_name s in
  let enabled name := bool_decide (name ∈ enabled_collectors s) in
  ((if enabled "auth-log"
    then [AuthLogCollector (under_host_root root (path_of (auth_log_path s))) (negb (auth_log_backfill s))]
    else [])
   ++ (if enabled "file-integrity" then [FileIntegrityCollector (fim_path_list s) root host] else [])
   ++ (if enabled "process" then [ProcessCollector (under_host_root root PROC) host] else [])
   ++ (if enabled "network"
       then [NetworkCollector (under_host_root root PROC)
               (if bool_decide (root = HOST_ROOT) then None else Some 1) host]
       else []))%list.
End names.

(** ** Sinks *)

Inductive sink_config :=
  | ConsoleSink (json_lines : bool)
  | WebhookSink (url secret : string) (allow_private : bool)
  | EmailSinkOf (sink : EmailSink).

Definition sink_config_name (c : sink_config) : string :=
  match c with ConsoleSink _ => "console" | WebhookSink _ _ _ => "webhook" | EmailSinkOf _ => "email" end.

(** The webhook branch of [build_sinks] *)
Definition build_webhook (s : Settings) : result (list sink_config) :=
  match webhook_url s with
  | None => Ok []
  | Some url =>
      match webhook_hmac_secret s with
      | None => Raise ConfigurationError
      | Some secret =>
          match validate_destination url (webhook_allow_private s) with
          | Raise DestinationBlockedError => Raise ConfigurationError
          | Raise e => Raise e
          | Ok _ =>
              _ ← raise_if (String.eqb secret "") ValueError;
              Ok [WebhookSink url secret (webhook_allow_private s)]
          end
      end
  end.

Definition email_of (host : string) (s : Settings) : EmailSink :=
  mkEmail host (smtp_port s) (default "" (email_from s)) (email_recipient_list s) (smtp_username s)
    (match smtp_password s with Some p => if String.eqb p "" then None else Some p | None => None end)
    (smtp_starttls s) (smtp_port s =? SMTPS_PORT).

(** The email branch *)
Definition build_email (s : Settings) : result (list sink_config) :=
  match smtp_host s with
  | None => Ok []
  | Some host =>
      if negb (truthy (email_from s)) || bool_decide (email_recipient_list s = []) then Raise ConfigurationError
      else
        match new_email (email_of host s) with
        | Ok email => Ok [EmailSinkOf email]
        | Raise _ => Raise ConfigurationError
        end
  end.

(** [build_sinks] *)
Definition build_sinks (s : Settings) : result (list sink_config) :=
  webhook ← build_webhook s;
  email ← build_email s;
  Ok (ConsoleSink (bool_decide (log_format s = JSON)) :: webhook ++ email)%list.

(** ** The alert manager *)

Definition DEDUP_MAX_ENTRIES : Z := 100000.
Definition SINK_QUEUE : Z := 1000.

(** [{rule.id: rule.throttle for rule in rules if rule.throttle is not None}] *)
Definition rule_throttles (rules : list Rule) : odict string Throttle :=
  foldl (λ d r, match rule_throttle r with Some t => od_set d (rule_id r) t | None => d end) [] rules.

(** [build_alert_manager] *)
Definition build_alert_manager (s : Settings) (rules : list Rule) (sinks : list AlertSink)
    : result (AlertManager DedupWindow) :=
  new_manager sinks (alert_min_severity s) (alert_dedup_window_seconds s) DEDUP_MAX_ENTRIES
    (alert_throttle_max s) (alert_throttle_window_seconds s) SINK_QUEUE (rule_throttles rules).

(** ** The system *)

Definition MAX_THRESHOLD_GROUPS : Z := 100000.

Record Runtime := mkRuntime {
  rt_engine : DetectionEngine;
  rt_alerts : AlertManager DedupWindow;
  rt_pipeline : Pipeline Event DedupWindow;
  rt_collectors : list collector;
  rt_sinks : list sink_config;
  rt_buffer : Buffer;
  rt_retention : option Z;
  rt_metrics : Metrics;
}.

Definition rt_events_ingested (rt : Runtime) : Z := events_ingested (rt_metrics rt).

(** A day, in microseconds *)
Definition DAY : Z := 86400 * SECOND.

(** [Runtime.__init__] with its collectors and sinks; a sink's floor is the
    default 0. *)
Definition build_runtime (s : Settings) (rules : list Rule) (collectors : list collector)
    (sinks : list sink_config) : result Runtime :=
  alerts ← build_alert_manager s rules (map (λ c, mkSink (sink_config_name c) 0) sinks);
  pipeline ← new_pipeline (queue_maxsize s) (queue_backpressure s) (dedup_window_seconds s)
               (dedup_max_entries s);
  pipeline ← register_all (map collector_name collectors) pipeline;
  Ok (mkRuntime (new_engine rules MAX_THRESHOLD_GROUPS) alerts (set_consumer pipeline) collectors sinks
        new_buffer ((λ days, days * DAY) <$> retention_days s) new_metrics).

(** [Runtime.__init__] without: both are built from the settings. *)
Definition new_runtime (etc_hostname : result string) (gethostname : string) (s : Settings)
    (rules : list Rule) : result Runtime :=
  sinks ← build_sinks s;
  build_runtime s rules (build_collectors etc_hostname gethostname s) sinks.

(** ** One event *)

Section consume.
Context `{RegexEngine} (isoformat : Z → string) (prefix : string).

(** The calls an event makes to the alert manager; [tick] gives the two clock
    readings of the [i]-th. *)
Definition alert_calls (tick : nat → Z * Z) (ds : list Detection) : list call :=
  imap (λ i d, mkCall (tick i).1 (tick i).2 d) ds.

(** What the detections of an event add to the metrics *)
Definition count_detections (ds : list Detection) (m : Metrics) : Metrics :=
  foldl (λ m d, count_detection (det_rule_id d) (det_severity d) m) m ds.

(** [Runtime._consume] *)
Definition consume_event (s : Settings) (tick : nat → Z * Z) (e : Event) (rt : Runtime) : result Runtime :=
  '(ds, engine) ← evaluate isoformat e (rt_engine rt);
  '(answers, alerts) ← process_all (alert_calls tick ds) (rt_alerts rt);
  Ok (mkRuntime engine alerts (rt_pipeline rt) (rt_collectors rt) (rt_sinks rt)
        (Persist.consume prefix (persist_batch_size s) (persist_max_buffered s) (omap id answers) e
           (rt_buffer rt))
        (rt_retention rt) (count_event (count_detections ds (rt_metrics rt)))).
End consume.

(** ** The flusher's pace *)

Definition MAX_RETRY_BACKOFF : Z := 30 * SECOND.

(** [_flush_periodically]: the delay before the next flush. *)
Definition next_flush_delay (interval delay : Z) (written : bool) : Z :=
  if written then interval else Z.min (delay * 2) MAX_RETRY_BACKOFF.

(** ** Retention *)

Definition PRUNE_BATCH : Z := 5000.

Section prune.
Context {TE TA : Type} `{SqlTable EventValues TE, SqlTable AlertValues TA}.
Implicit Types (st : Store TE TA).

(** What may interrupt the loop: shutdown before the [i]-th batch, or its
    failure ([Some committed]: it was deleted all the same). *)
Record interruptions := mkInterruptions { stopping : nat → bool; failing : nat → option bool }.

(** The loop of [prune]: whether it completed, what it counted, the rest.
    [None]: out of fuel. *)
Fixpoint prune_batches (fuel : nat) (x : interruptions) (i : nat) (cutoff : Z) (deleted : Z * Z) st
    : option (bool * (Z * Z) * Store TE TA) :=
  match fuel with
  | O => None
  | S fuel' =>
      if stopping x i then Some (true, deleted, st)
      else
        let '((events, alerts), st') := delete_before cutoff PRUNE_BATCH st in
        match failing x i with
        | Some committed => Some (false, deleted, if committed : bool then st' else st)
        | None =>
            let deleted := (deleted.1 + events, deleted.2 + alerts) in
            if (events <? PRUNE_BATCH) && (alerts <? PRUNE_BATCH) then Some (true, deleted, st')
            else prune_batches fuel' x (S i) cutoff deleted st'
        end
  end.

(** [prune] at instant [now] *)
Definition prune (fuel : nat) (x : interruptions) (retention : option Z) (now : Z) st
    : option (bool * (Z * Z) * Store TE TA) :=
  match retention with
  | None => Some (true, (0, 0), st)
  | Some retention => prune_batches fuel x 0 (now - retention) (0, 0) st
  end.
End prune.

(** ** Lemmas *)

(** *** Unwatched paths *)

#[local] Arguments str_startswith : simpl never.

Lemma startswith_cons c p s :
  str_startswith s (String c p) = match s with String d s' => Ascii.eqb c d && str_startswith s' p | "" => false end.
Proof.
  destruct s as [|d s]; [done|]. unfold str_startswith. simpl.
  destruct (ascii_dec c d) as [->|Hne]; [by rewrite Ascii.eqb_refl|].
  by destruct (Ascii.eqb_spec c d).
Qed.

Lemma startswith_prefix s p : str_startswith s p = true ↔ ∃ t, s = p +:+ t.
Proof.
  revert s. induction p as [|c p IH]; intros s; [split; intros _; [by exists s|by destruct s]|].
  rewrite startswith_cons. setoid_rewrite string_app_cons. destruct s as [|d s].
  - split; [done|]. by intros [? ?].
  - rewrite andb_true_iff, IH. split.
    + intros [->%Ascii.eqb_eq [t ->]]. by exists t.
    + intros [t [= -> ->]]. split; [apply Ascii.eqb_refl|by exists t].
Qed.

Lemma startswith_both s p q :
  str_startswith s p = true → str_startswith s q = true →
  str_startswith p q = true ∨ str_startswith q p = true.
Proof.
  revert p q. induction s as [|c s IH]; intros [|d p] [|e q]; auto; rewrite !startswith_cons; try done.
  intros [->%Ascii.eqb_eq Hp]%andb_true_iff [->%Ascii.eqb_eq Hq]%andb_true_iff.
  rewrite Ascii.eqb_refl. simpl. by apply IH.
Qed.

Lemma startswith_trans s p q :
  str_startswith s p = true → str_startswith p q = true → str_startswith s q = true.
Proof.
  rewrite !startswith_prefix. intros [t ->] [u ->]. exists (u +:+ t). by rewrite string_app_assoc.
Qed.

Lemma rstrip_slash_startswith s : str_startswith s (rstrip_slash s) = true.
Proof.
  induction s as [|c s IH]; [done|]. simpl. destruct (_ && _); [done|].
  rewrite startswith_cons, Ascii.eqb_refl. exact IH.
Qed.

Lemma snoc_startswith s c q :
  str_startswith (s +:+ String c "") q = true → str_startswith s q = true ∨ q = s +:+ String c "".
Proof.
  revert q. induction s as [|d s IH]; intros [|e q]; auto; rewrite startswith_cons.
  - simpl. intros [->%Ascii.eqb_eq Hq]%andb_true_iff. right. by destruct q.
  - rewrite string_app_cons. intros [->%Ascii.eqb_eq Hq]%andb_true_iff.
    destruct (IH q Hq) as [Hs| ->]; [left|by right]. by rewrite startswith_cons, Ascii.eqb_refl.
Qed.

(** A path under a watched root never starts with a prefix that is not covered. *)
Lemma uncovered_unreachable watched root prefix path :
  root ∈ watched → covered watched prefix = false →
  path = root ∨ str_startswith path (rstrip_slash root +:+ "/") = true →
  str_startswith path prefix = false.
Proof.
  intros Hin Hc Hpath. apply not_true_iff_false. intros Hp.
  assert (Hroot : str_startswith prefix (rstrip_slash root +:+ "/") || String.eqb prefix root
                  || str_startswith root prefix = false).
  { apply not_true_iff_false. intros Ht. unfold covered in Hc. apply not_true_iff_false in Hc. apply Hc.
    apply existsb_exists. exists root. split; [by apply list_elem_of_In|done]. }
  apply orb_false_iff in Hroot as [[Hr1 Hr2]%orb_false_iff Hr3].
  destruct Hpath as [->|Hpath]; [by rewrite Hp in Hr3|].
  destruct (startswith_both _ _ _ Hp Hpath) as [Ha|Ha]; [by rewrite Ha in Hr1|].
  apply snoc_startswith in Ha as [Ha| ->].
  - by rewrite (startswith_trans _ _ _ (rstrip_slash_startswith root) Ha) in Hr3.
  - rewrite (proj2 (startswith_prefix _ _)) in Hr1; [done|]. exists "". clear. induction (rstrip_slash root +:+ "/") as [|c t IH]; [done|].
    by rewrite string_app_cons, <-IH.
Qed.

(** *** Retention *)

Section prune_facts.
Context {V T : Type} `{SqlTable V T}.

Definition expired (cutoff : Z) (t : T) : list (row V) := filter (λ r, row_created_at r < cutoff) (rows t).
Definition kept (cutoff : Z) (t : T) : list (row V) := filter (λ r, cutoff ≤ row_created_at r) (rows t).

Lemma expired_kept cutoff t : len (expired cutoff t) + len (kept cutoff t) = len (rows t).
Proof.
  unfold expired, kept, len. rewrite <-(filter_split_length (λ r, row_created_at r < cutoff) (rows t)).
  rewrite (list_filter_iff (λ r, ¬ row_created_at r < cutoff) (λ r, cutoff ≤ row_created_at r)); [lia|].
  intros r. lia.
Qed.

Lemma none_expired cutoff t : len (expired cutoff t) = 0 → rows t = kept cutoff t.
Proof.
  unfold expired, kept. intros Hz. symmetry. apply filter_all.
  assert (Hnil : filter (λ r, row_created_at r < cutoff) (rows t) = []).
  { apply nil_length_inv. unfold len in Hz. lia. }
  apply Forall_forall. intros r Hr. destruct (decide (row_created_at r < cutoff)) as [Hlt|]; [|lia].
  assert (r ∈ []) as Hin by (rewrite <-Hnil; by apply list_elem_of_filter).
  by apply elem_of_nil in Hin.
Qed.

Lemma one_batch cutoff limit t n t' :
  0 ≤ limit → delete_stored_before cutoff limit t = (n, t') →
  n = Z.min limit (len (expired cutoff t)) ∧ len (expired cutoff t') = len (expired cutoff t) - n ∧
  kept cutoff t' = kept cutoff t.
Proof.
  intros Hl Hd. pose proof (deletion_cases cutoff limit t Hl) as Hc. rewrite Hd in Hc.
  destruct Hc as (Hn & Hlen & _ & Hk). fold (expired cutoff t) in Hn. fold (kept cutoff t) (kept cutoff t') in Hk.
  pose proof (expired_kept cutoff t). pose proof (expired_kept cutoff t'). rewrite Hk in *.
  split_and!; [done|lia|done].
Qed.
End prune_facts.

Section prune_store.
Context {TE TA : Type} `{SqlTable EventValues TE, SqlTable AlertValues TA}.
Implicit Types (st : Store TE TA).

Definition kept_rows (cutoff : Z) st : list (row EventValues) * list (row AlertValues) :=
  (kept cutoff (event_rows st), kept cutoff (alert_rows st)).

Definition expired_count (cutoff : Z) st : Z * Z :=
  (len (expired cutoff (event_rows st)), len (expired cutoff (alert_rows st))).

Lemma store_batch cutoff limit st :
  0 ≤ limit →
  let '((events, alerts), st') := delete_before cutoff limit st in
  events = Z.min limit (expired_count cutoff st).1 ∧ alerts = Z.min limit (expired_count cutoff st).2 ∧
  expired_count cutoff st'
  = ((expired_count cutoff st).1 - events, (expired_count cutoff st).2 - alerts) ∧
  kept_rows cutoff st' = kept_rows cutoff st.
Proof.
  intros Hl. unfold delete_before.
  destruct (delete_stored_before cutoff limit (event_rows st)) as [n te] eqn:He.
  destruct (delete_stored_before cutoff limit (alert_rows st)) as [m ta] eqn:Ha.
  destruct (one_batch _ _ _ _ _ Hl He) as (-> & He2 & He3).
  destruct (one_batch _ _ _ _ _ Hl Ha) as (-> & Ha2 & Ha3).
  unfold expired_count, kept_rows. simpl. by rewrite He2, He3, Ha2, Ha3.
Qed.

Lemma prune_keeps fuel x i cutoff deleted st complete counts st' :
  prune_batches fuel x i cutoff deleted st = Some (complete, counts, st') →
  kept_rows cutoff st' = kept_rows cutoff st.
Proof.
  revert i deleted st. induction fuel as [|fuel IH]; intros i deleted st; [done|]. cbn [prune_batches].
  destruct (stopping x i); [by intros [= _ _ <-]|].
  pose proof (store_batch cutoff PRUNE_BATCH st ltac:(done)) as Hb.
  destruct (delete_before cutoff PRUNE_BATCH st) as [[events alerts] st1].
  destruct Hb as (_ & _ & _ & Hk). destruct (failing x i) as [[]|]; [by intros [= _ _ <-]..|].
  destruct (_ && _); [by intros [= _ _ <-]|]. intros Hr. rewrite <-Hk. by eapply IH.
Qed.

Lemma prune_finishes fuel x i cutoff deleted st :
  (∀ j, stopping x j = false ∧ failing x j = None) →
  (expired_count cutoff st).1 + (expired_count cutoff st).2 < PRUNE_BATCH * Z.of_nat fuel →
  ∃ st', prune_batches fuel x i cutoff deleted st
         = Some (true, (deleted.1 + (expired_count cutoff st).1, deleted.2 + (expired_count cutoff st).2), st') ∧
    expired_count cutoff st' = (0, 0).
Proof.
  intros Hx. revert i deleted st. induction fuel as [|fuel IH]; intros i deleted st Hf.
  - assert (0 ≤ (expired_count cutoff st).1 ∧ 0 ≤ (expired_count cutoff st).2)
      by (split; apply len_nonneg). lia.
  - cbn [prune_batches]. destruct (Hx i) as [-> ->].
    pose proof (store_batch cutoff PRUNE_BATCH st ltac:(done)) as Hb.
    destruct (delete_before cutoff PRUNE_BATCH st) as [[events alerts] st1].
    assert (Hn : 0 ≤ (expired_count cutoff st).1 ∧ 0 ≤ (expired_count cutoff st).2)
      by (split; apply len_nonneg).
    destruct Hb as (Hev & Hal & Hc & _). unfold PRUNE_BATCH in *.
    destruct ((events <? 5000) && (alerts <? 5000)) eqn:Hshort.
    + apply andb_true_iff in Hshort as [?%Z.ltb_lt ?%Z.ltb_lt].
      exists st1. rewrite Hc. clear IH Hc. assert (events = (expired_count cutoff st).1) as -> by lia.
      assert (alerts = (expired_count cutoff st).2) as -> by lia. by rewrite !Z.sub_diag.
    + apply andb_false_iff in Hshort.
      assert (events = 5000 ∨ alerts = 5000) as Hfull
        by (destruct Hshort as [?%Z.ltb_ge|?%Z.ltb_ge]; lia).
      destruct (IH (S i) (deleted.1 + events, deleted.2 + alerts) st1) as (st' & -> & Hz).
      { rewrite Hc. cbn [fst snd]. lia. }
      exists st'. rewrite Hc. cbn [fst snd]. split; [|done].
      by replace (deleted.1 + events + _) with (deleted.1 + (expired_count cutoff st).1) by lia;
        replace (deleted.2 + alerts + _) with (deleted.2 + (expired_count cutoff st).2) by lia.
Qed.
End prune_store.

(** *** Construction *)

Local Close Scope string_scope.

Lemma register_all_ok names (p : Pipeline Event DedupWindow) :
  NoDup (pl_collectors p ++ names) → ∃ p', register_all names p = Ok p' ∧
    pl_collectors p' = pl_collectors p ++ names.
Proof.
  revert p. induction names as [|n names IH]; intros p Hnd; simpl; [exists p; by rewrite app_nil_r|].
  unfold register. rewrite bool_decide_false.
  - cbn. destruct (IH (mkPipeline (pl_queue p) (pl_dedup p) (pl_collectors p ++ [n])%list (pl_consumer p)
      (pl_tasks p) (pl_processed p) (pl_deduped p) (pl_consumer_errors p) (pl_restarts p)
      (pl_stop_requested p))) as (p' & Hp & Hc); simpl.
    + by rewrite <-app_assoc.
    + exists p'. split; [exact Hp|]. rewrite Hc. simpl. by rewrite <-app_assoc.
  - apply NoDup_app in Hnd as (_ & Hd & _). intros Hin. apply (Hd n Hin). by left.
Qed.

Lemma collector_names_NoDup etc_hostname gethostname s :
  NoDup (map collector_name (build_collectors etc_hostname gethostname s)).
Proof. unfold build_collectors. repeat case_bool_decide; by apply (bool_decide_unpack _). Qed.

Lemma enabled_known drivername environ s s' :
  validate_settings drivername environ s = Ok s' →
  s' = s ∧ valid_fields s = true ∧ enabled_collectors s ≠ [] ∧
  Forall (λ name, name ∈ KNOWN_COLLECTORS) (enabled_collectors s) ∧
  persist_batch_size s ≤ persist_max_buffered s.
Proof.
  unfold validate_settings. destruct (_ && _) eqn:Hv; [|done]. intros [= <-].
  repeat match goal with H : _ && _ = true |- _ => apply andb_true_iff in H as [H ?] end.
  match goal with H : check_collectors _ = true |- _ =>
    unfold check_collectors in H; apply andb_true_iff in H as [Hne%bool_decide_eq_true Hk] end.
  match goal with H : check_buffer_holds_a_batch _ = true |- _ => apply Z.leb_le in H end.
  split_and!; try done. apply Forall_forall. intros name Hin. rewrite forallb_forall in Hk.
  specialize (Hk name). rewrite <-list_elem_of_In in Hk. by apply bool_decide_eq_true in Hk.
Qed.

(** The collectors that run are the enabled ones, in the order of the known. *)
Lemma collector_names etc_hostname gethostname s :
  map collector_name (build_collectors etc_hostname gethostname s)
  = filter (λ name, name ∈ enabled_collectors s) KNOWN_COLLECTORS.
Proof.
  unfold build_collectors, KNOWN_COLLECTORS. rewrite !filter_cons, filter_nil.
  repeat case_bool_decide; repeat case_decide; try done; tauto.
Qed.

(** What [build_sinks] needs. *)
Definition webhook_configured (s : Settings) : Prop :=
  match webhook_url s with
  | None => True
  | Some url => ∃ secret, webhook_hmac_secret s = Some secret ∧
      validate_destination url (webhook_allow_private s) = Ok tt
  end.

Definition email_configured (s : Settings) : Prop :=
  match smtp_host s with
  | None => True
  | Some host => truthy (email_from s) = true ∧ email_recipient_list s ≠ [] ∧
      new_email (email_of host s) = Ok (email_of host s)
  end.

(** A webhook whose URL [urlsplit] refuses *)
Definition unsplittable_webhook (s : Settings) : Prop :=
  ∃ url secret, webhook_url s = Some url ∧ webhook_hmac_secret s = Some secret ∧ urlsplit url = Raise ValueError.

(** What building unusable sinks raises *)
Definition sinks_error (s : Settings) (e : exn) : Prop :=
  e = ValueError ∧ unsplittable_webhook s ∨ e = ConfigurationError ∧ ¬ unsplittable_webhook s.

Lemma unsplittable_refused url allow : urlsplit url = Raise ValueError → validate_destination url allow = Raise ValueError.
Proof. intros Hu. unfold validate_destination, split_destination. by rewrite Hu. Qed.

Lemma validate_destination_raises url allow e :
  validate_destination url allow = Raise e →
  e = DestinationBlockedError ∨ (e = ValueError ∧ urlsplit url = Raise ValueError).
Proof.
  unfold validate_destination, split_destination.
  destruct (urlsplit url) as [parts|x] eqn:Hu; cbn [mbind result_bind].
  - unfold raise_if. destruct (negb (us_scheme parts =? "https")%string); [intros [= <-]; by left|].
    cbn [mbind result_bind]. destruct (String.eqb (hostname parts) ""); [intros [= <-]; by left|].
    cbn [mbind result_bind]. destruct (port parts); [|intros [= <-]; by left]. cbn [mbind result_bind].
    destruct (negb allow && is_ip_literal (hostname parts)) eqn:Hl; [|done].
    apply andb_true_iff in Hl as [_ Hl]. unfold is_blocked_address. unfold is_ip_literal in Hl.
    destruct (IpAddress.ip_address (hostname parts)); [|done]. cbn [mbind result_bind].
    destruct (blocked_ip _); [intros [= <-]; by left|done].
  - intros [= <-]. right. assert (x = ValueError); [|by subst].
    revert Hu. unfold urlsplit, raise_if. repeat (case_match; simpl); intros; by simplify_eq.
Qed.

Lemma webhook_secret_long s secret :
  valid_fields s = true → webhook_hmac_secret s = Some secret → String.eqb secret "" = false.
Proof.
  unfold valid_fields. intros Hv Hs. rewrite Hs in Hv.
  repeat match goal with H : _ && _ = true |- _ => apply andb_true_iff in H as [H ?] end.
  destruct secret; [|done]. by match goal with H : optionally _ (Some _) = true |- _ => vm_compute in H end.
Qed.

Lemma build_sinks_cases s :
  valid_fields s = true →
  match build_sinks s with
  | Ok sinks => webhook_configured s ∧ email_configured s ∧
      head sinks = Some (ConsoleSink (bool_decide (log_format s = JSON)))
  | Raise e => ¬ (webhook_configured s ∧ email_configured s) ∧ sinks_error s e
  end.
Proof.
  intros Hv. unfold build_sinks.
  assert (Hw : match build_webhook s with
    | Ok _ => webhook_configured s ∧ ¬ unsplittable_webhook s
    | Raise e => ¬ webhook_configured s ∧ sinks_error s e end).
  { unfold build_webhook, webhook_configured, sinks_error, unsplittable_webhook.
    destruct (webhook_url s) as [url|]; [|by split; [|intros (? & ? & ? & _)]].
    destruct (webhook_hmac_secret s) as [secret|] eqn:Hs;
      [|split; [by intros (? & ? & _)|right; split; [done|by intros (? & ? & _ & ? & _)]]].
    destruct (validate_destination url (webhook_allow_private s)) as [[]|e] eqn:Hd.
    - rewrite (webhook_secret_long s secret Hv Hs). cbn. split; [by eauto|].
      intros (? & ? & [= <-] & _ & Hu). by rewrite (unsplittable_refused _ _ Hu) in Hd.
    - destruct (validate_destination_raises _ _ _ Hd) as [->|[-> ?]]; (split; [by intros (? & _ & ?)|]); [right|left; by eauto 6].
      split; [done|]. intros (? & ? & [= <-] & _ & Hu). by rewrite (unsplittable_refused _ _ Hu) in Hd. }
  assert (He : match build_email s with
    | Ok _ => email_configured s
    | Raise e => ¬ email_configured s ∧ e = ConfigurationError end).
  { unfold build_email, email_configured. destruct (smtp_host s) as [host|]; [|done].
    destruct (truthy (email_from s)); simpl; [|split; [by intros (? & _)|done]].
    case_bool_decide; [split; [by intros (_ & ? & _)|done]|].
    destruct (new_email (email_of host s)) as [m|e] eqn:Hm.
    - split_and!; [done|done|]. revert Hm. unfold new_email, raise_if.
      repeat (case_match; simpl); intros; by simplify_eq.
    - split; [by intros (_ & _ & ?)|done]. }
  destruct (build_webhook s) as [w|e]; cbn [mbind result_bind]; [|by destruct Hw as [? ?]; split; [tauto|]].
  destruct Hw as [Hw Hu]. destruct (build_email s) as [m|e]; cbn [mbind result_bind]; [done|].
  destruct He as [? ->]. split; [tauto|by right].
Qed.

Lemma fields_build s :
  valid_fields s = true →
  is_ok (new_window (alert_dedup_window_seconds s) DEDUP_MAX_ENTRIES) = true ∧
  is_ok (new_pipeline (E := Event) (queue_maxsize s) (queue_backpressure s) (dedup_window_seconds s)
           (dedup_max_entries s)) = true ∧ 1 ≤ persist_batch_size s.
Proof.
  unfold valid_fields, positive_upto, between.
  intros Hv. repeat match goal with H : _ && _ = true |- _ => apply andb_true_iff in H as [H ?] end.
  repeat match goal with
         | H : (_ <=? _) = true |- _ => apply Z.leb_le in H
         | H : (_ <? _) = true |- _ => apply Z.ltb_lt in H end.
  unfold new_pipeline, new_bounded, new_window, raise_if, DEDUP_MAX_ENTRIES.
  rewrite !(proj2 (Z.leb_gt _ _)), !(proj2 (Z.ltb_ge _ _)) by lia. by split_and!.
Qed.

Lemma new_pipeline_fresh {E} maxsize policy ttl cap (p : Pipeline E DedupWindow) :
  new_pipeline maxsize policy ttl cap = Ok p →
  pl_collectors p = [] ∧ pl_consumer p = false ∧ pl_stop_requested p = false.
Proof.
  unfold new_pipeline. intros (q & _ & (w & _ & [= <-])%result_bind_ok)%result_bind_ok. done.
Qed.

Lemma started (p : Pipeline Event DedupWindow) :
  pl_collectors p ≠ [] → is_ok (run_start (set_consumer p)) = true.
Proof.
  intros Hne. unfold run_start, set_consumer, raise_if. simpl. rewrite bool_decide_false by done.
  cbn. by case_match.
Qed.

(** *** The metrics of an event *)

Definition detection_labels (d : Detection) : list string := [det_rule_id d; str_of_int (det_severity d)].

Lemma count_detections_ingested ds m : events_ingested (count_detections ds m) = events_ingested m.
Proof. unfold count_detections. revert m. induction ds as [|d ds IH]; intros m; [done|]. simpl. by rewrite IH. Qed.

Lemma count_detections_total ds m :
  total (detections_fired (count_detections ds m)) = total (detections_fired m) + len ds.
Proof.
  unfold count_detections. revert m. induction ds as [|d ds IH]; intros m; cbn [foldl]; [rewrite len_nil; lia|].
  rewrite IH, len_cons. cbn [count_detection detections_fired]. rewrite inc_total. lia.
Qed.

Lemma count_detections_get ds m labels :
  default 0 (od_get (detections_fired (count_detections ds m)) labels)
  = default 0 (od_get (detections_fired m) labels) + len (filter (λ d, detection_labels d = labels) ds).
Proof.
  unfold count_detections. revert m. induction ds as [|d ds IH]; intros m; cbn [foldl]; [unfold len; simpl; lia|].
  rewrite IH, filter_cons. cbn [count_detection detections_fired]. rewrite inc_get.
  change [det_rule_id d; str_of_int (det_severity d)] with (detection_labels d).
  destruct (decide (labels = detection_labels d)), (decide (detection_labels d = labels)); rewrite ?len_cons; try lia; congruence.
Qed.

(** ** Properties *)

(** C22: validated settings start the system: building it fails exactly when
    the configured webhook or email sink cannot be used, with a [ValueError]
    when the webhook has its secret and a URL [urlsplit] refuses, with a
    [ConfigurationError] in every other case; otherwise every part is built, the
    collectors are exactly the enabled ones, the console is among the sinks, the
    pipeline starts, and the write-behind buffer can hold a batch. *)
Theorem validated_settings_build_the_system drivername environ etc_hostname gethostname s s' rules :
  validate_settings drivername environ s = Ok s' →
  match new_runtime etc_hostname gethostname s rules with
  | Ok rt =>
      webhook_configured s ∧ email_configured s ∧ build_sinks s = Ok (rt_sinks rt) ∧
      ConsoleSink (bool_decide (log_format s = JSON)) ∈ rt_sinks rt ∧
      map collector_name (rt_collectors rt) = filter (λ n, n ∈ enabled_collectors s) KNOWN_COLLECTORS ∧
      pl_collectors (rt_pipeline rt) = map collector_name (rt_collectors rt) ∧
      is_ok (run_start (rt_pipeline rt)) = true ∧ 1 ≤ persist_batch_size s ≤ persist_max_buffered s
  | Raise e => ¬ (webhook_configured s ∧ email_configured s) ∧ sinks_error s e
  end.
Proof.
  intros Hv. apply enabled_known in Hv as (_ & Hf & Hne & Hk & Hb).
  pose proof (build_sinks_cases s Hf) as Hs. unfold new_runtime.
  destruct (build_sinks s) as [sinks|e]; cbn [mbind result_bind]; [|exact Hs].
  destruct Hs as (Hw & He & Hhd). unfold build_runtime. pose proof (fields_build s Hf) as (Had & Hpl & Hbs).
  unfold build_alert_manager, new_manager.
  destruct (new_window (alert_dedup_window_seconds s) _) as [w|]; [|done]. cbn [mbind result_bind].
  destruct (new_pipeline _ _ _ _) as [p|] eqn:Hp; [|done]. cbn [mbind result_bind].
  apply new_pipeline_fresh in Hp as (Hpc & _ & _).
  pose proof (collector_names etc_hostname gethostname s) as Hnames.
  destruct (register_all_ok (map collector_name (build_collectors etc_hostname gethostname s)) p)
    as (p' & Hreg & Hcol); [rewrite Hpc; apply collector_names_NoDup|].
  rewrite Hreg. rewrite Hpc in Hcol. cbn. split_and!; try done.
  - destruct sinks as [|c sinks]; [done|]. injection Hhd as ->. by left.
  - apply started. rewrite Hcol, Hnames. simpl. intros Hnil.
    destruct (enabled_collectors s) as [|n names]; [done|]. apply Forall_cons in Hk as [Hn _].
    assert (n ∈ ([] : list string)) as Hin; [|by apply elem_of_nil in Hin].
    rewrite <-Hnil. apply list_elem_of_filter. split; [by left|done].
Qed.

(** C24: retention deletes what expired and nothing else: whatever interrupts
    it, no row inside the retention period is touched; and if nothing does, it
    ends within one batch more than the expired rows fill, reports exactly how
    many events and alerts it deleted, and leaves none that expired. *)
Theorem prune_deletes_exactly_expired {TE TA} `{SqlTable EventValues TE, SqlTable AlertValues TA}
    fuel x retention now (st : Store TE TA) :
  let cutoff := now - retention in
  (∀ complete counts st', prune fuel x (Some retention) now st = Some (complete, counts, st') →
    kept_rows cutoff st' = kept_rows cutoff st) ∧
  ((∀ j, stopping x j = false ∧ failing x j = None) →
   (expired_count cutoff st).1 + (expired_count cutoff st).2 < PRUNE_BATCH * Z.of_nat fuel →
   ∃ st', prune fuel x (Some retention) now st = Some (true, expired_count cutoff st, st') ∧
     (rows (event_rows st'), rows (alert_rows st')) = kept_rows cutoff st).
Proof.
  cbv zeta. unfold prune. split; [intros complete counts st'; apply prune_keeps|].
  intros Hx Hf. destruct (prune_finishes fuel x 0 (now - retention) (0, 0) st Hx Hf) as (st' & Hp & Hz).
  exists st'. rewrite Hp. cbn [fst snd]. rewrite !Z.add_0_l. rewrite <-(surjective_pairing (expired_count _ st)).
  split; [done|]. rewrite <-(prune_keeps _ _ _ _ _ _ _ _ _ Hp). unfold kept_rows, expired_count in *.
  injection Hz as He Ha. by rewrite (none_expired _ _ He), (none_expired _ _ Ha).
Qed.

(** ** Witnesses *)

Lemma validated_settings_build_the_system_witness :
  match new_runtime (Raise OSError) "box" (default_settings PRODUCTION) [] with
  | Ok rt => map collector_name (rt_collectors rt)
             = filter (λ n, n ∈ enabled_collectors (default_settings PRODUCTION)) KNOWN_COLLECTORS
  | Raise _ => False
  end.
Proof.
  pose proof (validated_settings_build_the_system (λ _, Some "sqlite+aiosqlite"%string)
    ["SENTINEL_ENV"; "PATH"]%string (Raise OSError) "box" (default_settings PRODUCTION)
    (default_settings PRODUCTION) [] (default_settings_valid PRODUCTION)) as H.
  assert (Hok : is_ok (new_runtime (Raise OSError) "box" (default_settings PRODUCTION) []) = true)
    by (vm_compute; reflexivity).
  destruct (new_runtime _ _ _ _) as [rt|e]; [|discriminate Hok].
  destruct H as (_ & _ & _ & _ & H & _). exact H.
Defined.

Definition example_old_store : Store (list_table EventValues) (list_table AlertValues) :=
  (save_batch 5 [] (inr <$> [mkPending (nth_write_id "p" 0) example_alert;
                             mkPending (nth_write_id "p" 1) example_alert]) example_store).2.

Lemma prune_deletes_exactly_expired_witness :
  ∃ st', prune 1 (mkInterruptions (λ _, false) (λ _, None)) (Some 10) 20 example_old_store
         = Some (true, expired_count (20 - 10) example_old_store, st') ∧
    (rows (event_rows st'), rows (alert_rows st')) = kept_rows (20 - 10) example_old_store.
Proof.
  apply (prune_deletes_exactly_expired 1 (mkInterruptions (λ _, false) (λ _, None)) 10 20 example_old_store);
    [by intros j|vm_compute; reflexivity].
Defined.
