(* ===== verification/System.v ===== *)
(** * From an event to its evidence

    The parts together, as [Runtime._consume] composes them: events are
    evaluated by the engine, its detections pass the alert manager, and the
    alerts that come of them are buffered with the event.  The theorem follows
    one event through all of them. *)

From S2P Require Import Prelude ODict PyText Events Dedup Queue Pipeline Rules Evaluator Engine Alerting.
From S2P Require Import Base Storage Persist Sinks Settings Metrics Runtime.
Local Open Scope Z_scope.


(** An event's turn: the clock readings of its calls to the manager, and it *)
Abbreviation turn := ((nat → Z * Z) * Event)%type.

Section run.
Context `{E : RegexEngine} (iso : Z → string) (prefix : string) (s : Settings).

(** The consumer's calls, one after the other *)
Fixpoint consume_all (turns : list turn) (rt : Runtime) : result Runtime :=
  match turns with
  | [] => Ok rt
  | (tick, e) :: turns' => rt ← consume_event iso prefix s tick e rt; consume_all turns' rt
  end.

Definition calls_of (turns : list turn) (dss : list (list Detection)) : list call :=
  concat (zip_with (λ t ds, alert_calls t.1 ds) turns dss).

(** ** Lemmas *)

Lemma process_all_app (calls calls' : list call) (m : AlertManager DedupWindow) :
  process_all (calls ++ calls') m
  = ('(l, m) ← process_all calls m; '(l', m) ← process_all calls' m; Ok (l ++ l', m)).
Proof.
  revert m. induction calls as [|c calls IH]; intros m; simpl.
  { by destruct (process_all calls' m) as [[]|]. }
  destruct (process _ _ _ m) as [[a m1]|]; [|done]. cbn. rewrite IH.
  destruct (process_all calls m1) as [[l m2]|]; [|done]. cbn. by destruct (process_all calls' m2) as [[]|].
Qed.

(** A run of the consumer is a run of its parts. *)
Lemma consume_all_parts turns rt dss g answers m :
  evaluate_all iso turns.*2 (rt_engine rt) = Ok (dss, g) →
  process_all (calls_of turns dss) (rt_alerts rt) = Ok (answers, m) →
  ∃ rt', consume_all turns rt = Ok rt' ∧ rt_engine rt' = g ∧ rt_alerts rt' = m ∧
    rt_events_ingested rt' = rt_events_ingested rt + len turns.
Proof.
  revert rt dss answers. induction turns as [|[tick e] turns IH]; intros rt dss answers Heval Hproc.
  { injection Heval as <- <-. injection Hproc as <- <-. exists rt. split_and!; try done. unfold len. simpl. lia. }
  cbn [fmap list_fmap snd evaluate_all] in Heval. apply result_bind_ok in Heval as ([ds g1] & He & Heval).
  apply result_bind_ok in Heval as ([dss1 g2] & Heval & [= <- <-]).
  unfold calls_of in Hproc. cbn [zip_with concat fst] in Hproc. rewrite process_all_app in Hproc.
  apply result_bind_ok in Hproc as ([l1 m1] & Hp1 & Hproc). apply result_bind_ok in Hproc as ([l2 m2] & Hp2 & [= <- <-]).
  cbn [consume_all]. unfold consume_event. rewrite He. cbn. rewrite Hp1. cbn.
  match goal with |- context [consume_all turns ?rt1] =>
    destruct (IH rt1 dss1 l2 Heval Hp2) as (rt' & Hrun & Hg & Hm & Hn) end.
  exists rt'. split_and!; [done..|]. rewrite Hn, len_cons. unfold rt_events_ingested. cbn [rt_metrics count_event events_ingested].
  rewrite count_detections_ingested. lia.
Qed.

(** *** Clocks *)

(** The readings go forward within a turn and from turn to turn. *)
Definition forward (tick : nat → Z * Z) : Prop :=
  ∀ i j, (i ≤ j)%nat → (tick i).1 ≤ (tick j).1 ∧ (tick i).2 ≤ (tick j).2.
Definition before_tick (t t' : nat → Z * Z) : Prop := ∀ i j, (t i).1 ≤ (t' j).1 ∧ (t i).2 ≤ (t' j).2.
Definition clocks (ticks : list (nat → Z * Z)) : Prop := Forall forward ticks ∧ StronglySorted before_tick ticks.

Lemma alert_calls_elem tick ds c :
  c ∈ alert_calls tick ds → ∃ i d, ds !! i = Some d ∧ c = mkCall (tick i).1 (tick i).2 d.
Proof.
  unfold alert_calls. intros (i & Hi)%list_elem_of_lookup. rewrite list_lookup_imap in Hi.
  apply fmap_Some in Hi as (d & Hd & ->). by exists i, d.
Qed.

Lemma calls_of_elem turns dss c :
  c ∈ calls_of turns dss → ∃ t i d, t ∈ turns ∧ c = mkCall (t.1 i).1 (t.1 i).2 d.
Proof.
  unfold calls_of. revert dss. induction turns as [|t turns IH]; intros [|ds dss]; cbn [zip_with concat];
    try (by intros ?%elem_of_nil). intros [Hc|Hc]%elem_of_app.
  - apply alert_calls_elem in Hc as (i & d & _ & ->). exists t, i, d. split; [by left|done].
  - destruct (IH _ Hc) as (t' & i & d & Ht & ->). exists t', i, d. split; [by right|done].
Qed.

Lemma sorted_app (l l' : list Z) :
  nondecreasing l → nondecreasing l' → (∀ x y, x ∈ l → y ∈ l' → x ≤ y) → nondecreasing (l ++ l').
Proof.
  induction 1 as [|x l Hl IH Hx]; intros Hl' Hxy; [done|]. simpl. constructor.
  - apply IH; [done|]. intros; apply Hxy; [by right|done].
  - apply Forall_app. split; [done|]. apply Forall_forall. intros y Hy. apply Hxy; [by left|done].
Qed.

Lemma alert_calls_sorted (f : call → Z) (g : nat → Z) tick ds :
  (∀ i d, f (mkCall (tick i).1 (tick i).2 d) = g i) → (∀ i j, (i ≤ j)%nat → g i ≤ g j) →
  nondecreasing (f <$> alert_calls tick ds).
Proof.
  unfold alert_calls. revert tick g. induction ds as [|d ds IH]; intros tick g Hf Hg; [constructor|].
  rewrite imap_cons. csimpl. constructor.
  { apply (IH (tick ∘ S) (g ∘ S)); [intros i d'; apply (Hf (S i))|]. intros; apply Hg. lia. }
  apply Forall_forall. intros x Hx. apply list_elem_of_fmap in Hx as (c & -> & Hc).
  apply (alert_calls_elem (tick ∘ S)) in Hc as (i & d' & _ & ->). rewrite Hf.
  unfold compose. rewrite (Hf (S i)). apply Hg. lia.
Qed.

Lemma calls_sorted turns dss :
  clocks turns.*1 →
  nondecreasing (call_seen <$> calls_of turns dss) ∧ nondecreasing (call_now <$> calls_of turns dss).
Proof.
  intros [Hf Hs]. revert dss. induction turns as [|t turns IH]; intros [|ds dss];
    try (split; constructor). csimpl in *. apply Forall_cons in Hf as [Hft Hf].
  inversion Hs as [|?? Hs' Ht]; subst. destruct (IH Hf Hs' dss) as [IH1 IH2].
  unfold calls_of. cbn [zip_with concat]. rewrite !fmap_app.
  split; (apply sorted_app; [|done|]).
  - apply (alert_calls_sorted _ (λ i, (t.1 i).1)); [done|]. intros; by apply Hft.
  - intros x y (c & -> & Hc)%list_elem_of_fmap (c' & -> & Hc')%list_elem_of_fmap.
    apply alert_calls_elem in Hc as (i & d & _ & ->). apply calls_of_elem in Hc' as (t' & j & d' & Hin & ->).
    apply (proj1 (Forall_forall _ _) Ht). by apply list_elem_of_fmap_2.
  - apply (alert_calls_sorted _ (λ i, (t.1 i).2)); [done|]. intros; by apply Hft.
  - intros x y (c & -> & Hc)%list_elem_of_fmap (c' & -> & Hc')%list_elem_of_fmap.
    apply alert_calls_elem in Hc as (i & d & _ & ->). apply calls_of_elem in Hc' as (t' & j & d' & Hin & ->).
    apply (proj1 (Forall_forall _ _) Ht). by apply list_elem_of_fmap_2.
Qed.

(** *** What the detections of an event carry *)

Lemma evaluate_rules_carry max rules e view ws ds ws' n :
  evaluate_rules max rules e view ws = Ok (ds, ws', n) →
  Forall (λ d, det_event_id d = em_id (ev_event e)) ds ∧ (det_rule_id <$> ds) `sublist_of` (rule_id <$> rules).
Proof.
  revert ws ds n. induction rules as [|r rules IH]; intros ws ds n; cbn [evaluate_rules].
  { intros [= <- <- <-]. split; constructor. }
  intros ([[fired complete] ws1] & _ & Hrest)%result_bind_ok.
  apply result_bind_ok in Hrest as ([[ds1 ws2] n1] & Hev & [= <- <- <-]).
  destruct (IH _ _ _ Hev) as [He Hs]. destruct fired; csimpl; [|split; [done|by constructor]].
  split; [by constructor|]. by constructor.
Qed.

Lemma evaluate_carries rules max e g ds g' :
  1 ≤ max → Forall valid_rule rules → engine_ok rules max g → evaluate iso e g = Ok (ds, g') →
  engine_ok rules max g' ∧ Forall (λ d, det_event_id d = em_id (ev_event e)) ds ∧
  (det_rule_id <$> ds) `sublist_of` (rule_id <$> rules).
Proof.
  intros Hmax Hv Hok He. destruct (evaluate_step iso rules max e g Hmax Hv Hok)
    as (ds1 & ws & n & g1 & Hev & He1 & Hok1 & _). rewrite He in He1. injection He1 as <- <-.
  destruct (evaluate_rules_carry _ _ _ _ _ _ _ _ Hev) as [Hid Hs]. split_and!; [done..|].
  etrans; [exact Hs|]. apply fmap_sublist. etrans; apply sublist_filter.
Qed.

(** The calls of a run are about its events. *)
Lemma evaluate_all_carry rules max es g dss g' :
  1 ≤ max → Forall valid_rule rules → engine_ok rules max g → evaluate_all iso es g = Ok (dss, g') →
  Forall2 (λ e ds, Forall (λ d, det_event_id d = em_id (ev_event e)) ds) es dss.
Proof.
  intros Hmax Hv. revert g dss. induction es as [|e es IH]; intros g dss Hok; cbn [evaluate_all].
  { intros [= <- <-]. constructor. }
  intros ([ds g1] & He & Hrest)%result_bind_ok. apply result_bind_ok in Hrest as ([dss1 g2] & Hall & [= <- <-]).
  destruct (evaluate_carries _ _ _ _ _ _ Hmax Hv Hok He) as (Hok1 & Hid & _). constructor; [done|by eapply IH].
Qed.

Lemma calls_event (turns : list turn) dss c :
  Forall2 (λ e ds, Forall (λ d, det_event_id d = em_id (ev_event e)) ds) turns.*2 dss →
  c ∈ calls_of turns dss → ∃ t, t ∈ turns ∧ det_event_id (call_detection c) = em_id (ev_event t.2).
Proof.
  revert dss. induction turns as [|t turns IH]; intros [|ds dss]; csimpl; intros Hall; inversion Hall; subst;
    unfold calls_of; cbn [zip_with concat]; [by intros ?%elem_of_nil|].
  intros [Hc|Hc]%elem_of_app.
  - apply alert_calls_elem in Hc as (i & d & Hd & ->). exists t. split; [by left|].
    match goal with H : Forall _ ds |- _ => apply (Forall_lookup_1 _ _ _ _ H Hd) end.
  - match goal with H : Forall2 _ _ dss |- _ => destruct (IH _ H Hc) as (t' & ? & ?) end.
    exists t'. split; [by right|done].
Qed.
End run.

(** *** Keys *)

Lemma app_inj_tail a b x y : String.length x = String.length y → a +:+ x = b +:+ y → a = b ∧ x = y.
Proof.
  intros Hl. revert b. induction a as [|c a IH]; intros [|c' b] Hab.
  - done.
  - change ("" +:+ x)%string with x in Hab. subst x. rewrite string_length_app in Hl. simpl in Hl. lia.
  - change ("" +:+ y)%string with y in Hab. subst y. rewrite string_length_app in Hl. simpl in Hl. lia.
  - rewrite !string_app_cons in Hab. injection Hab as -> Hab. by destruct (IH _ Hab) as [-> ->].
Qed.

(** An alert's key names its rule and its event. *)
Lemma key_names d d' :
  check_id_format (det_event_id d) = true → check_id_format (det_event_id d') = true →
  al_dedup_key (from_detection d) = al_dedup_key (from_detection d') →
  det_rule_id d = det_rule_id d' ∧ det_event_id d = det_event_id d'.
Proof.
  unfold check_id_format, strlen. intros [Hd%Z.eqb_eq _]%andb_true_iff [Hd'%Z.eqb_eq _]%andb_true_iff.
  cbn [from_detection al_dedup_key]. intros [-> Hk]%app_inj_tail; [|simpl; rewrite !string_length_app; simpl; lia].
  split; [done|]. by injection Hk.
Qed.

(** *** What an answer says *)

Lemma answer_about floor cap ttl b h c a :
  Manager_spec.answer floor cap ttl b h c = Some a →
  al_rule_id a = det_rule_id (call_detection c) ∧ al_event_id a = det_event_id (call_detection c).
Proof.
  unfold Manager_spec.answer. destruct (b _) as [limit period].
  repeat case_match; intros [= <-]; by cbn.
Qed.

Lemma answers_about floor cap ttl b h calls i c a :
  calls !! i = Some c → Manager_spec.answers floor cap ttl b h calls !! i = Some (Some a) →
  al_rule_id a = det_rule_id (call_detection c) ∧ al_event_id a = det_event_id (call_detection c).
Proof.
  revert h i. induction calls as [|c0 calls IH]; intros h [|i]; cbn; [done..| |].
  - intros [= ->] [= Ha]. by eapply answer_about.
  - apply IH.
Qed.

(** A call that meets the floor and whose key no earlier call had is answered
    with an alert. *)
Lemma new_key_answered floor cap ttl b calls i c :
  calls !! i = Some c → floor ≤ det_severity (call_detection c) →
  (∀ c', c' ∈ take i calls → al_dedup_key (from_detection (call_detection c'))
                               ≠ al_dedup_key (from_detection (call_detection c))) →
  ∃ a, Manager_spec.answers floor cap ttl b [] calls !! i = Some (Some a) ∧
    al_rule_id a = det_rule_id (call_detection c) ∧ al_event_id a = det_event_id (call_detection c).
Proof.
  intros Hc Hsev Hnew. pose proof (lookup_lt_Some _ _ _ Hc) as Hlt.
  assert (is_Some (Manager_spec.answers floor cap ttl b [] calls !! i)) as [[a|] Ha].
  { apply lookup_lt_is_Some. by rewrite answers_length. }
  { exists a. split; [done|]. by eapply answers_about. }
  exfalso. rewrite <-(length_take_le calls i) in Ha by lia.
  destruct (answers_none floor cap ttl b [] calls (take i calls) c (drop (S i) calls)) as [Hs|(c' & a' & Hin & Hk)];
    [by intros k t ?%elem_of_nil|by rewrite take_drop_middle|done|simpl in Hs; lia|].
  apply (Hnew c'); [|done]. apply elem_of_zip_l in Hin. done.
Qed.

(** *** What the composition root builds *)

Lemma max_buffered s : valid_fields s = true → 0 ≤ persist_max_buffered s ∧ 1 ≤ persist_max_buffered s.
Proof.
  unfold valid_fields, between. intros Hv.
  repeat match goal with H : _ && _ = true |- _ => apply andb_true_iff in H as [H ?] end. reflect_bools. lia.
Qed.

Lemma built_runtime etc_hostname gethostname s rules rt :
  new_runtime etc_hostname gethostname s rules = Ok rt → ∃ collectors sinks, build_runtime s rules collectors sinks = Ok rt.
Proof. unfold new_runtime. intros (sinks & _ & H)%result_bind_ok. eauto. Qed.

Lemma runtime_parts s rules collectors sinks rt :
  build_runtime s rules collectors sinks = Ok rt →
  rt_engine rt = new_engine rules MAX_THRESHOLD_GROUPS ∧ rt_events_ingested rt = 0 ∧ rt_buffer rt = new_buffer ∧
  ∃ sinks, build_alert_manager s rules sinks = Ok (rt_alerts rt).
Proof.
  unfold build_runtime. intros (m & Hm & H)%result_bind_ok.
  apply result_bind_ok in H as (p & _ & H). apply result_bind_ok in H as (p' & _ & [= <-]). cbn. eauto.
Qed.

Lemma validated_rule r : validate_rule r = Ok r → valid_rule r ∧ optionally valid_throttle (rule_throttle r) = true.
Proof.
  unfold validate_rule, valid_rule_fields. destruct (_ && _) eqn:Hv; [|done]. intros _.
  repeat match goal with H : _ && _ = true |- _ => apply andb_true_iff in H as [H ?] end. done.
Qed.

Lemma rule_throttles_valid rules rid t :
  Forall (λ r, validate_rule r = Ok r) rules → od_get (rule_throttles rules) rid = Some t → 0 ≤ thr_window_seconds t.
Proof.
  intros Hv. unfold rule_throttles.
  assert (Hd : ∀ t, od_get ([] : odict string Throttle) rid = Some t → 0 ≤ thr_window_seconds t) by done.
  revert Hd t. generalize ([] : odict string Throttle) as d. induction Hv as [|r rules Hr _ IH]; intros d Hd t; simpl.
  { apply Hd. }
  apply IH. intros t'. destruct (rule_throttle r) as [t0|] eqn:Ht; [|apply Hd].
  rewrite od_get_set. case_decide; [|apply Hd]. intros [= <-]. apply validated_rule in Hr as [_ Hr].
  rewrite Ht in Hr. cbn in Hr. unfold valid_throttle, between in Hr.
  repeat match goal with H : _ && _ = true |- _ => apply andb_true_iff in H as [H ?] end. reflect_bools. lia.
Qed.

Lemma throttle_window_positive s : valid_fields s = true → 0 ≤ alert_throttle_window_seconds s.
Proof.
  unfold valid_fields, positive_upto. intros Hv.
  repeat match goal with H : _ && _ = true |- _ => apply andb_true_iff in H as [H ?] end. reflect_bools. lia.
Qed.

Lemma calls_of_snoc (turns : list turn) dss t ds :
  length dss = length turns → calls_of (turns ++ [t]) (dss ++ [ds]) = calls_of turns dss ++ alert_calls t.1 ds.
Proof.
  intros Hl. unfold calls_of. rewrite zip_with_app by done. rewrite concat_app. simpl. by rewrite app_nil_r.
Qed.

(** The calls of the event's own turn before the rule's are other rules'. *)
Lemma own_turn_new tick ds i d c' :
  NoDup (det_rule_id <$> ds) → ds !! i = Some d → c' ∈ take i (alert_calls tick ds) →
  det_rule_id (call_detection c') ≠ det_rule_id d.
Proof.
  intros Hnd Hd (j & Hj)%list_elem_of_lookup Heq. apply lookup_take_Some in Hj as [Hj Hlt].
  unfold alert_calls in Hj. rewrite list_lookup_imap in Hj. apply fmap_Some in Hj as (d' & Hd' & ->). cbn in Heq.
  assert (j = i); [|lia]. eapply (NoDup_lookup _ _ _ (det_rule_id d) Hnd); rewrite list_lookup_fmap.
  - rewrite Hd'. cbn. by rewrite Heq.
  - by rewrite Hd.
Qed.

Lemma process_all_length calls (m m' : AlertManager DedupWindow) l :
  process_all calls m = Ok (l, m') → length l = length calls.
Proof.
  revert m l. induction calls as [|c calls IH]; intros m l; cbn [process_all]; [by intros [= <- _]|].
  intros ([a m1] & _ & H)%result_bind_ok. apply result_bind_ok in H as ([l1 m2] & H & [= <- <-]).
  simpl. f_equal. by eapply IH.
Qed.

Lemma omap_le {A} (l : list (option A)) : (length (omap id l) ≤ length l)%nat.
Proof. induction l as [|[a|] l IH]; cbn; [done|by apply le_n_S|by apply Nat.le_le_succ_r]. Qed.

Lemma max_groups_positive : 1 ≤ MAX_THRESHOLD_GROUPS.
Proof. done. Qed.

Lemma fresh_engine rules : engine_ok rules MAX_THRESHOLD_GROUPS (new_engine rules MAX_THRESHOLD_GROUPS).
Proof. by apply new_engine_ok. Qed.

(** ** The property *)

Section end_to_end.
Context `{E : RegexEngine} (iso : Z → string) (prefix : string).
Context {TE TA : Type} `{SqlTable EventValues TE, SqlTable AlertValues TA}.

(** What the consumer buffers, it buffers as [Persist] says. *)
Lemma consumed_buffer s tick e rt rt' :
  consume_event iso prefix s tick e rt = Ok rt' →
  ∃ alerts, rt_buffer rt' = Persist.consume prefix (persist_batch_size s) (persist_max_buffered s) alerts e (rt_buffer rt).
Proof.
  unfold consume_event. intros ([ds g] & _ & Hrun)%result_bind_ok.
  apply result_bind_ok in Hrun as ([answers m] & _ & [= <-]). by eexists.
Qed.

Lemma consumed_inv s turns rt rt' (st : Store TE TA) accE accA :
  valid_fields s = true → consume_all iso prefix s turns rt = Ok rt' →
  world_inv prefix (persist_max_buffered s) accE accA (mkWorld (rt_buffer rt) Idle st []) →
  ∃ accE' accA', world_inv prefix (persist_max_buffered s) accE' accA' (mkWorld (rt_buffer rt') Idle st []).
Proof.
  intros Hf. revert rt accE accA. induction turns as [|[tick e] turns IH]; intros rt accE accA Hrun Hw.
  { injection Hrun as <-. by exists accE, accA. }
  cbn [consume_all] in Hrun. apply result_bind_ok in Hrun as (rt1 & He & Hrun).
  destruct (consumed_buffer _ _ _ _ _ He) as (alerts & Hb). eapply IH; [exact Hrun|]. rewrite Hb.
  exact (step_inv prefix (persist_batch_size s) _ (proj1 (max_buffered s Hf)) _ _ (Consume alerts e) _ Hw).
Qed.

(** The consumer after any earlier turns, at a detection of a new event. *)
Lemma new_detection_alerts s rules sinks m turns dss tick e ds d g :
  build_alert_manager s rules sinks = Ok m → valid_fields s = true →
  Forall (λ r, validate_rule r = Ok r) rules → NoDup (det_rule_id <$> ds) →
  clocks (turns ++ [(tick, e)]).*1 →
  Forall (λ t : turn, check_id_format (em_id (ev_event t.2)) = true) (turns ++ [(tick, e)]) →
  Forall (λ t : turn, em_id (ev_event t.2) ≠ em_id (ev_event e)) turns →
  evaluate_all iso turns.*2 (new_engine rules MAX_THRESHOLD_GROUPS) = Ok (dss, g) → length dss = length turns →
  Forall (λ d, det_event_id d = em_id (ev_event e)) ds → d ∈ ds → alert_min_severity s ≤ det_severity d →
  ∃ l1 l2 m1 m2 a, process_all (calls_of turns dss) m = Ok (l1, m1) ∧
    process_all (alert_calls tick ds) m1 = Ok (l2, m2) ∧ a ∈ omap id l2 ∧
    al_rule_id a = det_rule_id d ∧ al_event_id a = em_id (ev_event e).
Proof.
  intros Hm Hf Hrules Hnd Hclocks Hids Hfresh Heval Hlen Hds (i & Hd)%list_elem_of_lookup Hsev.
  assert (Hv : Forall valid_rule rules).
  { eapply Forall_impl; [exact Hrules|]. intros r Hr. apply (validated_rule r Hr). }
  pose proof (evaluate_all_carry iso rules MAX_THRESHOLD_GROUPS turns.*2 _ dss g max_groups_positive Hv
    (fresh_engine rules) Heval) as Hcarry.
  pose proof (calls_sorted (turns ++ [(tick, e)]) (dss ++ [ds]) Hclocks) as [Hs Hn].
  rewrite calls_of_snoc in Hs, Hn by done. cbn [fst] in Hs, Hn.
  destruct (process_all_new _ _ _ _ _ _ _ _ _ (calls_of turns dss ++ alert_calls tick ds) Hm
    (conj (throttle_window_positive s Hf) (λ rid t, rule_throttles_valid rules rid t Hrules)) Hs Hn)
    as (m2 & _ & _ & Hp & _).
  apply Forall_app in Hids as [Hids [He _]%Forall_cons].
  assert (Hcall : (calls_of turns dss ++ alert_calls tick ds) !! (length (calls_of turns dss) + i)%nat
                  = Some (mkCall (tick i).1 (tick i).2 d)).
  { rewrite lookup_app_r, Nat.add_comm, Nat.add_sub by lia. unfold alert_calls. by rewrite list_lookup_imap, Hd. }
  eapply new_key_answered in Hcall as (a & Ha & Hrid & Heid); [| exact Hsev|].
  - rewrite process_all_app in Hp. apply result_bind_ok in Hp as ([l1 m1] & Hp1 & Hp).
    apply result_bind_ok in Hp as ([l2 m2'] & Hp2 & [= Hans ->]). exists l1, l2, m1, m2, a.
    split_and!; [done|done| |done|].
    + rewrite <-Hans in Ha.
      assert (length l1 = length (calls_of turns dss)) as Hl1 by (eapply process_all_length; exact Hp1).
      rewrite <-Hl1, lookup_app_r, Nat.add_comm, Nat.add_sub in Ha by lia.
      apply list_elem_of_omap. exists (Some a). split; [|done]. by eapply list_elem_of_lookup_2.
    + rewrite Heid. cbn. exact (Forall_lookup_1 _ _ _ _ Hds Hd).
  - intros c' Hin Hk. cbn [call_detection] in Hk.
    rewrite take_app_add in Hin. pose proof (Forall_lookup_1 _ _ _ _ Hds Hd) as Hde. cbn in Hde.
    apply elem_of_app in Hin as [Hin|Hin].
    + destruct (calls_event turns dss c' Hcarry Hin) as (t & Ht & Hid).
      pose proof (proj1 (Forall_forall _ _) Hids _ Ht) as Hidt. pose proof (proj1 (Forall_forall _ _) Hfresh _ Ht) as Hft.
      cbn in Hidt, Hft, He. apply key_names in Hk as [_ Hk]; [congruence|by rewrite Hid|by rewrite Hde].
    + pose proof (own_turn_new tick ds i d c' Hnd Hd Hin) as Hne.
      assert (det_event_id (call_detection c') = em_id (ev_event e)) as Hid.
      { apply (λ H, elem_of_sublist _ _ _ H (sublist_take _ _)) in Hin. apply alert_calls_elem in Hin as (j & d' & Hd' & ->).
        exact (Forall_lookup_1 _ _ _ _ Hds Hd'). }
      apply key_names in Hk as [Hk _]; [by apply Hne|by rewrite Hid|by rewrite Hde].
Qed.

(** C1: an event a rule matches becomes an alert that is stored: in a system
    built from validated settings and rules, no more of them than the buffer
    takes, whatever events came before, when a new event satisfies an enabled
    rule without a threshold, at or above the alert floor, the consumer raises
    nothing and buffers the event and an alert that names that rule and that
    event, throttled or not; and a flush the database answers next stores both,
    each by one row, as they are. *)
Theorem matching_event_becomes_alert full drivername environ etc_hostname gethostname s rules turns tick e r rt0 :
  validate_settings drivername environ s = Ok s →
  new_runtime etc_hostname gethostname s rules = Ok rt0 → len rules ≤ persist_max_buffered s →
  Forall (λ r, validate_rule r = Ok r) rules → NoDup (rule_id <$> rules) → clocks (turns ++ [(tick, e)]).*1 →
  Forall (λ t : turn, check_id_format (em_id (ev_event t.2)) = true) (turns ++ [(tick, e)]) →
  Forall (λ t : turn, em_id (ev_event t.2) ≠ em_id (ev_event e)) turns →
  resolves full → r ∈ rules → rule_enabled r = true → threshold (rule_condition r) = None →
  alert_min_severity s ≤ rule_severity r →
  evaluate_condition (H := total_engine full) (rule_condition r) (model_dump iso e) = Ok true →
  ∃ rt rt' alert event, consume_all iso prefix s turns rt0 = Ok rt ∧ consume_event iso prefix s tick e rt = Ok rt' ∧
    rt_events_ingested rt' = len turns + 1 ∧
    alert ∈ pending_alerts (rt_buffer rt') ∧ event ∈ pending_events (rt_buffer rt') ∧
    al_rule_id (record alert) = rule_id r ∧ al_event_id (record alert) = em_id (ev_event e) ∧ record event = e ∧
    ∀ (st : Store TE TA) now, fresh_world prefix st →
      let flushed := Persist.run prefix (persist_batch_size s) (persist_max_buffered s)
                       [FlushStart; SaveReturns now Done] (mkWorld (rt_buffer rt') Idle st []) in
      held alert_values (alert_rows (w_store flushed)) alert ∧ held event_values (event_rows (w_store flushed)) event.
Proof.
  intros (_ & Hf & _)%enabled_known (collectors & configs & (Heng & Hn0 & Hb0 & sinks & Hm)%runtime_parts)%built_runtime
    Hfit Hrules Hnd Hclocks Hids Hfresh Hres Hr Hen Hth Hsev Hcond.
  assert (Hv : Forall valid_rule rules).
  { eapply Forall_impl; [exact Hrules|]. intros r' Hr'. apply (validated_rule r' Hr'). }
  destruct (evaluate_all_ok iso rules MAX_THRESHOLD_GROUPS turns.*2 _ max_groups_positive Hv (fresh_engine rules))
    as (dss & g & Heval & Hok & Hlen & _). rewrite length_fmap in Hlen.
  destruct (true_match_detected iso full rules _ r e g Hres max_groups_positive Hv Hok Hr Hen Hth Hcond)
    as (ds & g' & He & complete & Hin).
  destruct (evaluate_carries iso rules _ e g ds g' max_groups_positive Hv Hok He) as (_ & Hds & Hsub).
  destruct (new_detection_alerts s rules sinks (rt_alerts rt0) turns dss tick e ds (build r e complete) g)
    as (l1 & l2 & m1 & m2 & a & Hp1 & Hp2 & Ha & Hrid & Heid); try done; [by eapply sublist_NoDup|].
  rewrite <-Heng in Heval.
  destruct (consume_all_parts iso prefix s turns rt0 dss g l1 m1 Heval Hp1) as (rt & Hrun & Hg & Hm1 & Hn).
  assert (Hfew : len (omap id l2) ≤ persist_max_buffered s).
  { apply process_all_length in Hp2. apply sublist_length in Hsub. rewrite !length_fmap in Hsub.
    pose proof (omap_le l2). unfold alert_calls in Hp2. rewrite length_imap in Hp2. unfold len in *. lia. }
  destruct (consume_keeps_new prefix (persist_batch_size s) (persist_max_buffered s) (omap id l2) e (rt_buffer rt)
    Hfew (proj2 (max_buffered s Hf))) as [Hkeep (we & Hwe)]. destruct (Hkeep a Ha) as (wa & Hwa).
  assert (Hstep : ∃ rt', consume_event iso prefix s tick e rt = Ok rt' ∧
    rt_buffer rt' = Persist.consume prefix (persist_batch_size s) (persist_max_buffered s) (omap id l2) e (rt_buffer rt) ∧
    rt_events_ingested rt' = len turns + 1).
  { eexists. unfold consume_event. rewrite Hg, He. cbn [mbind result_bind]. rewrite Hm1, Hp2. cbn [mbind result_bind].
    split; [done|]. split; [done|]. unfold rt_events_ingested in *. cbn [rt_metrics count_event events_ingested].
    rewrite count_detections_ingested. lia. }
  destruct Hstep as (rt' & Hc & Hb & Hing).
  exists rt, rt', (mkPending wa a), (mkPending we e). rewrite Hb. do 8 (split; [done|]).
  intros st now Hst. rewrite <-Hb in *.
  destruct (consumed_inv s (turns ++ [(tick, e)]) rt0 rt' st [] []) as (accE & accA & Hw); [done| | |].
  - clear -Hrun Hc. revert rt0 Hrun. induction turns as [|[tick1 e1] turns IH]; intros rt0 Hrun.
    + injection Hrun as ->. cbn [app consume_all]. by rewrite Hc.
    + cbn [app consume_all] in *. apply result_bind_ok in Hrun as (rt1 & -> & Hrun). cbn. by apply IH.
  - rewrite Hb0. eapply start_inv; [exact (proj1 (max_buffered s Hf))|exact Hst].
  - destruct (flush_stores prefix (persist_batch_size s) _ (proj1 (max_buffered s Hf)) _ _ _ now Hw eq_refl) as [HE HA].
    cbn [w_buffer] in HE, HA. split; [by apply HA|by apply HE].
Qed.
End end_to_end.

(** ** Witness *)

Definition stamped_event (action : string) (i : Z) : Event :=
  mkEvent (mkDatetime i (Some 0)) (mkEventMeta (compute_id [PartInt i]) EVENT AUTHENTICATION action FAILURE 3)
    (mkHost "h") (mkPeer (Some "10.1.1.1") None None) no_peer no_process None "m".

Definition example_rules : list Rule := [brute_force; any_failure].
Definition example_tick (n : Z) : nat → Z * Z := λ _, (n, n).
Definition example_turns : list turn := [(example_tick 1, stamped_event "su_failed" 1)].

Lemma matching_event_becomes_alert_witness :
  ∃ rt0 rt rt' alert,
    new_runtime (Raise OSError) "box" (default_settings PRODUCTION) example_rules = Ok rt0 ∧
    consume_all (E := literal_engine) str_of_int "p" (default_settings PRODUCTION) example_turns rt0 = Ok rt ∧
    consume_event (H := literal_engine) str_of_int "p" (default_settings PRODUCTION) (example_tick 2)
      (stamped_event "su_failed" 2) rt = Ok rt' ∧
    alert ∈ pending_alerts (rt_buffer rt') ∧ al_rule_id (record alert) = "any-failure"%string ∧
    held alert_values (alert_rows (w_store (Persist.run "p" (persist_batch_size (default_settings PRODUCTION))
      (persist_max_buffered (default_settings PRODUCTION)) [FlushStart; SaveReturns 7 Done]
      (mkWorld (rt_buffer rt') Idle example_store [])))) alert.
Proof.
  destruct (new_runtime (Raise OSError) "box" (default_settings PRODUCTION) example_rules) as [rt0|x] eqn:Hrt;
    [|discriminate (f_equal (@is_ok _) Hrt)].
  exists rt0.
  destruct (matching_event_becomes_alert (E := literal_engine) str_of_int "p" str_contains
    (λ _, Some "sqlite+aiosqlite"%string) ["SENTINEL_ENV"; "PATH"]%string (Raise OSError) "box"
    (default_settings PRODUCTION) example_rules example_turns (example_tick 2) (stamped_event "su_failed" 2)
    any_failure rt0 (default_settings_valid PRODUCTION) Hrt)
    as (rt & rt' & alert & event & Hr & Hc & _ & Ha & _ & Hid & _ & _ & Hflush).
  - vm_compute. discriminate.
  - repeat constructor.
  - apply (bool_decide_unpack _). vm_compute. exact I.
  - split; repeat constructor; discriminate.
  - repeat constructor; apply compute_id_format.
  - repeat constructor. intros Heq. vm_compute in Heq. discriminate Heq.
  - intros p w b Hb. injection Hb as Hb. exact Hb.
  - apply list_elem_of_further, list_elem_of_here.
  - reflexivity.
  - reflexivity.
  - discriminate.
  - vm_compute. reflexivity.
  - exists rt, rt', alert. split; [reflexivity|]. split; [exact Hr|]. split; [exact Hc|]. split; [exact Ha|].
    split; [exact Hid|]. exact (proj1 (Hflush example_store 7 example_store_fresh)).
Defined.
