(* ===== verification/Service.v ===== *)
(** * The running service ([Runtime] from [start] to the end of [stop])

    Everything that runs at once, as one labelled system: collectors queueing
    events, the consumer taking and analysing them, the flusher and its saves,
    the alert lanes.  Its state is the [Runtime] with the parts of the others
    it does not hold: the consumer's control point and history ([Pipeline]),
    the flush under way, the database and the writes given up on ([Persist]). *)

From S2P Require Import Prelude ODict PyText Events Dedup Queue Pipeline Rules Evaluator Engine Alerting.
From S2P Require Import Base Storage Persist Sinks Settings Metrics Runtime System.
Local Open Scope Z_scope.

Section service.
Context `{E : RegexEngine} {TE TA : Type} `{SqlTable EventValues TE, SqlTable AlertValues TA}.
Context (iso : Z → string) (prefix : string) (s : Settings).

Record Service := mkService {
  sv_runtime : Runtime;
  sv_handling : option Event;
  sv_accepted : list Event;
  sv_handled : list (Event * fate);
  sv_dispatched : list Event;
  sv_lookups : list (Z * string);
  sv_flushing : flushing;
  sv_store : Store TE TA;
  sv_limbo : list (list (Pending Event) * list (Pending Alert));
}.

Definition start_service (rt : Runtime) (st : Store TE TA) : Service := mkService rt None [] [] [] [] Idle st [].

(** ** The parts of the state the other files are about *)

Definition with_pipeline (p : Pipeline Event DedupWindow) (rt : Runtime) : Runtime :=
  mkRuntime (rt_engine rt) (rt_alerts rt) p (rt_collectors rt) (rt_sinks rt) (rt_buffer rt)
    (rt_retention rt) (rt_metrics rt).

Definition with_buffer (b : Buffer) (rt : Runtime) : Runtime :=
  mkRuntime (rt_engine rt) (rt_alerts rt) (rt_pipeline rt) (rt_collectors rt) (rt_sinks rt) b
    (rt_retention rt) (rt_metrics rt).

Definition with_lanes (lanes : list SinkLane) (rt : Runtime) : Runtime :=
  let m := rt_alerts rt in
  mkRuntime (rt_engine rt)
    (mkManager lanes (am_min_severity m) (am_dedup m) (am_throttle_max m) (am_throttle_window m)
       (am_rule_throttles m) (am_rule_hits m) (am_withheld m) (am_emitted m)
       (am_suppressed_severity m) (am_deduped m) (am_throttled m))
    (rt_pipeline rt) (rt_collectors rt) (rt_sinks rt) (rt_buffer rt) (rt_retention rt) (rt_metrics rt).

Definition with_runtime (rt : Runtime) (x : Service) : Service :=
  mkService rt (sv_handling x) (sv_accepted x) (sv_handled x) (sv_dispatched x) (sv_lookups x)
    (sv_flushing x) (sv_store x) (sv_limbo x).

Definition pipeline_of (x : Service) : Pipeline.system Event DedupWindow :=
  mkSystem (rt_pipeline (sv_runtime x)) (sv_handling x) (sv_accepted x) (sv_handled x) (sv_dispatched x)
    (sv_lookups x).

Definition set_pipeline (p : Pipeline.system Event DedupWindow) (x : Service) : Service :=
  mkService (with_pipeline (sys_pl p) (sv_runtime x)) (sys_handling p) (sys_accepted p) (sys_handled p)
    (sys_dispatched p) (sys_lookups p) (sv_flushing x) (sv_store x) (sv_limbo x).

Definition database_of (x : Service) : Persist.world :=
  mkWorld (rt_buffer (sv_runtime x)) (sv_flushing x) (sv_store x) (sv_limbo x).

Definition set_database (w : Persist.world) (x : Service) : Service :=
  mkService (with_buffer (w_buffer w) (sv_runtime x)) (sv_handling x) (sv_accepted x) (sv_handled x)
    (sv_dispatched x) (sv_lookups x) (w_flushing w) (w_store w) (w_limbo w).

(** ** Steps *)

(** What goes on beside consumer and flusher: a write given up on commits after
    all, a lane's worker takes an alert, its delivery ends. *)
Inductive aside :=
  | Landed (now : Z) (i : nat)
  | LaneTakes (i : nat)
  | LaneEnds (i : nat) (ok : bool).

(** The flusher: a flush starts, its save returns. *)
Inductive background :=
  | Flush
  | Saved (now : Z) (o : outcome)
  | Aside (a : aside).

Inductive label :=
  | Queued (e : Event)
  | Taken (now : Z)
  | Analysed (tick : nat → Z * Z)
  | Background (b : background).

Definition write (l : Persist.label) (x : Service) : Service :=
  set_database (Persist.step prefix (persist_batch_size s) (persist_max_buffered s) l (database_of x)) x.

Definition lane (i : nat) (op : lane_op) (x : Service) : result Service :=
  let rt := sv_runtime x in
  match am_lanes (rt_alerts rt) !! i with
  | None => Ok x
  | Some l => l ← lane_step l op; Ok (with_runtime (with_lanes (<[i := l]> (am_lanes (rt_alerts rt))) rt) x)
  end.

Definition aside_step (a : aside) (x : Service) : result Service :=
  match a with
  | Landed now i => Ok (write (Land now i) x)
  | LaneTakes i => lane i DeliverTake x
  | LaneEnds i ok => lane i (DeliverFinish ok) x
  end.

Definition background_step (b : background) (x : Service) : result Service :=
  match b with
  | Flush => Ok (write FlushStart x)
  | Saved now o => Ok (write (SaveReturns now o) x)
  | Aside a => aside_step a x
  end.

(** The callback runs between two awaits of the consumer; an exception of its
    would end the run here (there is none, as shown below). *)
Definition service_step (x : Service) (l : label) : result Service :=
  match l with
  | Queued e => p ← pl_step dedup_key (pipeline_of x) (Put e); Ok (set_pipeline p x)
  | Taken now => p ← pl_step dedup_key (pipeline_of x) (Take now); Ok (set_pipeline p x)
  | Analysed tick =>
      match sv_handling x with
      | None => Ok x
      | Some e =>
          rt ← consume_event iso prefix s tick e (sv_runtime x);
          let x := with_runtime rt x in
          p ← pl_step dedup_key (pipeline_of x) (Return true);
          Ok (set_pipeline p x)
      end
  | Background b => background_step b x
  end.

Fixpoint service_run (ls : list label) (x : Service) : result Service :=
  match ls with
  | [] => Ok x
  | l :: ls' => x ← service_step x l; service_run ls' x
  end.

(** ** Shutdown *)

(** A turn of the consumer while the queue is joined, with what happens
    meanwhile, and an answer to a save. *)
Record consumer_turn := mkConsumerTurn {
  before_take : list background; took_at : Z; before_analysis : list background; analysed_at : nat → Z * Z;
}.
Record answer := mkAnswer { before_answer : list aside; answered_at : Z; answered : outcome }.

Definition turn_labels (t : consumer_turn) : list label :=
  (Background <$> before_take t) ++ [Taken (took_at t)]
    ++ (Background <$> before_analysis t) ++ [Analysed (analysed_at t)].

Definition answer_labels (a : answer) : list label :=
  (Background ∘ Aside <$> before_answer a) ++ [Background (Saved (answered_at a) (answered a))].

(** [await self._queue.join()]; a turn finishes at least one event. *)
Fixpoint join (fuel : nat) (turns : nat → consumer_turn) (x : Service) : result Service :=
  match fuel with
  | O => Ok x
  | S fuel =>
      if drained (rt_pipeline (sv_runtime x)) then Ok x
      else x ← service_run (turn_labels (turns 0%nat)) x; join fuel (turns ∘ S) x
  end.

(** The saves of the flush under way *)
Fixpoint finish_flush (fuel : nat) (answers : nat → answer) (x : Service) : result Service :=
  match fuel with
  | O => Ok x
  | S fuel =>
      match sv_flushing x with
      | Idle => Ok x
      | _ => x ← service_run (answer_labels (answers 0%nat)) x; finish_flush fuel (answers ∘ S) x
      end
  end.

Definition await_flush (answers : nat → answer) (x : Service) : result Service :=
  finish_flush (saves_left (sv_flushing x)) answers x.

Definition flush (answers : nat → answer) (x : Service) : result Service :=
  await_flush answers (write FlushStart x).

(** [AlertManager.aclose], the lanes' drain being over *)
Fixpoint close_lanes (lanes : list SinkLane) : result (list SinkLane) :=
  match lanes with
  | [] => Ok []
  | l :: lanes' => '(_, l) ← lane_stop l; lanes' ← close_lanes lanes'; Ok (l :: lanes')
  end.

(** [Runtime.stop], the collectors having stopped.  The flusher, asked to end,
    may be waiting for its next turn and then takes it ([again]). *)
Definition stop (turns : nat → consumer_turn) (again : bool) (answers answers' answers'' : nat → answer)
    (deliveries : list aside) (x : Service) : result Service :=
  let x := with_runtime (with_pipeline (request_stop (rt_pipeline (sv_runtime x))) (sv_runtime x)) x in
  x ← join (Z.to_nat (2 * qsize (pl_queue (rt_pipeline (sv_runtime x))) + 1)) turns x;
  x ← await_flush answers x;
  x ← (if again then flush answers' x else Ok x);
  let b := rt_buffer (sv_runtime x) in
  let attempted := negb (bool_decide (pending_events b = [] ∧ pending_alerts b = [])) in
  x ← flush answers'' x;
  let x := if attempted && persist_failing (rt_buffer (sv_runtime x)) then write Discard x else x in
  x ← service_run (Background ∘ Aside <$> deliveries) x;
  lanes ← close_lanes (am_lanes (rt_alerts (sv_runtime x)));
  Ok (with_runtime (with_lanes lanes (sv_runtime x)) x).
End service.

(** ** Lemmas *)

(** *** Lanes *)

Lemma offer_ok maxsize a l : 1 ≤ maxsize → lane_ok maxsize l → lane_ok maxsize (offer a l).
Proof. intros Hm Hl. by destruct (lane_step_ok maxsize l (Offer a) Hm Hl) as (? & [= <-] & ? & _). Qed.

Lemma process_lanes maxsize seen now d (m m' : AlertManager DedupWindow) a :
  1 ≤ maxsize → process seen now d m = Ok (a, m') → Forall (lane_ok maxsize) (am_lanes m) →
  Forall (lane_ok maxsize) (am_lanes m').
Proof.
  intros Hm Hp Hl. unfold process in Hp. destruct (_ <? _); [by injection Hp as <- <-|].
  apply result_bind_ok in Hp as ([dup w] & _ & Hp). destruct dup; [by injection Hp as <- <-|].
  destruct (is_throttled _ _ _) as [thr hits]. destruct thr; [by injection Hp as <- <-|].
  destruct (pop_count _ _) as [withheld counts]. injection Hp as <- <-. cbn [am_lanes].
  apply Forall_fmap. eapply Forall_impl; [exact Hl|]. intros l Hok. unfold compose. case_match; [by apply offer_ok|done].
Qed.

Lemma process_all_lanes maxsize calls (m m' : AlertManager DedupWindow) l :
  1 ≤ maxsize → process_all calls m = Ok (l, m') → Forall (lane_ok maxsize) (am_lanes m) →
  Forall (lane_ok maxsize) (am_lanes m').
Proof.
  intros Hm. revert m l. induction calls as [|c calls IH]; intros m l; cbn [process_all]; [by intros [= _ <-]|].
  intros ([a m1] & Hp & Hrest)%result_bind_ok Hl. apply result_bind_ok in Hrest as ([l1 m2] & Hall & [= _ <-]).
  eapply IH; [exact Hall|]. by eapply process_lanes.
Qed.

Lemma close_lanes_ok maxsize lanes :
  Forall (lane_ok maxsize) lanes →
  ∃ lanes', close_lanes lanes = Ok lanes' ∧ Forall2 (λ l l', lane_worker l' = false ∧ Alerting.lane_in_flight l' = None ∧
    lane_delivered l' = lane_delivered l ∧ lane_errors l' = lane_errors l ∧
    lane_dropped l' = lane_dropped l + q_size (lane_queue l)) lanes lanes'.
Proof.
  induction 1 as [|l lanes [_ _ Hu] _ (lanes' & IH & Hall)]; [by exists []|]. cbn [close_lanes]. unfold lane_stop.
  destruct (Alerting.lane_in_flight l) as [a|] eqn:Hfl.
  - unfold q_task_done, in_flight in *. rewrite Hfl in Hu. simpl option_list in Hu.
    rewrite len_cons, len_nil in Hu. pose proof (len_nonneg (q_items (lane_queue l))) as Hn. unfold q_size in *.
    rewrite (proj2 (Z.leb_gt _ _)) by lia. cbn. rewrite IH. cbn. eexists. split; [done|]. by constructor.
  - cbn. rewrite IH. cbn. eexists. split; [done|]. by constructor.
Qed.

(** *** The consumer's step on one event *)

(** The metrics count the detections the alert manager was given. *)
Definition counted (h : list (call * option Alert)) (m : Metrics) : Prop :=
  total (detections_fired m) = len h ∧
  ∀ labels, default 0 (od_get (detections_fired m) labels)
            = len (filter (λ c, detection_labels (call_detection c.1) = labels) h).

Lemma call_detections tick ds (answers : list (option Alert)) :
  length answers = length ds → (call_detection ∘ fst) <$> zip (alert_calls tick ds) answers = ds.
Proof.
  intros Hl. rewrite list_fmap_compose, fst_zip by (unfold alert_calls; rewrite length_imap; lia).
  apply list_eq. intros i. unfold alert_calls. rewrite list_lookup_fmap, list_lookup_imap. by destruct (ds !! i).
Qed.

Lemma record_numbered {R} prefix n (rs : list R) : record <$> numbered prefix n rs = rs.
Proof. revert n. induction rs as [|r rs IH]; intros n; [done|]. rewrite numbered_cons, fmap_cons. by f_equal. Qed.

Lemma answered_alerts (calls : list call) (answers : list (option Alert)) :
  length answers = length calls → omap snd (zip calls answers) = omap id answers.
Proof.
  revert answers. induction calls as [|c calls IH]; intros [|a answers]; try done. intros [= Hl].
  cbn. rewrite (IH _ Hl). by destruct a.
Qed.

(** An answer names the detection it is about. *)
Definition answers_detection (d : Detection) (answer : option Alert) : Prop :=
  ∀ a, answer = Some a → al_rule_id a = det_rule_id d ∧ al_event_id a = det_event_id d.

Lemma answers_about_themselves floor cap ttl b h calls :
  Forall (λ c, answers_detection (call_detection c.1) c.2) (zip calls (Manager_spec.answers floor cap ttl b h calls)).
Proof.
  apply Forall_lookup. intros i [c o] Hi a Ha. apply lookup_zip_with_Some in Hi as (c' & o' & [= <- <-] & Hc & Ho).
  cbn in Ha. subst o. by eapply answers_about.
Qed.

Lemma counted_detections h m tick ds answers :
  length answers = length ds → counted h m →
  counted (h ++ zip (alert_calls tick ds) answers) (count_event (count_detections ds m)).
Proof.
  intros Hl [Ht Hg]. pose proof (call_detections tick ds answers Hl) as Hds. split.
  - cbn [count_event detections_fired]. rewrite count_detections_total, len_app, Ht. rewrite <-Hds at 1.
    unfold len. rewrite length_fmap. lia.
  - intros labels. cbn [count_event detections_fired]. rewrite count_detections_get, filter_app, len_app, Hg.
    rewrite <-Hds at 1. rewrite filter_fmap. unfold len. by rewrite length_fmap.
Qed.

Section steps.
Context `{E : RegexEngine} {TE TA : Type} `{SqlTable EventValues TE, SqlTable AlertValues TA}.
Context (iso : Z → string) (prefix : string) (s : Settings) (rules : list Rule).
Context (Hfields : valid_fields s = true) (Hrules : Forall (λ r, validate_rule r = Ok r) rules).

Abbreviation floor := (alert_min_severity s).
Abbreviation alert_cap := (Z.to_nat DEDUP_MAX_ENTRIES).
Abbreviation alert_ok := (manager_ok floor alert_cap (alert_dedup_window_seconds s) (alert_throttle_max s)
  (alert_throttle_window_seconds s) (rule_throttles rules)).

(** The history is what the engine finds in the given events, in order, each
    answered about itself. *)
Definition evaluated (es : list Event) (h : list (call * option Alert)) (g : DetectionEngine) : Prop :=
  ∃ dss, evaluate_all iso es (new_engine rules MAX_THRESHOLD_GROUPS) = Ok (dss, g) ∧
    (call_detection ∘ fst) <$> h = concat dss ∧ Forall (λ c, answers_detection (call_detection c.1) c.2) h.

Lemma evaluate_all_snoc es e g dss g1 ds g' :
  evaluate_all iso es g = Ok (dss, g1) → evaluate iso e g1 = Ok (ds, g') →
  evaluate_all iso (es ++ [e]) g = Ok (dss ++ [ds], g').
Proof.
  revert g dss. induction es as [|e0 es IH]; intros g dss; cbn [app evaluate_all].
  { intros [= <- ->] ->. done. }
  intros ([ds0 g0] & -> & Hr)%result_bind_ok He. apply result_bind_ok in Hr as ([dss0 g2] & Hall & [= <- ->]).
  cbn. by rewrite (IH _ _ Hall He).
Qed.

Lemma evaluated_snoc es e h g ds g' tick answers :
  length answers = length ds → Forall (λ c, answers_detection (call_detection c.1) c.2) (zip (alert_calls tick ds) answers) →
  evaluated es h g → evaluate iso e g = Ok (ds, g') → evaluated (es ++ [e]) (h ++ zip (alert_calls tick ds) answers) g'.
Proof.
  intros Hl Hab (dss & Hall & Hh & Hf) He. exists (dss ++ [ds]). split; [by eapply evaluate_all_snoc|].
  split; [|by apply Forall_app]. rewrite fmap_app, Hh, call_detections, concat_app by done. cbn [concat]. by rewrite app_nil_r.
Qed.

Lemma rules_valid : Forall valid_rule rules.
Proof. eapply Forall_impl; [exact Hrules|]. intros r Hr. apply (validated_rule r Hr). Qed.

Lemma fmap_alert_calls {A} (f : call → A) (g : nat → A) tick ds :
  (∀ i d, f (mkCall (tick i).1 (tick i).2 d) = g i) → f <$> alert_calls tick ds = g <$> seq 0 (length ds).
Proof.
  intros Hfg. apply list_eq. intros i. unfold alert_calls. rewrite !list_lookup_fmap, list_lookup_imap.
  destruct (ds !! i) as [d|] eqn:Hd; cbn.
  - rewrite lookup_seq_lt by (eapply lookup_lt_Some; exact Hd). cbn. by rewrite Hfg.
  - rewrite lookup_seq_ge by (by apply lookup_ge_None). done.
Qed.

Lemma alert_calls_from (f : call → Z) (g : nat → Z) last tick ds :
  (∀ i d, f (mkCall (tick i).1 (tick i).2 d) = g i) → (∀ i j, (i ≤ j)%nat → g i ≤ g j) → (∀ i, last ≤ g i) →
  nondecreasing (last :: (f <$> alert_calls tick ds)).
Proof.
  intros Hfg Hg Hl. constructor; [by eapply alert_calls_sorted|]. rewrite (fmap_alert_calls f g tick ds Hfg).
  apply Forall_fmap, Forall_forall. intros i _. apply Hl.
Qed.

Lemma consume_event_ok rt e tick h sl nl :
  engine_ok rules MAX_THRESHOLD_GROUPS (rt_engine rt) → alert_ok sl nl h (rt_alerts rt) →
  Forall (lane_ok SINK_QUEUE) (am_lanes (rt_alerts rt)) →
  forward tick → (∀ i, sl ≤ (tick i).1 ∧ nl ≤ (tick i).2) →
  ∃ rt' alerts h' sl' nl', consume_event iso prefix s tick e rt = Ok rt' ∧
    engine_ok rules MAX_THRESHOLD_GROUPS (rt_engine rt') ∧ alert_ok sl' nl' h' (rt_alerts rt') ∧
    Forall (lane_ok SINK_QUEUE) (am_lanes (rt_alerts rt')) ∧
    (∀ b, (∀ i, (tick i).1 ≤ b) → sl' ≤ b) ∧ (∀ b, (∀ i, (tick i).2 ≤ b) → nl' ≤ b) ∧
    rt_pipeline rt' = rt_pipeline rt ∧
    rt_buffer rt' = Persist.consume prefix (persist_batch_size s) (persist_max_buffered s) alerts e (rt_buffer rt) ∧
    omap snd h' = omap snd h ++ alerts ∧ (counted h (rt_metrics rt) → counted h' (rt_metrics rt')) ∧
    (∀ es, evaluated es h (rt_engine rt) → evaluated (es ++ [e]) h' (rt_engine rt')) ∧
    events_ingested (rt_metrics rt') = events_ingested (rt_metrics rt) + 1.
Proof.
  intros Heng Hal Hlanes Hfw Hlast.
  destruct (evaluate_step iso rules MAX_THRESHOLD_GROUPS e (rt_engine rt) max_groups_positive rules_valid Heng)
    as (ds & ws & n & g' & _ & He & Hok & _).
  destruct (process_all_ok floor alert_cap (alert_dedup_window_seconds s) (alert_throttle_max s)
    (alert_throttle_window_seconds s) (rule_throttles rules) (λ rid t, rule_throttles_valid rules rid t Hrules)
    (throttle_window_positive s Hfields) sl nl h (rt_alerts rt) (alert_calls tick ds) Hal)
    as (m' & sl' & nl' & Hp & Hal' & Hsl & Hnl).
  { apply (alert_calls_from _ (λ i, (tick i).1)); [done|intros; by apply Hfw|apply Hlast]. }
  { apply (alert_calls_from _ (λ i, (tick i).2)); [done|intros; by apply Hfw|apply Hlast]. }
  eexists _, _, _, sl', nl'. unfold consume_event. rewrite He. cbn [mbind result_bind]. rewrite Hp.
  cbn [mbind result_bind]. split; [done|]. cbn [rt_engine rt_alerts rt_pipeline rt_buffer rt_metrics].
  match goal with |- context [omap id ?l] =>
    assert (Hlen : length l = length ds) by (rewrite answers_length; unfold alert_calls; by rewrite length_imap) end.
  split_and!; [done|exact Hal'|by eapply process_all_lanes| | |done|done| | | |].
  - intros b Hb. apply Hsl. pose proof (Hb 0%nat). pose proof (proj1 (Hlast 0%nat)). constructor; [lia|].
    rewrite (fmap_alert_calls _ (λ i, (tick i).1)) by done. apply Forall_fmap, Forall_forall. intros i _. apply Hb.
  - intros b Hb. apply Hnl. pose proof (Hb 0%nat). pose proof (proj2 (Hlast 0%nat)). constructor; [lia|].
    rewrite (fmap_alert_calls _ (λ i, (tick i).2)) by done. apply Forall_fmap, Forall_forall. intros i _. apply Hb.
  - rewrite omap_app. f_equal. apply answered_alerts. unfold alert_calls. by rewrite length_imap.
  - intros Hc. by apply counted_detections.
  - intros es Hes. eapply evaluated_snoc; [done| |done..]. apply answers_about_themselves.
  - cbn [count_event events_ingested]. by rewrite count_detections_ingested.
Qed.
End steps.

(** *** What a step of the pipeline does to its history *)

Lemma take_effect {E W} `{DuplicateFilter W} (key : E → string) (p p' : Pipeline.system E W) now :
  pl_step key p (Take now) = Ok p' →
  (sys_handled p' = sys_handled p ∧ (sys_dispatched p' = sys_dispatched p ∨ ∃ e, sys_dispatched p' = sys_dispatched p ++ [e])) ∨
  ∃ e, sys_handled p' = sys_handled p ++ [(e, Deduped)] ∧ sys_dispatched p' = sys_dispatched p ∧
    sys_lookups p' = sys_lookups p ++ [(now, key e)].
Proof.
  unfold pl_step. destruct (sys_handling p); [intros [= <-]; by left; split; [|left]|].
  destruct (consume_take _ _ _) as [r|]; [|intros [= <-]; by left; split; [|left]].
  intros ([[[e1|] e] q] & _ & [= <-])%result_bind_ok.
  - left. split; [done|]. right. by exists e.
  - right. by exists e.
Qed.

(** A duplicate is one of an event that was dispatched. *)
Lemma deduped_dispatched {E W} `{DuplicateFilter W} (key : E → string) cap ttl last last' (p p' : Pipeline.system E W) now e :
  sys_ok key cap ttl last p → sys_ok key cap ttl last' p' → sys_dispatched p' = sys_dispatched p →
  sys_lookups p' = sys_lookups p ++ [(now, key e)] → key e ∈ key <$> sys_dispatched p.
Proof.
  intros Hp Hp' Hd Hl. pose proof (so_history _ _ _ _ _ Hp) as Hh. pose proof (so_history _ _ _ _ _ Hp') as Hh'.
  rewrite <-Hh. unfold history in *. rewrite Hl, history_snoc, Hd, <-Hh in Hh'.
  unfold Spec.observe in Hh'. destruct (Spec.duplicate _ _ _ _ _) eqn:Hdup.
  - unfold Spec.duplicate in Hdup. apply bool_decide_eq_true in Hdup as (a & -> & Ha)%list_elem_of_fmap.
    apply list_elem_of_fmap_2. eapply elem_of_sublist; [exact Ha|apply live_sublist].
  - apply (f_equal length) in Hh'. rewrite fmap_app, length_app in Hh'. simpl in Hh'. lia.
Qed.

Lemma return_effect {E W} `{DuplicateFilter W} (key : E → string) (p p' : Pipeline.system E W) ok e :
  pl_step key p (Return ok) = Ok p' → sys_handling p = Some e →
  sys_handled p' = sys_handled p ++ [(e, if ok then Processed else Errored)] ∧ sys_dispatched p' = sys_dispatched p.
Proof. unfold pl_step. intros Hs Hh. rewrite Hh in Hs. by apply result_bind_ok in Hs as (q & _ & [= <-]). Qed.

Lemma put_effect {E W} `{DuplicateFilter W} (key : E → string) (p p' : Pipeline.system E W) e :
  pl_step key p (Put e) = Ok p' → sys_handled p' = sys_handled p ∧ sys_dispatched p' = sys_dispatched p.
Proof. unfold pl_step. by destruct (put _ _); intros [= <-]. Qed.

(** *** The invariant *)

Definition analysed (handled : list (Event * fate)) : list Event := (filter (λ x, x.2 = Processed) handled).*1.

Section invariant.
Context `{E : RegexEngine} {TE TA : Type} `{SqlTable EventValues TE, SqlTable AlertValues TA}.
Context (iso : Z → string) (prefix : string) (s : Settings) (rules : list Rule).
Context (Hfields : valid_fields s = true) (Hrules : Forall (λ r, validate_rule r = Ok r) rules).
Implicit Types x : Service (TE := TE) (TA := TA).

Abbreviation event_cap := (Z.to_nat (dedup_max_entries s)).
Abbreviation pipeline_ok := (sys_ok dedup_key event_cap (dedup_window_seconds s)).
Abbreviation evaluated := (evaluated iso rules).
Abbreviation alert_ok := (manager_ok (alert_min_severity s) (Z.to_nat DEDUP_MAX_ENTRIES)
  (alert_dedup_window_seconds s) (alert_throttle_max s) (alert_throttle_window_seconds s) (rule_throttles rules)).

(** [evs] and [als] are the records buffered so far, with their write ids. *)
Record service_ok (last sl nl : Z) evs als x : Prop := {
  ok_pipeline : pipeline_ok last (pipeline_of x);
  ok_engine : engine_ok rules MAX_THRESHOLD_GROUPS (rt_engine (sv_runtime x));
  ok_alerts : ∃ h, alert_ok sl nl h (rt_alerts (sv_runtime x)) ∧ record <$> als = omap snd h ∧
    counted h (rt_metrics (sv_runtime x)) ∧ evaluated (analysed (sv_handled x)) h (rt_engine (sv_runtime x));
  ok_lanes : Forall (lane_ok SINK_QUEUE) (am_lanes (rt_alerts (sv_runtime x)));
  ok_database : world_inv prefix (persist_max_buffered s) evs als (database_of x);
  ok_analysed : record <$> evs = analysed (sv_handled x);
  ok_no_error : Forall (λ y, y.2 ≠ Errored) (sv_handled x);
  ok_duplicates : ∀ e, (e, Deduped) ∈ sv_handled x → dedup_key e ∈ dedup_key <$> sv_dispatched x;
  ok_ingested : events_ingested (rt_metrics (sv_runtime x)) = len (analysed (sv_handled x));
}.

Lemma max_pending_nonneg : 0 ≤ persist_max_buffered s.
Proof.
  pose proof Hfields as Hv. unfold valid_fields, between in Hv.
  repeat match goal with H : _ && _ = true |- _ => apply andb_true_iff in H as [H ?] end. reflect_bools. lia.
Qed.

Lemma pipeline_set p x : pipeline_of (set_pipeline p x) = p.
Proof. by destruct p. Qed.

Lemma alert_ok_lanes sl nl h lanes (rt : Runtime) :
  alert_ok sl nl h (rt_alerts rt) → alert_ok sl nl h (rt_alerts (with_lanes lanes rt)).
Proof. intros []. by split. Qed.

Lemma queued_ok last sl nl evs als x e :
  service_ok last sl nl evs als x →
  ∃ x', service_step iso prefix s x (Queued e) = Ok x' ∧ service_ok last sl nl evs als x'.
Proof.
  intros [Hp He Ha Hl Hd Han Hne Hdu Hin]. destruct (put_ok dedup_key _ _ last _ e Hp) as (p & Hs & Hp').
  exists (set_pipeline p x). cbn [service_step]. rewrite Hs. split; [done|].
  apply put_effect in Hs as [Hh Hdi]. cbn in Hh, Hdi.
  split; cbn [sv_handled sv_dispatched set_pipeline]; by rewrite ?pipeline_set, ?Hh, ?Hdi.
Qed.

Lemma taken_ok last sl nl evs als x now :
  service_ok last sl nl evs als x → last ≤ now →
  ∃ x' last', service_step iso prefix s x (Taken now) = Ok x' ∧ service_ok last' sl nl evs als x' ∧ last' ≤ now ∧
    (sv_handling x = None → progress (pipeline_of x) (pipeline_of x')).
Proof.
  intros [Hp He Ha Hl Hd Han Hne Hdu Hing] Hnow.
  destruct (take_ok dedup_key _ _ last now _ Hp Hnow) as (p & last' & Hs & Hp' & Hle & Hpr).
  exists (set_pipeline p x), last'. cbn [service_step]. rewrite Hs. split; [done|].
  rewrite pipeline_set. split; [|by split].
  apply take_effect in Hs as [(Hh & Hdi)|(e & Hh & Hdi & Hlk)].
  - cbn in Hh, Hdi. split; cbn [sv_handled sv_dispatched set_pipeline]; rewrite ?pipeline_set, ?Hh; try done. intros e He1%Hdu. destruct Hdi as [->|(e' & ->)]; [done|].
    rewrite fmap_app. apply elem_of_app. by left.
  - pose proof (deduped_dispatched _ _ _ _ _ _ _ _ _ Hp Hp' Hdi Hlk) as Hdup. cbn in Hh, Hdi, Hdup.
    assert (Hsame : analysed (sv_handled x ++ [(e, Deduped)]) = analysed (sv_handled x)).
    { unfold analysed. by rewrite filter_app, filter_cons_False, filter_nil, app_nil_r. }
    split; cbn [sv_handled sv_dispatched set_pipeline]; rewrite ?pipeline_set, ?Hh, ?Hdi, ?Hsame; try done.
    + apply Forall_app. split; [done|]. by apply Forall_singleton.
    + intros e1 [?|[= ->]%list_elem_of_singleton]%elem_of_app; [by apply Hdu|done].
Qed.

Lemma analysed_ok last sl nl evs als x tick :
  service_ok last sl nl evs als x → forward tick → (∀ i, sl ≤ (tick i).1 ∧ nl ≤ (tick i).2) →
  ∃ x' sl' nl' evs' als', service_step iso prefix s x (Analysed tick) = Ok x' ∧
    service_ok last sl' nl' evs' als' x' ∧
    (∀ b, (∀ i, (tick i).1 ≤ b) → sl' ≤ b) ∧ (∀ b, (∀ i, (tick i).2 ≤ b) → nl' ≤ b) ∧
    (sv_handling x ≠ None → progress (pipeline_of x) (pipeline_of x')) ∧ sv_accepted x' = sv_accepted x.
Proof.
  intros Hok Hfw Hlast. cbn [service_step]. destruct (sv_handling x) as [e|] eqn:He.
  2:{ exists x, sl, nl, evs, als. split_and!; try done; intros b Hb; specialize (Hb 0%nat);
        specialize (Hlast 0%nat); lia. }
  destruct Hok as [Hp Heng (h & Ha & Hals & Hcnt & Hev) Hl Hd Han Hne Hdu Hing].
  destruct (consume_event_ok iso prefix s rules Hfields Hrules (sv_runtime x) e tick h sl nl Heng Ha Hl Hfw Hlast)
    as (rt & alerts & h' & sl' & nl' & Hc & Heng' & Ha' & Hl' & Hsl & Hnl & Hpl & Hbuf & Hh' & Hcnt' & Hev' & Hing').
  rewrite Hc. cbn [mbind result_bind].
  assert (Hpipe : pipeline_of (with_runtime rt x) = pipeline_of x) by (unfold pipeline_of; cbn; by rewrite Hpl).
  rewrite Hpipe. destruct (return_ok dedup_key _ _ last true _ Hp) as (p & Hs & Hp' & Hpr). rewrite Hs.
  pose proof (return_effect _ _ _ _ e Hs He) as [Hh Hdi]. cbn in Hh, Hdi.
  exists (set_pipeline p (with_runtime rt x)), sl', nl'.
  exists (evs ++ numbered prefix (next_write (rt_buffer (sv_runtime x)) + len alerts) [e]),
    (als ++ numbered prefix (next_write (rt_buffer (sv_runtime x))) alerts).
  cbn [mbind result_bind]. rewrite pipeline_set. split; [done|]. split; [|split_and!; [exact Hsl|exact Hnl|intros _; apply Hpr; cbn; by rewrite He|]].
  - split; [by rewrite pipeline_set|done| |done| | | | |]; cbn [sv_handled sv_dispatched set_pipeline].
    + exists h'. split; [done|]. split; [by rewrite fmap_app, Hals, Hh', record_numbered|]. split; [by apply Hcnt'|].
      rewrite Hh. unfold analysed at 1. rewrite filter_app, fmap_app. by apply Hev'.
    + assert (database_of (set_pipeline p (with_runtime rt x))
              = Persist.step prefix (persist_batch_size s) (persist_max_buffered s) (Consume alerts e) (database_of x)) as ->.
      { unfold database_of. cbn. by rewrite Hbuf. }
      exact (step_inv prefix (persist_batch_size s) _ max_pending_nonneg evs als (Consume alerts e) _ Hd).
    + rewrite fmap_app, Han, Hh. unfold analysed. by rewrite filter_app, fmap_app.
    + rewrite Hh. apply Forall_app. split; [done|]. by apply Forall_singleton.
    + rewrite Hh, Hdi. intros e1 [?|Hin%list_elem_of_singleton]%elem_of_app; [by apply Hdu|done].
    + etransitivity; [exact Hing'|]. rewrite Hing, Hh. unfold analysed. by rewrite filter_app, fmap_app, len_app.
  - destruct Hpr as [Hacc _]; [by cbn; rewrite He|exact Hacc].
Qed.

Lemma lane_background_ok last sl nl evs als x i op :
  service_ok last sl nl evs als x →
  ∃ x', lane i op x = Ok x' ∧ service_ok last sl nl evs als x' ∧
    pipeline_of x' = pipeline_of x ∧ database_of x' = database_of x.
Proof.
  intros [Hp He (h & Ha & Hals & Hcnt & Hev) Hl Hd Han Hne Hdu Hing]. unfold lane. destruct (_ !! i) as [l|] eqn:Hi; [|exists x; split_and!; [done| |done|done]; by split; [| |exists h|..]].
  destruct (lane_step_ok SINK_QUEUE l op ltac:(done) (Forall_lookup_1 _ _ _ _ Hl Hi)) as (l' & Hs & Hl' & _).
  rewrite Hs. eexists. split; [done|]. split_and!; [|done|done].
  split; try done.
  - exists h. split; [by apply alert_ok_lanes|done].
  - cbn. by apply Forall_insert.
Qed.

Lemma database_write l x :
  database_of (write prefix s l x)
  = Persist.step prefix (persist_batch_size s) (persist_max_buffered s) l (database_of x).
Proof. unfold write. by destruct (Persist.step _ _ _ l (database_of x)). Qed.

Lemma write_ok last sl nl evs als x l :
  service_ok last sl nl evs als x → (∀ alerts e, l ≠ Consume alerts e) →
  service_ok last sl nl evs als (write prefix s l x).
Proof.
  intros [Hp He Ha Hl Hd Han Hne Hdu Hing] Hc. split; try done.
  pose proof (step_inv prefix (persist_batch_size s) _ max_pending_nonneg evs als l _ Hd) as Hw.
  assert (brings prefix l (database_of x) = ([], [])) as Hb by (destruct l; try done; by destruct (Hc alerts event)).
  rewrite Hb in Hw. cbn [fst snd] in Hw. rewrite !app_nil_r in Hw.
  by rewrite database_write.
Qed.

Lemma background_ok last sl nl evs als x b :
  service_ok last sl nl evs als x →
  ∃ x', background_step prefix s b x = Ok x' ∧ service_ok last sl nl evs als x' ∧ pipeline_of x' = pipeline_of x.
Proof.
  intros Hok. destruct b as [|now o|[now i|i|i ok]]; cbn [background_step aside_step];
    try (eexists; split; [done|]; split; [by apply write_ok|done]).
  - destruct (lane_background_ok _ _ _ _ _ _ i DeliverTake Hok) as (x' & ? & ? & ? & _). eauto.
  - destruct (lane_background_ok _ _ _ _ _ _ i (DeliverFinish ok) Hok) as (x' & ? & ? & ? & _). eauto.
Qed.

(** *** Runs *)

Definition takes (ls : list label) : list Z := omap (λ l, match l with Taken now => Some now | _ => None end) ls.
Definition ticks (ls : list label) : list (nat → Z * Z) :=
  omap (λ l, match l with Analysed tick => Some tick | _ => None end) ls.

(** The clocks never go back. *)
Definition schedule (ls : list label) : Prop := nondecreasing (takes ls) ∧ clocks (ticks ls).

(** What is scheduled lies ahead of the readings so far. *)
Definition ahead (last sl nl : Z) (ls : list label) : Prop :=
  nondecreasing (last :: takes ls) ∧ clocks (ticks ls) ∧
  Forall (λ tick : nat → Z * Z, ∀ i, sl ≤ (tick i).1 ∧ nl ≤ (tick i).2) (ticks ls).

Lemma service_run_app ls ls' x :
  service_run iso prefix s (ls ++ ls') x = (x ← service_run iso prefix s ls x; service_run iso prefix s ls' x).
Proof.
  revert x. induction ls as [|l ls IH]; intros x; [done|]. cbn [app service_run].
  destruct (service_step _ _ _ x l) as [x1|]; [|done]. cbn. apply IH.
Qed.

(** The two steps of the consumer: one moves on, or has nothing to do. *)
Lemma take_or_skip last sl nl evs als x now rest :
  service_ok last sl nl evs als x → ahead last sl nl (Taken now :: rest) →
  ∃ x' last', service_step iso prefix s x (Taken now) = Ok x' ∧ service_ok last' sl nl evs als x' ∧
    ahead last' sl nl rest ∧ (progress (pipeline_of x) (pipeline_of x') ∨ sv_handling x ≠ None ∧ pipeline_of x' = pipeline_of x).
Proof.
  intros Hok (Ht & Hc & Hl). unfold takes in Ht. simpl in Ht. pose proof Ht as Ht'. inversion Ht' as [|?? _ Hall]; subst.
  apply Forall_cons in Hall as [Hnow _].
  destruct (taken_ok _ _ _ _ _ _ now Hok Hnow) as (x' & last' & Hs & Hok' & Hle & Hp).
  exists x', last'. split; [done|]. split; [done|]. split; [split; [by eapply nondecreasing_later|done]|].
  destruct (sv_handling x) as [e|] eqn:He; [right; split; [done|]|left; by apply Hp].
  cbn [service_step] in Hs. unfold pl_step in Hs. cbn [pipeline_of sys_handling] in Hs. rewrite He in Hs.
  injection Hs as <-. rewrite pipeline_set. unfold pipeline_of. by rewrite He.
Qed.

Lemma analyse_or_skip last sl nl evs als x tick rest :
  service_ok last sl nl evs als x → ahead last sl nl (Analysed tick :: rest) →
  ∃ x' sl' nl' evs' als', service_step iso prefix s x (Analysed tick) = Ok x' ∧ service_ok last sl' nl' evs' als' x' ∧
    ahead last sl' nl' rest ∧ (progress (pipeline_of x) (pipeline_of x') ∨ sv_handling x = None ∧ pipeline_of x' = pipeline_of x).
Proof.
  intros Hok (Ht & [Hf Hs] & Hl). unfold ticks in Hl, Hf, Hs. simpl in Hl, Hf, Hs.
  apply Forall_cons in Hf as [Hft Hf]. apply Forall_cons in Hl as [Hlt Hl]. inversion Hs as [|?? Hs' Hbefore]; subst.
  destruct (sv_handling x) as [e|] eqn:He.
  2:{ exists x, sl, nl, evs, als. cbn [service_step]. rewrite He. split_and!; [done|done|by split|by right]. }
  destruct (analysed_ok _ _ _ _ _ _ tick Hok Hft Hlt) as (x' & sl' & nl' & evs' & als' & ? & ? & Hsl & Hnl & Hp & _).
  exists x', sl', nl', evs', als'. split_and!; [done|done| |left; apply Hp; by rewrite He].
  split_and!; [done|by split|]. eapply Forall_impl; [exact Hbefore|]. intros tick' Hbt i. split.
  - apply Hsl. intros j. apply (Hbt j i).
  - apply Hnl. intros j. apply (Hbt j i).
Qed.

Lemma step_ok last sl nl evs als x l rest :
  service_ok last sl nl evs als x → ahead last sl nl (l :: rest) →
  ∃ x' last' sl' nl' evs' als', service_step iso prefix s x l = Ok x' ∧
    service_ok last' sl' nl' evs' als' x' ∧ ahead last' sl' nl' rest.
Proof.
  intros Hok Ha. destruct l as [e|now|tick|b].
  - destruct (queued_ok _ _ _ _ _ _ e Hok) as (x' & ? & ?). by exists x', last, sl, nl, evs, als.
  - destruct (take_or_skip _ _ _ _ _ _ _ _ Hok Ha) as (x' & last' & ? & ? & ? & _). by exists x', last', sl, nl, evs, als.
  - destruct (analyse_or_skip _ _ _ _ _ _ _ _ Hok Ha) as (x' & sl' & nl' & evs' & als' & ? & ? & ? & _).
    by exists x', last, sl', nl', evs', als'.
  - destruct (background_ok _ _ _ _ _ _ b Hok) as (x' & ? & ? & _). by exists x', last, sl, nl, evs, als.
Qed.

Lemma run_ok last sl nl evs als x ls rest :
  service_ok last sl nl evs als x → ahead last sl nl (ls ++ rest) →
  ∃ x' last' sl' nl' evs' als', service_run iso prefix s ls x = Ok x' ∧
    service_ok last' sl' nl' evs' als' x' ∧ ahead last' sl' nl' rest.
Proof.
  revert last sl nl evs als x. induction ls as [|l ls IH]; intros last sl nl evs als x Hok Ha.
  { by exists x, last, sl, nl, evs, als. }
  destruct (step_ok _ _ _ _ _ _ l (ls ++ rest) Hok Ha) as (x1 & last1 & sl1 & nl1 & evs1 & als1 & Hs & Hok1 & Ha1).
  cbn [service_run]. rewrite Hs. apply (IH _ _ _ _ _ _ Hok1 Ha1).
Qed.

Lemma backgrounds_ok last sl nl evs als x bs :
  service_ok last sl nl evs als x →
  ∃ x', service_run iso prefix s (Background <$> bs) x = Ok x' ∧ service_ok last sl nl evs als x' ∧
    pipeline_of x' = pipeline_of x.
Proof.
  revert x. induction bs as [|b bs IH]; intros x Hok; [by exists x|]. cbn [fmap list_fmap service_run service_step].
  destruct (background_ok _ _ _ _ _ _ b Hok) as (x1 & -> & Hok1 & <-). apply (IH _ Hok1).
Qed.

(** *** The start *)

Lemma schedule_ahead ls :
  schedule ls → ∃ last n, ahead last n n ls.
Proof.
  intros [Ht Hc]. exists (default 0 (head (takes ls))).
  exists (match ticks ls with tick :: _ => Z.min (tick 0%nat).1 (tick 0%nat).2 | [] => 0 end).
  split_and!; [by apply nondecreasing_head|done|]. destruct Hc as [Hf Hs].
  destruct (ticks ls) as [|tick tl]; [constructor|]. apply Forall_cons in Hf as [Hft _].
  inversion Hs as [|?? _ Hb]; subst. constructor.
  - intros i. specialize (Hft 0%nat i ltac:(lia)). lia.
  - eapply Forall_impl; [exact Hb|]. intros tick' Hbt i. specialize (Hbt 0%nat i). lia.
Qed.

Lemma start_service_ok collectors sinks (rt : Runtime) (st : Store TE TA) last n :
  build_runtime s rules collectors sinks = Ok rt → fresh_world prefix st →
  service_ok last n n [] [] (start_service rt st).
Proof.
  unfold build_runtime. intros (m & Hm & H1)%result_bind_ok Hst. apply result_bind_ok in H1 as (p & Hp & H1).
  apply result_bind_ok in H1 as (p' & Hr & [= <-]).
  pose proof (register_all_keeps _ _ _ Hr) as (Hk1 & Hk2 & Hk3 & Hk4 & Hk5).
  unfold new_pipeline in Hp. apply result_bind_ok in Hp as (q & Hq & Hp). apply result_bind_ok in Hp as (w & Hw & [= <-]).
  pose proof (new_bounded_wf _ _ _ Hq) as Hwf. apply new_bounded_ok in Hq as [_ ->]. cbn in Hk1, Hk2, Hk3, Hk4, Hk5.
  split; cbn [start_service sv_runtime rt_engine rt_alerts sv_handled]; try done.
  - unfold pipeline_of, start_service. cbn [sv_runtime rt_pipeline sv_handling sv_accepted sv_handled sv_dispatched sv_lookups].
    apply start_ok; cbn [set_consumer pl_queue pl_dedup pl_processed pl_deduped pl_consumer_errors]; rewrite ?Hk1, ?Hk2; try done.
    by apply refines_new.
  - apply fresh_engine.
  - exists []. split; [unfold build_alert_manager in Hm; by eapply new_manager_ok|by split_and!; [| |exists []]].
  - unfold build_alert_manager, new_manager in Hm. apply result_bind_ok in Hm as (wd & _ & [= <-]). cbn [am_lanes].
    apply Forall_forall. intros l Hl. apply list_elem_of_fmap in Hl as (k & -> & _). by apply new_lane_ok.
  - by apply (start_inv prefix _ max_pending_nonneg).
  - intros e Hin. by apply elem_of_nil in Hin.
Qed.

(** *** The queue is joined *)

Definition upcoming (n : nat) (turns : nat → consumer_turn) : list label :=
  concat ((λ i, turn_labels (turns i)) <$> seq 0 n).

Lemma upcoming_S n turns : upcoming (S n) turns = turn_labels (turns 0%nat) ++ upcoming n (turns ∘ S).
Proof. unfold upcoming. cbn [seq fmap list_fmap concat]. f_equal. by rewrite <-seq_shift, <-list_fmap_compose. Qed.

Lemma takes_background bs rest : takes ((Background <$> bs) ++ rest) = takes rest.
Proof. unfold takes. rewrite omap_app. by induction bs. Qed.

Lemma ticks_background bs rest : ticks ((Background <$> bs) ++ rest) = ticks rest.
Proof. unfold ticks. rewrite omap_app. by induction bs. Qed.

Lemma ahead_background last sl nl bs rest : ahead last sl nl ((Background <$> bs) ++ rest) → ahead last sl nl rest.
Proof. unfold ahead. by rewrite takes_background, ticks_background. Qed.

(** What the other steps of a turn leave of the progress one made. *)
Lemma progress_then p p1 p2 (P : Prop) :
  progress (E := Event) (W := DedupWindow) p p1 → progress p1 p2 ∨ P ∧ p2 = p1 → progress p p2.
Proof.
  intros [Ha Hb] [[Ha' Hb']|[_ ->]]; [|by split]. split; [congruence|].
  assert (0 ≤ backlog p1) by (unfold backlog, qsize, q_size, len; lia). lia.
Qed.

Lemma turn_ok last sl nl evs als x t rest :
  service_ok last sl nl evs als x → ahead last sl nl (turn_labels t ++ rest) →
  ∃ x' last' sl' nl' evs' als', service_run iso prefix s (turn_labels t) x = Ok x' ∧
    service_ok last' sl' nl' evs' als' x' ∧ ahead last' sl' nl' rest ∧ progress (pipeline_of x) (pipeline_of x').
Proof.
  intros Hok Ha. unfold turn_labels in *. rewrite <-!app_assoc in Ha.
  destruct (backgrounds_ok _ _ _ _ _ _ (before_take t) Hok) as (x1 & Hx1 & Hok1 & Hp1).
  apply ahead_background in Ha. cbn [app] in Ha.
  destruct (take_or_skip _ _ _ _ _ _ _ _ Hok1 Ha) as (x2 & last2 & Hx2 & Hok2 & Ha2 & Hp2).
  destruct (backgrounds_ok _ _ _ _ _ _ (before_analysis t) Hok2) as (x3 & Hx3 & Hok3 & Hp3).
  apply ahead_background in Ha2.
  destruct (analyse_or_skip _ _ _ _ _ _ _ _ Hok3 Ha2) as (x' & sl' & nl' & evs' & als' & Hx' & Hok' & Ha' & Hp').
  exists x', last2, sl', nl', evs', als'. split_and!; [|done|done|].
  - rewrite service_run_app, Hx1. cbn [mbind result_bind app service_run]. rewrite Hx2.
    cbn [mbind result_bind]. rewrite service_run_app, Hx3. cbn [mbind result_bind service_run]. by rewrite Hx'.
  - rewrite <-Hp1. rewrite Hp3 in Hp'. destruct Hp2 as [Hp2|[Hh Hp2]]; [by eapply progress_then|].
    rewrite <-Hp2. destruct Hp' as [?|[Hn _]]; [done|]. exfalso. apply Hh.
    assert (sys_handling (pipeline_of x3) = None) as Hn3 by exact Hn. rewrite Hp3, Hp2 in Hn3. exact Hn3.
Qed.

Lemma join_ok fuel last sl nl evs als x turns :
  service_ok last sl nl evs als x → ahead last sl nl (upcoming fuel turns) →
  backlog (pipeline_of x) ≤ Z.of_nat fuel →
  ∃ x' last' sl' nl' evs' als', join iso prefix s fuel turns x = Ok x' ∧ service_ok last' sl' nl' evs' als' x' ∧
    backlog (pipeline_of x') = 0 ∧ sv_accepted x' = sv_accepted x.
Proof.
  revert last sl nl evs als x turns. induction fuel as [|fuel IH]; intros last sl nl evs als x turns Hok Ha Hb.
  - exists x, last, sl, nl, evs, als. split_and!; [done|done| |done].
    assert (0 ≤ backlog (pipeline_of x)) by (unfold backlog, qsize, q_size, len; lia). lia.
  - cbn [join]. destruct (drained _) eqn:Hd.
    { exists x, last, sl, nl, evs, als. split_and!; [done|done| |done].
      by apply (drained_iff _ _ _ _ _ (ok_pipeline _ _ _ _ _ _ Hok)). }
    rewrite upcoming_S in Ha.
    destruct (turn_ok _ _ _ _ _ _ _ _ Hok Ha) as (x1 & l1 & s1 & n1 & e1 & a1 & -> & Hok1 & Ha1 & Hacc & Hp).
    cbn. destruct (IH _ _ _ _ _ x1 (turns ∘ S) Hok1 Ha1) as (x' & l' & s' & n' & e' & a' & Hj & Hok' & Hb' & Hacc').
    { assert (0 < backlog (pipeline_of x)); [|lia]. apply Z.le_neq. split; [unfold backlog, qsize, q_size, len; lia|].
      intros Hz. symmetry in Hz. apply (drained_iff _ _ _ _ _ (ok_pipeline _ _ _ _ _ _ Hok)) in Hz. cbn in Hz. congruence. }
    exists x', l', s', n', e', a'. split_and!; [done..|]. rewrite Hacc'. exact Hacc.
Qed.

(** *** A flush ends *)

Abbreviation buffer_of x := (rt_buffer (sv_runtime x)).

Definition nothing_pending (b : Buffer) : Prop := pending_events b = [] ∧ pending_alerts b = [].

(** Steps that leave pipeline, buffer and flush alone *)
Definition same_but_aside x x' : Prop :=
  pipeline_of x' = pipeline_of x ∧ buffer_of x' = buffer_of x ∧ sv_flushing x' = sv_flushing x.

Lemma land_keeps now i (w : Persist.world (TE := TE) (TA := TA)) :
  w_buffer (Persist.step prefix (persist_batch_size s) (persist_max_buffered s) (Land now i) w) = w_buffer w ∧
  w_flushing (Persist.step prefix (persist_batch_size s) (persist_max_buffered s) (Land now i) w) = w_flushing w.
Proof. destruct w as [b f st limbo]. simpl. by destruct (limbo !! i). Qed.

Lemma aside_ok last sl nl evs als x a :
  service_ok last sl nl evs als x →
  ∃ x', aside_step prefix s a x = Ok x' ∧ service_ok last sl nl evs als x' ∧ same_but_aside x x'.
Proof.
  intros Hok. destruct a as [now i|i|i ok]; cbn [aside_step].
  - eexists. split; [done|]. split; [by apply write_ok|]. split; [done|].
    pose proof (database_write (Land now i) x) as Hw. pose proof (land_keeps now i (database_of x)) as [Hb Hf].
    rewrite <-Hw in Hb, Hf. by split.
  - destruct (lane_background_ok _ _ _ _ _ _ i DeliverTake Hok) as (x' & ? & ? & ? & Hd). exists x'.
    split_and!; [done..| |]; [by injection Hd|by injection Hd].
  - destruct (lane_background_ok _ _ _ _ _ _ i (DeliverFinish ok) Hok) as (x' & ? & ? & ? & Hd). exists x'.
    split_and!; [done..| |]; [by injection Hd|by injection Hd].
Qed.

Lemma asides_ok last sl nl evs als x l :
  service_ok last sl nl evs als x →
  ∃ x', service_run iso prefix s (Background ∘ Aside <$> l) x = Ok x' ∧ service_ok last sl nl evs als x' ∧
    same_but_aside x x'.
Proof.
  revert x. induction l as [|a l IH]; intros x Hok; [by exists x; split_and!|].
  cbn [fmap list_fmap service_run service_step compose background_step].
  destruct (aside_ok _ _ _ _ _ _ a Hok) as (x1 & -> & Hok1 & Hp & Hb & Hf).
  destruct (IH x1 Hok1) as (x' & Hr & Hok' & Hp' & Hb' & Hf'). exists x'. unfold same_but_aside.
  rewrite <-Hp, <-Hb, <-Hf. by split_and!.
Qed.

(** An answer to the save under way *)
Lemma answer_ok last sl nl evs als x a :
  service_ok last sl nl evs als x → sv_flushing x ≠ Idle →
  ∃ x', service_run iso prefix s (answer_labels a) x = Ok x' ∧ service_ok last sl nl evs als x' ∧
    pipeline_of x' = pipeline_of x ∧
    flush_step (persist_max_buffered s) (answered a) (buffer_of x) (sv_flushing x) = (buffer_of x', sv_flushing x').
Proof.
  intros Hok Hidle. destruct (asides_ok _ _ _ _ _ _ (before_answer a) Hok) as (x1 & Hr & Hok1 & Hp & Hb & Hf).
  exists (write prefix s (SaveReturns (answered_at a) (answered a)) x1). split_and!.
  - unfold answer_labels. by rewrite service_run_app, Hr.
  - by apply write_ok.
  - exact Hp.
  - pose proof (database_write (SaveReturns (answered_at a) (answered a)) x1) as Hw.
    rewrite <-Hf in Hidle. rewrite <-Hb, <-Hf.
    pose proof (save_step prefix (persist_batch_size s) (persist_max_buffered s) (answered_at a) (answered a)
      (buffer_of x1) (sv_flushing x1) (sv_store x1) (sv_limbo x1) Hidle) as Hs.
    destruct (flush_step _ _ _ _) as [b' f']. destruct Hs as (st & limbo & Hs).
    unfold database_of at 2 in Hw. rewrite Hs in Hw. injection Hw as Hb' Hf' _ _. by rewrite <-Hb', <-Hf'.
Qed.

(** Enough answers for the saves it can still make: it ends, with nothing more
    pending than before unless the last write failed. *)
Lemma finish_flush_ok fuel last sl nl evs als x answers :
  service_ok last sl nl evs als x → (saves_left (sv_flushing x) ≤ fuel)%nat →
  ∃ x', finish_flush iso prefix s fuel answers x = Ok x' ∧ service_ok last sl nl evs als x' ∧
    pipeline_of x' = pipeline_of x ∧ sv_flushing x' = Idle ∧
    (nothing_pending (buffer_of x) → nothing_pending (buffer_of x') ∨ persist_failing (buffer_of x') = true).
Proof.
  revert x answers. induction fuel as [|fuel IH]; intros x answers Hok Hl.
  - exists x. split_and!; [done..| |by left]. pose proof (wi_busy _ _ _ _ _ (ok_database _ _ _ _ _ _ Hok)) as Hb.
    cbn in Hb. destruct Hb as [?|Hb]; [done|]. destruct (sv_flushing x) as [|ev al|? ? [|? ?] [|? ?]]; simpl in *; try done; lia.
  - cbn [finish_flush]. pose proof (wi_busy _ _ _ _ _ (ok_database _ _ _ _ _ _ Hok)) as Hbusy. cbn in Hbusy.
    destruct (decide (sv_flushing x = Idle)) as [Hi|Hi].
    { rewrite Hi. exists x. split_and!; try done. by left. }
    destruct Hbusy as [?|Hpay]; [done|].
    destruct (answer_ok _ _ _ _ _ _ (answers 0%nat) Hok Hi) as (x1 & Hr & Hok1 & Hp & Hstep).
    pose proof (flush_step_left _ _ _ _ _ _ Hpay Hstep) as Hless.
    destruct (IH x1 (answers ∘ S) Hok1) as (x' & Hf & Hok' & Hp' & Hi' & Hn'); [lia|].
    exists x'. split_and!; [|done|congruence|done|].
    { destruct (sv_flushing x); [done|..]; rewrite Hr; exact Hf. }
    intros Hn. destruct (decide (answered (answers 0%nat) = Outage)) as [Ho|Ho].
    + rewrite Ho in Hstep. destruct (sv_flushing x) as [|ev al|re ra ev al]; [done|..];
        cbn [flush_step] in Hstep; injection Hstep as Hb1 Hf1;
        (assert (persist_failing (buffer_of x1) = true) as Hfail by (by rewrite <-Hb1));
        right; revert Hf; (destruct fuel; cbn [finish_flush]; [|rewrite <-Hf1]); intros [= <-]; exact Hfail.
    + destruct (flush_step_pending _ _ _ _ _ _ Ho Hi Hstep) as (He & Ha & _). apply Hn'. destruct Hn. split; congruence.
Qed.

Lemma flush_start_write x :
  sv_flushing x = Idle →
  let x' := write prefix s FlushStart x in
  flush_start (buffer_of x) = (buffer_of x', sv_flushing x').
Proof.
  intros Hi x'. pose proof (database_write FlushStart x) as Hw. fold x' in Hw. clearbody x'.
  unfold database_of in Hw at 2. rewrite Hi in Hw. cbn [Persist.step] in Hw.
  destruct (flush_start _) as [b f]. by injection Hw as -> -> _ _.
Qed.

Lemma flush_ok last sl nl evs als x answers :
  service_ok last sl nl evs als x → sv_flushing x = Idle →
  ∃ x', flush iso prefix s answers x = Ok x' ∧ service_ok last sl nl evs als x' ∧
    pipeline_of x' = pipeline_of x ∧ sv_flushing x' = Idle ∧
    (nothing_pending (buffer_of x') ∨ ¬ nothing_pending (buffer_of x) ∧ persist_failing (buffer_of x') = true).
Proof.
  intros Hok Hi. unfold flush, await_flush. pose proof (flush_start_write x Hi) as Hs. cbv zeta in Hs.
  pose proof (write_ok _ _ _ _ _ _ FlushStart Hok ltac:(done)) as Hok1.
  assert (Hp : pipeline_of (write prefix s FlushStart x) = pipeline_of x) by done.
  set (x1 := write prefix s FlushStart x) in *. clearbody x1.
  destruct (finish_flush_ok _ _ _ _ _ _ x1 answers Hok1 (le_n _)) as (x' & Hf & Hok' & Hp' & Hi' & Hn).
  exists x'. split_and!; [done|done|congruence|done|]. unfold flush_start, nothing_pending in *.
  destruct (pending_events (buffer_of x)) as [|e ev] eqn:He, (pending_alerts (buffer_of x)) as [|a al] eqn:Ha;
    injection Hs as Hb Hfl; try (destruct Hn as [?|?]; [by rewrite <-Hb|by left|right; by split; [intros []|]]).
  rewrite <-Hfl in Hf. cbn in Hf. injection Hf as <-. left. by rewrite <-Hb.
Qed.

(** *** Shutdown *)

Lemma request_stop_ok last sl nl evs als x :
  service_ok last sl nl evs als x →
  let x' := with_runtime (with_pipeline (request_stop (rt_pipeline (sv_runtime x))) (sv_runtime x)) x in
  service_ok last sl nl evs als x' ∧ backlog (pipeline_of x') = backlog (pipeline_of x).
Proof. intros [[] ? ? ? ? ? ? ? ?]. by split; [split; [split|..]|]. Qed.

Lemma discard_ok last sl nl evs als x :
  service_ok last sl nl evs als x → sv_flushing x = Idle →
  let x' := write prefix s Discard x in
  service_ok last sl nl evs als x' ∧ pipeline_of x' = pipeline_of x ∧ sv_flushing x' = Idle ∧
  nothing_pending (buffer_of x').
Proof.
  intros Hok Hi x'. pose proof (database_write Discard x) as Hw.
  pose proof (write_ok _ _ _ _ _ _ Discard Hok ltac:(done)) as Hok'.
  assert (Hp : pipeline_of x' = pipeline_of x) by done. fold x' in Hw, Hok'. clearbody x'.
  unfold database_of in Hw at 2. rewrite Hi in Hw. cbn [Persist.step] in Hw. injection Hw as Hb Hf _ _.
  split_and!; [done|done|done|by split; rewrite Hb].
Qed.

Lemma drained_nothing_left last sl nl evs als x :
  service_ok last sl nl evs als x → backlog (pipeline_of x) = 0 →
  sv_handling x = None ∧ (sv_handled x).*1 = sv_accepted x.
Proof.
  intros [Hp _ _ _ _ _ _ _ _] Hb. pose proof (so_fifo _ _ _ _ _ Hp) as Hf.
  unfold backlog, qsize, q_size, len in Hb. unfold taken in Hf. cbn in Hb, Hf.
  destruct (q_items _), (sv_handling x); simpl in Hb; try lia. by rewrite !app_nil_r in Hf.
Qed.

Lemma stop_ok last sl nl evs als x turns again answers answers' answers'' deliveries :
  service_ok last sl nl evs als x →
  ahead last sl nl (upcoming (Z.to_nat (2 * qsize (pl_queue (rt_pipeline (sv_runtime x))) + 1)) turns) →
  ∃ x' x'' last' sl' nl' evs' als', stop iso prefix s turns again answers answers' answers'' deliveries x = Ok x'' ∧
    service_ok last' sl' nl' evs' als' x' ∧ backlog (pipeline_of x') = 0 ∧ sv_accepted x' = sv_accepted x ∧
    sv_flushing x' = Idle ∧ nothing_pending (buffer_of x') ∧
    pipeline_of x'' = pipeline_of x' ∧ database_of x'' = database_of x' ∧
    Forall (λ l, lane_worker l = false ∧ Alerting.lane_in_flight l = None) (am_lanes (rt_alerts (sv_runtime x''))).
Proof.
  intros Hok Ha. unfold stop. destruct (request_stop_ok _ _ _ _ _ _ Hok) as [Hok0 Hb0]. cbv zeta in Hok0, Hb0.
  set (x0 := with_runtime _ x) in *. assert (Hacc0 : sv_accepted x0 = sv_accepted x) by done.
  assert (Ha0 : ahead last sl nl (upcoming (Z.to_nat (2 * qsize (pl_queue (rt_pipeline (sv_runtime x0))) + 1)) turns))
    by exact Ha. clear Ha. clearbody x0.
  destruct (join_ok (Z.to_nat (2 * qsize (pl_queue (rt_pipeline (sv_runtime x0))) + 1)) _ _ _ _ _ x0 turns Hok0 Ha0)
    as (x1 & l1 & s1 & n1 & e1 & a1 & -> & Hok1 & Hb1 & Hacc1).
  { unfold backlog, qsize, q_size, len. cbn. destruct (sv_handling x0); simpl; lia. }
  cbn [mbind result_bind]. unfold await_flush at 1.
  destruct (finish_flush_ok _ _ _ _ _ _ x1 answers Hok1 (le_n _)) as (x2 & -> & Hok2 & Hp2 & Hi2 & _). cbn [mbind result_bind].
  assert (∃ x3, (if again then flush iso prefix s answers' x2 else Ok x2) = Ok x3 ∧ service_ok l1 s1 n1 e1 a1 x3 ∧
    pipeline_of x3 = pipeline_of x2 ∧ sv_flushing x3 = Idle) as (x3 & -> & Hok3 & Hp3 & Hi3).
  { destruct again; [|by exists x2]. destruct (flush_ok _ _ _ _ _ _ answers' Hok2 Hi2) as (x3 & ? & ? & ? & ? & _). by exists x3. }
  cbn [mbind result_bind]. destruct (flush_ok _ _ _ _ _ _ answers'' Hok3 Hi3) as (x4 & -> & Hok4 & Hp4 & Hi4 & Hn4).
  cbn [mbind result_bind]. set (x5 := if _ && _ then _ else x4).
  assert (service_ok l1 s1 n1 e1 a1 x5 ∧ pipeline_of x5 = pipeline_of x4 ∧ sv_flushing x5 = Idle ∧
    nothing_pending (buffer_of x5)) as (Hok5 & Hp5 & Hi5 & Hn5).
  { unfold x5. destruct (_ && _) eqn:Hf; [by apply discard_ok|]. split_and!; try done; destruct Hn4 as [[]|[Hn Hfail]]; try done;
      rewrite Hfail, andb_true_r in Hf; apply negb_false_iff, bool_decide_eq_true in Hf; by destruct Hn. }
  clearbody x5. destruct (asides_ok _ _ _ _ _ _ deliveries Hok5) as (x6 & -> & Hok6 & Hp6 & Hb6 & Hi6). cbn [mbind result_bind].
  destruct (close_lanes_ok SINK_QUEUE _ (ok_lanes _ _ _ _ _ _ Hok6)) as (lanes & -> & Hl). cbn [mbind result_bind].
  exists x6, (with_runtime (with_lanes lanes (sv_runtime x6)) x6), l1, s1, n1, e1, a1. split; [done|]. split; [done|].
  assert (Hpipe : pipeline_of x6 = pipeline_of x1) by congruence. rewrite Hpipe, Hb6, Hi6. split_and!; try done; try apply Hn5.
  - rewrite <-Hacc0, <-Hacc1. exact (f_equal sys_accepted Hpipe).
  - cbn. eapply Forall2_Forall_r; [exact Hl|]. apply Forall_forall. by intros l _ l' (? & ? & _).
Qed.
End invariant.

(** ** Every event is accounted for *)

Section accounts.
Context `{E : RegexEngine} {TE TA : Type} `{SqlTable EventValues TE, SqlTable AlertValues TA}.
Context (iso : Z → string) (prefix : string).

(** What became of the events that were analysed: [evs] are their records, in
    order; [settled] are stored, [dropped] are counted, the rest is being written
    or buffered. *)
Definition persisted (evs settled dropped : list (Pending Event)) (x : Service (TE := TE) (TA := TA)) : Prop :=
  record <$> evs = analysed (sv_handled x) ∧
  accounts event_values evs settled dropped (flight_events (sv_flushing x)) (pending_events (rt_buffer (sv_runtime x)))
    (event_rows (sv_store x)) (sv_limbo x ≫= fst)
    (events_unpersisted (rt_buffer (sv_runtime x)) + refused_events (sv_flushing x)).

Lemma ok_persisted s rules last sl nl evs als (x : Service (TE := TE) (TA := TA)) :
  service_ok iso prefix s rules last sl nl evs als x → ∃ settled dropped, persisted evs settled dropped x.
Proof.
  intros [_ _ _ _ [[He _] _ _] Han _ _ _]. destruct (lane_accounts _ _ _ _ _ _ _ _ _ He) as (settled & dropped & Hacc).
  by exists settled, dropped.
Qed.

Lemma analysed_not_deduped handled :
  Forall (λ y : Event * fate, y.2 ≠ Errored) handled →
  (filter (λ y, y.2 ≠ Deduped) handled).*1 = analysed handled.
Proof.
  unfold analysed. induction 1 as [|[e f] l Hf _ IH]; [done|]. rewrite !filter_cons.
  destruct f; repeat case_decide; try done; rewrite !fmap_cons; by f_equal.
Qed.

Lemma ok_dispatched s rules last sl nl evs als (x : Service (TE := TE) (TA := TA)) :
  service_ok iso prefix s rules last sl nl evs als x →
  sv_dispatched x = analysed (sv_handled x) ++ option_list (sv_handling x).
Proof.
  intros [Hp _ _ _ _ _ Hne _ _]. pose proof (so_dispatched _ _ _ _ _ Hp) as Hd. cbn in Hd.
  by rewrite Hd, analysed_not_deduped.
Qed.

(** C2: no event is lost unnoticed, end to end: in a service built from
    validated settings and rules, under every interleaving of collectors,
    consumer, flusher, sinks and database failures, no step raises, and every
    event a collector queued is waiting in the queue, being analysed, a
    duplicate of an event that was, or analysed; each analysed event has one
    record, and each record is in one place only: stored, by one row, as it is,
    being written, buffered, or among the losses, which are as many as the
    counters say.  Of those not counted as stored only a record whose save was
    given up on (it may have committed unseen) can have a row. *)
Theorem every_event_accounted_for drivername environ etc_hostname gethostname s rules rt (st : Store TE TA) ls :
  validate_settings drivername environ s = Ok s → new_runtime etc_hostname gethostname s rules = Ok rt →
  Forall (λ r, validate_rule r = Ok r) rules → fresh_world prefix st → schedule ls →
  ∃ x evs settled dropped, service_run iso prefix s ls (start_service rt st) = Ok x ∧
    sv_accepted x = (sv_handled x).*1 ++ option_list (sv_handling x)
                      ++ q_items (_queue (pl_queue (rt_pipeline (sv_runtime x)))) ∧
    Forall (λ y, y.2 = Deduped ∨ y.2 = Processed) (sv_handled x) ∧
    (∀ e, (e, Deduped) ∈ sv_handled x →
      dedup_key e ∈ dedup_key <$> analysed (sv_handled x) ++ option_list (sv_handling x)) ∧
    persisted evs settled dropped x.
Proof.
  intros (_ & Hf & _)%enabled_known (collectors & sinks & Hrt)%built_runtime Hrules Hst Hls.
  destruct (schedule_ahead ls Hls) as (last & n & Ha). rewrite <-(app_nil_r ls) in Ha.
  destruct (run_ok iso prefix s rules Hf Hrules _ _ _ _ _ _ _ _
    (start_service_ok iso prefix s rules Hf collectors sinks rt st last n Hrt Hst) Ha)
    as (x & last' & sl & nl & evs & als & Hrun & Hok & _).
  destruct (ok_persisted _ _ _ _ _ _ _ _ Hok) as (settled & dropped & Hper). exists x, evs, settled, dropped. split; [done|].
  pose proof (ok_dispatched _ _ _ _ _ _ _ _ Hok) as Hdis. destruct Hok as [Hp _ _ _ _ _ Hne Hdu _].
  split; [|split; [|split; [by rewrite <-Hdis|exact Hper]]].
  - pose proof (so_fifo _ _ _ _ _ Hp) as Hfifo. unfold taken in Hfifo. cbn in Hfifo. by rewrite Hfifo, <-app_assoc.
  - eapply Forall_impl; [exact Hne|]. intros [e []]; cbn; by auto.
Qed.

(** A run, and stopping after it *)
Lemma built_run_then_stop s rules collectors sinks rt (st : Store TE TA) ls
    turns again answers answers' answers'' deliveries :
  valid_fields s = true → build_runtime s rules collectors sinks = Ok rt →
  Forall (λ r, validate_rule r = Ok r) rules → fresh_world prefix st → (∀ n, schedule (ls ++ upcoming n turns)) →
  ∃ x x' x'' last sl nl evs als, service_run iso prefix s ls (start_service rt st) = Ok x ∧
    stop iso prefix s turns again answers answers' answers'' deliveries x = Ok x'' ∧
    service_ok iso prefix s rules last sl nl evs als x' ∧ backlog (pipeline_of x') = 0 ∧ sv_accepted x' = sv_accepted x ∧
    sv_flushing x' = Idle ∧ nothing_pending (rt_buffer (sv_runtime x')) ∧
    pipeline_of x'' = pipeline_of x' ∧ database_of x'' = database_of x' ∧
    Forall (λ l, lane_worker l = false ∧ Alerting.lane_in_flight l = None) (am_lanes (rt_alerts (sv_runtime x''))).
Proof.
  intros Hf Hrt Hrules Hst Hls.
  pose proof (λ last n, start_service_ok iso prefix s rules Hf collectors sinks rt st last n Hrt Hst) as Hstart.
  destruct (schedule_ahead _ (Hls 0%nat)) as (l0 & n0 & Ha0).
  destruct (run_ok iso prefix s rules Hf Hrules _ _ _ _ _ _ _ _ (Hstart l0 n0) Ha0) as (x & _ & _ & _ & _ & _ & Hrun & _ & _).
  destruct (schedule_ahead _ (Hls (Z.to_nat (2 * qsize (pl_queue (rt_pipeline (sv_runtime x))) + 1)))) as (l1 & n1 & Ha1).
  destruct (run_ok iso prefix s rules Hf Hrules _ _ _ _ _ _ _ _ (Hstart l1 n1) Ha1)
    as (x1 & last & sl & nl & evs & als & Hrun1 & Hok & Ha). rewrite Hrun in Hrun1. injection Hrun1 as <-.
  destruct (stop_ok iso prefix s rules Hf Hrules _ _ _ _ _ _ turns again answers answers' answers'' deliveries Hok Ha)
    as (x' & x'' & last' & sl' & nl' & evs' & als' & Hstop & Hrest).
  by exists x, x', x'', last', sl', nl', evs', als'.
Qed.

Lemma run_then_stop drivername environ etc_hostname gethostname s rules rt (st : Store TE TA) ls
    turns again answers answers' answers'' deliveries :
  validate_settings drivername environ s = Ok s → new_runtime etc_hostname gethostname s rules = Ok rt →
  Forall (λ r, validate_rule r = Ok r) rules → fresh_world prefix st → (∀ n, schedule (ls ++ upcoming n turns)) →
  ∃ x x' x'' last sl nl evs als, service_run iso prefix s ls (start_service rt st) = Ok x ∧
    stop iso prefix s turns again answers answers' answers'' deliveries x = Ok x'' ∧
    service_ok iso prefix s rules last sl nl evs als x' ∧ backlog (pipeline_of x') = 0 ∧ sv_accepted x' = sv_accepted x ∧
    sv_flushing x' = Idle ∧ nothing_pending (rt_buffer (sv_runtime x')) ∧
    pipeline_of x'' = pipeline_of x' ∧ database_of x'' = database_of x' ∧
    Forall (λ l, lane_worker l = false ∧ Alerting.lane_in_flight l = None) (am_lanes (rt_alerts (sv_runtime x''))).
Proof.
  intros (_ & Hf & _)%enabled_known (collectors & sinks & Hrt)%built_runtime. by eapply built_run_then_stop.
Qed.

(** C3: shutdown is graceful: after any such run, stopping ends, whatever the
    database answers; every event ever queued has been analysed or was a
    duplicate of one that was, nothing is pending or in flight, each analysed
    event is stored, by one row, as it is, or among the losses, which are as many
    as the counter says (and have a row only if a save of them was given up on),
    and no delivery worker runs on. *)
Theorem shutdown_accounts_for_every_event drivername environ etc_hostname gethostname s rules rt (st : Store TE TA) ls
    turns again answers answers' answers'' deliveries :
  validate_settings drivername environ s = Ok s → new_runtime etc_hostname gethostname s rules = Ok rt →
  Forall (λ r, validate_rule r = Ok r) rules → fresh_world prefix st → (∀ n, schedule (ls ++ upcoming n turns)) →
  ∃ x x' evs settled dropped, service_run iso prefix s ls (start_service rt st) = Ok x ∧
    stop iso prefix s turns again answers answers' answers'' deliveries x = Ok x' ∧
    (sv_handled x').*1 = sv_accepted x ∧ Forall (λ y, y.2 = Deduped ∨ y.2 = Processed) (sv_handled x') ∧
    (∀ e, (e, Deduped) ∈ sv_handled x' → dedup_key e ∈ dedup_key <$> analysed (sv_handled x')) ∧
    record <$> evs = analysed (sv_handled x') ∧
    accounts event_values evs settled dropped [] [] (event_rows (sv_store x')) (sv_limbo x' ≫= fst)
      (events_unpersisted (rt_buffer (sv_runtime x'))) ∧
    pending_events (rt_buffer (sv_runtime x')) = [] ∧ pending_alerts (rt_buffer (sv_runtime x')) = [] ∧
    Forall (λ l, lane_worker l = false ∧ Alerting.lane_in_flight l = None) (am_lanes (rt_alerts (sv_runtime x'))).
Proof.
  intros Hs Hrt Hrules Hst Hls.
  destruct (run_then_stop _ _ _ _ _ _ _ _ _ turns again answers answers' answers'' deliveries Hs Hrt Hrules Hst Hls)
    as (x & x' & x'' & last' & sl' & nl' & evs' & als' & Hrun & Hstop & Hok' & Hb & Hacc & Hi & [Hpe Hpa] & Hpipe & Hdb & Hlanes).
  destruct (drained_nothing_left _ _ _ _ _ _ _ _ _ _ Hok' Hb) as [Hnone Hall].
  destruct (ok_persisted _ _ _ _ _ _ _ _ Hok') as (settled & dropped & Hrec & Haccounts).
  pose proof (ok_dispatched _ _ _ _ _ _ _ _ Hok') as Hdis.
  injection Hpipe as Hpl _ _ Hh _ _. injection Hdb as Hbuf Hfl Hst' Hlimbo.
  exists x, x'', evs', settled, dropped. split; [done|]. split; [done|]. rewrite Hh, Hbuf, Hst', Hlimbo.
  rewrite Hnone in Hdis. simpl in Hdis. rewrite app_nil_r in Hdis. rewrite Hi, Hpe, Z.add_0_r in *.
  split; [congruence|]. destruct Hok' as [_ _ _ _ _ _ Hne Hdu _]. split.
  { eapply Forall_impl; [exact Hne|]. intros [e []]; cbn; by auto. }
  split; [by rewrite <-Hdis|]. split; [done|]. by split_and!.
Qed.
End accounts.

(** ** Witnesses *)

Definition example_service_run : list label :=
  [Queued (stamped_event "su_failed" 1); Queued (stamped_event "su_failed" 1); Taken 1; Background Flush;
   Analysed (example_tick 1); Background Flush; Background (Saved 5 Outage); Background (Aside (Landed 6 0));
   Background (Aside (LaneTakes 0)); Queued (stamped_event "ssh_login_failed" 2)].

Definition example_turn (_ : nat) : consumer_turn := mkConsumerTurn [Flush] 10 [Saved 7 Rejected] (example_tick 10).
Definition example_answer (_ : nat) : answer := mkAnswer [LaneEnds 0 true] 12 Outage.

Lemma example_takes n : takes (example_service_run ++ upcoming n example_turn) = 1 :: replicate n 10.
Proof. unfold takes. rewrite omap_app. cbn. f_equal. induction n as [|n IH]; [done|]. rewrite upcoming_S. cbn. by f_equal. Qed.

Lemma example_tick_list n :
  ticks (example_service_run ++ upcoming n example_turn) = example_tick 1 :: replicate n (example_tick 10).
Proof. unfold ticks. rewrite omap_app. cbn. f_equal. induction n as [|n IH]; [done|]. rewrite upcoming_S. cbn. by f_equal. Qed.

Lemma sorted_replicate {A} (R : A → A → Prop) n x : R x x → StronglySorted R (replicate n x).
Proof. intros Hx. induction n; simpl; constructor; [done|]. by apply Forall_replicate. Qed.

Lemma example_schedule n : schedule (example_service_run ++ upcoming n example_turn).
Proof.
  unfold schedule, clocks. rewrite example_takes, example_tick_list. split_and!.
  - constructor; [apply sorted_replicate; lia|apply Forall_replicate; lia].
  - constructor; [|apply Forall_replicate]; intros i j _; cbn; lia.
  - constructor; [apply sorted_replicate|apply Forall_replicate]; intros i j; cbn; lia.
Qed.

Lemma example_rules_valid : Forall (λ r, validate_rule r = Ok r) example_rules.
Proof. repeat constructor. Qed.

Lemma every_event_accounted_for_witness :
  ∃ rt x evs settled dropped, new_runtime (Raise OSError) "box" (default_settings PRODUCTION) example_rules = Ok rt ∧
    service_run (E := literal_engine) str_of_int "p" (default_settings PRODUCTION) example_service_run
      (start_service rt example_store) = Ok x ∧ persisted evs settled dropped x.
Proof.
  destruct (new_runtime (Raise OSError) "box" (default_settings PRODUCTION) example_rules) as [rt|e] eqn:Hrt;
    [|discriminate (f_equal (@is_ok _) Hrt)].
  destruct (every_event_accounted_for (E := literal_engine) str_of_int "p" (λ _, Some "sqlite+aiosqlite"%string)
    ["SENTINEL_ENV"; "PATH"]%string (Raise OSError) "box" (default_settings PRODUCTION) example_rules rt example_store
    example_service_run (default_settings_valid PRODUCTION) Hrt example_rules_valid example_store_fresh)
    as (x & evs & settled & dropped & Hr & _ & _ & _ & Hp).
  - pose proof (example_schedule 0) as Hs. rewrite app_nil_r in Hs. exact Hs.
  - exists rt, x, evs, settled, dropped. split; [reflexivity|]. split; [exact Hr|exact Hp].
Defined.

Lemma shutdown_accounts_for_every_event_witness :
  ∃ rt x x', new_runtime (Raise OSError) "box" (default_settings PRODUCTION) example_rules = Ok rt ∧
    service_run (E := literal_engine) str_of_int "p" (default_settings PRODUCTION) example_service_run
      (start_service rt example_store) = Ok x ∧
    stop (E := literal_engine) str_of_int "p" (default_settings PRODUCTION) example_turn true example_answer
      example_answer example_answer [LaneTakes 0] x = Ok x' ∧
    (sv_handled x').*1 = sv_accepted x.
Proof.
  destruct (new_runtime (Raise OSError) "box" (default_settings PRODUCTION) example_rules) as [rt|e] eqn:Hrt;
    [|discriminate (f_equal (@is_ok _) Hrt)].
  destruct (shutdown_accounts_for_every_event (E := literal_engine) str_of_int "p" (λ _, Some "sqlite+aiosqlite"%string)
    ["SENTINEL_ENV"; "PATH"]%string (Raise OSError) "box" (default_settings PRODUCTION) example_rules rt example_store
    example_service_run example_turn true example_answer example_answer example_answer [LaneTakes 0]
    (default_settings_valid PRODUCTION) Hrt example_rules_valid example_store_fresh example_schedule)
    as (x & x' & _ & _ & _ & Hr & Hs & Hh & _).
  exists rt, x, x'. split; [reflexivity|]. split; [exact Hr|]. split; [exact Hs|exact Hh].
Defined.
