(* ===== verification/Observe.v ===== *)
(** * What is observed of the running service ([Runtime.snapshot])

    The counters the parts keep, gathered into the snapshot a scrape exports,
    and what the exported numbers say of the events, detections and alerts the
    service really handled. *)

From S2P Require Import Prelude ODict PyText Events Dedup Queue Pipeline Rules Evaluator Engine Alerting.
From S2P Require Import Base Storage Persist Sinks Settings Metrics Runtime System Service.
Local Open Scope string_scope.
Local Open Scope Z_scope.

(** ** Observed counters *)

(** [{lane.sink.name: ... for lane in self._lanes}] *)
Definition by_sink (f : SinkLane → Z) (lanes : list SinkLane) : odict string Z :=
  foldl (λ d l, od_set d (sink_name (lane_sink l)) (f l)) [] lanes.

(** [AlertManager.delivered_by_sink] *)
Definition delivered_by_sink (m : AlertManager DedupWindow) : odict string Z := by_sink lane_delivered (am_lanes m).

(** [AlertManager.dropped_by_sink] *)
Definition dropped_by_sink (m : AlertManager DedupWindow) : odict string Z := by_sink lane_dropped (am_lanes m).

(** A collector as a scrape sees it: its name, the dead letters among its
    [stats] (a collector of the operator's own may not count them), its
    [source_available]. *)
Record Watched := mkWatched { w_name : string; w_dead_lettered : option Z; w_source : bool }.

Definition dead_letters (collectors : list Watched) : Z :=
  foldr (λ c n, default 0 (w_dead_lettered c) + n) 0 collectors.

Definition sources (collectors : list Watched) : odict string bool :=
  foldl (λ d c, od_set d (w_name c) (w_source c)) [] collectors.

(** [Runtime.snapshot]; the rows deleted so far are [pruned] *)
Definition snapshot (collectors : list Watched) (pruned : Z * Z) (running : bool) (rt : Runtime) : RuntimeSnapshot :=
  let p := pl_stats (rt_pipeline rt) in
  let a := manager_stats_of (rt_alerts rt) in
  let b := rt_buffer rt in
  mkSnapshot (st_queue_size p) (st_queue_capacity p)
    [("queue_full", st_queue_dropped p); ("duplicate", st_deduped p); ("consumer_error", st_consumer_errors p);
     ("dead_letter", dead_letters collectors); ("persist_error", events_unpersisted b)]
    (delivered_by_sink (rt_alerts rt))
    [("severity", ms_suppressed_severity a); ("duplicate", ms_deduped a); ("throttled", ms_throttled a)]
    (ms_sink_errors a) (dropped_by_sink (rt_alerts rt)) (alerts_unpersisted b)
    [("events", len (pending_events b)); ("alerts", len (pending_alerts b))]
    (persist_failures b) (negb (persist_failing b))
    [("events", pruned.1); ("alerts", pruned.2)]
    running (pl_restarts (rt_pipeline rt)) (sources collectors).

(** What [/metrics] answers *)
Definition scrape (collectors : list Watched) (pruned : Z * Z) (running : bool) (rt : Runtime) : list Family :=
  exported (rt_metrics rt) (snapshot collectors pruned running rt).

(** ** Reading a scrape *)

Lemma by_sink_from (f : SinkLane → Z) lanes (d : odict string Z) name :
  od_get (foldl (λ d l, od_set d (sink_name (lane_sink l)) (f l)) d lanes) name
  = match last (filter (λ l, sink_name (lane_sink l) = name) lanes) with Some l => Some (f l) | None => od_get d name end.
Proof.
  revert d. induction lanes as [|l lanes IH]; intros d; [done|]. cbn [foldl]. rewrite IH, filter_cons, od_get_set.
  destruct (decide (sink_name (lane_sink l) = name)); [|done].
  destruct (filter _ lanes) as [|l' ls]; [done|]. rewrite last_cons_cons. by destruct (last (l' :: ls)) eqn:Hl; [|apply last_None in Hl].
Qed.

Lemma by_sink_get f lanes l :
  NoDup (sink_name ∘ lane_sink <$> lanes) → l ∈ lanes → od_get (by_sink f lanes) (sink_name (lane_sink l)) = Some (f l).
Proof.
  intros Hnd Hl. unfold by_sink. rewrite by_sink_from.
  assert (Hf : filter (λ l', sink_name (lane_sink l') = sink_name (lane_sink l)) lanes = [l]); [|by rewrite Hf].
  induction lanes as [|l' lanes IH]; [by apply elem_of_nil in Hl|]. rewrite fmap_cons in Hnd.
  apply NoDup_cons in Hnd as [Hn Hnd]. rewrite filter_cons. apply elem_of_cons in Hl as [<-|Hl].
  - rewrite decide_True by done. f_equal. apply filter_none. apply Forall_forall. intros l' Hin Heq. apply Hn.
    apply list_elem_of_fmap. exists l'. by split.
  - rewrite decide_False; [by apply IH|]. intros Heq. apply Hn. apply list_elem_of_fmap. exists l. by split.
Qed.

Lemma labelled_sample families name kind label values key :
  find_family name families = Some (labelled kind name label values) → sample families name [key] = od_get values key.
Proof. intros Hf. unfold sample. rewrite Hf. apply labelled_get. Qed.

Section reading.
Context (collectors : list Watched) (pruned : Z * Z) (running : bool) (rt : Runtime).
Abbreviation shown := (sample (scrape collectors pruned running rt)).

Ltac read_family := unfold scrape, exported, collect, labelled_counter; rewrite !labelled_eq; reflexivity.
Ltac read_labelled k := erewrite (labelled_sample _ _ k); [|read_family]; try reflexivity.

Lemma shown_ingested : shown "sentinel_events_ingested" [] = Some (events_ingested (rt_metrics rt)).
Proof. unfold sample. read_family. Qed.

Lemma shown_depth : shown "sentinel_queue_depth" [] = Some (qsize (pl_queue (rt_pipeline rt))).
Proof. unfold sample. read_family. Qed.

Lemma shown_fired labels : shown "sentinel_detections_fired" labels = od_get (detections_fired (rt_metrics rt)) labels.
Proof. unfold sample. read_family. Qed.

Lemma shown_dropped key :
  shown "sentinel_events_dropped" [key] = od_get (dropped (snapshot collectors pruned running rt)) key.
Proof. read_labelled COUNTER. Qed.

Lemma shown_suppressed key :
  shown "sentinel_alerts_suppressed" [key] = od_get (alerts_suppressed (snapshot collectors pruned running rt)) key.
Proof. read_labelled COUNTER. Qed.

Lemma shown_delivered l :
  NoDup (sink_name ∘ lane_sink <$> am_lanes (rt_alerts rt)) → l ∈ am_lanes (rt_alerts rt) →
  shown "sentinel_alerts_emitted" [sink_name (lane_sink l)] = Some (lane_delivered l) ∧
  shown "sentinel_alert_deliveries_dropped" [sink_name (lane_sink l)] = Some (lane_dropped l).
Proof. intros Hnd Hl. split; read_labelled COUNTER; by apply by_sink_get. Qed.

Lemma shown_buffered key :
  shown "sentinel_persist_buffered" [key] = od_get (persist_buffered (snapshot collectors pruned running rt)) key.
Proof. read_labelled GAUGE. Qed.

Lemma shown_unpersisted : shown "sentinel_alerts_unpersisted" [] = Some (alerts_unpersisted (rt_buffer rt)).
Proof. unfold sample. read_family. Qed.
End reading.

(** ** Offers and notifications *)

Definition offered (ls : list label) : list Event := omap (λ l, match l with Queued e => Some e | _ => None end) ls.

Ltac same_counts := split; [done|]; split; [done|]; cbn; lia.

(** What a step of the pipeline does to the queue's counters: an event offered
    is accepted, refused, or its [put] suspends, which under BLOCK it does when
    the queue is full. *)
Lemma pl_step_counts {E W} `{DuplicateFilter W} (key : E → string) (p p' : Pipeline.system E W) l :
  pl_step key p l = Ok p' →
  let q := pl_queue (sys_pl p) in let q' := pl_queue (sys_pl p') in
  let full := q_maxsize (_queue q) <=? len (q_items (_queue q)) in
  let n := match l with Put _ => if bool_decide (_policy q = BLOCK) && full then 0 else 1 | _ => 0 end in
  1 ≤ q_maxsize (_queue q) →
  _policy q' = _policy q ∧ q_maxsize (_queue q') = q_maxsize (_queue q) ∧
  _dropped q' + len (sys_accepted p') = _dropped q + len (sys_accepted p) + n ∧
  (_policy q = BLOCK → _dropped q' = _dropped q).
Proof.
  intros Hs q q' full n Hmax. subst q q' n. destruct l as [e|now|ok]; cbn [pl_step] in Hs.
  - unfold put, put_nowait, q_full, q_size in Hs. rewrite (proj2 (Z.leb_gt _ _)) in Hs by lia. subst full.
    destruct (_policy (pl_queue (sys_pl p))) eqn:Hpol, (_ <=? len _) eqn:Hfull; injection Hs as <-;
      cbn; rewrite ?Hpol, ?len_app, ?len_cons, ?len_nil; (split; [done|]); (split; [done|]);
      (split; [case_bool_decide; try done; cbn; lia|done]).
  - destruct (sys_handling p); [injection Hs as <-; same_counts|]. unfold consume_take in Hs.
    destruct (get _) as [[e q1]|] eqn:Hg; [|injection Hs as <-; same_counts].
    unfold get, get_nowait in Hg. destruct (q_items _) as [|e0 items]; [done|]. injection Hg as -> <-.
    destruct (df_seen _ _ _) as [[[] w]|]; cbn [mbind result_bind] in Hs.
    + apply result_bind_ok in Hs as (r & Hr & Hs). apply result_bind_ok in Hr as (q1 & Htd & [= <-]).
      unfold task_done, q_task_done in Htd. apply result_bind_ok in Htd as (q2 & Hq2 & [= <-]). case_match; [done|].
      injection Hq2 as <-. injection Hs as <-. cbn. same_counts.
    + injection Hs as <-. cbn. same_counts.
    + by apply result_bind_ok in Hs as (r & (? & _ & Hr)%result_bind_ok & _).
  - destruct (sys_handling p); [|injection Hs as <-; same_counts].
    apply result_bind_ok in Hs as (p1 & Hr & [= <-]). unfold consume_return in Hr. apply result_bind_ok in Hr as (q1 & Htd & [= <-]).
    unfold task_done, q_task_done in Htd. apply result_bind_ok in Htd as (q2 & Hq2 & [= <-]). case_match; [done|].
    injection Hq2 as <-. destruct ok; cbn; same_counts.
Qed.

(** Every notification is somewhere in every lane. *)
Definition notified (m : AlertManager DedupWindow) : Prop :=
  Forall (λ l, sink_min_severity (lane_sink l) ≤ am_min_severity m ∧ accounted_for l = am_emitted m) (am_lanes m).

Lemma offer_accounted maxsize a l :
  1 ≤ maxsize → lane_ok maxsize l → accounted_for (offer a l) = accounted_for l + 1 ∧ lane_sink (offer a l) = lane_sink l.
Proof.
  intros Hm Hl. destruct (lane_step_ok maxsize l (Offer a) Hm Hl) as (l' & [= <-] & _ & ->). split; [done|].
  unfold offer. by destruct (put_nowait _ _).
Qed.

Lemma process_notified maxsize seen now d (m m' : AlertManager DedupWindow) a :
  1 ≤ maxsize → Forall (lane_ok maxsize) (am_lanes m) → process seen now d m = Ok (a, m') → notified m →
  notified m' ∧ am_min_severity m' = am_min_severity m ∧ lane_sink <$> am_lanes m' = lane_sink <$> am_lanes m.
Proof.
  intros Hm Hl Hp Hn. unfold process in Hp. destruct (_ <? _) eqn:Hsev; [by injection Hp as <- <-|].
  apply result_bind_ok in Hp as ([dup w] & _ & Hp). destruct dup; [by injection Hp as <- <-|].
  destruct (is_throttled _ _ _) as [thr hits]. destruct thr; [by injection Hp as <- <-|].
  destruct (pop_count _ _) as [withheld counts]. injection Hp as <- <-. apply Z.ltb_ge in Hsev. unfold notified in *.
  cbn [am_lanes am_min_severity am_emitted].
  set (alert := if withheld =? 0 then _ else _). assert (Hal : al_severity alert = al_severity (from_detection d)).
  { unfold alert. by destruct (withheld =? 0). }
  clearbody alert. split; [|split; [done|]].
  - apply Forall_fmap. apply Forall_forall. intros l Hin. cbn.
    destruct (proj1 (Forall_forall _ _) Hn l Hin) as [Hmin Hacc].
    destruct (offer_accounted maxsize alert l Hm (proj1 (Forall_forall _ _) Hl l Hin)) as [Ha Hs].
    unfold accepts. rewrite (proj2 (Z.leb_le _ _)) by lia. rewrite Ha, Hs. by split; [|lia].
  - rewrite <-list_fmap_compose. apply list_fmap_ext. intros i l Hi. cbn. case_match; [|done].
    apply list_elem_of_lookup_2 in Hi. apply (offer_accounted maxsize alert l Hm). by apply (proj1 (Forall_forall _ _) Hl l).
Qed.

Lemma process_all_notified maxsize calls (m m' : AlertManager DedupWindow) l :
  1 ≤ maxsize → Forall (lane_ok maxsize) (am_lanes m) → process_all calls m = Ok (l, m') → notified m →
  notified m' ∧ am_min_severity m' = am_min_severity m ∧ lane_sink <$> am_lanes m' = lane_sink <$> am_lanes m.
Proof.
  intros Hm. revert m l. induction calls as [|c calls IH]; intros m l Hl; cbn [process_all]; [by intros [= _ <-]|].
  intros ([a m1] & Hp & Hrest)%result_bind_ok Hn. apply result_bind_ok in Hrest as ([l1 m2] & Hall & [= _ <-]).
  destruct (process_notified _ _ _ _ _ _ _ Hm Hl Hp Hn) as (Hn1 & Hf1 & Hs1).
  destruct (IH m1 l1 (process_lanes _ _ _ _ _ _ _ Hm Hp Hl) Hall Hn1) as (Hn2 & Hf2 & Hs2).
  split; [done|]. split; congruence.
Qed.

(** A lane's own steps move what it accounts for, and add nothing. *)
Lemma lane_moves maxsize l op l' :
  1 ≤ maxsize → lane_ok maxsize l → is_offer op = false → lane_step l op = Ok l' →
  lane_sink l' = lane_sink l ∧ accounted_for l' = accounted_for l.
Proof.
  intros Hm Hl Hop Hs. destruct (lane_step_ok maxsize l op Hm Hl) as (l1 & Hs1 & _ & Hacc). rewrite Hs in Hs1. injection Hs1 as <-.
  split; [|assert (Alerting.offers [op] = 0) as Hz by (by destruct op); lia].
  destruct op; [done|..]; cbn [lane_step] in Hs.
  - injection Hs as <-. unfold deliver_take. by repeat case_match.
  - unfold deliver_finish in Hs. destruct (Alerting.lane_in_flight l); [|by injection Hs as <-].
    by apply result_bind_ok in Hs as (q & _ & [= <-]).
Qed.

(** ** The ledger of a run *)

Section ledger.
Context `{E : RegexEngine} {TE TA : Type} `{SqlTable EventValues TE, SqlTable AlertValues TA}.
Context (iso : Z → string) (prefix : string) (s : Settings) (rules : list Rule) (sinks : list AlertSink).
Context (Hfields : valid_fields s = true) (Hrules : Forall (λ r, validate_rule r = Ok r) rules).
Implicit Types x : Service (TE := TE) (TA := TA).
Abbreviation queue_of x := (pl_queue (rt_pipeline (sv_runtime x))).
Abbreviation manager_of x := (rt_alerts (sv_runtime x)).

(** Does offering an event now suspend the collector? *)
Definition waits (l : label) x : bool :=
  match l with
  | Queued _ => bool_decide (queue_backpressure s = BLOCK) && (queue_maxsize s <=? len (q_items (_queue (queue_of x))))
  | _ => false
  end.

(** How often offering an event suspended a collector, in a run (it offers it
    again when there is room) *)
Fixpoint suspended (ls : list label) x : Z :=
  match ls with
  | [] => 0
  | l :: ls' =>
      (if waits l x then 1 else 0) +
      match service_step iso prefix s x l with Ok x' => suspended ls' x' | Raise _ => 0 end
  end.

Lemma never_suspended ls x : queue_backpressure s = DROP_NEWEST → suspended ls x = 0.
Proof.
  intros Hp. revert x. induction ls as [|l ls IH]; intros x; [done|]. cbn [suspended].
  assert (waits l x = false) as -> by (destruct l; cbn; by rewrite ?Hp). by destruct (service_step _ _ _ _ _); rewrite ?IH.
Qed.

(** [n] events were offered so far, those not counted that had to wait. *)
Record ledger (n : Z) x : Prop := {
  lg_policy : _policy (queue_of x) = queue_backpressure s;
  lg_size : q_maxsize (_queue (queue_of x)) = queue_maxsize s;
  lg_offers : _dropped (queue_of x) + len (sv_accepted x) = n;
  lg_block : queue_backpressure s = BLOCK → _dropped (queue_of x) = 0;
  lg_floor : am_min_severity (manager_of x) = alert_min_severity s;
  lg_sinks : lane_sink <$> am_lanes (manager_of x) = sinks;
  lg_notified : notified (manager_of x);
}.

Lemma queue_size_positive : 1 ≤ queue_maxsize s.
Proof.
  pose proof Hfields as Hv. unfold valid_fields, between in Hv.
  repeat match goal with H : _ && _ = true |- _ => apply andb_true_iff in H as [H ?] end. reflect_bools. lia.
Qed.

Lemma ledger_pipeline n x p l :
  pl_step dedup_key (pipeline_of x) l = Ok p → ledger n x →
  ledger (n + match l with Put e => if waits (Queued e) x then 0 else 1 | _ => 0 end) (set_pipeline p x).
Proof.
  intros Hs [Hp Hz Ho Hb Hf Hsk Hn]. pose proof queue_size_positive as Hmax.
  destruct (pl_step_counts _ _ _ _ Hs) as (Hp' & Hz' & Hc & Hb'); cbn [pipeline_of sys_pl sys_accepted] in *; [lia|].
  split; cbn [set_pipeline sv_runtime rt_pipeline with_pipeline sv_accepted]; try done; [congruence|congruence| |].
  - rewrite Hc. unfold waits. rewrite Hp, Hz. destruct l; lia.
  - intros Hblock. rewrite Hb' by congruence. by apply Hb.
Qed.

Lemma ledger_lane n x i op x' :
  Forall (lane_ok SINK_QUEUE) (am_lanes (manager_of x)) → is_offer op = false →
  lane i op x = Ok x' → ledger n x → ledger n x'.
Proof.
  intros Hl Hop. unfold lane. destruct (_ !! i) as [l|] eqn:Hi; [|by intros [= <-]].
  intros (l' & Hs & [= <-])%result_bind_ok [Hp Hz Ho Hb Hf Hsk Hn].
  destruct (lane_moves SINK_QUEUE l op l' ltac:(done) (Forall_lookup_1 _ _ _ _ Hl Hi) Hop Hs) as [Hsame Hacc].
  split; try done; cbn.
  - rewrite list_fmap_insert, Hsame. rewrite list_insert_id; [done|]. by rewrite list_lookup_fmap, Hi.
  - unfold notified in *. cbn. apply Forall_insert; [done|]. rewrite Hsame, Hacc. apply (Forall_lookup_1 _ _ _ _ Hn Hi).
Qed.

Lemma ledger_consumed n x e tick rt :
  Forall (lane_ok SINK_QUEUE) (am_lanes (manager_of x)) →
  consume_event iso prefix s tick e (sv_runtime x) = Ok rt → ledger n x → ledger n (with_runtime rt x).
Proof.
  intros Hl. unfold consume_event. intros ([ds g] & _ & Hr)%result_bind_ok. apply result_bind_ok in Hr as ([as_ m] & Hp & [= <-]).
  intros [Hpo Hz Ho Hb Hf Hsk Hn]. destruct (process_all_notified SINK_QUEUE _ _ _ _ ltac:(done) Hl Hp Hn) as (Hn' & Hf' & Hs').
  split; try done; cbn; congruence.
Qed.

Lemma ledger_step n last sl nl evs als x l x' :
  service_ok iso prefix s rules last sl nl evs als x → service_step iso prefix s x l = Ok x' → ledger n x →
  ledger (n + len (offered [l]) - if waits l x then 1 else 0) x'.
Proof.
  intros Hok Hs Hlg. pose proof (ok_lanes _ _ _ _ _ _ _ _ _ _ Hok) as Hl.
  destruct l as [e|now|tick|b]; cbn [service_step] in Hs; unfold offered; cbn [omap list_omap]; rewrite ?len_cons, ?len_nil.
  - apply result_bind_ok in Hs as (p & Hs & [= <-]). apply (ledger_pipeline n) in Hs; [|done].
    replace (n + (1 + 0) - _) with (n + if waits (Queued e) x then 0 else 1); [done|]. destruct (waits _ _); lia.
  - apply result_bind_ok in Hs as (p & Hs & [= <-]). apply (ledger_pipeline n) in Hs; [|done]. cbn [waits].
    by replace (n + 0 - 0) with (n + 0) by lia.
  - cbn [waits]. replace (n + 0 - 0) with (n + 0) by lia.
    destruct (sv_handling x) as [e|]; [|injection Hs as <-; by rewrite Z.add_0_r].
    apply result_bind_ok in Hs as (rt & Hc & Hs). apply result_bind_ok in Hs as (p & Hs & [= <-]).
    pose proof (ledger_consumed _ _ _ _ _ Hl Hc Hlg) as Hlg'. by apply (ledger_pipeline n) in Hs.
  - cbn [waits]. replace (n + 0 - 0) with n by lia.
    destruct b as [|now o|[now i|i|i ok]]; cbn [background_step aside_step] in Hs;
      try (injection Hs as <-; destruct Hlg; split; assumption); (revert Hs Hlg; by apply ledger_lane).
Qed.

Lemma ledger_run n last sl nl evs als x ls rest x' :
  service_ok iso prefix s rules last sl nl evs als x → ahead last sl nl (ls ++ rest) →
  service_run iso prefix s ls x = Ok x' → ledger n x → ledger (n + len (offered ls) - suspended ls x) x'.
Proof.
  revert n last sl nl evs als x. induction ls as [|l ls IH]; intros n last sl nl evs als x Hok Ha; cbn [service_run suspended].
  { intros [= <-]. by rewrite Z.add_0_r, Z.sub_0_r. }
  destruct (step_ok iso prefix s rules Hfields Hrules _ _ _ _ _ _ l (ls ++ rest) Hok Ha)
    as (x1 & last1 & sl1 & nl1 & evs1 & als1 & Hs & Hok1 & Ha1).
  rewrite Hs. intros Hr Hlg. pose proof (ledger_step _ _ _ _ _ _ _ _ _ Hok Hs Hlg) as Hlg1.
  pose proof (IH _ _ _ _ _ _ _ Hok1 Ha1 Hr Hlg1) as Hlg'.
  assert (Ho : len (offered (l :: ls)) = len (offered [l]) + len (offered ls)) by (rewrite <-len_app; f_equal; by destruct l).
  rewrite Ho. replace (n + _ - _) with (n + len (offered [l]) - (if waits l x then 1 else 0) + len (offered ls) - suspended ls x1)
    by lia. done.
Qed.
End ledger.

Definition sinks_of (rt : Runtime) : list AlertSink := (λ c, mkSink (sink_config_name c) 0) <$> rt_sinks rt.

Lemma start_ledger {TE TA : Type} s rules collectors sinks (rt : Runtime) (st : Store TE TA) :
  valid_fields s = true → build_runtime s rules collectors sinks = Ok rt →
  ledger s (sinks_of rt) 0 (start_service rt st).
Proof.
  intros Hv. unfold build_runtime. intros (m & Hm & H1)%result_bind_ok. apply result_bind_ok in H1 as (p & Hp & H1).
  apply result_bind_ok in H1 as (p' & Hr & [= <-]). apply register_all_keeps in Hr as (Hk & _).
  unfold new_pipeline in Hp. apply result_bind_ok in Hp as (q & Hq & Hp). apply result_bind_ok in Hp as (w & _ & [= <-]).
  apply new_bounded_ok in Hq as [_ ->]. cbn in Hk.
  unfold build_alert_manager, new_manager in Hm. apply result_bind_ok in Hm as (wd & _ & [= <-]).
  split; cbn [start_service sv_runtime rt_pipeline set_consumer pl_queue rt_alerts am_lanes am_min_severity sv_accepted].
  - by rewrite Hk.
  - by rewrite Hk.
  - by rewrite Hk.
  - by rewrite Hk.
  - done.
  - unfold sinks_of. cbn [rt_sinks]. clear. induction sinks as [|c sinks IH]; [done|]. cbn. f_equal. exact IH.
  - unfold notified. cbn [am_lanes am_min_severity am_emitted]. apply Forall_fmap, Forall_fmap, Forall_forall.
    intros c _. cbn. split; [|done]. unfold valid_fields, between in Hv.
    repeat match goal with H : _ && _ = true |- _ => apply andb_true_iff in H as [H ?] end. reflect_bools. lia.
Qed.

(** The sinks have different names. *)
Lemma sink_names etc_hostname gethostname s rules rt :
  new_runtime etc_hostname gethostname s rules = Ok rt → NoDup (sink_name <$> sinks_of rt).
Proof.
  unfold new_runtime, build_runtime. intros (sinks & Hs & H1)%result_bind_ok. apply result_bind_ok in H1 as (m & _ & H1).
  apply result_bind_ok in H1 as (p & _ & H1). apply result_bind_ok in H1 as (p' & _ & [= <-]).
  unfold sinks_of. cbn [rt_sinks]. rewrite <-list_fmap_compose. unfold build_sinks in Hs.
  apply result_bind_ok in Hs as (w & Hw & Hs). apply result_bind_ok in Hs as (m' & He & [= <-]).
  assert (w = [] ∨ ∃ u k a, w = [WebhookSink u k a]) as Hw'.
  { unfold build_webhook in Hw. repeat case_match; try done; try (injection Hw as <-; by left).
    apply result_bind_ok in Hw as (? & _ & [= <-]). right. eauto. }
  assert (m' = [] ∨ ∃ e, m' = [EmailSinkOf e]) as He'.
  { unfold build_email in He. repeat case_match; try done; injection He as <-; eauto. }
  destruct Hw' as [->|(u & k & a & ->)], He' as [->|(e & ->)]; by apply (bool_decide_unpack _).
Qed.

(** ** What became of the detections *)

Section accounts.
Context `{E : RegexEngine} {TE TA : Type} `{SqlTable EventValues TE, SqlTable AlertValues TA}.
Context (iso : Z → string) (prefix : string).

(** The records of the alerts, as [persisted] is those of the events *)
Definition alerts_persisted (als settled lost : list (Pending Alert)) (x : Service (TE := TE) (TA := TA)) : Prop :=
  accounts alert_values als settled lost (flight_alerts (sv_flushing x)) (pending_alerts (rt_buffer (sv_runtime x)))
    (alert_rows (sv_store x)) (sv_limbo x ≫= snd)
    (alerts_unpersisted (rt_buffer (sv_runtime x)) + refused_alerts (sv_flushing x)).

Lemma ok_alerts_persisted s rules last sl nl evs als (x : Service (TE := TE) (TA := TA)) :
  service_ok iso prefix s rules last sl nl evs als x → ∃ settled lost, alerts_persisted als settled lost x.
Proof. intros [_ _ _ _ [[_ Ha] _ _] _ _ _ _]. exact (lane_accounts _ _ _ _ _ _ _ _ _ Ha). Qed.

Lemma answered_none (answers : list (option Alert)) :
  len answers = len (filter (λ a, a = None) answers) + len (omap id answers).
Proof.
  induction answers as [|[a|] l IH]; [done|..]; rewrite filter_cons; [rewrite decide_False by done|rewrite decide_True by done];
    cbn [omap list_omap id]; unfold len in *; cbn [length]; lia.
Qed.

(** What the history of the alert manager says of its answers and counters *)
Lemma ok_detections s rules last sl nl evs als (x : Service (TE := TE) (TA := TA)) :
  service_ok iso prefix s rules last sl nl evs als x →
  let m := rt_alerts (sv_runtime x) in
  ∃ dss answers, evaluate_all iso (analysed (sv_handled x)) (new_engine rules MAX_THRESHOLD_GROUPS)
                 = Ok (dss, rt_engine (sv_runtime x)) ∧
    Forall2 answers_detection (concat dss) answers ∧ record <$> als = omap id answers ∧
    len (filter (λ a, a = None) answers) = am_suppressed_severity m + am_deduped m ∧
    len (concat dss) = am_suppressed_severity m + am_deduped m + am_throttled m + am_emitted m ∧
    ∀ labels, default 0 (od_get (detections_fired (rt_metrics (sv_runtime x))) labels)
              = len (filter (λ d, detection_labels d = labels) (concat dss)).
Proof.
  intros [_ _ (h & Hm & Hals & [Ht Hg] & dss & Hall & Hh & Hab) _ _ _ _ _ _] m.
  pose proof (mo_counts _ _ _ _ _ _ _ _ _ _ Hm) as Hcounts. pose proof (mo_stored _ _ _ _ _ _ _ _ _ _ Hm) as Hstored.
  fold m in Hcounts, Hstored. exists dss, h.*2. assert (Hlen : len (concat dss) = len h).
  { rewrite <-Hh. unfold len. by rewrite length_fmap. }
  assert (Homap : omap id h.*2 = omap snd h) by (clear; induction h as [|[c []] h IH]; cbn; by rewrite ?IH). rewrite Homap.
  pose proof (answered_none h.*2) as Hn. rewrite Homap in Hn. replace (len h.*2) with (len h) in Hn by (unfold len; by rewrite length_fmap).
  split_and!; [done| |done|lia|lia|].
  - rewrite <-Hh. apply Forall2_fmap_2, Forall_Forall2_diag. eapply Forall_impl; [exact Hab|]. by intros [c o].
  - intros labels. rewrite Hg, <-Hh, filter_fmap. unfold len. by rewrite length_fmap.
Qed.

Lemma no_errors_counted (handled : list (Event * fate)) :
  Forall (λ y, y.2 ≠ Errored) handled → Some (fates Errored handled) = Some 0.
Proof. intros Hne. unfold fates. by rewrite filter_none. Qed.

Lemma handled_counted (handled : list (Event * fate)) :
  Forall (λ y, y.2 ≠ Errored) handled → len handled.*1 = len (analysed handled) + fates Deduped handled.
Proof.
  unfold analysed, fates, len. rewrite !length_fmap. induction 1 as [|[e []] l Hf _ IH]; rewrite ?filter_cons; simpl in *; try done; lia.
Qed.

Lemma reached drivername environ etc_hostname gethostname s rules rt (st : Store TE TA) ls :
  validate_settings drivername environ s = Ok s → new_runtime etc_hostname gethostname s rules = Ok rt →
  Forall (λ r, validate_rule r = Ok r) rules → fresh_world prefix st → schedule ls →
  ∃ x last sl nl evs als, service_run iso prefix s ls (start_service rt st) = Ok x ∧
    service_ok iso prefix s rules last sl nl evs als x ∧
    ledger s (sinks_of rt) (len (offered ls) - suspended iso prefix s ls (start_service rt st)) x.
Proof.
  intros (_ & Hf & _)%enabled_known (collectors & sinks & Hrt)%built_runtime Hrules Hst Hls.
  destruct (schedule_ahead ls Hls) as (last & n & Ha). rewrite <-(app_nil_r ls) in Ha.
  pose proof (start_service_ok iso prefix s rules Hf collectors sinks rt st last n Hrt Hst) as Hstart.
  destruct (run_ok iso prefix s rules Hf Hrules _ _ _ _ _ _ _ _ Hstart Ha) as (x & last' & sl & nl & evs & als & Hrun & Hok & _).
  exists x, last', sl, nl, evs, als. split_and!; [done|done|].
  exact (ledger_run iso prefix s rules _ Hf Hrules 0 _ _ _ _ _ _ _ _ _ Hstart Ha Hrun
    (start_ledger s rules collectors sinks rt st Hf Hrt)).
Qed.

(** C5: no alert is lost unnoticed: in a service built from validated settings
    and rules, under every interleaving, the detections are what the engine
    finds in the analysed events, in order, and each is answered: with nothing,
    in exactly as many cases as the counters of the severity floor and of the
    duplicates say, or with an alert naming its rule and event; each alert has
    one record, and each record is in one place only: stored, by one row, as it
    is, being written, buffered, or among the losses, which are as many as the
    counters say.  Of those not counted as stored only a record whose save was
    given up on (it may have committed unseen) can have a row. *)
Theorem every_detection_accounted_for drivername environ etc_hostname gethostname s rules rt (st : Store TE TA) ls :
  validate_settings drivername environ s = Ok s → new_runtime etc_hostname gethostname s rules = Ok rt →
  Forall (λ r, validate_rule r = Ok r) rules → fresh_world prefix st → schedule ls →
  ∃ x dss answers als settled lost, service_run iso prefix s ls (start_service rt st) = Ok x ∧
    evaluate_all iso (analysed (sv_handled x)) (new_engine rules MAX_THRESHOLD_GROUPS)
    = Ok (dss, rt_engine (sv_runtime x)) ∧
    Forall2 answers_detection (concat dss) answers ∧
    len (filter (λ a, a = None) answers)
    = am_suppressed_severity (rt_alerts (sv_runtime x)) + am_deduped (rt_alerts (sv_runtime x)) ∧
    record <$> als = omap id answers ∧ alerts_persisted als settled lost x.
Proof.
  intros Hs Hrt Hrules Hst Hls.
  destruct (reached _ _ _ _ _ _ _ _ _ Hs Hrt Hrules Hst Hls) as (x & last & sl & nl & evs & als & Hrun & Hok & _).
  destruct (ok_detections _ _ _ _ _ _ _ _ Hok) as (dss & answers & Hall & Hab & Hals & Hn & _).
  destruct (ok_alerts_persisted _ _ _ _ _ _ _ _ Hok) as (settled & lost & Hp). by exists x, dss, answers, als, settled, lost.
Qed.

(** C6: what [/metrics] shows adds up: in such a service, at any moment of any
    run, a scrape shows the number of events analysed, of duplicates and of
    queued ones as they are, and no failed analysis; with the events refused at
    a full queue and the one being analysed they are all the events offered, one
    whose collector had to wait for room counting when it is offered again (only
    under the blocking policy does one wait, and there none is refused); the
    detections fired, by rule
    and severity, are those the engine finds in the analysed events; and for
    each sink the detections are exactly those suppressed by a gate, delivered,
    failed, dropped, waiting and in delivery. *)
Theorem scrape_adds_up drivername environ etc_hostname gethostname s rules rt (st : Store TE TA) ls
    collectors pruned running :
  validate_settings drivername environ s = Ok s → new_runtime etc_hostname gethostname s rules = Ok rt →
  Forall (λ r, validate_rule r = Ok r) rules → fresh_world prefix st → schedule ls →
  ∃ x dss refused, service_run iso prefix s ls (start_service rt st) = Ok x ∧
    evaluate_all iso (analysed (sv_handled x)) (new_engine rules MAX_THRESHOLD_GROUPS)
    = Ok (dss, rt_engine (sv_runtime x)) ∧
    let shown := sample (scrape collectors pruned running (sv_runtime x)) in
    let waiting := q_items (_queue (pl_queue (rt_pipeline (sv_runtime x)))) in
    shown "sentinel_events_ingested" [] = Some (len (analysed (sv_handled x))) ∧
    shown "sentinel_events_dropped" ["duplicate"] = Some (fates Deduped (sv_handled x)) ∧
    shown "sentinel_events_dropped" ["consumer_error"] = Some 0 ∧
    shown "sentinel_queue_depth" [] = Some (len waiting) ∧
    shown "sentinel_events_dropped" ["queue_full"] = Some refused ∧
    len (offered ls) - suspended iso prefix s ls (start_service rt st)
    = refused + len (analysed (sv_handled x)) + fates Deduped (sv_handled x)
      + len (option_list (sv_handling x)) + len waiting ∧
    match queue_backpressure s with
    | BLOCK => refused = 0
    | DROP_NEWEST => suspended iso prefix s ls (start_service rt st) = 0
    end ∧
    (∀ rule_id severity,
       default 0 (shown "sentinel_detections_fired" [rule_id; str_of_int severity])
       = len (filter (λ d, detection_labels d = [rule_id; str_of_int severity]) (concat dss))) ∧
    ∀ l, l ∈ am_lanes (rt_alerts (sv_runtime x)) →
      ∃ severity duplicate throttled delivered undelivered,
        shown "sentinel_alerts_suppressed" ["severity"] = Some severity ∧
        shown "sentinel_alerts_suppressed" ["duplicate"] = Some duplicate ∧
        shown "sentinel_alerts_suppressed" ["throttled"] = Some throttled ∧
        shown "sentinel_alerts_emitted" [sink_name (lane_sink l)] = Some delivered ∧
        shown "sentinel_alert_deliveries_dropped" [sink_name (lane_sink l)] = Some undelivered ∧
        len (concat dss) = severity + duplicate + throttled + delivered + undelivered
                             + lane_errors l + q_size (lane_queue l) + in_flight l.
Proof.
  intros Hs Hrt Hrules Hst Hls.
  destruct (reached _ _ _ _ _ _ _ _ _ Hs Hrt Hrules Hst Hls) as (x & last & sl & nl & evs & als & Hrun & Hok & Hlg).
  destruct (ok_detections _ _ _ _ _ _ _ _ Hok) as (dss & answers & Hall & _ & _ & _ & Hsum & Hfired).
  exists x, dss, (_dropped (pl_queue (rt_pipeline (sv_runtime x)))). split; [done|]. split; [done|]. cbv zeta.
  rewrite shown_ingested, shown_depth, !shown_dropped, !shown_suppressed.
  destruct Hlg as [_ _ Hoff Hblock _ Hsinks Hnot]. pose proof (ok_pipeline _ _ _ _ _ _ _ _ _ _ Hok) as Hp.
  pose proof (ok_ingested _ _ _ _ _ _ _ _ _ _ Hok) as Hing. pose proof (ok_no_error _ _ _ _ _ _ _ _ _ _ Hok) as Hne.
  split; [by rewrite Hing|]. split; [exact (f_equal Some (so_deduped _ _ _ _ _ Hp))|].
  split; [etransitivity; [exact (f_equal Some (so_errors _ _ _ _ _ Hp))|by apply no_errors_counted]|]. split; [done|]. split; [done|]. split; [|split; [|split]].
  - rewrite <-Hoff. pose proof (so_fifo _ _ _ _ _ Hp) as Hfifo.
    cbn [pipeline_of sys_accepted sys_pl] in Hfifo. rewrite Hfifo, len_app. unfold taken. rewrite len_app.
    cbn [pipeline_of sys_handled sys_handling]. rewrite (handled_counted _ Hne). lia.
  - destruct (queue_backpressure s) eqn:Hpol; [by apply Hblock|by apply never_suspended].
  - intros rid sev. rewrite shown_fired. apply Hfired.
  - intros l Hl. pose proof (sink_names _ _ _ _ _ Hrt) as Hnd. rewrite <-Hsinks, <-list_fmap_compose in Hnd.
    destruct (shown_delivered collectors pruned running _ l Hnd Hl) as [Hdel Hdrop].
    eexists _, _, _, _, _. split; [reflexivity|]. split; [reflexivity|]. split; [reflexivity|]. split; [exact Hdel|]. split; [exact Hdrop|].
    destruct (proj1 (Forall_forall _ _) Hnot l Hl) as [_ Hacc]. unfold accounted_for in Hacc. rewrite Hsum. cbn. lia.
Qed.
End accounts.

(** ** Witnesses *)

Lemma every_detection_accounted_for_witness :
  ∃ rt x dss als settled lost, new_runtime (Raise OSError) "box" (default_settings PRODUCTION) example_rules = Ok rt ∧
    service_run (E := literal_engine) str_of_int "p" (default_settings PRODUCTION) example_service_run
      (start_service rt example_store) = Ok x ∧
    evaluate_all (H := literal_engine) str_of_int (analysed (sv_handled x)) (new_engine example_rules MAX_THRESHOLD_GROUPS)
    = Ok (dss, rt_engine (sv_runtime x)) ∧ alerts_persisted als settled lost x.
Proof.
  destruct (new_runtime (Raise OSError) "box" (default_settings PRODUCTION) example_rules) as [rt|e] eqn:Hrt;
    [|discriminate (f_equal (@is_ok _) Hrt)].
  destruct (every_detection_accounted_for (E := literal_engine) str_of_int "p" (λ _, Some "sqlite+aiosqlite"%string)
    ["SENTINEL_ENV"; "PATH"]%string (Raise OSError) "box" (default_settings PRODUCTION) example_rules rt example_store
    example_service_run (default_settings_valid PRODUCTION) Hrt example_rules_valid example_store_fresh)
    as (x & dss & answers & als & settled & lost & Hr & He & _ & _ & _ & Hp).
  - pose proof (example_schedule 0) as Hs. rewrite app_nil_r in Hs. exact Hs.
  - exists rt, x, dss, als, settled, lost. split; [reflexivity|]. split; [exact Hr|]. split; [exact He|exact Hp].
Defined.

Lemma scrape_adds_up_witness :
  ∃ rt x, new_runtime (Raise OSError) "box" (default_settings PRODUCTION) example_rules = Ok rt ∧
    service_run (E := literal_engine) str_of_int "p" (default_settings PRODUCTION) example_service_run
      (start_service rt example_store) = Ok x ∧
    sample (scrape [mkWatched "process" (Some 2) true] (0, 0) true (sv_runtime x)) "sentinel_events_ingested" []
    = Some (len (analysed (sv_handled x))).
Proof.
  destruct (new_runtime (Raise OSError) "box" (default_settings PRODUCTION) example_rules) as [rt|e] eqn:Hrt;
    [|discriminate (f_equal (@is_ok _) Hrt)].
  destruct (scrape_adds_up (E := literal_engine) str_of_int "p" (λ _, Some "sqlite+aiosqlite"%string)
    ["SENTINEL_ENV"; "PATH"]%string (Raise OSError) "box" (default_settings PRODUCTION) example_rules rt example_store
    example_service_run [mkWatched "process" (Some 2) true] (0, 0) true
    (default_settings_valid PRODUCTION) Hrt example_rules_valid example_store_fresh)
    as (x & dss & refused & Hr & _ & Hi & _).
  - pose proof (example_schedule 0) as Hs. rewrite app_nil_r in Hs. exact Hs.
  - exists rt, x. split; [reflexivity|]. split; [exact Hr|exact Hi].
Defined.

(** A scrape of the example run, evaluated *)
Example example_scrape :
  match new_runtime (Raise OSError) "box" (default_settings PRODUCTION) example_rules with
  | Ok rt =>
      match service_run (E := literal_engine) str_of_int "p" (default_settings PRODUCTION) example_service_run
              (start_service rt example_store) with
      | Ok x =>
          let shown := sample (scrape [mkWatched "process" (Some 2) true] (0, 0) true (sv_runtime x)) in
          [shown "sentinel_events_ingested" []; shown "sentinel_queue_depth" [];
           shown "sentinel_events_dropped" ["dead_letter"]; shown "sentinel_collector_source_up" ["process"];
           shown "sentinel_persist_buffered" ["events"]; shown "sentinel_persist_healthy" [];
           shown "sentinel_detections_fired" ["any-failure"; "5"]]
      | Raise _ => []
      end
  | Raise _ => []
  end = [Some 1; Some 2; Some 2; Some 1; Some 1; Some 0; Some 1].
Proof. vm_compute. reflexivity. Qed.
