(* ===== verification/Database.v ===== *)
(** * The database engine ([storage/database.py])

    The private SQLite file, and the deadline of a database call: a call past
    it is cancelled and left to end in the background.  Reading a URL is
    SQLAlchemy's, hence a parameter ([make_url]); a task is what it would do if
    left alone. *)

From S2P Require Import Prelude ODict PyText Base Integrity.
Local Open Scope string_scope.
Local Open Scope Z_scope.

(** ** The database file *)

(** [make_url(url)], as far as it is read *)
Record ParsedUrl := mkUrl { backend_name : string; url_database : option string }.

(** The directory entries by path with their [st_mode], what else [os.open] and
    [stat] depend on, and the process's umask. *)
Record FileSystem := mkFileSystem {
  entries : odict string Z;
  can_create : string → bool;
  can_stat : string → bool;
  umask : Z;
}.

Definition PRIVATE_MODE : Z := 384.  (* 0o600 *)

Inductive opened := Created (fs : FileSystem) | FileExists | NotCreated.

(** [os.open(path, O_WRONLY | O_CREAT | O_EXCL | O_CLOEXEC, mode)] *)
Definition open_exclusive (path : string) (mode : Z) (fs : FileSystem) : opened :=
  if od_mem (entries fs) path then FileExists
  else if can_create fs path then
    Created (mkFileSystem (od_set (entries fs) path (Z.land mode (Z.lnot (umask fs)))) (can_create fs) (can_stat fs) (umask fs))
  else NotCreated.

(** [stat.S_IMODE] *)
Definition s_imode (mode : Z) : Z := Z.land mode 4095.

(** A warning that others can read the file: its path and mode *)
Definition warning := (string * string)%type.

(** The file a URL names, if it is a plain SQLite file *)
Definition sqlite_path (url : ParsedUrl) : option string :=
  match url_database url with
  | Some database =>
      if negb (String.eqb (backend_name url) "sqlite") || String.eqb database "" || String.eqb database ":memory:"
         || str_startswith database "file:" then None
      else Some (path_str (path_of database))
  | None => None
  end.

(** [create_private_sqlite_file] *)
Definition create_private_sqlite_file (url : ParsedUrl) (fs : FileSystem) : FileSystem * option warning :=
  match sqlite_path url with
  | None => (fs, None)
  | Some path =>
      match open_exclusive path PRIVATE_MODE fs with
      | Created fs => (fs, None)
      | NotCreated => (fs, None)
      | FileExists =>
          match (if can_stat fs path then od_get (entries fs) path else None) with
          | None => (fs, None)
          | Some st =>
              let mode := s_imode st in
              (fs, if Z.land mode 63 =? 0 then None else Some (path, octal_mode mode))
          end
      end
  end.

(** ** Calls with a deadline *)

(** A task: when it ends if left alone ([None]: never), and how. *)
Record Task (A : Type) := mkTask { ends_at : option Z; ends_with : result A }.
Arguments mkTask {A} _ _.
Arguments ends_at {A} _.
Arguments ends_with {A} _.

(** What the caller gets ([None]: it was itself cancelled, and that is raised),
    when, and whether the task was given up on. *)
Record Answer (A : Type) := mkAnswer { answer : option (result A); answer_at : Z; given_up : bool }.
Arguments mkAnswer {A} _ _ _.
Arguments answer {A} _.
Arguments answer_at {A} _.
Arguments given_up {A} _.

Definition done_by {A} (t : Task A) (instant : Z) : option Z :=
  match ends_at t with Some e => if e <=? instant then Some e else None | None => None end.

(** [Database.run] at [now]; [cancelled] is when its caller is cancelled. *)
Definition run {A} (now max_wait : Z) (cancelled : option Z) (t : Task A) : Answer A :=
  let deadline := now + Z.max 0 max_wait in
  let waits_until := match cancelled with Some c => Z.min c deadline | None => deadline end in
  match done_by t waits_until with
  | Some e => mkAnswer (Some (ends_with t)) (Z.max now e) false
  | None =>
      match cancelled with
      | Some c => if c <=? deadline then mkAnswer None c true
                  else mkAnswer (Some (Raise TimeoutError)) deadline true
      | None => mkAnswer (Some (Raise TimeoutError)) deadline true
      end
  end.

(** [self._abandoned] *)
Definition abandoned := list nat.

(** [_abandon] and [_forget] *)
Definition abandon (id : nat) (a : abandoned) : abandoned := if decide (id ∈ a) then a else id :: a.
Definition forget (id : nat) (a : abandoned) : abandoned := filter (λ i, i ≠ id) a.

(** [dispose]: the engine's own [dispose] as a task; a warning when it is given
    up on *)
Definition DISPOSE_TIMEOUT : Z := 5 * SECOND.
Definition dispose {A} (now max_wait : Z) (t : Task A) : Z * bool :=
  let r := run now max_wait None t in (answer_at r, given_up r).

(** What happens to the calls of a database, each with its own number *)
Inductive db_event :=
  | Called (id : nat) (now max_wait : Z) (cancelled : option Z) (t : Task unit)
  | CleanedUp (id : nat).

Definition db_step (a : abandoned) (e : db_event) : abandoned :=
  match e with
  | Called id now max_wait cancelled t => if given_up (run now max_wait cancelled t) then abandon id a else a
  | CleanedUp id => forget id a
  end.

(** ** Lemmas *)

(** A URL of a SQLite database in a file of its own *)
Definition plain_file (url : ParsedUrl) (path : string) : Prop :=
  ∃ database, url_database url = Some database ∧ backend_name url = "sqlite" ∧ database ≠ "" ∧
    database ≠ ":memory:" ∧ (∀ uri, database ≠ "file:" +:+ uri) ∧ path = path_str (path_of database).

Lemma sqlite_path_plain url path : sqlite_path url = Some path ↔ plain_file url path.
Proof.
  unfold sqlite_path, plain_file. destruct (url_database url) as [d|]; [|naive_solver].
  destruct (String.eqb_spec (backend_name url) "sqlite"), (String.eqb_spec d ""), (String.eqb_spec d ":memory:"); cbn [negb orb];
    try (split; [done|]; intros (? & [= <-] & ?); tauto).
  destruct (str_startswith d "file:") eqn:Hf.
  - split; [done|]. intros (? & [= <-] & _ & _ & _ & Hu & _). apply startswith_app in Hf as [rest Hr]. by destruct (Hu rest).
  - split.
    + intros [= <-]. exists d. split_and!; try done. intros uri Hu.
      assert (str_startswith d "file:" = true) by (apply startswith_app; eauto). congruence.
    + by intros (? & [= <-] & _ & _ & _ & _ & ->).
Qed.

(** The mode of a file created with 0600 *)
Lemma private_bits umask i : 0 ≤ i →
  Z.testbit (Z.land PRIVATE_MODE (Z.lnot umask)) i = true ↔ (i = 7 ∨ i = 8) ∧ Z.testbit umask i = false.
Proof.
  intros Hi. rewrite Z.land_spec, Z.lnot_spec, andb_true_iff, negb_true_iff by done. f_equiv.
  destruct (decide (i < 9)) as [Hlt|Hge].
  - assert (i = 0 ∨ i = 1 ∨ i = 2 ∨ i = 3 ∨ i = 4 ∨ i = 5 ∨ i = 6 ∨ i = 7 ∨ i = 8) as Hc by lia.
    repeat destruct Hc as [->|Hc]; try (vm_compute; split; [try done; auto|by intros []]). subst. vm_compute. split; auto.
  - split; [|lia]. rewrite Z.bits_above_log2; [done|done|]. change (Z.log2 PRIVATE_MODE) with 8. lia.
Qed.

Definition others_bits : list Z := [0; 1; 2; 3; 4; 5].

Lemma others_can m : Z.land (s_imode m) 63 =? 0 = negb (existsb (Z.testbit m) others_bits).
Proof.
  unfold s_imode. rewrite <-Z.land_assoc. change (Z.land 4095 63) with (Z.ones 6).
  apply eq_true_iff_eq. rewrite Z.eqb_eq, negb_true_iff. split.
  - intros Hz. apply not_true_iff_false. intros (i & Hi & Hb)%existsb_exists.
    assert (0 ≤ i < 6) as Hr by (unfold others_bits in Hi; simpl in Hi; lia).
    apply (f_equal (λ z, Z.testbit z i)) in Hz. rewrite Z.land_spec, Hb, Z.bits_0, Z.ones_spec_low in Hz by lia. done.
  - intros He. apply Z.bits_inj'. intros i Hi. rewrite Z.land_spec, Z.bits_0.
    destruct (decide (i < 6)); [|by rewrite Z.ones_spec_high, andb_false_r by lia].
    destruct (Z.testbit m i) eqn:Hb; [|done]. rewrite <-not_true_iff_false in He. destruct He.
    apply existsb_exists. exists i. split; [unfold others_bits; simpl; lia|done].
Qed.

(** A call is answered by its deadline whatever its task does; unless it is
    given up on, the answer is the task's. *)
Lemma run_answers {A} now max_wait cancelled (t : Task A) :
  (∀ c, cancelled = Some c → now ≤ c) →
  let r := run now max_wait cancelled t in
  now ≤ answer_at r ≤ now + Z.max 0 max_wait ∧
  (given_up r = false → answer r = Some (ends_with t)) ∧
  (given_up r = true ↔ done_by t (answer_at r) = None).
Proof.
  intros Hc. unfold run. cbv zeta. set (deadline := now + Z.max 0 max_wait).
  assert (Hu : now ≤ match cancelled with Some c => Z.min c deadline | None => deadline end ≤ deadline).
  { destruct cancelled as [c|]; [specialize (Hc c eq_refl)|]; lia. }
  destruct (done_by t _) as [e|] eqn:Hd.
  - unfold done_by in Hd. destruct (ends_at t) as [e'|] eqn:He; [|done]. destruct (e' <=? _) eqn:Hle; [|done].
    injection Hd as ->. apply Z.leb_le in Hle. cbn. split; [lia|]. split; [done|]. split; [done|].
    unfold done_by. rewrite He, (proj2 (Z.leb_le _ _)) by lia. done.
  - destruct cancelled as [c|]; [destruct (c <=? deadline) eqn:Hle|]; cbn; (split; [lia|]); (split; [done|]); split; try done; intros _.
    + apply Z.leb_le in Hle. by rewrite Z.min_l in Hd by lia.
    + apply Z.leb_gt in Hle. by rewrite Z.min_r in Hd by lia.
Qed.

Lemma elem_of_abandon id id' a : id' ∈ abandon id a ↔ id' = id ∨ id' ∈ a.
Proof. unfold abandon. case_decide; [|by rewrite elem_of_cons]. naive_solver. Qed.

Lemma elem_of_forget id id' a : id' ∈ forget id a ↔ id' ≠ id ∧ id' ∈ a.
Proof. unfold forget. by rewrite list_elem_of_filter. Qed.

(** A number is kept from when its call is given up on until its cleanup ends. *)
Fixpoint kept (id : nat) (held : bool) (l : list db_event) : bool :=
  match l with
  | [] => held
  | Called id' now max_wait cancelled t :: l' =>
      kept id (held || (bool_decide (id' = id) && given_up (run now max_wait cancelled t))) l'
  | CleanedUp id' :: l' => kept id (held && negb (bool_decide (id' = id))) l'
  end.

Lemma abandoned_kept id l a : id ∈ foldl db_step a l ↔ kept id (bool_decide (id ∈ a)) l = true.
Proof.
  revert a. induction l as [|[id' now w c t|id'] l IH]; intros a; cbn [foldl kept].
  - by rewrite bool_decide_eq_true.
  - rewrite IH. cbn [db_step]. do 2 f_equiv. destruct (given_up _); [|by rewrite andb_false_r, orb_false_r].
    rewrite andb_true_r. apply eq_true_iff_eq. rewrite orb_true_iff, !bool_decide_eq_true, elem_of_abandon. naive_solver.
  - rewrite IH. cbn [db_step]. do 2 f_equiv. apply eq_true_iff_eq.
    rewrite andb_true_iff, negb_true_iff, bool_decide_eq_false, !bool_decide_eq_true, elem_of_forget. naive_solver.
Qed.

(** ** Properties *)

(** C35: the database file is private: a URL that is not a plain SQLite file
    changes nothing.  For one that is, a file that is not there and can be
    created is created, with read and write for its owner as far as the umask
    leaves them and nothing for anyone else, every other file as it was; a file
    that is there is left alone, with a warning that names it and its mode
    exactly when its mode can be read and gives others access. *)
Theorem database_file_is_private url fs :
  let '(fs', warned) := create_private_sqlite_file url fs in
  ((∀ path, ¬ plain_file url path) → fs' = fs ∧ warned = None) ∧
  ∀ path, plain_file url path →
    match od_get (entries fs) path with
    | None =>
        warned = None ∧ (can_create fs path = false → fs' = fs) ∧
        (can_create fs path = true →
          (∃ m, od_get (entries fs') path = Some m ∧
            ∀ i, 0 ≤ i → Z.testbit m i = true ↔ (i = 7 ∨ i = 8) ∧ Z.testbit (umask fs) i = false) ∧
          ∀ other, other ≠ path → od_get (entries fs') other = od_get (entries fs) other)
    | Some m =>
        fs' = fs ∧
        warned = (if can_stat fs path && existsb (Z.testbit m) others_bits then Some (path, octal_mode (m mod 4096)) else None)
    end.
Proof.
  unfold create_private_sqlite_file. destruct (sqlite_path url) as [path|] eqn:Hpath.
  2:{ split; [done|]. intros path Hp%sqlite_path_plain. congruence. }
  assert (Hone : ∀ p, plain_file url p → p = path) by (intros p Hp%sqlite_path_plain; congruence).
  apply sqlite_path_plain in Hpath. unfold open_exclusive. destruct (od_mem (entries fs) path) eqn:Hm.
  - apply od_mem_true, od_get_is_Some in Hm as [st Hst].
    destruct (can_stat fs path) eqn:Hs; [rewrite Hst|]; (split; [by intros Hn; destruct (Hn path)|]);
      intros p ->%Hone; rewrite Hst, Hs; (split; [done|]); [|done].
    rewrite others_can. unfold s_imode. change 4095 with (Z.ones 12). rewrite Z.land_ones by done.
    by destruct (existsb _ _).
  - apply od_mem_false, od_get_None in Hm. destruct (can_create fs path) eqn:Hc;
      (split; [by intros Hn; destruct (Hn path)|]); intros p ->%Hone; rewrite Hm, Hc; (split; [done|]); (split; [done|]); [|done].
    intros _. cbn [entries]. split.
    + eexists. split; [by rewrite od_get_set_eq|]. intros i Hi. by apply private_bits.
    + intros other Ho. by rewrite od_get_set_ne.
Qed.

(** Every database call ends on time: whatever its task does, hanging for
    ever included, the caller is answered by the deadline; the answer is the
    task's own unless the task was still running, in which case it is given up
    on; and a task given up on is referenced exactly until its cleanup ends. *)
Theorem database_calls_end_on_time l id now max_wait cancelled (t : Task unit) :
  (∀ c, cancelled = Some c → now ≤ c) →
  let r := run now max_wait cancelled t in
  now ≤ answer_at r ≤ now + Z.max 0 max_wait ∧
  (given_up r = false → answer r = Some (ends_with t)) ∧
  (given_up r = true ↔ done_by t (answer_at r) = None) ∧
  (id ∈ foldl db_step [] (l ++ [Called id now max_wait cancelled t])
   ↔ given_up r = true ∨ kept id false l = true) ∧
  id ∉ foldl db_step [] (l ++ [Called id now max_wait cancelled t; CleanedUp id]).
Proof.
  intros Hc r. destruct (run_answers now max_wait cancelled t Hc) as (Hb & Ha & Hg). fold r in Hb, Ha, Hg.
  split; [done|]. split; [done|]. split; [done|]. rewrite !foldl_app. cbn [foldl db_step]. fold r. split.
  - pose proof (abandoned_kept id l []) as Hk. rewrite bool_decide_false in Hk by (by intros ?%elem_of_nil).
    rewrite <-Hk. destruct (given_up r); [rewrite elem_of_abandon|]; naive_solver.
  - rewrite elem_of_forget. naive_solver.
Qed.

Lemma database_calls_end_on_time_witness :
  let r := run 10 5 None (mkTask None (Ok ())) in
  answer r = Some (Raise TimeoutError) ∧ answer_at r ≤ 15 ∧
  7%nat ∉ foldl db_step [] [Called 7 10 5 None (mkTask None (Ok ())); CleanedUp 7].
Proof.
  destruct (database_calls_end_on_time [] 7 10 5 None (mkTask None (Ok ()))) as ([_ Hb] & _ & _ & _ & Hn); [done|].
  split; [reflexivity|]. split; [exact Hb|exact Hn].
Defined.

Definition example_database : ParsedUrl := mkUrl "sqlite" (Some "sentinel.db").
Definition example_files : FileSystem := mkFileSystem [("other.db", 33188)] (λ _, true) (λ _, true) 18.

Lemma database_file_is_private_witness :
  ∃ m, od_get (entries (create_private_sqlite_file example_database example_files).1) "sentinel.db" = Some m ∧
    Z.testbit m 5 = false.
Proof.
  destruct (database_file_is_private example_database example_files) as [_ Hp].
  destruct (Hp "sentinel.db") as (_ & _ & Hc).
  - exists "sentinel.db". repeat split; discriminate.
  - destruct (Hc eq_refl) as [(m & Hm & Hb) _]. exists m. split; [exact Hm|].
    destruct (Z.testbit m 5) eqn:H5; [|reflexivity]. apply (Hb 5) in H5; [|lia]. lia.
Defined.
