(* ===== verification/Api.v ===== *)
(** * The read API ([api/security.py], [api/app.py], [api/schemas.py])

    A request goes through the middleware in the order the application
    installs it (hardening headers, CORS if origins are configured, request
    context, rate limiter), then to its handler, which for every data endpoint
    first runs [require_api_key].  What the framework does is kept to its
    contract: it parses the query into integers, refuses values outside the
    declared bounds with a validation error and methods but GET on a path it
    knows, and turns an [HTTPException] into a call of the registered handler.
    Its CORS middleware is a parameter ([Cors]) with the behaviour it documents
    ([cors_contract]): it answers preflights itself, and sets CORS headers alone
    on the others. *)

From S2P Require Import Prelude ODict Window PyText Events Rules Engine Alerting Storage.
Local Open Scope string_scope.
Local Open Scope Z_scope.

(** ** Requests and responses *)

Record request := mkRequest {
  rq_method : string;
  rq_path : string;
  rq_origin : option string;      (* the header *)
  rq_client : option string;      (* the TCP peer *)
  rq_authorization : string;      (* the header, or empty *)
  rq_limit : option Z;
  rq_cursor : option Z;
}.

(** [EventOut] and [AlertOut] are the columns a row holds; [RuleOut] drops the
    condition. *)
Record RuleOut := mkRuleOut {
  ro_id : string; ro_title : string; ro_severity : Z;
  ro_attack : list string; ro_nist_csf : list string; ro_d3fend : list string;
}.

Definition from_rule (r : Rule) : RuleOut :=
  mkRuleOut (rule_id r) (rule_title r) (rule_severity r) (rule_attack r) (rule_nist_csf r) (rule_d3fend r).

(** [_split] of a stored list *)
Definition split_parts (value : string) : list string :=
  List.filter (λ part, negb (String.eqb part "")) (str_split "," value).

Record AlertOut := mkAlertOut {
  ao_id : Z; ao_dedup_key : string; ao_rule_id : string; ao_severity : Z;
  ao_attack : list string; ao_nist_csf : list string; ao_event_id : string; ao_host : string;
  ao_occurred_at : datetime; ao_summary : string; ao_notified : bool;
}.

Definition alert_from_row (r : row AlertValues) : AlertOut :=
  let v := row_value r in
  mkAlertOut (row_id r) (av_dedup_key v) (av_rule_id v) (av_severity v) (split_parts (av_attack v))
    (split_parts (av_nist_csf v)) (av_event_id v) (av_host v) (av_occurred_at v) (av_summary v)
    (av_notified v).

Record EventOut := mkEventOut { eo_id : Z; eo_values : EventValues }.

Definition event_from_row (r : row EventValues) : EventOut := mkEventOut (row_id r) (row_value r).

Record Pagination := mkPagination { pg_cursor : option Z; pg_has_more : bool; pg_total : option Z }.

Record Page (A : Type) := mkPage { page_data : list A; page_pagination : Pagination }.
Arguments mkPage {A} _ _.
Arguments page_data {A} _.
Arguments page_pagination {A} _.

Inductive body :=
  | ErrorBody (code message : string)
  | StatusBody (status : string)
  | TextBody (text : string)
  | MetricsBody
  | EventsBody (page : Page EventOut)
  | AlertsBody (page : Page AlertOut)
  | RulesBody (page : Page RuleOut).

Record response := mkResponse {
  rs_status : Z;
  rs_body : body;
  rs_headers : odict string string;
}.

(** ** Security *)

Definition SECURITY_HEADERS : odict string string := [
  ("Strict-Transport-Security", "max-age=31536000; includeSubDomains");
  ("X-Content-Type-Options", "nosniff");
  ("X-Frame-Options", "DENY");
  ("Referrer-Policy", "strict-origin-when-cross-origin");
  ("Permissions-Policy", "camera=(), microphone=(), geolocation=()");
  ("Cache-Control", "no-store");
  ("Content-Security-Policy", "default-src 'none'; frame-ancestors 'none'")].

(** [{**a, **b}] *)
Definition merge_headers (a b : odict string string) : odict string string :=
  foldl (λ d kv, od_set d (fst kv) (snd kv)) a b.

Definition error_response (status : Z) (code message : string) (headers : odict string string) : response :=
  mkResponse status (ErrorBody code message) (merge_headers SECURITY_HEADERS headers).

(** [_bearer_token] *)
Definition bearer_token (rq : request) : option string :=
  let '(scheme, _, token) := str_partition " " (rq_authorization rq) in
  if String.eqb (str_lower scheme) "bearer" && negb (String.eqb token "") then Some token else None.

(** [_token_matches]: equality of the encoded bytes *)
Definition token_matches (token configured : string) : bool :=
  bool_decide (utf8_encode token = utf8_encode configured).

(** An [HTTPException]: status, detail, headers. *)
Definition http_exception : Type := Z * string * odict string string.

(** [require_api_key]: [None] lets the request through. *)
Definition require_api_key (configured : option string) (rq : request) : option http_exception :=
  match configured with
  | None => Some (503, "authentication is not configured", [])
  | Some key =>
      match bearer_token rq with
      | None => Some (401, "missing bearer token", [("WWW-Authenticate", "Bearer")])
      | Some token =>
          if token_matches token key then None
          else Some (401, "invalid token", [("WWW-Authenticate", "Bearer")])
      end
  end.

(** [SecurityHeadersMiddleware]: [setdefault] of each header *)
Definition add_security_headers (r : response) : response :=
  mkResponse (rs_status r) (rs_body r)
    (foldl (λ d kv, if od_mem d (fst kv) then d else od_set d (fst kv) (snd kv)) (rs_headers r)
       SECURITY_HEADERS).

(** [CORSMiddleware]: the requests it answers itself, and what it makes of the
    responses to the others *)
Record Cors := mkCors {
  cors_preflight : request → option response;
  cors_allow : request → response → response;
}.

(** [RequestContextMiddleware]: an exception becomes a generic 500. *)
Definition with_context (request_id : string) (r : result response) : response :=
  let r := match r with
           | Ok r => r
           | Raise _ => error_response 500 "INTERNAL_ERROR" "an unexpected error occurred" []
           end in
  mkResponse (rs_status r) (rs_body r) (od_set (rs_headers r) "X-Request-ID" request_id).

(** ** The rate limiter *)

Definition MAX_TRACKED_CLIENTS : Z := 100000.

Definition hits := odict string (list Z).

(** [_window_for]: the window, and the table that now holds it *)
Definition window_for (client : string) (h : hits) : result (list Z * hits) :=
  match od_get h client with
  | Some window => Ok (window, h)
  | None =>
      h ← (if MAX_TRACKED_CLIENTS <=? len h then od_pop_oldest h else Ok h);
      Ok ([], od_set h client [])
  end.

Section limiter.
Context (limit window_us : Z) (api_key : option string) (exempt : list string).

Definition authenticated (rq : request) : bool :=
  match bearer_token rq, api_key with
  | Some token, Some key => token_matches token key
  | _, _ => false
  end.

Definition bucket (rq : request) : string :=
  (if authenticated rq then "key" else "anon") +:+ ":" +:+ default "unknown" (rq_client rq).

(** [int(window) or 1] *)
Definition retry_after : string :=
  str_of_int (if window_us / SECOND =? 0 then 1 else window_us / SECOND).

(** [dispatch]: [None] passes the request on. *)
Definition limit_step (now : Z) (rq : request) (h : hits) : result (option response * hits) :=
  if bool_decide (rq_path rq ∈ exempt) then Ok (None, h)
  else
    '(window, h) ← window_for (bucket rq) h;
    let '(ok, window) := rate_step limit window_us now window in
    let h := od_set h (bucket rq) window in
    Ok (if ok then None
        else Some (error_response 429 "RATE_LIMITED" "rate limit exceeded" [("Retry-After", retry_after)]),
        h).
End limiter.

(** ** Readiness *)

Definition READY_CACHE : Z := SECOND.

(** [_DatabaseProbe]: when it last checked, and what it found. *)
Record probe := mkProbe { checked_at : option Z; found : option string }.

Definition new_probe : probe := mkProbe None None.

(** [problem]: [check] is what the database call returns ([None]: it timed
    out), [done] the clock after it.  The flag says whether it was made. *)
Definition problem (now done : Z) (check : option (option string)) (p : probe)
    : option string * bool * probe :=
  let due := match checked_at p with Some t => READY_CACHE <=? now - t | None => true end in
  if due then
    let result := match check with Some r => r | None => Some "database not responding" end in
    (result, true, mkProbe (Some done) result)
  else (found p, false, p).

(** [_database_problem]: does each query succeed? *)
Definition database_problem (reachable has_schema : bool) : option string :=
  if negb reachable then Some "database not reachable"
  else if negb has_schema then Some "database schema missing; run `alembic upgrade head`"
  else None.

(** [_not_ready_reason]; the runtime is [running] and [persisting] flags. *)
Definition not_ready_reason (runtime : option (bool * bool)) (database : option string) : option string :=
  match runtime with
  | Some (false, _) => Some "detection pipeline is not running"
  | _ =>
      match database with
      | Some reason => Some reason
      | None => match runtime with Some (_, false) => Some "database writes failing" | _ => None end
      end
  end.

(** ** Handlers *)

Definition DEFAULT_PAGE_SIZE : Z := 50.
Definition MAX_CURSOR : Z := 2 ^ 63 - 1.
Definition PROBE_PATHS : list string := ["/healthz"; "/readyz"].
Definition DATA_PATHS : list string := ["/metrics"; "/events"; "/alerts"; "/rules"].

Definition code_of (status : Z) : string :=
  if status =? 401 then "UNAUTHORIZED" else if status =? 403 then "FORBIDDEN"
  else if status =? 404 then "NOT_FOUND" else if status =? 429 then "RATE_LIMITED"
  else if status =? 503 then "SERVICE_UNAVAILABLE" else "ERROR".

(** [_http_error] *)
Definition http_error (e : http_exception) : response :=
  let '(status, detail, headers) := e in error_response status (code_of status) detail headers.

Definition validation_error : response :=
  error_response 422 "VALIDATION_ERROR" "request parameters failed validation" [].

(** The declared bounds of [limit] and [cursor] *)
Definition page_limit (max_page : Z) (rq : request) : option Z :=
  let limit := default (Z.min DEFAULT_PAGE_SIZE max_page) (rq_limit rq) in
  if between 1 max_page limit && optionally (between 1 MAX_CURSOR) (rq_cursor rq) then Some limit else None.

Local Close Scope string_scope.

(** [list_events] and [list_alerts], given how a row is rendered *)
Definition list_page {V T A} `{SqlTable V T} (render : row V → A) (limit : Z) (cursor : option Z) (t : T)
    : Page A :=
  let rs := list_rows (limit + 1) cursor t in
  let total := match cursor with None => Some (count_rows t) | Some _ => None end in
  let has_more := limit <? len rs in
  let rs := take (Z.to_nat limit) rs in
  let next := match last rs with Some r => if has_more then Some (row_id r) else None | None => None end in
  mkPage (render <$> rs) (mkPagination next has_more total).

Definition ok_response (b : body) : response := mkResponse 200 b [].

Section app.
Context {TE TA : Type} `{SqlTable EventValues TE, SqlTable AlertValues TA}.
Context (api_key : option string) (max_page : Z) (rules : list Rule).

(** The handler of a path; [db] is what reading the database gives. *)
Definition handle (ready : option string) (db : result (Store TE TA)) (rq : request) : result response :=
  let guarded (handler : result response) :=
    match require_api_key api_key rq with Some e => Ok (http_error e) | None => handler end in
  let paged (handler : Z → Store TE TA → body) :=
    match page_limit max_page rq with
    | None => Ok validation_error
    | Some limit => s ← db; Ok (ok_response (handler limit s))
    end in
  if bool_decide (rq_path rq ∈ PROBE_PATHS ++ DATA_PATHS) && negb (String.eqb (rq_method rq) "GET")
  then Ok (http_error (405, "Method Not Allowed", [("Allow", "GET")]))%string
  else if String.eqb (rq_path rq) "/healthz" then Ok (ok_response (StatusBody "ok"))
  else if String.eqb (rq_path rq) "/readyz" then
    match ready with
    | Some reason => Ok (error_response 503 "NOT_READY" reason [])
    | None => Ok (ok_response (StatusBody "ready"))
    end
  else if String.eqb (rq_path rq) "/metrics" then guarded (Ok (ok_response MetricsBody))
  else if String.eqb (rq_path rq) "/events" then
    guarded (paged (λ limit s, EventsBody (list_page event_from_row limit (rq_cursor rq) (event_rows s))))
  else if String.eqb (rq_path rq) "/alerts" then
    guarded (paged (λ limit s, AlertsBody (list_page alert_from_row limit (rq_cursor rq) (alert_rows s))))
  else if String.eqb (rq_path rq) "/rules" then
    guarded (Ok (ok_response (RulesBody
      (mkPage (from_rule <$> rules) (mkPagination None false (Some (len rules)))))))
  else Ok (http_error (404, "Not Found"%string, [])).

Context (rate_limit window_us : Z) (origins : list string) (cors : Cors).

(** From the request context inwards *)
Definition serve_inner (now : Z) (request_id : string) (ready : option string) (db : result (Store TE TA))
    (rq : request) (h : hits) : response * hits :=
  let '(limited, h) :=
    match limit_step rate_limit window_us api_key PROBE_PATHS now rq h with
    | Ok (r, h') => (Ok r, h')
    | Raise e => (Raise e, h)
    end in
  let inner := r ← limited; match r with Some refused => Ok refused | None => handle ready db rq end in
  (with_context request_id inner, h).

(** A request through the whole stack *)
Definition serve (now : Z) (request_id : string) (ready : option string) (db : result (Store TE TA))
    (rq : request) (h : hits) : response * hits :=
  let '(r, h) :=
    if bool_decide (origins = []) then serve_inner now request_id ready db rq h
    else
      match cors_preflight cors rq with
      | Some r => (r, h)
      | None => let '(r, h) := serve_inner now request_id ready db rq h in (cors_allow cors rq r, h)
      end in
  (add_security_headers r, h).
End app.

(** ** Lemmas *)

(** *** Headers *)

(** No hardening header has another value than its own. *)
Definition plain (d : odict string string) : Prop :=
  ∀ k v, (k, v) ∈ SECURITY_HEADERS → od_get d k = None ∨ od_get d k = Some v.

Lemma plain_nil : plain [].
Proof. by left. Qed.

Lemma security_keys_NoDup : NoDup (od_keys SECURITY_HEADERS).
Proof. by apply (bool_decide_unpack _). Qed.

Lemma plain_set d k v : k ∉ od_keys SECURITY_HEADERS → plain d → plain (od_set d k v).
Proof.
  intros Hk Hp k' v' Hin. rewrite od_get_set_ne; [by apply Hp|]. intros ->. apply Hk.
  apply list_elem_of_fmap. by exists (k', v').
Qed.

Lemma merge_get a b k : k ∉ od_keys b → od_get (merge_headers a b) k = od_get a k.
Proof.
  unfold merge_headers. revert a. induction b as [|[k' v'] b IH]; intros a Hk; [done|].
  csimpl in Hk. apply not_elem_of_cons in Hk as [Hne Hk]. simpl. rewrite IH by done.
  by rewrite od_get_set_ne.
Qed.

Lemma plain_error status code message headers :
  Forall (λ k, k ∉ od_keys SECURITY_HEADERS) (od_keys headers) →
  plain (rs_headers (error_response status code message headers)).
Proof.
  intros Hh k v Hin. right. simpl. rewrite merge_get.
  - by apply od_elem_of_get; [apply security_keys_NoDup|].
  - intros Hk. apply (proj1 (Forall_forall _ _) Hh _ Hk). apply list_elem_of_fmap. by exists (k, v).
Qed.

Lemma setdefault_get (l d : odict string string) k :
  od_get (foldl (λ d kv, if od_mem d (fst kv) then d else od_set d (fst kv) (snd kv)) d l) k
  = match od_get d k with Some v => Some v | None => od_get l k end.
Proof.
  revert d. induction l as [|[k' v'] l IH]; intros d; simpl; [by destruct (od_get d k)|].
  rewrite IH. destruct (od_mem d k') eqn:Hm; case_decide as Hk; subst.
  - apply od_mem_true, od_get_is_Some in Hm as [v Hv]. by rewrite Hv.
  - done.
  - apply od_mem_false, od_get_None in Hm. by rewrite od_get_set_eq, Hm.
  - by rewrite od_get_set_ne.
Qed.

Lemma hardened r k v :
  plain (rs_headers r) → (k, v) ∈ SECURITY_HEADERS →
  od_get (rs_headers (add_security_headers r)) k = Some v.
Proof.
  intros Hp Hin. cbn [add_security_headers rs_headers]. rewrite setdefault_get.
  destruct (Hp k v Hin) as [-> | ->]; [|done]. by apply od_elem_of_get; [apply security_keys_NoDup|].
Qed.

Lemma header_kept r k v :
  od_get (rs_headers r) k = Some v → od_get (rs_headers (add_security_headers r)) k = Some v.
Proof. intros Hk. cbn [add_security_headers rs_headers]. by rewrite setdefault_get, Hk. Qed.

Lemma context_plain request_id r :
  (∀ r', r = Ok r' → plain (rs_headers r')) → plain (rs_headers (with_context request_id r)).
Proof.
  intros Hr. unfold with_context. cbn [rs_headers]. apply plain_set.
  - by apply (bool_decide_unpack _).
  - destruct r as [r'|]; [by apply Hr|]. by apply plain_error.
Qed.

(** *** Who gets data *)

Definition discloses (b : body) : bool :=
  match b with MetricsBody | EventsBody _ | AlertsBody _ | RulesBody _ => true | _ => false end.

(** The headers CORS is about *)
Definition CORS_HEADERS : list string :=
  ["Access-Control-Allow-Origin"; "Access-Control-Allow-Methods"; "Access-Control-Allow-Headers";
   "Access-Control-Allow-Credentials"; "Access-Control-Expose-Headers"; "Access-Control-Max-Age"; "Vary"]%string.

(** What [CORSMiddleware] documents: it answers preflight requests (OPTIONS with
    an [Origin] header) itself, by a text; of a response to another request it
    sets headers, of CORS only. *)
Record cors_contract (cors : Cors) : Prop := {
  cc_preflight rq r : cors_preflight cors rq = Some r →
    rq_method rq = "OPTIONS"%string ∧ is_Some (rq_origin rq) ∧ (∃ text, rs_body r = TextBody text) ∧
    Forall (λ k, k ∈ CORS_HEADERS) (od_keys (rs_headers r));
  cc_allow rq r : rs_status (cors_allow cors rq r) = rs_status r ∧ rs_body (cors_allow cors rq r) = rs_body r ∧
    ∀ k, k ∉ CORS_HEADERS → od_get (rs_headers (cors_allow cors rq r)) k = od_get (rs_headers r) k;
}.

Lemma security_not_cors k v : (k, v) ∈ SECURITY_HEADERS → k ∉ CORS_HEADERS.
Proof.
  intros Hin. assert (Hall : Forall (λ kv, kv.1 ∉ CORS_HEADERS) SECURITY_HEADERS) by by apply (bool_decide_unpack _).
  exact (proj1 (Forall_forall _ _) Hall _ Hin).
Qed.

Lemma api_key_accepted key rq :
  require_api_key key rq = None ↔ ∃ token, key = Some token ∧ bearer_token rq = Some token.
Proof.
  unfold require_api_key, token_matches. destruct key as [key|].
  - destruct (bearer_token rq) as [token|]; [|by split; [|intros (? & ? & ?)]].
    case_bool_decide as Heq; split.
    + intros _. apply utf8_encode_inj in Heq as ->. eauto.
    + done.
    + done.
    + intros (? & [= ->] & [= ->]). done.
  - by split; [|intros (? & ? & ?)].
Qed.

Section app_facts.
Context {TE TA : Type} `{SqlTable EventValues TE, SqlTable AlertValues TA}.
Context (api_key : option string) (max_page : Z) (rules : list Rule).
Implicit Types (db : result (Store TE TA)).

(** The responses a handler gives: an error with hardening headers, or a body
    without headers that holds data only for the key's bearer. *)
Definition handled (rq : request) (r : result response) : Prop :=
  match r with
  | Ok r => plain (rs_headers r) ∧
      (discloses (rs_body r) = true →
       ∃ token, api_key = Some token ∧ bearer_token rq = Some token)
  | Raise _ => True
  end.

Lemma handled_error rq status code message headers :
  Forall (λ k, k ∉ od_keys SECURITY_HEADERS) (od_keys headers) →
  handled rq (Ok (error_response status code message headers)).
Proof. intros Hh. split; [by apply plain_error|done]. Qed.

Lemma handled_guarded rq r :
  (require_api_key api_key rq = None → match r with Ok r => plain (rs_headers r) | Raise _ => True end) →
  handled rq (match require_api_key api_key rq with Some e => Ok (http_error e) | None => r end).
Proof.
  intros Hr. destruct (require_api_key api_key rq) as [e|] eqn:Hk.
  - assert (He : ∃ s d, e = (s, d, []) ∨ e = (s, d, [("WWW-Authenticate", "Bearer")]%string)).
    { revert Hk. unfold require_api_key. repeat case_match; intros; simplify_eq; eauto. }
    destruct He as (s & d & [->| ->]); apply handled_error; [constructor|].
    repeat constructor. by apply (bool_decide_unpack _).
  - specialize (Hr eq_refl). destruct r; [|done]. split; [done|]. intros _. by apply api_key_accepted.
Qed.

Lemma handle_handled ready db rq : handled rq (handle api_key max_page rules ready db rq).
Proof.
  unfold handle.
  assert (Hpaged : ∀ handler : Z → Store TE TA → body,
    match (match page_limit max_page rq with
           | None => Ok validation_error
           | Some limit => s ← db; Ok (ok_response (handler limit s)) end)
    with Ok r => plain (rs_headers r) | Raise _ => True end).
  { intros handler. destruct (page_limit max_page rq); [destruct db|]; [apply plain_nil|done|].
    by apply plain_error. }
  destruct (_ && _); [apply handled_error; repeat constructor; by apply (bool_decide_unpack _)|].
  repeat (match goal with |- context [String.eqb ?a ?b] => destruct (String.eqb a b) end);
    try (apply handled_guarded; intros _; try apply Hpaged; apply plain_nil);
    try (by apply handled_error); try (by split; [apply plain_nil|]).
  destruct ready; [by apply handled_error|by split; [apply plain_nil|]].
Qed.

(** What leaves the request context *)
Lemma serve_inner_handled rate_limit window_us now request_id ready db rq h :
  let r := (serve_inner api_key max_page rules rate_limit window_us now request_id ready db rq h).1 in
  handled rq (Ok r) ∧ od_get (rs_headers r) "X-Request-ID"%string = Some request_id.
Proof.
  unfold serve_inner.
  assert (Hctx : ∀ r, handled rq r → let r' := with_context request_id r in
    handled rq (Ok r') ∧ od_get (rs_headers r') "X-Request-ID"%string = Some request_id).
  { intros r Hr. split; [split|].
    - apply context_plain. intros r' ->. exact (proj1 Hr).
    - destruct r as [r|e]; [exact (proj2 Hr)|done].
    - unfold with_context. cbn [rs_headers]. by rewrite od_get_set_eq. }
  unfold limit_step. case_bool_decide; [apply Hctx, handle_handled|].
  destruct (window_for _ _) as [[w h1]|]; [|by apply Hctx]. cbn [mbind result_bind].
  destruct (rate_step _ _ _ _) as [[] w']; cbn [mbind result_bind fst]; apply Hctx; [apply handle_handled|].
  apply handled_error. repeat constructor. by apply (bool_decide_unpack _).
Qed.
End app_facts.

(** *** The rate limiter over time *)

Section limiter_facts.
Context (limit window_us : Z) (api_key : option string).

Definition passes (r : option response) : bool := match r with None => true | Some _ => false end.

(** Requests at their instants: which pass. *)
Fixpoint limiter_run (calls : list (Z * request)) (h : hits) : result (list bool * hits) :=
  match calls with
  | [] => Ok ([], h)
  | (now, rq) :: calls' =>
      '(r, h) ← limit_step limit window_us api_key PROBE_PATHS now rq h;
      '(rs, h) ← limiter_run calls' h;
      Ok (passes r :: rs, h)
  end.

Definition exempted (rq : request) : bool := bool_decide (rq_path rq ∈ PROBE_PATHS).

(** The specification: [log] holds the bucket and the instant of each request
    admitted so far. *)
Definition times (b : string) (log : list (string * Z)) : list Z :=
  omap (λ e, if String.eqb (fst e) b then Some (snd e) else None) log.

Definition allowed (log : list (string * Z)) (now : Z) (rq : request) : bool :=
  exempted rq ||
  (len (filter (λ s, now - window_us ≤ s) (times (bucket api_key rq) log)) <? limit).

Definition logged (log : list (string * Z)) (now : Z) (rq : request) : list (string * Z) :=
  if exempted rq || negb (allowed log now rq) then log else log ++ [(bucket api_key rq, now)].

Fixpoint spec_answers (log : list (string * Z)) (calls : list (Z * request)) : list bool :=
  match calls with
  | [] => []
  | (now, rq) :: calls' => allowed log now rq :: spec_answers (logged log now rq) calls'
  end.

Fixpoint spec_log (log : list (string * Z)) (calls : list (Z * request)) : list (string * Z) :=
  match calls with [] => log | (now, rq) :: calls' => spec_log (logged log now rq) calls' end.

Record limiter_ok (last : Z) (log : list (string * Z)) (seen : gset string) (h : hits) : Prop := {
  lim_window b : ∃ last_b, last_b ≤ last ∧
    tracks window_us last_b (times b log) (default [] (od_get h b));
  lim_rate b : within_rate limit window_us (times b log);
  lim_keys : NoDup (od_keys h);
  lim_seen b : b ∈ od_keys h → b ∈ seen;
}.

Lemma times_app b log b' t :
  times b (log ++ [(b', t)]) = times b log ++ (if String.eqb b' b then [t] else []).
Proof. unfold times. rewrite omap_app. simpl. by destruct (String.eqb b' b). Qed.

Lemma window_for_ok last log seen h b :
  limiter_ok last log seen h → b ∈ seen → Z.of_nat (size seen) ≤ MAX_TRACKED_CLIENTS →
  ∃ w h', window_for b h = Ok (w, h') ∧ w = default [] (od_get h b) ∧ limiter_ok last log seen h' ∧
    od_get h' b = Some w.
Proof.
  intros Hok Hb Hsize. unfold window_for. destruct (od_get h b) as [w|] eqn:Hg; [eauto 10|].
  apply od_get_None in Hg as Hk. destruct Hok as [Hw Hr Hn Hs].
  assert (Hlen : len h < MAX_TRACKED_CLIENTS).
  { assert (Hsub : list_to_set (b :: od_keys h) ⊆ seen) by set_solver.
    apply subseteq_size in Hsub. rewrite size_list_to_set in Hsub by (by constructor).
    simpl in Hsub. unfold od_keys in Hsub. rewrite length_fmap in Hsub.
    unfold len. lia. }
  rewrite (proj2 (Z.leb_gt _ _)) by done. cbn. eexists _, _. split; [done|]. split; [done|].
  split; [|apply od_get_set_eq]. split; [| |by apply od_set_NoDup|].
  - intros b'. rewrite od_get_set. case_decide as Heq; [|apply Hw]. subst b'.
    destruct (Hw b) as (lb & ? & Ht). exists lb. split; [done|]. by rewrite Hg in Ht.
  - done.
  - intros b' [->|?]%od_keys_set_elem; [done|by apply Hs].
Qed.

Lemma limit_step_ok last now log seen h rq :
  0 ≤ window_us → last ≤ now → limiter_ok last log seen h → bucket api_key rq ∈ seen →
  Z.of_nat (size seen) ≤ MAX_TRACKED_CLIENTS →
  ∃ r h', limit_step limit window_us api_key PROBE_PATHS now rq h = Ok (r, h') ∧
    passes r = allowed log now rq ∧ limiter_ok now (logged log now rq) seen h'.
Proof.
  intros Hp Hnow Hok Hb Hsize. unfold limit_step, logged, allowed, exempted.
  case_bool_decide; simpl.
  - eexists _, _. split; [done|]. split; [done|]. destruct Hok as [Hw ???]. split; try done.
    intros b. destruct (Hw b) as (lb & ? & ?). exists lb. split; [lia|done].
  - destruct (window_for_ok last log seen h _ Hok Hb Hsize) as (w & h1 & -> & _ & Hok1 & Hget).
    destruct Hok1 as [Hw Hr Hn Hs]. destruct (Hw (bucket api_key rq)) as (lb & Hlb & Ht).
    rewrite Hget in Ht. simpl in Ht.
    pose proof (rate_step_tracks limit window_us lb now _ w Hp ltac:(lia) Ht) as Ht'.
    pose proof (rate_step_within_rate limit window_us lb now _ w Hp ltac:(lia) Ht (Hr _)) as Hr'.
    assert (Hans : (rate_step limit window_us now w).1
      = (len (filter (λ s, now - window_us ≤ s) (times (bucket api_key rq) log)) <? limit)).
    { destruct Ht as [Hso _ ->]. unfold rate_step. rewrite drop_stale_drop_stale by lia.
      rewrite drop_stale_sorted by done.
      destruct (limit <=? _) eqn:Hf; simpl; symmetry; [apply Z.ltb_ge|apply Z.ltb_lt]; lia. }
    destruct (rate_step limit window_us now w) as [ok w'] eqn:Hrs. simpl in *. subst ok.
    cbn [mbind result_bind]. rewrite Hrs.
    eexists _, _. split; [reflexivity|]. split; [by destruct (_ <? limit)|].
    split; [| |by apply od_set_NoDup|].
    + intros b. rewrite od_get_set. case_decide as Heq.
      * subst b. exists now. split; [done|]. simpl.
        destruct (_ <? limit); simpl; [|exact Ht']. by rewrite times_app, String.eqb_refl.
      * destruct (Hw b) as (l & ? & Htb). exists l. split; [lia|].
        destruct (_ <? limit); simpl; [|exact Htb]. rewrite times_app.
        destruct (String.eqb_spec (bucket api_key rq) b); [congruence|]. by rewrite app_nil_r.
    + intros b. destruct (_ <? limit) eqn:Hlt; simpl; [|apply Hr]. rewrite times_app.
      destruct (String.eqb_spec (bucket api_key rq) b) as [<-|]; [exact Hr'|].
      rewrite app_nil_r. apply Hr.
    + intros b [->|?]%od_keys_set_elem; [done|by apply Hs].
Qed.

Lemma limiter_run_ok calls last log seen h :
  0 ≤ window_us → nondecreasing (last :: calls.*1) → limiter_ok last log seen h →
  Forall (λ c, bucket api_key (snd c) ∈ seen) calls → Z.of_nat (size seen) ≤ MAX_TRACKED_CLIENTS →
  ∃ h', limiter_run calls h = Ok (spec_answers log calls, h') ∧
    ∀ b, nondecreasing (times b (spec_log log calls)) ∧
         within_rate limit window_us (times b (spec_log log calls)).
Proof.
  intros Hp. revert last log h. induction calls as [|[now rq] calls IH];
    intros last log h Hnd Hok Hseen Hsize.
  - exists h. split; [done|]. intros b. destruct Hok as [Hw Hr _ _].
    destruct (Hw b) as (? & _ & []). by split.
  - apply Forall_cons in Hseen as [Hb Hseen]. simpl in Hb.
    assert (last ≤ now ∧ nondecreasing (now :: calls.*1)) as [Hle Hnd'].
    { inversion Hnd as [|?? Hs Hall]; subst. simpl in Hall. apply Forall_cons in Hall as [? _]. done. }
    destruct (limit_step_ok last now log seen h rq Hp Hle Hok Hb Hsize) as (r & h1 & Hstep & Hpass & Hok1).
    destruct (IH now _ _ Hnd' Hok1 Hseen Hsize) as (h2 & Hrun & Hall).
    exists h2. simpl. rewrite Hstep. cbn. rewrite Hrun. cbn. by rewrite Hpass.
Qed.

Lemma limiter_start last seen : limiter_ok last [] seen [].
Proof.
  split; simpl; [| |constructor|by intros ? ?%elem_of_nil].
  - intros b. exists last. split; [done|]. apply tracks_nil.
  - intros b pre t post. by destruct pre.
Qed.
End limiter_facts.

(** *** Walking a collection *)

Section walk.
Context {V T A : Type} `{SqlTable V T} (render : row V → A).
Implicit Types t : T.

(** A client that follows the cursors from page to page until none is given;
    writers insert before every page but the first.  [None]: it gave up. *)
Fixpoint walk (writes : list (Z * list (option string * V))) (limit : Z) (cursor : option Z) t
    : option (list A) :=
  match writes with
  | [] => None
  | (now, items) :: writes' =>
      let page := list_page render limit cursor t in
      match pg_cursor (page_pagination page) with
      | None => Some (page_data page)
      | Some c => app (page_data page) <$> walk writes' limit (Some c) (insert_once now items t)
      end
  end.

Lemma list_page_newest limit cursor t :
  1 ≤ limit →
  let D := newest_before cursor t in
  page_data (list_page render limit cursor t) = render <$> take (Z.to_nat limit) D ∧
  pg_has_more (page_pagination (list_page render limit cursor t)) = bool_decide (limit < len D) ∧
  pg_cursor (page_pagination (list_page render limit cursor t))
  = (if bool_decide (limit < len D) then row_id <$> last (list_rows limit cursor t) else None).
Proof.
  intros Hl D. unfold list_page. cbn [page_data page_pagination pg_has_more pg_cursor].
  rewrite !list_rows_newest. fold D. rewrite take_take.
  replace (Z.to_nat limit `min` Z.to_nat (limit + 1))%nat with (Z.to_nat limit) by lia.
  assert (Hm : (limit <? len (take (Z.to_nat (limit + 1)) D)) = bool_decide (limit < len D)).
  { unfold len. rewrite length_take. case_bool_decide; [apply Z.ltb_lt|apply Z.ltb_ge]; lia. }
  rewrite Hm. split_and!; [done|done|]. destruct (last _); [|by case_bool_decide].
  by case_bool_decide.
Qed.

Lemma walk_all writes limit cursor t :
  1 ≤ limit → (length (newest_before cursor t) < length writes)%nat →
  walk writes limit cursor t = Some (render <$> newest_before cursor t).
Proof.
  intros Hl. revert cursor t.
  induction writes as [|[now items] writes IH]; intros cursor t Hf; simpl in Hf; [lia|].
  cbn [walk]. destruct (list_page_newest limit cursor t Hl) as (-> & _ & ->).
  set (D := newest_before cursor t) in *. case_bool_decide as Hmore.
  - assert (Hne : last (list_rows limit cursor t) ≠ None).
    { rewrite last_None, list_rows_newest. fold D. intros Hnil. apply (f_equal length) in Hnil.
      rewrite length_take in Hnil. unfold len in Hmore. simpl in Hnil. lia. }
    destruct (last (list_rows limit cursor t)) as [r|] eqn:Hlast; [|done]. simpl.
    assert (r ∈ rows t) as Hr by (eapply list_rows_elem, last_Some_elem_of; exact Hlast).
    pose proof (newest_before_insert now items t r Hr) as Hins.
    pose proof (newest_next _ _ _ _ Hlast) as Hnext. fold D in Hnext.
    rewrite IH; rewrite Hins, Hnext.
    + simpl. by rewrite <-fmap_app, take_drop.
    + rewrite length_drop. unfold len in Hmore. lia.
  - rewrite take_ge by (unfold len in Hmore; lia). done.
Qed.
End walk.

(** ** Properties *)

(** C30: default deny: a response that holds events, alerts, rules or metrics
    is only ever given to a request that presented exactly the configured key
    (with no key configured, to none), and every response, errors and CORS
    preflights included, carries every hardening header with its fixed value.
    Every response carries the request id too, but for the preflights the CORS
    middleware answers when origins are configured. *)
Theorem data_requires_key {TE TA} `{SqlTable EventValues TE, SqlTable AlertValues TA}
    api_key max_page rules rate_limit window_us origins cors now request_id ready (db : result (Store TE TA)) rq h :
  cors_contract cors →
  let '(r, _) := serve api_key max_page rules rate_limit window_us origins cors now request_id ready db rq h in
  (discloses (rs_body r) = true → ∃ key, api_key = Some key ∧ bearer_token rq = Some key) ∧
  (∀ k v, (k, v) ∈ SECURITY_HEADERS → od_get (rs_headers r) k = Some v) ∧
  (origins = [] ∨ rq_method rq ≠ "OPTIONS"%string ∨ rq_origin rq = None →
   od_get (rs_headers r) "X-Request-ID"%string = Some request_id).
Proof.
  intros Hcors. unfold serve.
  pose proof (serve_inner_handled api_key max_page rules rate_limit window_us now request_id ready db rq h) as [[Hp Hd] Hid].
  destruct (serve_inner _ _ _ _ _ _ _ _ _ _) as [r h']. cbn [fst] in Hp, Hd, Hid.
  assert (Hout : ∀ r : response, plain (rs_headers r) → ∀ k v, (k, v) ∈ SECURITY_HEADERS →
    od_get (rs_headers (add_security_headers r)) k = Some v) by (intros; by apply hardened).
  case_bool_decide as Ho; [|destruct (cors_preflight cors rq) as [r0|] eqn:Hpre].
  - split; [exact Hd|]. split; [by apply Hout|]. intros _. by apply header_kept.
  - destruct (cc_preflight _ Hcors _ _ Hpre) as (Hm & [o Hor] & [text Ht] & Hk). split; [cbn; by rewrite Ht|]. split.
    + apply Hout. intros k v Hin. left. apply od_get_None. intros Hk0.
      exact (security_not_cors k v Hin (proj1 (Forall_forall _ _) Hk k Hk0)).
    + intros [?|[?|?]]; [done|done|congruence].
  - destruct (cc_allow _ Hcors rq r) as (_ & Hb & Hk). split; [cbn; by rewrite Hb|]. split.
    + apply Hout. intros k v Hin. rewrite Hk by by eapply security_not_cors. by apply Hp.
    + intros _. apply header_kept. rewrite Hk; [done|]. by apply (bool_decide_unpack _).
Qed.

(** C23: the rate limiter lets a request through exactly when it is a probe or
    fewer than [limit] requests of its bucket (the peer's address, apart for
    callers with the key) were let through within the last window; so under a
    clock that never goes back no bucket gets more than [limit] requests in any
    window.  While no more buckets are seen than it tracks it never raises. *)
Theorem rate_limit_enforced limit window_us api_key calls :
  0 ≤ limit → 0 ≤ window_us → nondecreasing (calls.*1) →
  Z.of_nat (size (list_to_set (bucket api_key <$> calls.*2) : gset string)) ≤ MAX_TRACKED_CLIENTS →
  ∃ h, limiter_run limit window_us api_key calls []
       = Ok (spec_answers limit window_us api_key [] calls, h) ∧
    ∀ b t, len (filter (λ s, t - window_us ≤ s ≤ t)
                  (times b (spec_log limit window_us api_key [] calls))) ≤ limit.
Proof.
  intros Hl Hp Hnd Hsize.
  set (last := match calls with [] => 0 | (t, _) :: _ => t end).
  destruct (limiter_run_ok limit window_us api_key calls last []
    (list_to_set (bucket api_key <$> calls.*2)) [] Hp) as (h & Hrun & Hall).
  - destruct calls as [|[t rq] calls]; [by repeat constructor|]. simpl in *. constructor; [done|].
    inversion Hnd; subst. constructor; [unfold last; lia|done].
  - apply limiter_start.
  - apply Forall_forall. intros c Hc. apply elem_of_list_to_set, list_elem_of_fmap_2.
    by apply list_elem_of_fmap_2.
  - done.
  - exists h. split; [done|]. intros b t. destruct (Hall b). by apply within_rate_any.
Qed.

(** C21: following the cursors of [/events] or [/alerts] from the first page
    ends, and shows every row that was there at the start, each once, newest
    first, while writers insert between the pages; the first page counts them. *)
Theorem api_walk_complete {V T A} `{SqlTable V T} (render : row V → A) writes limit (t : T) :
  1 ≤ limit → (length (rows t) < length writes)%nat →
  walk render writes limit None t = Some (render <$> reverse (rows t)) ∧
  pg_total (page_pagination (list_page render limit None t)) = Some (len (rows t)).
Proof.
  intros Hl Hw. rewrite walk_all, newest_all; [done|done|]. by rewrite newest_all, length_reverse.
Qed.

(** ** Witnesses *)

Definition example_request (client auth : string) : request :=
  mkRequest "GET" "/events" None (Some client) auth None None.

(** A middleware for one origin *)
Definition example_cors (origin : string) : Cors :=
  mkCors
    (λ rq, if String.eqb (rq_method rq) "OPTIONS" && bool_decide (is_Some (rq_origin rq))
           then Some (mkResponse 200 (TextBody "OK") [("Access-Control-Allow-Methods", "GET"); ("Vary", "Origin")])
           else None)
    (λ rq r, if bool_decide (rq_origin rq = Some origin)
             then mkResponse (rs_status r) (rs_body r) (od_set (rs_headers r) "Access-Control-Allow-Origin" origin)
             else r).

Lemma example_cors_contract origin : cors_contract (example_cors origin).
Proof.
  split.
  - intros rq r. cbn. destruct (String.eqb_spec (rq_method rq) "OPTIONS"); [|done]. case_bool_decide; [|done].
    intros [= <-]. split_and!; [done|done|by eexists|]. by apply (bool_decide_unpack _).
  - intros rq r. cbn. case_bool_decide; [|done]. split_and!; [done|done|]. intros k Hk. cbn.
    apply od_get_set_ne. intros <-. apply Hk. by apply (bool_decide_unpack _).
Qed.

(** The preflight itself, without a request id *)
Example preflight_without_id :
  let '(r, _) := serve (Some "k"%string) 100 [] 5 SECOND ["https://a"]%string (example_cors "https://a") 0 "id" None
    (Ok example_store) (mkRequest "OPTIONS" "/events" (Some "https://a") None "" None None) [] in
  rs_status r = 200 ∧ od_get (rs_headers r) "X-Request-ID"%string = None ∧
  od_get (rs_headers r) "X-Frame-Options"%string = Some "DENY"%string.
Proof. vm_compute. done. Qed.

Lemma data_requires_key_witness :
  let '(r, _) := serve (Some "k"%string) 100 [] 5 SECOND ["https://a"]%string (example_cors "https://a") 0 "id" None
                   (Ok example_store) (example_request "10.0.0.1" "Bearer k") [] in
  discloses (rs_body r) = true ∧ (∃ key, Some "k"%string = Some key ∧
    bearer_token (example_request "10.0.0.1" "Bearer k") = Some key) ∧
  od_get (rs_headers r) "X-Request-ID"%string = Some "id"%string.
Proof.
  pose proof (data_requires_key (Some "k"%string) 100 [] 5 SECOND ["https://a"]%string (example_cors "https://a") 0 "id" None
    (Ok example_store) (example_request "10.0.0.1" "Bearer k") [] (example_cors_contract "https://a")) as H.
  assert (Hd : discloses (rs_body (serve (Some "k"%string) 100 [] 5 SECOND ["https://a"]%string (example_cors "https://a")
    0 "id" None (Ok example_store) (example_request "10.0.0.1" "Bearer k") []).1) = true) by (vm_compute; reflexivity).
  destruct (serve _ _ _ _ _ _ _ _ _ _ _ _ _) as [r h]. split; [exact Hd|]. destruct H as (H & _ & Hid).
  split; [exact (H Hd)|]. apply Hid. right. left. discriminate.
Defined.

Definition example_calls : list (Z * request) :=
  [(0, example_request "a" ""); (1, example_request "a" ""); (2, example_request "a" "Bearer k");
   (3, example_request "b" ""); (12, example_request "a" "")].

Example rate_limited :
  spec_answers 1 10 (Some "k"%string) [] example_calls = [true; false; true; true; true].
Proof. vm_compute. reflexivity. Qed.

Lemma rate_limit_enforced_witness :
  ∃ h, limiter_run 1 10 (Some "k"%string) example_calls []
       = Ok ([true; false; true; true; true], h) ∧
    ∀ b t, len (filter (λ s, t - 10 ≤ s ≤ t)
                  (times b (spec_log 1 10 (Some "k"%string) [] example_calls))) ≤ 1.
Proof.
  apply (rate_limit_enforced 1 10 (Some "k"%string) example_calls); [lia|lia| |vm_compute; discriminate].
  repeat constructor; vm_compute; discriminate.
Defined.

Lemma api_walk_complete_witness :
  walk row_id (repeat (200, [(Some "c"%string, 40)]) 4) 2 None example_table
  = Some (row_id <$> reverse (rows example_table)) ∧
  pg_total (page_pagination (list_page row_id 2 None example_table)) = Some (len (rows example_table)).
Proof.
  apply (api_walk_complete row_id (repeat (200, [(Some "c"%string, 40)]) 4) 2 example_table);
    [lia|vm_compute; lia].
Defined.
