(* ===== verification/Lifecycle.v ===== *)
(** * Starting, serving and ending ([runtime.py], [api/app.py])

    From the environment and the rule files to a running service and back:
    [get_app], the tasks [Runtime.start] creates and what becomes of them, the
    life span of the application, the readiness probe, the flusher's and the
    pruner's loops. *)

From S2P Require Import Prelude ODict Window PyText Events Dedup Queue Pipeline Rules Evaluator Engine Loader Alerting.
From S2P Require Import Base Storage Persist Sinks Settings Metrics Runtime System Service Api.
Local Open Scope string_scope.
Local Open Scope Z_scope.

(** ** The application *)

Section app.
Context `{RegexEngine} (drivername : string → option string).

(** [get_app]: the settings read from the environment, the rules from files *)
Definition get_app (environ : list string) (s : Settings) (rules_dir : option (list file))
    : result (Settings * list Rule) :=
  s ← validate_settings drivername environ s;
  rules ← load_rules rules_dir;
  Ok (s, rules).

Lemma get_app_ok environ s0 dir s rules :
  get_app environ s0 dir = Ok (s, rules) →
  validate_settings drivername environ s = Ok s ∧ Forall (λ r, validate_rule r = Ok r) rules ∧ NoDup (rule_id <$> rules).
Proof.
  unfold get_app. intros (s1 & Hs & Hr)%result_bind_ok. apply result_bind_ok in Hr as (rs & Hrs & [= <- <-]).
  assert (s1 = s0) as -> by (by apply enabled_known in Hs as [-> _]). split; [done|].
  unfold load_rules in Hrs. destruct dir as [files|]; [|done]. apply load_files_ok in Hrs as (Hf & Hnd & _).
  split; [|done]. apply Forall_forall. intros r Hin. apply list_elem_of_lookup in Hin as [i Hi].
  destruct (Forall2_lookup_r _ _ _ _ _ Hf Hi) as (f & _ & Hl). apply load_one_ok in Hl as (_ & Hv & _). exact Hv.
Qed.
End app.

(** ** The runtime's tasks *)

(** The pipeline's task: alive, or how it ended *)
Inductive task_state := Alive | Completed | TaskCancelled | Crashed (e : exn).

Record Tasks := mkTasks {
  pipeline_task : option task_state;
  flusher_task : bool;
  pruner_task : bool;
  fatal_calls : Z;
}.

Definition no_tasks : Tasks := mkTasks None false false 0.

Inductive startup_warning :=
  | NoEnabledRules
  | RulePathsNotWatched (rules : odict string (list string)).

(** [Runtime.start] *)
Definition start (s : Settings) (rt : Runtime) (t : Tasks) : result (list startup_warning * Tasks) :=
  match pipeline_task t with
  | Some _ => Raise RuntimeError
  | None =>
      let rules := eng_rules (rt_engine rt) in
      let watched := if bool_decide ("file-integrity" ∈ enabled_collectors s) then fim_path_list s else [] in
      let unwatched := unwatched_rule_paths rules watched in
      Ok (((if bool_decide (rules = []) then [NoEnabledRules] else [])
           ++ (if bool_decide (unwatched = []) then [] else [RulePathsNotWatched unwatched]))%list,
          mkTasks (Some Alive) true (match rt_retention rt with Some _ => true | None => false end) (fatal_calls t))
  end.

(** [running] and [persisting] *)
Definition running (t : Tasks) : bool := match pipeline_task t with Some Alive => true | _ => false end.
Definition persisting (rt : Runtime) : bool := negb (persist_failing (rt_buffer rt)).

(** The pipeline's task ends, and [_on_pipeline_exit] is called. *)
Definition on_pipeline_exit (ended : task_state) (t : Tasks) : Tasks :=
  mkTasks (Some ended) (flusher_task t) (pruner_task t)
    (match ended with Crashed _ => fatal_calls t + 1 | _ => fatal_calls t end).

(** ** The flusher and the pruner *)

(** [_flush_periodically], from [now]: [wanted i] is when the [i]-th flush is
    asked for, if it is, [took i] and [writes i] how long it takes and what it
    returns; [stop_at] is when [stop] sets both events.  The flushes, each with
    its start and end; [None]: it runs on. *)
Fixpoint flush_periodically (fuel : nat) (interval stop_at : Z) (wanted : nat → option Z) (took : nat → Z)
    (writes : nat → bool) (i : nat) (now delay : Z) : option (list (Z * Z)) :=
  match fuel with
  | O => None
  | S fuel =>
      if stop_at <=? now then Some []
      else
        let asked := match wanted i with Some w => Z.min (now + delay) (Z.max now w) | None => now + delay end in
        let started := Z.min asked stop_at in
        let ended := started + took i in
        let delay := next_flush_delay interval delay (writes i) in
        let resumed := if writes i then ended else Z.min (ended + delay) (Z.max ended stop_at) in
        rest ← flush_periodically fuel interval stop_at wanted took writes (S i) resumed delay;
        Some ((started, ended) :: rest)
  end.

Definition PRUNE_INTERVAL : Z := 3600 * SECOND.

(** [_prune_periodically]: the instants it prunes at, a run taking [took i],
    shutdown being asked for at [stop_at]. *)
Fixpoint prune_periodically (fuel : nat) (stop_at : Z) (took : nat → Z) (i : nat) (now : Z) : option (list Z) :=
  match fuel with
  | O => None
  | S fuel =>
      if stop_at <=? now then Some []
      else
        let now' := now + took i in
        if stop_at <=? now' + PRUNE_INTERVAL then Some [now]
        else rest ← prune_periodically fuel stop_at took (S i) (now' + PRUNE_INTERVAL); Some (now :: rest)
  end.

(** ** The life span of the application *)

Section lifespan.
Context `{E : RegexEngine} {TE TA : Type} `{SqlTable EventValues TE, SqlTable AlertValues TA}.
Context (iso : Z → string) (prefix : string) (s : Settings).

Inductive effect :=
  | Started (warnings : list startup_warning)
  | Stopped (x : Service (TE := TE) (TA := TA))
  | Disposed.

(** [_runtime_lifespan]: [built] is what building the runtime gives, [ls] what
    happens while the application serves, [thrown] an exception of its, [ending]
    [Runtime.stop].  The runtime is stopped if it was built; the database is
    disposed of unless stopping raised. *)
Definition lifespan (built : result Runtime) (st : Store TE TA) (ls : list label) (thrown : option exn)
    (ending : Service → result Service) : list effect * result unit :=
  match built with
  | Raise e => ([Disposed], Raise e)
  | Ok rt =>
      let x0 := start_service rt st in
      let '(effects, body, x) :=
        match start s rt no_tasks with
        | Raise e => ([], Raise e, x0)
        | Ok (warnings, _) =>
            match service_run iso prefix s ls x0 with
            | Raise e => ([Started warnings], Raise e, x0)
            | Ok x => ([Started warnings], match thrown with Some e => Raise e | None => Ok tt end, x)
            end
        end in
      match ending x with
      | Raise e => (effects, Raise e)
      | Ok x' => (effects ++ [Stopped x'; Disposed], body)%list
      end
  end.
End lifespan.

(** ** Readiness *)

(** A call of the probe, the clock when it gets the lock and after the check,
    and what a check gives *)
Record probe_call := mkProbeCall { pc_now : Z; pc_done : Z; pc_check : option (option string) }.

Definition checked (c : probe_call) : option string :=
  match pc_check c with Some r => r | None => Some "database not responding" end.

(** The calls of [_DatabaseProbe.problem]: each one's answer, and whether it
    asked the database *)
Fixpoint probe_run (cs : list probe_call) (p : probe) : list (option string * bool) * probe :=
  match cs with
  | [] => ([], p)
  | c :: cs' =>
      let '(answer, asked, p) := problem (pc_now c) (pc_done c) (pc_check c) p in
      let '(answers, p) := probe_run cs' p in ((answer, asked) :: answers, p)
  end.

(** [/readyz] while the runtime is in the given state *)
Definition readyz (t : Tasks) (rt : Runtime) (database : option string) : option string :=
  not_ready_reason (Some (running t, persisting rt)) database.

(** ** Lemmas *)

(** *** The flusher *)

(** A gap of at most [gap] between the end of a flush and the start of the next *)
Fixpoint paced (gap from : Z) (flushes : list (Z * Z)) : Prop :=
  match flushes with
  | [] => True
  | (started, ended) :: flushes' => from ≤ started ≤ from + gap ∧ started ≤ ended ∧ paced gap ended flushes'
  end.

Lemma paced_later gap from from' flushes : from ≤ from' → paced gap from' flushes → match flushes with
  | [] => True
  | (started, ended) :: flushes' => from ≤ started ≤ from' + gap ∧ started ≤ ended ∧ paced gap ended flushes'
  end.
Proof. destruct flushes as [|[a b] l]; [done|]. cbn. intros ? (? & ? & ?). split_and!; try done; lia. Qed.

Lemma flusher_ends fuel interval stop_at wanted took writes longest cap i now delay :
  0 < interval ≤ cap → MAX_RETRY_BACKOFF ≤ cap → 0 < delay ≤ cap → (∀ i, 0 < took i ≤ longest) →
  (Z.to_nat (stop_at - now) < fuel)%nat →
  ∃ flushes, flush_periodically fuel interval stop_at wanted took writes i now delay = Some flushes ∧
    match flushes with
    | [] => stop_at ≤ now
    | (started, ended) :: rest => now ≤ started ≤ now + cap ∧ started ≤ ended ∧ paced (2 * cap) ended rest
    end ∧
    Forall (λ f, f.1 ≤ stop_at ∧ f.2 ≤ stop_at + longest) flushes.
Proof.
  intros Hi Hm Hd Ht. revert i now delay Hd. induction fuel as [|fuel IH]; intros i now delay Hd Hf; [lia|].
  cbn [flush_periodically]. destruct (stop_at <=? now) eqn:Hs.
  { apply Z.leb_le in Hs. by exists []. }
  apply Z.leb_gt in Hs. cbv zeta.
  set (started := Z.min _ stop_at). set (ended := started + took i). pose proof (Ht i) as Hti.
  assert (Hst : now ≤ started ≤ now + delay ∧ started ≤ stop_at) by (subst started; destruct (wanted i); lia).
  set (delay' := next_flush_delay interval delay (writes i)).
  assert (Hd' : 0 < delay' ≤ cap).
  { subst delay'. unfold next_flush_delay, MAX_RETRY_BACKOFF, SECOND in *. destruct (writes i); lia. }
  set (resumed := if writes i then ended else _).
  assert (Hre : ended ≤ resumed ≤ ended + cap) by (subst resumed; destruct (writes i); lia).
  clearbody started delay' resumed.
  destruct (IH (S i) resumed delay' Hd') as (flushes & -> & Hp & Hall); [subst ended; lia|].
  exists ((started, ended) :: flushes). split; [done|]. split.
  - split; [lia|]. split; [subst ended; lia|]. destruct flushes as [|[a b] l]; [done|]. destruct Hp as (? & ? & ?).
    cbn. split_and!; try done; lia.
  - constructor; [cbn; subst ended; lia|done].
Qed.

(** *** The pruner *)

Lemma pruner_ends fuel stop_at took i now :
  (∀ i, 0 ≤ took i) → (Z.to_nat ((stop_at - now) / PRUNE_INTERVAL + 1) < fuel)%nat →
  ∃ runs, prune_periodically fuel stop_at took i now = Some runs ∧
    Forall (λ r, now ≤ r < stop_at) runs ∧ StronglySorted (λ a b, a + PRUNE_INTERVAL ≤ b) runs.
Proof.
  intros Ht. assert (Hp : 0 < PRUNE_INTERVAL) by done.
  revert i now. induction fuel as [|fuel IH]; intros i now Hf; [lia|]. cbn [prune_periodically].
  destruct (stop_at <=? now) eqn:Hs; [by exists []; repeat constructor|]. apply Z.leb_gt in Hs.
  assert (0 ≤ (stop_at - now) / PRUNE_INTERVAL) by (apply Z.div_pos; lia). pose proof (Ht i).
  destruct (stop_at <=? _) eqn:Hw; [exists [now]; repeat constructor; lia|]. apply Z.leb_gt in Hw.
  assert ((stop_at - (now + took i + PRUNE_INTERVAL)) / PRUNE_INTERVAL + 1 ≤ (stop_at - now) / PRUNE_INTERVAL).
  { rewrite <-Z.div_add by lia. apply Z.div_le_mono; lia. }
  destruct (IH (S i) (now + took i + PRUNE_INTERVAL)) as (runs & -> & Hall & Hsort); [lia|].
  exists (now :: runs). split; [done|]. split.
  - constructor; [lia|]. eapply Forall_impl; [exact Hall|]. cbn. lia.
  - constructor; [done|]. eapply Forall_impl; [exact Hall|]. cbn. lia.
Qed.

(** *** The probe *)

(** The clock never goes back, calls holding the lock in turn. *)
Fixpoint in_turn (last : Z) (cs : list probe_call) : Prop :=
  match cs with
  | [] => True
  | c :: cs' => last ≤ pc_now c ∧ pc_now c ≤ pc_done c ∧ in_turn (pc_done c) cs'
  end.

(** What the probe knows is what its last check, done at [checked_at], gave. *)
Lemma probe_answers cs p last :
  in_turn last cs → (∀ t, checked_at p = Some t → t ≤ last) →
  let answers := (probe_run cs p).1 in
  length answers = length cs ∧
  (∀ i c a, cs !! i = Some c → answers !! i = Some (a, true) → a = checked c) ∧
  (∀ i c a, cs !! i = Some c → answers !! i = Some (a, false) →
     (∃ t, checked_at p = Some t ∧ a = found p ∧ pc_now c - t < READY_CACHE) ∨
     ∃ j c', (j < i)%nat ∧ cs !! j = Some c' ∧ answers !! j = Some (a, true) ∧ a = checked c' ∧
       pc_now c - pc_done c' < READY_CACHE) ∧
  StronglySorted (λ a b, a + READY_CACHE ≤ b)
    (option_list (checked_at p) ++ omap (λ x : (option string * bool) * probe_call, if x.1.2 then Some (pc_now x.2) else None)
       (zip answers cs))%list.
Proof.
  revert p last. induction cs as [|c cs IH]; intros p last Hin Hp; cbn [probe_run]; cbv zeta.
  { cbn. split_and!; try done. destruct (checked_at p); repeat constructor. }
  cbn [in_turn] in Hin. destruct Hin as (Hl & Hd & Hin). unfold problem.
  destruct (match checked_at p with Some t => READY_CACHE <=? pc_now c - t | None => true end) eqn:Hdue.
  - set (p' := mkProbe _ _). destruct (IH p' (pc_done c) Hin) as (Hlen & Ha & Hb & Hs).
    { intros t [= <-]. lia. }
    destruct (probe_run cs p') as [answers p2]. cbn [fst snd] in *. split; [cbn; by rewrite Hlen|]. split; [|split].
    + intros [|i] c0 a; cbn; [by intros [= <-] [= <-]|by apply Ha].
    + intros [|i] c0 a; cbn; [by intros [= <-] [=]|]. intros Hc Hans. destruct (Hb i c0 a Hc Hans) as [(t & [= <-] & -> & Ht)|(j & c' & Hj & Hc' & Haj & He & Ht)].
      * right. exists 0%nat, c. split_and!; try done; lia.
      * right. exists (S j), c'. split_and!; try done; lia.
    + cbn [zip zip_with omap list_omap fst snd]. cbn [checked_at p' option_list app] in Hs.
      assert (Hs' : StronglySorted (λ a b, a + READY_CACHE ≤ b)
        (pc_now c :: omap (λ x : (option string * bool) * probe_call, if x.1.2 then Some (pc_now x.2) else None) (zip answers cs))).
      { inversion Hs as [|?? Hs2 Hall]; subst. constructor; [done|]. eapply Forall_impl; [exact Hall|]. cbn. lia. }
      destruct (checked_at p) as [t|] eqn:Hc; [|exact Hs']. cbn [option_list app]. apply Z.leb_le in Hdue.
      inversion Hs' as [|?? _ Hall]; subst. constructor; [done|]. constructor; [lia|]. eapply Forall_impl; [exact Hall|]. cbn.
      unfold READY_CACHE, SECOND in *. lia.
  - destruct (checked_at p) as [t|] eqn:Hc; [|done]. apply Z.leb_gt in Hdue.
    destruct (IH p (pc_done c) Hin) as (Hlen & Ha & Hb & Hs).
    { intros t' Ht'. rewrite Hc in Ht'. injection Ht' as <-. specialize (Hp t eq_refl). lia. }
    destruct (probe_run cs p) as [answers p2]. cbn [fst snd] in *. split; [cbn; by rewrite Hlen|]. split; [|split].
    + intros [|i] c0 a; cbn; [by intros [= <-] [=]|by apply Ha].
    + intros [|i] c0 a; cbn; [intros [= <-] [= <-]; left; by exists t|]. intros H1 H2.
      destruct (Hb i c0 a H1 H2) as [?|(j & c' & Hj & Hc' & Haj & He & Ht)]; [left; by rewrite Hc in *|].
      right. exists (S j), c'. split_and!; try done; lia.
    + cbn [zip zip_with omap list_omap fst snd]. by rewrite Hc in Hs.
Qed.

(** ** Properties *)

Section life.
Context `{E : RegexEngine} {TE TA : Type} `{SqlTable EventValues TE, SqlTable AlertValues TA}.
Context (iso : Z → string) (prefix : string).

(** C4: the application's life, from its configuration to its end: started from
    an environment and rule files that are accepted, it either cannot build the
    runtime, and then has released the database when it raises; or it starts the
    pipeline, the flusher and, when there is a retention period, the pruner,
    serves whatever happens, and ends, whether the server ends it or an exception
    does: the runtime is stopped with every queued event finished and nothing
    buffered, then the database is released, and only the server's own exception
    is raised. *)
Theorem service_life drivername environ s0 dir s rules etc_hostname gethostname (st : Store TE TA) ls thrown
    turns again answers answers' answers'' deliveries :
  get_app drivername environ s0 dir = Ok (s, rules) → fresh_world prefix st →
  (∀ n, schedule (ls ++ upcoming n turns)) →
  let built := new_runtime etc_hostname gethostname s rules in
  let life := lifespan iso prefix s built st ls thrown
                (stop iso prefix s turns again answers answers' answers'' deliveries) in
  match built with
  | Raise e => life = ([Disposed], Raise e)
  | Ok rt =>
      ∃ warnings t x x', start s rt no_tasks = Ok (warnings, t) ∧
        running t = true ∧ flusher_task t = true ∧ pruner_task t = bool_decide (is_Some (rt_retention rt)) ∧
        start s rt t = Raise RuntimeError ∧
        service_run iso prefix s ls (start_service rt st) = Ok x ∧
        life = ([Started warnings; Stopped x'; Disposed], match thrown with Some e => Raise e | None => Ok tt end) ∧
        (sv_handled x').*1 = sv_accepted x ∧
        pending_events (rt_buffer (sv_runtime x')) = [] ∧ pending_alerts (rt_buffer (sv_runtime x')) = []
  end.
Proof.
  intros (Hs & Hrules & _)%get_app_ok Hst Hls built life. subst life. destruct built as [rt|e] eqn:Hrt; subst built; [|done].
  destruct (run_then_stop iso prefix _ _ _ _ _ _ _ _ _ turns again answers answers' answers'' deliveries Hs Hrt Hrules Hst Hls)
    as (x & x1 & x' & last & sl & nl & evs & als & Hrun & Hstop & Hok & Hb & Hacc & _ & [Hpe Hpa] & Hpipe & Hdb & _).
  destruct (drained_nothing_left _ _ _ _ _ _ _ _ _ _ Hok Hb) as [_ Hall].
  injection Hpipe as _ _ _ Hh _ _. injection Hdb as Hbuf _ _ _.
  eexists _, _, x, x'. split; [reflexivity|]. split; [done|]. split; [done|].
  split; [cbn; by destruct (rt_retention rt)|]. split; [done|]. split; [done|].
  unfold lifespan, start. cbn [no_tasks pipeline_task]. rewrite Hrun, Hstop. split; [by destruct thrown|].
  rewrite Hh, Hbuf. split; [congruence|done].
Qed.
End life.

(** C32: readiness is fresh, cheap and true: however many callers there are, the
    database is asked at most once a second; every answer is that of a check
    made by the call itself or ended less than a second before; and the service
    is reported ready exactly when the pipeline runs, that check found nothing
    and the latest write succeeded. *)
Theorem readiness_is_fresh_and_cheap cs last t rt :
  in_turn last cs →
  let answers := (probe_run cs new_probe).1 in
  StronglySorted (λ a b, a + READY_CACHE ≤ b)
    (omap (λ x : (option string * bool) * probe_call, if x.1.2 then Some (pc_now x.2) else None) (zip answers cs)) ∧
  ∀ i c, cs !! i = Some c → ∃ j c' (asked : bool), (j ≤ i)%nat ∧ cs !! j = Some c' ∧ answers !! i = Some (checked c', asked) ∧
    (if asked then j = i else pc_now c - pc_done c' < READY_CACHE) ∧
    (readyz t rt (checked c') = None ↔ running t = true ∧ checked c' = None ∧ persisting rt = true).
Proof.
  intros Hin answers. destruct (probe_answers cs new_probe last Hin) as (Hlen & Ha & Hb & Hs); [done|].
  fold answers in Hlen, Ha, Hb, Hs. split; [exact Hs|]. intros i c Hc.
  assert (Hr : ∀ c', readyz t rt (checked c') = None ↔ running t = true ∧ checked c' = None ∧ persisting rt = true).
  { intros c'. unfold readyz, not_ready_reason. destruct (running t), (checked c'), (persisting rt); split; try done; by intros (? & ? & ?). }
  destruct (lookup_lt_is_Some_2 answers i) as [[a asked] Hi].
  { rewrite Hlen. by apply lookup_lt_Some in Hc. }
  destruct asked.
  - pose proof (Ha i c a Hc Hi) as ->. exists i, c, true. by split_and!.
  - destruct (Hb i c a Hc Hi) as [(? & [=] & _)|(j & c' & Hj & Hc' & _ & -> & Ht)]. exists j, c', false.
    split; [lia|]. by split_and!.
Qed.

(** The flusher never sleeps through an outage nor through shutdown: from
    validated settings, whatever asks for flushes and however they end, the next
    write starts within two minutes of the last one's end; the loop ends, and no
    write starts after shutdown is asked for. *)
Theorem flusher_keeps_pace drivername environ s stop_at wanted took writes longest now :
  validate_settings drivername environ s = Ok s → (∀ i, 0 < took i ≤ longest) →
  let interval := persist_flush_interval_seconds s in
  ∃ flushes, flush_periodically (S (Z.to_nat (stop_at - now))) interval stop_at wanted took writes 0 now interval = Some flushes ∧
    paced (120 * SECOND) now flushes ∧ Forall (λ f, f.1 ≤ stop_at ∧ f.2 ≤ stop_at + longest) flushes.
Proof.
  intros (_ & Hf & _)%enabled_known Ht interval.
  assert (Hi : 0 < interval ≤ 60 * SECOND).
  { unfold valid_fields, positive_upto in Hf.
    repeat match goal with H : _ && _ = true |- _ => apply andb_true_iff in H as [H ?] end. reflect_bools. subst interval. lia. }
  destruct (flusher_ends (S (Z.to_nat (stop_at - now))) interval stop_at wanted took writes longest (60 * SECOND) 0 now interval)
    as (flushes & Hr & Hp & Hall); try done; [lia|].
  exists flushes. split; [exact Hr|]. split; [|done]. destruct flushes as [|[a b] l]; [done|]. cbn in *.
  unfold SECOND in *. destruct Hp as (? & ? & ?). split_and!; try lia. done.
Qed.

(** ** Witnesses *)

Definition example_files : list file :=
  [("brute.yml", Parsed brute_force); ("any.yaml", Parsed any_failure); ("notes.txt", Unreadable)]%string.

Lemma service_life_witness :
  ∃ rules rt x', get_app (H := literal_engine) (λ _, Some "sqlite+aiosqlite"%string) ["SENTINEL_ENV"; "PATH"]%string
      (default_settings PRODUCTION) (Some example_files) = Ok (default_settings PRODUCTION, rules) ∧
    new_runtime (Raise OSError) "box" (default_settings PRODUCTION) rules = Ok rt ∧
    lifespan (E := literal_engine) str_of_int "p" (default_settings PRODUCTION) (Ok rt) example_store example_service_run
      (Some ValueError) (stop (E := literal_engine) str_of_int "p" (default_settings PRODUCTION) example_turn true
        example_answer example_answer example_answer [LaneTakes 0])
    = ([Started []; Stopped x'; Disposed], Raise ValueError) ∧ (sv_handled x').*1 ≠ [].
Proof.
  destruct (get_app (H := literal_engine) (λ _, Some "sqlite+aiosqlite"%string) ["SENTINEL_ENV"; "PATH"]%string
      (default_settings PRODUCTION) (Some example_files)) as [[s rules]|e] eqn:Happ; [|discriminate (f_equal (@is_ok _) Happ)].
  assert (s = default_settings PRODUCTION ∧ rules = [any_failure; brute_force]) as [-> ->].
  { assert (Ok (s, rules) = Ok (default_settings PRODUCTION, [any_failure; brute_force])) as Heq
      by (rewrite <-Happ; vm_compute; reflexivity). by injection Heq. }
  pose proof (service_life (E := literal_engine) str_of_int "p" (λ _, Some "sqlite+aiosqlite"%string)
    ["SENTINEL_ENV"; "PATH"]%string (default_settings PRODUCTION) (Some example_files) (default_settings PRODUCTION)
    [any_failure; brute_force] (Raise OSError) "box" example_store example_service_run (Some ValueError) example_turn true
    example_answer example_answer example_answer [LaneTakes 0] Happ example_store_fresh example_schedule) as Hlife.
  destruct (new_runtime (Raise OSError) "box" (default_settings PRODUCTION) [any_failure; brute_force]) as [rt|e] eqn:Hrt;
    [|discriminate (f_equal (@is_ok _) Hrt)].
  destruct Hlife as (warnings & t & x & x' & Hw & _ & _ & _ & _ & Hrun & Hl & Hh & _).
  assert (warnings = []) as ->.
  { assert (Hrt' := Hrt). vm_compute in Hrt'. injection Hrt' as <-. vm_compute in Hw. by injection Hw. }
  exists [any_failure; brute_force], rt, x'. split; [reflexivity|]. split; [exact Hrt|]. split; [exact Hl|].
  rewrite Hh. assert (Hrt' := Hrt). vm_compute in Hrt'. injection Hrt' as <-. vm_compute in Hrun. injection Hrun as <-. vm_compute. discriminate.
Defined.

Lemma readiness_is_fresh_and_cheap_witness :
  in_turn 0 [mkProbeCall 1 2 (Some None); mkProbeCall 3 3 None] ∧
  ∃ j c' (asked : bool), (j ≤ 1)%nat ∧
    (probe_run [mkProbeCall 1 2 (Some None); mkProbeCall 3 3 None] new_probe).1 !! 1%nat = Some (checked c', asked).
Proof.
  split; [cbn; lia|].
  destruct (new_runtime (Raise OSError) "box" (default_settings PRODUCTION) example_rules) as [rt|e] eqn:Hrt;
    [|discriminate (f_equal (@is_ok _) Hrt)].
  destruct (readiness_is_fresh_and_cheap [mkProbeCall 1 2 (Some None); mkProbeCall 3 3 None] 0 no_tasks rt) as [_ H]; [cbn; lia|].
  destruct (H 1%nat (mkProbeCall 3 3 None) eq_refl) as (j & c' & asked & Hj & _ & Ha & _). by exists j, c', asked.
Defined.

Lemma flusher_keeps_pace_witness :
  ∃ flushes, flush_periodically (S (Z.to_nat (1000 - 0))) (persist_flush_interval_seconds (default_settings PRODUCTION)) 1000
      (λ _, Some 10) (λ _, 5) (λ _, false) 0 0 (persist_flush_interval_seconds (default_settings PRODUCTION)) = Some flushes ∧
    paced (120 * SECOND) 0 flushes.
Proof.
  destruct (flusher_keeps_pace (λ _, Some "sqlite+aiosqlite"%string) ["SENTINEL_ENV"; "PATH"]%string
    (default_settings PRODUCTION) 1000 (λ _, Some 10) (λ _, 5) (λ _, false) 5 0 (default_settings_valid PRODUCTION))
    as (flushes & Hr & Hp & _); [lia|]. exists flushes. split; [exact Hr|exact Hp].
Defined.
