(* ===== verification/Library.v ===== *)
(** * Rules of the shipped library ([rules/*.yml])

    The rules that match without a regular expression, as the loader hands them
    to the engine, in the order of their files.  An em dash in a description is
    outside the texts of the model; the character is a parameter. *)

From S2P Require Import Prelude PyText Events Rules.
Local Open Scope string_scope.
Local Open Scope Z_scope.

Definition action_is (a : string) : Condition := on_field "event.action" EQUALS (VScalar (SStr a)).
Definition ints (l : list Z) : rule_value := VList (map SInt l).

Definition c2_beacon_port : Rule :=
  mkRule "c2-beacon-port" "Outbound connection to a known C2 port"
    ("An established outbound connection whose destination port matches ports "
     +:+ "commonly used by reverse shells and C2 frameworks (Metasploit, Empire, etc.).")
    6 ["T1571"] ["DE.AE"] ["D3-NTA"] ["https://attack.mitre.org/techniques/T1571/"]
    (all_of [action_is "network_connection_opened";
             on_field "destination.port" IN (ints [1337; 4444; 4445; 5555; 6666; 6667; 8888; 9001; 12345; 31337])])
    None true.

Definition passwd_file_modified (em_dash : ascii) : Rule :=
  mkRule "passwd-file-modified" "Account database (/etc/passwd) modified"
    ("A content change to /etc/passwd " +:+ String em_dash " in place, or by deleting and recreating it "
     +:+ String em_dash " consistent with adding a backdoor account or altering a uid/shell for "
     +:+ "persistence or privilege escalation.")
    6 ["T1098"] ["DE.CM"] ["D3-FA"] ["https://attack.mitre.org/techniques/T1098/"]
    (all_of [on_field "file.path" EQUALS (VScalar (SStr "/etc/passwd"));
             on_field "event.action" IN (VList [SStr "file_modified"; SStr "file_created"])])
    None true.

Definition log_tampering (em_dash : ascii) : Rule :=
  mkRule "log-tampering" "Log file deleted or truncated"
    ("Deletion of a file under /var/log, or its truncation to zero bytes "
     +:+ "(`> /var/log/auth.log`, `truncate -s0`) " +:+ String em_dash " a hallmark of anti-forensics, an "
     +:+ "intruder removing evidence of their activity. Requires /var/log in SENTINEL_FIM_PATHS.")
    6 ["T1070.002"] ["DE.CM"; "PR.PS"] ["D3-FA"] ["https://attack.mitre.org/techniques/T1070/002/"]
    (all_of [on_field "file.path" STARTSWITH (VScalar (SStr "/var/log/"));
             any_of [action_is "file_deleted";
                     all_of [action_is "file_modified"; on_field "file.size" EQUALS (VScalar (SInt 0))]]])
    None true.

Definition new_listening_service (em_dash : ascii) : Rule :=
  mkRule "new-listening-service" "New listening service on an unexpected port"
    ("A socket began listening on a port outside the set of common, expected "
     +:+ "services " +:+ String em_dash " the shape of a backdoor or an unauthorized daemon.")
    4 ["T1571"] ["DE.CM"] ["D3-NTA"] ["https://attack.mitre.org/techniques/T1571/"]
    (all_of [action_is "network_listen_started";
             on_field "source.port" NOT_IN
               (ints [22; 25; 53; 80; 110; 111; 123; 143; 443; 465; 587; 631; 993; 995;
                      3306; 5432; 5353; 6379; 8080; 8443; 11211; 27017])])
    None true.

Definition ssh_brute_force (em_dash : ascii) : Rule :=
  mkRule "ssh-brute-force" "SSH brute-force login attempts"
    ("Five or more failed SSH authentications from a single source IP within one "
     +:+ "minute " +:+ String em_dash " the classic password-guessing signature.")
    6 ["T1110"] ["DE.CM"; "DE.AE"] ["D3-UBA"] ["https://attack.mitre.org/techniques/T1110/"]
    (threshold_of (mkThreshold (action_is "ssh_login_failed") 60 5 "source.ip"))
    (Some (mkThrottle 300 1)) true.

Definition ssh_root_login : Rule :=
  mkRule "ssh-root-login" "Successful SSH login as root"
    ("A successful interactive SSH session opened directly as root. Direct root "
     +:+ "login is widely disabled; a success is either misconfiguration or a foothold.")
    5 ["T1078.003"] ["DE.CM"] ["D3-UBA"] ["https://attack.mitre.org/techniques/T1078/003/"]
    (all_of [action_is "ssh_login_succeeded"; on_field "source.user" EQUALS (VScalar (SStr "root"))])
    None true.

Definition sudoers_modified : Rule :=
  mkRule "sudoers-modified" "Sudoers policy modified"
    ("A change under /etc/sudoers or /etc/sudoers.d/. Editing sudo policy is a "
     +:+ "direct route to privilege escalation and persistence.")
    6 ["T1548.003"] ["DE.CM"] ["D3-FA"] ["https://attack.mitre.org/techniques/T1548/003/"]
    (on_field "file.path" STARTSWITH (VScalar (SStr "/etc/sudoers")))
    None true.

(** In the order of the file names *)
Definition plain_rules (em_dash : ascii) : list Rule :=
  [c2_beacon_port; log_tampering em_dash; new_listening_service em_dash; passwd_file_modified em_dash;
   ssh_brute_force em_dash; ssh_root_login; sudoers_modified].

(** The loader accepts each of them. *)
Lemma plain_rules_valid em_dash : Forall (λ r, validate_rule r = Ok r) (plain_rules em_dash).
Proof. repeat constructor. Qed.
