(* ===== verification/Cli.v ===== *)
(** * The command line ([cli.py])

    What the commands write and the exit code they end with: [rules] lists the
    rule library, [demo] replays the demonstration, both fail closed on an
    invalid library; [serve] runs the application.  [argparse] reads the
    arguments: a command is what it makes of them.  The em dash of one message
    is outside the texts of the model and a parameter. *)

From S2P Require Import Prelude ODict PyText PyRe Normalizer Rules Evaluator Engine Loader Alerting Settings Metrics Demo.
Local Open Scope string_scope.
Local Open Scope Z_scope.

(** [f"{text:<{width}}"] *)
Fixpoint blanks (n : nat) : string := match n with O => "" | S n => String " " (blanks n) end.
Definition ljust (width : Z) (text : string) : string := text +:+ blanks (Z.to_nat (width - strlen text)).

(** [key=lambda rule: rule.id] *)
Definition id_le (r1 r2 : Rule) : Prop := string_le (rule_id r1) (rule_id r2).
#[export] Instance id_le_dec r1 r2 : Decision (id_le r1 r2) := decide (string_le _ _).
#[export] Instance id_le_total : Total id_le.
Proof. intros r1 r2. apply string_le_total. Qed.

(** [sorted(..., key=...)] *)
Definition by_id (rules : list Rule) : list Rule := merge_sort id_le rules.

(** [max(..., default)] of the lengths *)
Definition id_width (rules : list Rule) : Z := foldr (λ r n, Z.max (strlen (rule_id r)) n) 0 rules.

Definition rule_line (width : Z) (r : Rule) : string :=
  ljust width (rule_id r) +:+ "  " +:+ ljust 8 (severity_label (rule_severity r)) +:+ "  "
  +:+ ljust 20 (str_join ", " (rule_attack r)) +:+ "  " +:+ rule_title r +:+ NEWLINE.

Section commands.
Context `{RegexEngine}.
(** An em dash, the text of a [RuleLoadError] *)
Context (em_dash : string) (reason : string).

Definition invalid_library : string := "rule library is invalid: " +:+ reason +:+ NEWLINE.

(** [_cmd_rules]: the exit code, and what is written *)
Definition cmd_rules (rules_dir : string) (dir : option (list Loader.file)) : Z * list string :=
  match load_rules dir with
  | Raise _ => (1, [invalid_library])
  | Ok rules =>
      let rules := by_id rules in
      let width := id_width rules in
      (0, map (rule_line width) rules
            ++ [NEWLINE +:+ str_of_int (len rules) +:+ " rules loaded from " +:+ rules_dir +:+ " " +:+ em_dash
                  +:+ " all valid." +:+ NEWLINE])%list
  end.

Definition BANNER : string :=
  "Sentinel-Linux demo: replaying a scripted intrusion through the real pipeline" +:+ NEWLINE
  +:+ "(normalizer -> bounded queue -> dedup -> rules -> alert manager -> SQLite)" +:+ NEWLINE +:+ NEWLINE.

(** [_cmd_demo]; [run_demo] writes to the same stream. *)
Definition cmd_demo (run_demo : list Rule → list string * DemoResult) (dir : option (list Loader.file)) : Z * list string :=
  match load_rules dir with
  | Raise _ => (1, [invalid_library])
  | Ok rules =>
      let '(written, r) := run_demo rules in
      (0, BANNER :: written ++ [summarize r +:+ NEWLINE])%list
  end.

Inductive command :=
  | Serve (host : string) (port : Z)
  | RulesOf (rules_dir : string)
  | DemoOf (rules_dir : string).

(** [main]: [serve] writes nothing itself and ends when [uvicorn.run] returns. *)
Definition main (run_demo : list Rule → list string * DemoResult) (files : string → option (list Loader.file)) (c : command)
    : Z * list string :=
  match c with
  | Serve _ _ => (0, [])
  | RulesOf dir => cmd_rules dir (files dir)
  | DemoOf dir => cmd_demo run_demo (files dir)
  end.

(** ** Lemmas *)

Lemma by_id_perm rules : by_id rules ≡ₚ rules.
Proof. apply merge_sort_Permutation. Qed.

Lemma by_id_sorted rules : Sorted id_le (by_id rules).
Proof. apply Sorted_merge_sort, _. Qed.

Lemma id_width_bound rules r : r ∈ rules → strlen (rule_id r) ≤ id_width rules.
Proof.
  intros Hr. induction rules as [|r' rules IH]; [by apply elem_of_nil in Hr|]. cbn.
  apply elem_of_cons in Hr as [->|Hr]; [apply Z.le_max_l|]. etrans; [by apply IH|apply Z.le_max_r].
Qed.

Lemma loaded_ids dir rules : load_rules dir = Ok rules → NoDup (rule_id <$> rules).
Proof. destruct dir as [files|]; [|done]. intros Hl. by apply load_files_ok in Hl as (_ & ? & _). Qed.

Lemma blanks_length n : strlen (blanks n) = Z.of_nat n.
Proof. unfold strlen. f_equal. induction n; cbn; congruence. Qed.

Lemma ljust_length width t : strlen t ≤ width → strlen (ljust width t) = width.
Proof. intros Ht. unfold ljust. rewrite strlen_app, blanks_length. lia. Qed.

Lemma sorted_strictly rules :
  NoDup (rule_id <$> rules) → Sorted id_le rules → Sorted (λ r1 r2, id_le r1 r2 ∧ rule_id r1 ≠ rule_id r2) rules.
Proof.
  intros Hnd. induction 1 as [|r rules _ IH Hhd]; [constructor|]. rewrite fmap_cons in Hnd. apply NoDup_cons in Hnd as [Hn Hnd].
  constructor; [by apply IH|]. destruct Hhd as [|r' rules Hle]; constructor. split; [done|]. intros Heq. apply Hn.
  rewrite fmap_cons, Heq. by left.
Qed.

(** ** The property *)

(** The commands fail closed and the listing is complete: with a library
    the loader rejects, [rules] and [demo] end with exit code 1 after the one
    message, no rule listed and nothing replayed; otherwise both end with 0,
    and [rules] lists exactly the loaded rules, each once, by increasing id, all
    ids padded to one width that holds the longest. *)
Theorem commands_fail_closed run_demo files rules_dir :
  let run := main run_demo files in
  match load_rules (files rules_dir) with
  | Raise _ => run (RulesOf rules_dir) = (1, [invalid_library]) ∧ run (DemoOf rules_dir) = (1, [invalid_library])
  | Ok rules =>
      (∃ listed width foot, run (RulesOf rules_dir) = (0, map (rule_line width) listed ++ [foot])%list ∧
         listed ≡ₚ rules ∧ Sorted (λ r1 r2, id_le r1 r2 ∧ rule_id r1 ≠ rule_id r2) listed ∧
         ∀ r, r ∈ rules → strlen (ljust width (rule_id r)) = width) ∧
      (run (DemoOf rules_dir)).1 = 0
  end.
Proof.
  intros run. subst run. cbn [main]. unfold cmd_rules, cmd_demo. destruct (load_rules _) as [rules|e] eqn:Hl; [|done].
  split; [|by destruct (run_demo rules)]. exists (by_id rules), (id_width (by_id rules)). eexists. split; [reflexivity|].
  split; [apply by_id_perm|]. split.
  - apply sorted_strictly; [|apply by_id_sorted]. rewrite by_id_perm. by eapply loaded_ids.
  - intros r Hr. apply ljust_length, id_width_bound. by rewrite by_id_perm.
Qed.
End commands.

Example listing :
  cmd_rules (H := literal_engine) "-" "" "rules"
    (Some [("b.yml", Parsed brute_force); ("a.yml", Parsed any_failure)])
  = (0, map (rule_line 11) [any_failure; brute_force] ++ [NEWLINE +:+ "2 rules loaded from rules - all valid." +:+ NEWLINE])%list.
Proof. vm_compute. reflexivity. Qed.
