(* ===== verification/LogConfig.v ===== *)
(** * Which records are logged ([logging.configure_logging])

    The levels [configure_logging] sets, and what the standard library's
    [logging] and structlog's filtering logger make of them: a record is written
    when its level reaches that of its logger, or of the nearest ancestor that
    has one.  What is written has passed [Logs.shared_processors]. *)

From S2P Require Import Prelude ODict PyText Evaluator Settings Logs.
Local Open Scope string_scope.
Local Open Scope Z_scope.

(** [logging.getLevelNamesMapping()] *)
Definition numeric_level (l : LogLevel) : Z :=
  match l with DEBUG => 10 | INFO => 20 | WARNING => 30 | ERROR => 40 | CRITICAL => 50 end.

Definition URL_LOGGING_LIBRARIES : list string := ["httpx"; "httpcore"].

(** The root logger's level, those of the named loggers that have one, and the
    level below which structlog's loggers drop a record. *)
Record Logging := mkLogging { root_level : Z; logger_levels : odict string Z; bound_level : Z }.

(** [configure_logging], in a process whose other loggers have no level *)
Definition configure_logging (s : Settings) : Logging :=
  let level := numeric_level (log_level s) in
  mkLogging level
    (foldl (λ d name, od_set d name (Z.max level (numeric_level WARNING))) [] URL_LOGGING_LIBRARIES)
    level.

(** [Logger.getEffectiveLevel], of the logger named by the parts, last first *)
Fixpoint effective_level (c : Logging) (parts : list string) : Z :=
  match parts with
  | [] => root_level c
  | _ :: ancestors =>
      let level := default 0 (od_get (logger_levels c) (str_join "." (reverse parts))) in
      if level =? 0 then effective_level c ancestors else level
  end.

(** What a library's logger writes of a record, if it does *)
Definition library_record (c : Logging) (logger : string) (level : Z) (d : event_dict) : option event_dict :=
  if effective_level c (reverse (str_split "." logger)) <=? level then Some (shared_processors d) else None.

(** What a logger of the service writes *)
Definition service_record (c : Logging) (level : Z) (d : event_dict) : option event_dict :=
  if bound_level c <=? level then Some (shared_processors d) else None.

(** ** Lemmas *)

(** The loggers of a library and of its modules *)
Definition url_library (logger : string) : bool :=
  match str_split "." logger with top :: _ => bool_decide (top ∈ URL_LOGGING_LIBRARIES) | [] => false end.

Lemma configured_level s key :
  default 0 (od_get (logger_levels (configure_logging s)) key)
  = if bool_decide (key ∈ URL_LOGGING_LIBRARIES) then Z.max (numeric_level (log_level s)) 30 else 0.
Proof.
  unfold configure_logging, URL_LOGGING_LIBRARIES. cbn [logger_levels foldl]. rewrite !od_get_set. cbn [od_get].
  repeat case_decide; subst; case_bool_decide as Hin; try done; rewrite !elem_of_cons in Hin; try tauto.
  destruct Hin as [?|[?|Hn]]; [done..|by apply elem_of_nil in Hn].
Qed.

Lemma numeric_positive l : 0 < numeric_level l.
Proof. by destruct l. Qed.

(** A dotted name is not that of a library. *)
Lemma dotted_not_library p q ps : bool_decide (str_join "." (p :: q :: ps) ∈ URL_LOGGING_LIBRARIES) = false.
Proof.
  apply bool_decide_eq_false_2. intros Hin.
  assert (Hd : str_forall (λ c, negb (Ascii.eqb c ".")) (str_join "." (p :: q :: ps)) = true).
  { revert Hin. apply (proj1 (Forall_forall (λ n, str_forall (λ c, negb (Ascii.eqb c ".")) n = true) URL_LOGGING_LIBRARIES)).
    repeat constructor. }
  change (str_join "." (p :: q :: ps)) with (p +:+ "." +:+ str_join "." (q :: ps)) in Hd. rewrite !str_forall_app in Hd.
  apply andb_true_iff in Hd as [_ Hd]. discriminate Hd.
Qed.

Lemma effective_of s top rest :
  effective_level (configure_logging s) (reverse (top :: rest))
  = if bool_decide (top ∈ URL_LOGGING_LIBRARIES) then Z.max (numeric_level (log_level s)) 30 else numeric_level (log_level s).
Proof.
  pose proof (numeric_positive (log_level s)) as Hp. induction rest as [|p rest IH] using rev_ind.
  - cbn [reverse rev_append effective_level]. rewrite configured_level.
    change (str_join "." (reverse [top])) with top. change (str_join "." [top]) with top. case_bool_decide; [|done]. by rewrite (proj2 (Z.eqb_neq _ _)) by lia.
  - rewrite app_comm_cons, reverse_snoc. cbn [effective_level]. rewrite reverse_cons, reverse_involutive, configured_level.
    destruct rest as [|q rest]; cbn [app]; rewrite dotted_not_library; exact IH.
Qed.

(** ** The property *)

(** Whatever level is configured, the HTTP client libraries, whose requests'
    URLs may be credentials, and all their modules log nothing below a warning;
    every other logger writes exactly the records that reach the configured
    level; and no record is written that did not pass the sanitizing
    processors. *)
Theorem url_libraries_are_quiet s logger level d :
  let c := configure_logging s in
  let configured := numeric_level (log_level s) in
  library_record c logger level d
  = (if (if url_library logger then Z.max configured (numeric_level WARNING) else configured) <=? level
     then Some (shared_processors d) else None) ∧
  service_record c level d = (if configured <=? level then Some (shared_processors d) else None) ∧
  ∀ written, library_record c logger level d = Some written ∨ service_record c level d = Some written →
    shown_value (LMap d) (LMap written).
Proof.
  intros c configured. split; [|split; [done|]].
  - unfold library_record, url_library. destruct (str_split "." logger) as [|top rest] eqn:Hs; [done|].
    unfold c. rewrite effective_of. by case_bool_decide.
  - intros written. unfold library_record, service_record.
    intros [H|H]; revert H; case_match; intros [= <-]; rewrite <-sanitized_map; apply sanitized_shown.
Qed.

Example quiet_at_debug :
  let c := configure_logging (default_settings DEVELOPMENT) in
  map (λ r, bool_decide (is_Some (library_record c r.1 r.2 [])))
    [("httpx", 20); ("httpcore.connection", 20); ("httpx._client", 30); ("httpxx", 20); ("uvicorn.error", 20)]
  = [false; false; true; true; true].
Proof. vm_compute. reflexivity. Qed.
