(* ===== verification/Migrations.v ===== *)
(** * The database schema ([storage/models.py], [migrations/])

    The tables the ORM models declare, the four revisions that build them, and
    the URL a migration connects to.  What a schema operation does to a database
    is SQL's, reached through Alembic: it is used through the interface
    [SchemaTool], whose law is the documented effect of each operation, data
    included.  A schema is a finite map, so the order of columns does not
    matter; constraints beyond type, nullability, key, default and indexes are
    not used by the source. *)

From S2P Require Import Prelude PyText ODict Base Integrity Settings Database.
Local Open Scope string_scope.
Local Open Scope Z_scope.

(** ** Schemas and data *)

Inductive sql_type := INTEGER | VARCHAR (n : Z) | TEXT | BOOLEAN | TIMESTAMPTZ.

Inductive value := Null | IntValue (n : Z) | TextValue (s : string) | BoolValue (b : bool) | TimeValue (t : Z).

Record column := mkColumn { col_type : sql_type; nullable : bool; primary_key : bool; server_default : option value }.

Record index := mkIndex { ix_table : string; ix_columns : list string; ix_unique : bool }.

Abbreviation record := (gmap string value).

Record table := mkTable { columns : gmap string column; rows : list record }.

Record Db := mkDb { tables : gmap string table; indexes : gmap string index }.

#[export] Instance sql_type_eq_dec : EqDecision sql_type.
Proof. solve_decision. Defined.
#[export] Instance value_eq_dec : EqDecision value.
Proof. solve_decision. Defined.
#[export] Instance column_eq_dec : EqDecision column.
Proof. solve_decision. Defined.
#[export] Instance index_eq_dec : EqDecision index.
Proof. solve_decision. Defined.
#[export] Instance table_eq_dec : EqDecision table.
Proof. solve_decision. Defined.
#[export] Instance Db_eq_dec : EqDecision Db.
Proof. solve_decision. Defined.

Definition no_db : Db := mkDb ∅ ∅.

(** ** Operations *)

Inductive op :=
  | CreateTable (name : string) (cols : list (string * column))
  | DropTable (name : string)
  | CreateIndex (name table_name : string) (fields : list string) (unique : bool)
  | DropIndex (name table_name : string)
  | AddColumn (table_name name : string) (c : column)
  | DropColumn (table_name name : string).

(** The values a row has in the columns of an index, if none is NULL: rows with
    a NULL never conflict. *)
Definition index_key (fields : list string) (r : record) : option (list value) :=
  mapM (λ f, match r !! f with Some Null | None => None | Some v => Some v end) fields.

Definition without_conflict (fields : list string) (rs : list record) : Prop := NoDup (omap (index_key fields) rs).
#[export] Instance without_conflict_dec fields rs : Decision (without_conflict fields rs) := decide (NoDup _).

Definition set_table (name : string) (t : table) (d : Db) : Db := mkDb (<[name := t]> (tables d)) (indexes d).

(** What an added column holds in the rows that were there *)
Definition added_value (c : column) : value := default Null (server_default c).

(** The documented effect of an operation; [None]: it fails, or is not relied
    on (dropping a column an index uses, which SQLite refuses and PostgreSQL does,
    the index with it). *)
Definition effect (o : op) (d : Db) : option Db :=
  match o with
  | CreateTable name cols =>
      if decide (tables d !! name = None ∧ NoDup cols.*1)
      then Some (set_table name (mkTable (list_to_map cols) []) d) else None
  | DropTable name =>
      if decide (is_Some (tables d !! name))
      then Some (mkDb (delete name (tables d)) (filter (λ i, ix_table i.2 ≠ name) (indexes d))) else None
  | CreateIndex name tn fields unique =>
      t ← tables d !! tn;
      if decide (indexes d !! name = None ∧ Forall (λ f, is_Some (columns t !! f)) fields
                 ∧ (unique = true → without_conflict fields (rows t)))
      then Some (mkDb (tables d) (<[name := mkIndex tn fields unique]> (indexes d))) else None
  | DropIndex name tn =>
      i ← indexes d !! name;
      if decide (ix_table i = tn) then Some (mkDb (tables d) (delete name (indexes d))) else None
  | AddColumn tn name c =>
      t ← tables d !! tn;
      if decide (columns t !! name = None ∧ (nullable c = true ∨ is_Some (server_default c) ∨ rows t = []))
      then Some (set_table tn (mkTable (<[name := c]> (columns t)) (<[name := added_value c]> <$> rows t)) d) else None
  | DropColumn tn name =>
      t ← tables d !! tn;
      if decide (is_Some (columns t !! name) ∧ map_Forall (λ _ i, ix_table i = tn → name ∉ ix_columns i) (indexes d))
      then Some (set_table tn (mkTable (delete name (columns t)) (delete name <$> rows t)) d) else None
  end.

Fixpoint effects (os : list op) (d : Db) : option Db :=
  match os with [] => Some d | o :: os => d ← effect o d; effects os d end.

(** Alembic's [op], on databases of which [view] is what can be seen. *)
Class SchemaTool (D : Type) := {
  view : D → Db;
  run_op : op → D → option D;
  run_op_effect o d : view <$> run_op o d = effect o (view d);
}.

#[export] Instance db_tool : SchemaTool Db.
Proof. refine {| view := id; run_op := effect |}. intros o d. cbn. by rewrite option_fmap_id. Defined.

Fixpoint run_ops `{SchemaTool D} (os : list op) (d : D) : option D :=
  match os with [] => Some d | o :: os => d ← run_op o d; run_ops os d end.

(** ** The revisions ([migrations/versions/]) *)

Record revision := mkRevision {
  rev_id : string; down_revision : option string; upgrade : list op; downgrade : list op;
}.

(** [sa.Column(name, type, nullable=…)], and a primary key *)
Definition sa_column (name : string) (type : sql_type) (null : bool) : string * column :=
  (name, mkColumn type null false None).
Definition sa_key (name : string) : string * column := (name, mkColumn INTEGER false true None).

(** [0001_initial_schema] *)
Definition upgrade_0001 : list op := [
  CreateTable "events" [
    sa_key "id";
    sa_column "event_id" (VARCHAR 64) false;
    sa_column "occurred_at" TIMESTAMPTZ false;
    sa_column "category" (VARCHAR 32) false;
    sa_column "action" (VARCHAR 200) false;
    sa_column "outcome" (VARCHAR 16) false;
    sa_column "severity" INTEGER false;
    sa_column "host" (VARCHAR 253) false;
    sa_column "source_ip" (VARCHAR 64) true;
    sa_column "message" TEXT false;
    sa_column "created_at" TIMESTAMPTZ false];
  CreateIndex "ix_events_event_id" "events" ["event_id"] false;
  CreateIndex "ix_events_occurred_at_id" "events" ["occurred_at"; "id"] false;
  CreateTable "alerts" [
    sa_key "id";
    sa_column "dedup_key" (VARCHAR 256) false;
    sa_column "rule_id" (VARCHAR 64) false;
    sa_column "severity" INTEGER false;
    sa_column "attack" (VARCHAR 256) false;
    sa_column "nist_csf" (VARCHAR 256) false;
    sa_column "event_id" (VARCHAR 64) false;
    sa_column "host" (VARCHAR 253) false;
    sa_column "occurred_at" TIMESTAMPTZ false;
    sa_column "summary" TEXT false;
    sa_column "created_at" TIMESTAMPTZ false];
  CreateIndex "ix_alerts_dedup_key" "alerts" ["dedup_key"] false;
  CreateIndex "ix_alerts_rule_id" "alerts" ["rule_id"] false;
  CreateIndex "ix_alerts_occurred_at_id" "alerts" ["occurred_at"; "id"] false].

Definition downgrade_0001 : list op := [DropTable "alerts"; DropTable "events"].

(** [0002_alert_notified] *)
Definition upgrade_0002 : list op :=
  [AddColumn "alerts" "notified" (mkColumn BOOLEAN false false (Some (BoolValue true)))].
Definition downgrade_0002 : list op := [DropColumn "alerts" "notified"].

(** [0003_created_at_indexes] *)
Definition upgrade_0003 : list op := [
  CreateIndex "ix_events_created_at" "events" ["created_at"] false;
  CreateIndex "ix_alerts_created_at" "alerts" ["created_at"] false].
Definition downgrade_0003 : list op := [
  DropIndex "ix_alerts_created_at" "alerts";
  DropIndex "ix_events_created_at" "events"].

(** [0004_write_ids] *)
Definition upgrade_0004 : list op := [
  AddColumn "events" "write_id" (mkColumn (VARCHAR 32) true false None);
  CreateIndex "ix_events_write_id" "events" ["write_id"] true;
  AddColumn "alerts" "write_id" (mkColumn (VARCHAR 32) true false None);
  CreateIndex "ix_alerts_write_id" "alerts" ["write_id"] true].
Definition downgrade_0004 : list op := [
  DropIndex "ix_alerts_write_id" "alerts";
  DropColumn "alerts" "write_id";
  DropIndex "ix_events_write_id" "events";
  DropColumn "events" "write_id"].

Definition revision_0001 := mkRevision "0001" None upgrade_0001 downgrade_0001.
Definition revision_0002 := mkRevision "0002" (Some "0001") upgrade_0002 downgrade_0002.
Definition revision_0003 := mkRevision "0003" (Some "0002") upgrade_0003 downgrade_0003.
Definition revision_0004 := mkRevision "0004" (Some "0003") upgrade_0004 downgrade_0004.
Definition versions : list revision := [revision_0001; revision_0002; revision_0003; revision_0004].

(** What [alembic upgrade head] runs from nothing, and [downgrade base] from
    the head. *)
Definition upgrade_head : list op := concat (upgrade <$> versions).
Definition downgrade_base : list op := concat (downgrade <$> reverse versions).

(** ** The models ([storage/models.py]) *)

(** A mapped attribute: its annotation's optionality and what [mapped_column]
    is given. *)
Record mapped := mkMapped {
  attribute : string; optional : bool; mapped_type : sql_type; key : bool; indexed : bool; unique : bool;
  default_clause : option value;
}.
Definition plain (name : string) (type : sql_type) : mapped := mkMapped name false type false false false None.
Definition with_index (name : string) (type : sql_type) : mapped := mkMapped name false type false true false None.

Record model := mkModel { tablename : string; attributes : list mapped; table_args : list (string * list string) }.

Definition EventRow : model := mkModel "events"
  [mkMapped "id" false INTEGER true false false None;
   with_index "event_id" (VARCHAR 64);
   plain "occurred_at" TIMESTAMPTZ;
   plain "category" (VARCHAR 32);
   plain "action" (VARCHAR 200);
   plain "outcome" (VARCHAR 16);
   plain "severity" INTEGER;
   plain "host" (VARCHAR 253);
   mkMapped "source_ip" true (VARCHAR 64) false false false None;
   plain "message" TEXT;
   with_index "created_at" TIMESTAMPTZ;
   mkMapped "write_id" true (VARCHAR 32) false true true None]
  [("ix_events_occurred_at_id", ["occurred_at"; "id"])].

Definition AlertRow : model := mkModel "alerts"
  [mkMapped "id" false INTEGER true false false None;
   with_index "dedup_key" (VARCHAR 256);
   with_index "rule_id" (VARCHAR 64);
   plain "severity" INTEGER;
   plain "attack" (VARCHAR 256);
   plain "nist_csf" (VARCHAR 256);
   plain "event_id" (VARCHAR 64);
   plain "host" (VARCHAR 253);
   plain "occurred_at" TIMESTAMPTZ;
   plain "summary" TEXT;
   mkMapped "notified" false BOOLEAN false false false (Some (BoolValue true));
   with_index "created_at" TIMESTAMPTZ;
   mkMapped "write_id" true (VARCHAR 32) false true true None]
  [("ix_alerts_occurred_at_id", ["occurred_at"; "id"])].

Definition models : list model := [EventRow; AlertRow].

Definition mapped_column (m : mapped) : string * column :=
  (attribute m, mkColumn (mapped_type m) (optional m) (key m) (default_clause m)).

Definition create_model (m : model) : list op :=
  CreateTable (tablename m) (mapped_column <$> attributes m)
  :: (((λ a, CreateIndex ("ix_" ++ tablename m ++ "_" ++ attribute a) (tablename m) [attribute a] (unique a))
        <$> filter (λ a, indexed a = true) (attributes m))
  ++ ((λ i, CreateIndex i.1 (tablename m) i.2 false) <$> table_args m))%list.

(** [Database.create_all]: the tables that are not there yet *)
Definition missing (d : Db) (m : model) : Prop := tables d !! tablename m = None.
#[export] Instance missing_dec d m : Decision (missing d m) := decide (_ = None).
Definition create_all `{SchemaTool D} (d : D) : option D :=
  run_ops (concat (create_model <$> filter (missing (view d)) models)) d.

(** [UTCDateTime]: a value as the driver returns it, with its offset from UTC if
    it has one; SQLite keeps the wall clock only. *)
Inductive loaded := Naive (wall : Z) | Aware (wall offset : Z).

Definition process_result_value (v : option loaded) : option loaded :=
  match v with Some (Naive wall) => Some (Aware wall 0) | _ => v end.

(** ** Connecting ([migrations/env.py]) *)

(** [_sync_url]: the configured URL, or else the service's *)
Definition sync_url (configured : option string) (database_url : string) : string :=
  let url := match configured with Some url => if bool_decide (url = "") then database_url else url | None => database_url end in
  str_replace "+asyncpg" "+psycopg" (str_replace "+aiosqlite" "" url).

Section connecting.
(** SQLAlchemy's reading of a URL, and the database found at one *)
Context (make_url : string → ParsedUrl).
Context `{SchemaTool D} (connect : string → D).

(** [run_migrations_online] running [os]: the file system and its warning, and
    the database it ends with *)
Definition run_migrations_online (configured : option string) (database_url : string) (os : list op) (fs : FileSystem)
  : (FileSystem * option warning) * option D :=
  let url := sync_url configured database_url in
  (create_private_sqlite_file (make_url url) fs, run_ops os (connect url)).
End connecting.

(** ** What the tool sees *)

Lemma run_ops_effects `{SchemaTool D} os d : view <$> run_ops os d = effects os (view d).
Proof.
  revert d. induction os as [|o os IH]; intros d; [done|]. cbn [run_ops effects].
  rewrite <-run_op_effect. destruct (run_op o d) as [d'|]; [apply IH|done].
Qed.

Lemma effects_app os os' d : effects (os ++ os')%list d = effects os d ≫= effects os'.
Proof. revert d. induction os as [|o os IH]; intros d; [done|]. cbn. destruct (effect o d); [apply IH|done]. Qed.

(** A URL of one of the two drivers the settings accept: only its driver
    changes, as long as what follows the scheme names no driver. *)
Lemma sync_url_of_driver driver rest :
  driver ∈ ASYNC_DATABASE_DRIVERS →
  str_contains "+aiosqlite" rest = false → str_contains "+asyncpg" rest = false →
  sync_url None (driver ++ rest) = (if bool_decide (driver = "sqlite+aiosqlite") then "sqlite" else "postgresql+psycopg") ++ rest.
Proof.
  intros Hd H1 H2. unfold sync_url, str_replace. unfold ASYNC_DATABASE_DRIVERS in Hd.
  rewrite !elem_of_cons in Hd. destruct Hd as [->|[->|Hd]]; [| |by apply elem_of_nil in Hd].
  - assert (E : replace_from "+aiosqlite" "" 0 ("sqlite+aiosqlite" ++ rest) = "sqlite" ++ rest).
    { destruct rest; exact (f_equal (λ r, "sqlite" ++ r) (replace_from_absent "+aiosqlite" "" _ H1)). }
    rewrite E. exact (f_equal (λ r, "sqlite" ++ r) (replace_from_absent "+asyncpg" "+psycopg" rest H2)).
  - assert (E : replace_from "+aiosqlite" "" 0 ("postgresql+asyncpg" ++ rest) = "postgresql+asyncpg" ++ rest).
    { exact (f_equal (λ r, "postgresql+asyncpg" ++ r) (replace_from_absent "+aiosqlite" "" rest H1)). }
    rewrite E. destruct rest; exact (f_equal (λ r, "postgresql+psycopg" ++ r) (replace_from_absent "+asyncpg" "+psycopg" _ H2)).
Qed.

(** Migrating prepares the file the service opens, if the driver is not part
    of what a URL names. *)
Lemma migrates_the_service_database make_url driver rest :
  (∀ r, sqlite_path (make_url ("sqlite" ++ r)) = sqlite_path (make_url ("sqlite+aiosqlite" ++ r))) →
  (∀ r, sqlite_path (make_url ("postgresql+psycopg" ++ r)) = sqlite_path (make_url ("postgresql+asyncpg" ++ r))) →
  driver ∈ ASYNC_DATABASE_DRIVERS →
  str_contains "+aiosqlite" rest = false → str_contains "+asyncpg" rest = false →
  sqlite_path (make_url (sync_url None (driver ++ rest))) = sqlite_path (make_url (driver ++ rest)).
Proof.
  intros Hs Hp Hd H1 H2. rewrite sync_url_of_driver by done. unfold ASYNC_DATABASE_DRIVERS in Hd.
  rewrite !elem_of_cons in Hd. destruct Hd as [->|[->|Hd]]; [apply Hs|apply Hp|by apply elem_of_nil in Hd].
Qed.

(** The replacement does not stop at the scheme: here it changes the name of
    the file, and the service opens another. *)
Example sync_url_changes_the_path :
  sync_url None "sqlite+aiosqlite:////srv/sentinel+aiosqlite.db" = "sqlite:////srv/sentinel.db".
Proof. reflexivity. Qed.

Example sync_url_changes_the_password :
  sync_url None "postgresql+asyncpg://sentinel:a+asyncpg@db/sentinel" = "postgresql+psycopg://sentinel:a+psycopg@db/sentinel".
Proof. reflexivity. Qed.

(** SQLite keeps the wall clock only, so what it gives back is the instant that
    was stored exactly when that was a UTC time. *)
Definition instant (v : loaded) : Z := match v with Naive wall => wall | Aware wall offset => wall - offset end.
Definition sqlite_keeps (v : loaded) : loaded := match v with Naive wall | Aware wall _ => Naive wall end.

Lemma utc_times_round_trip wall offset :
  instant <$> process_result_value (Some (sqlite_keeps (Aware wall offset))) = Some (instant (Aware wall offset)) ↔ offset = 0.
Proof. cbn. split; [intros [= H]; lia|]. intros ->. done. Qed.

(** ** Conforming databases *)

(** Every row has the columns of its table, and every index is on columns of a
    table. *)
Record conforming (d : Db) : Prop := {
  rows_conform : map_Forall (λ _ t, Forall (λ r, dom r = dom (columns t)) (rows t)) (tables d);
  indexes_conform : map_Forall (λ _ i, ∃ t, tables d !! ix_table i = Some t ∧
    Forall (λ f, is_Some (columns t !! f)) (ix_columns i)) (indexes d);
}.

Lemma no_db_conforming : conforming no_db.
Proof. by split; apply map_Forall_empty. Qed.

(** What an operation does, case by case *)
Ltac effect_case H :=
  cbn [effect] in H;
  repeat match type of H with
  | (if decide ?P then _ else _) = Some _ => let Hd := fresh "Hd" in destruct (decide P) as [Hd|]; [|done]
  | (?x ≫= _) = Some _ => let it := fresh "it" in let E := fresh "E" in destruct x as [it|] eqn:E; cbn [mbind option_bind] in H; [|done]
  end; destruct_and?; injection H as <-.

Lemma effect_conforming o d d' : conforming d → effect o d = Some d' → conforming d'.
Proof.
  intros [Hr Hi] H. destruct o; effect_case H; split; cbn [tables indexes set_table].
  - apply map_Forall_insert_2; [constructor|done].
  - intros k i (t & Ht & Hf)%Hi. exists t. split; [|done]. rewrite lookup_insert_ne; [done|congruence].
  - by apply map_Forall_delete.
  - intros k i Hk. apply map_lookup_filter_Some in Hk as [(t & Ht & Hf)%Hi Hne]. exists t. split; [|done].
    by rewrite lookup_delete_ne.
  - done.
  - apply map_Forall_insert_2; [|done]. cbn. eauto.
  - done.
  - by apply map_Forall_delete.
  - apply map_Forall_insert_2; [|done]. cbn. apply Forall_fmap. eapply Forall_impl; [exact (Hr _ _ E)|].
    intros r Hd. cbn. rewrite !dom_insert_L. by f_equal.
  - intros k i (t' & Ht & Hf)%Hi. destruct (decide (ix_table i = table_name)) as [Heq|Hne].
    + rewrite lookup_insert. case_decide; [|congruence]. eexists; split; [done|]. cbn. assert (t' = it) as -> by congruence.
      eapply Forall_impl; [done|]. intros f Hs. rewrite lookup_insert. by case_decide.
    + rewrite lookup_insert_ne by done. eauto.
  - apply map_Forall_insert_2; [|done]. cbn. apply Forall_fmap. eapply Forall_impl; [exact (Hr _ _ E)|].
    intros r Hd. cbn. rewrite !dom_delete_L. by f_equal.
  - intros k i Hk. destruct (Hi k i Hk) as (t' & Ht & Hf). destruct (decide (ix_table i = table_name)) as [Heq|Hne].
    + rewrite lookup_insert. case_decide; [|congruence]. eexists; split; [done|]. cbn. assert (t' = it) as -> by congruence.
      apply Forall_forall. intros f Hin. rewrite lookup_delete_ne.
      * by eapply Forall_forall in Hf.
      * intros <-. by eapply H1.
    + rewrite lookup_insert_ne by done. eauto.
Qed.

Lemma effects_conforming os d d' : conforming d → effects os d = Some d' → conforming d'.
Proof.
  revert d. induction os as [|o os IH]; cbn [effects]; intros d Hc H; [by injection H as <-|].
  destruct (effect o d) as [d1|] eqn:E; [|done]. eapply IH; [by eapply effect_conforming|done].
Qed.

(** ** Undoing *)

Definition undo (o : op) : option op :=
  match o with
  | CreateTable name _ => Some (DropTable name)
  | CreateIndex name tn _ _ => Some (DropIndex name tn)
  | AddColumn tn name _ => Some (DropColumn tn name)
  | _ => None
  end.

Lemma delete_added_column name v rs (cols : gmap string column) :
  cols !! name = None → Forall (λ r : record, dom r = dom cols) rs →
  delete name <$> (<[name:=v]> <$> rs) = rs.
Proof.
  intros Hn. induction 1 as [|r rs Hr _ IH]; [done|]. cbn. f_equal; [|done]. apply delete_insert_id.
  apply not_elem_of_dom. rewrite Hr. by apply not_elem_of_dom.
Qed.

Lemma undo_effect o o' d d' : conforming d → undo o = Some o' → effect o d = Some d' → effect o' d' = Some d.
Proof.
  intros [Hr Hi] Hu H. destruct d as [T I]. cbn [tables indexes] in *.
  destruct o; try done; injection Hu as <-; effect_case H; cbn [effect tables indexes set_table] in *.
  - rewrite lookup_insert_eq, decide_True by eauto. rewrite delete_insert_id by done. do 2 f_equal.
    apply map_filter_id. intros k i (t & Ht & _)%Hi. cbn. congruence.
  - rewrite lookup_insert_eq. cbn. rewrite decide_True by done. by rewrite delete_insert_id.
  - rewrite lookup_insert_eq. cbn [mbind option_bind columns rows]. rewrite decide_True.
    + unfold set_table. cbn. rewrite insert_insert_eq, delete_insert_id by done.
      rewrite (delete_added_column _ _ _ (columns it)) by (done || exact (Hr _ _ E)).
      rewrite insert_id; [done|]. rewrite E. by destruct it.
    + split; [rewrite lookup_insert_eq; eauto|]. intros k i (t & Ht & Hf)%Hi Heq Hin.
      rewrite Heq in Ht. assert (t = it) as -> by congruence.
      eapply Forall_forall in Hf as [c' Hc']; [|done]. congruence.
Qed.

Lemma undo_effects os os' d d' :
  conforming d → mapM undo os = Some os' → effects os d = Some d' → effects (reverse os') d' = Some d.
Proof.
  revert os' d. induction os as [|o os IH]; intros os' d Hc Hu H; cbn in Hu, H.
  { injection Hu as <-. by injection H as <-. }
  destruct (undo o) as [o'|] eqn:Ho; [|done]. destruct (mapM undo os) as [os1|] eqn:Hos; [|done]. injection Hu as <-.
  destruct (effect o d) as [d1|] eqn:E; [|done].
  rewrite reverse_cons, effects_app, (IH os1 d1) by eauto using effect_conforming. cbn.
  by rewrite (undo_effect o o' d d1).
Qed.

(** Dropping a table drops its indexes. *)
Lemma drop_indexes_then_table names t os d d' :
  effects (((λ i, DropIndex i t) <$> names) ++ DropTable t :: os)%list d = Some d' →
  effects (DropTable t :: os) d = Some d'.
Proof.
  revert d. induction names as [|i names IH]; intros d H; [done|].
  cbn [fmap list_fmap app effects] in H. destruct (effect (DropIndex i t) d) as [d1|] eqn:E; [|done].
  apply IH in H. cbn [effect] in E. destruct (indexes d !! i) as [it|] eqn:Hi; cbn [mbind option_bind] in E; [|done].
  destruct (decide (ix_table it = t)) as [Ht|]; [|done]. injection E as <-. rewrite <-H. cbn [effects effect tables indexes]. case_decide; [|done].
  cbn [mbind option_bind]. rewrite map_filter_delete_not; [done|]. intros j Hj. assert (j = it) as -> by congruence. cbn. tauto.
Qed.

(** ** Progress *)

(** A database without its rows *)
Definition emptied (d : Db) : Db := mkDb ((λ t, mkTable (columns t) []) <$> tables d) (indexes d).

(** What an operation asks of the rows *)
Definition data_safe (o : op) (d : Db) : Prop :=
  match o with
  | CreateIndex _ tn fields true => ∀ t, tables d !! tn = Some t → without_conflict fields (rows t)
  | AddColumn _ _ c => nullable c = true ∨ is_Some (server_default c)
  | _ => True
  end.

Fixpoint all_safe (os : list op) (d : Db) : Prop :=
  match os with [] => True | o :: os => data_safe o d ∧ ∀ d', effect o d = Some d' → all_safe os d' end.

Lemma lookup_emptied d n t : tables (emptied d) !! n = Some t → ∃ t', tables d !! n = Some t' ∧ t = mkTable (columns t') [].
Proof. cbn. rewrite lookup_fmap. intros (t' & -> & Ht)%fmap_Some. eauto. Qed.

(** An operation that works on the schema and is safe for the rows works. *)
Lemma effect_emptied o d s :
  effect o (emptied d) = Some s → data_safe o d → ∃ d', effect o d = Some d' ∧ emptied d' = s.
Proof.
  intros H Hs. destruct o; effect_case H; cbn [effect].
  - cbn in H0. rewrite lookup_fmap, fmap_None in H0. rewrite decide_True by done. eexists; split; [done|].
    unfold emptied, set_table; cbn. by rewrite fmap_insert.
  - destruct Hd as [t' (t & Ht & _)%lookup_emptied]. rewrite decide_True by eauto. eexists; split; [done|].
    unfold emptied; cbn. by rewrite fmap_delete.
  - apply lookup_emptied in E as (t & Ht & ->). rewrite Ht. cbn in *. rewrite decide_True; [by eexists|].
    split_and!; [done|done|]. destruct unique0; [|done]. eauto.
  - cbn in E. rewrite E. cbn. rewrite decide_True by done. eexists; split; done.
  - apply lookup_emptied in E as (t & -> & ->). cbn in *. rewrite decide_True by tauto. eexists; split; [done|].
    unfold emptied, set_table; cbn. by rewrite fmap_insert.
  - apply lookup_emptied in E as (t & -> & ->). cbn in *. rewrite decide_True by done. eexists; split; [done|].
    unfold emptied, set_table; cbn. by rewrite fmap_insert.
Qed.

Lemma effects_emptied os d s :
  effects os (emptied d) = Some s → all_safe os d → ∃ d', effects os d = Some d' ∧ emptied d' = s.
Proof.
  revert d. induction os as [|o os IH]; cbn; intros d H Hs; [injection H as <-; eauto|].
  destruct (effect o (emptied d)) as [s1|] eqn:E; [|done]. destruct Hs as [Ho Hs].
  destruct (effect_emptied o d s1 E Ho) as (d1 & Hd1 & <-). rewrite Hd1. cbn. eauto.
Qed.

(** ** What becomes of the rows *)

Definition keeps (d d' : Db) : Prop :=
  ∀ n t, tables d !! n = Some t → ∃ t', tables d' !! n = Some t' ∧ Forall2 (λ r r' : record, r ⊆ r') (rows t) (rows t').

#[export] Instance keeps_refl : Reflexive keeps.
Proof. intros d n t Ht. exists t. split; [done|]. apply Forall_Forall2_diag, Forall_true. done. Qed.

#[export] Instance keeps_trans : Transitive keeps.
Proof.
  intros d1 d2 d3 H12 H23 n t (t2 & Ht2 & H2)%H12. apply H23 in Ht2 as (t3 & Ht3 & H3). exists t3. split; [done|].
  eapply Forall2_trans; [|exact H2|exact H3]. intros ? ? ?. apply transitivity.
Qed.

(** An operation that can be undone loses nothing. *)
Lemma effect_keeps o d d' : conforming d → is_Some (undo o) → effect o d = Some d' → keeps d d'.
Proof.
  intros [Hr _] [o' Hu] H. destruct o; try done; effect_case H; try exact (keeps_refl d); intros n t Ht; cbn [tables set_table].
  - rewrite lookup_insert_ne by congruence. exists t. split; [done|]. apply Forall_Forall2_diag, Forall_true. done.
  - destruct (decide (table_name = n)) as [->|Hne].
    + rewrite lookup_insert_eq. eexists; split; [done|]. cbn [rows]. assert (t = it) as -> by congruence.
      apply Forall2_fmap_r, Forall_Forall2_diag. eapply Forall_impl; [exact (Hr _ _ E)|]. intros r Hd. cbn.
      apply insert_subseteq, not_elem_of_dom. rewrite Hd. by apply not_elem_of_dom.
    + rewrite lookup_insert_ne by done. exists t. split; [done|]. apply Forall_Forall2_diag, Forall_true. done.
Qed.

Lemma effects_keeps os os' d d' : conforming d → mapM undo os = Some os' → effects os d = Some d' → keeps d d'.
Proof.
  revert os' d. induction os as [|o os IH]; intros os' d Hc Hu H; cbn in Hu, H; [by injection H as <-|].
  destruct (undo o) as [o'|] eqn:Ho; [|done]. destruct (mapM undo os) as [os1|] eqn:Hos; [|done].
  destruct (effect o d) as [d1|] eqn:E; [|done].
  transitivity d1; [eapply effect_keeps; eauto|eauto using effect_conforming].
Qed.

(** All the rows of a table have a value in a column. *)
Definition filled (tn name : string) (v : value) (d : Db) : Prop :=
  ∀ t, tables d !! tn = Some t → Forall (λ r, r !! name = Some v) (rows t).

Lemma added_filled tn name c d d' : effect (AddColumn tn name c) d = Some d' → filled tn name (added_value c) d'.
Proof.
  intros H. effect_case H. intros t. cbn. rewrite lookup_insert_eq. intros [= <-]. cbn.
  apply Forall_fmap, Forall_true. intros r. cbn. by rewrite lookup_insert_eq.
Qed.

Lemma filled_kept tn name v d d' : is_Some (tables d !! tn) → filled tn name v d → keeps d d' → filled tn name v d'.
Proof.
  intros [t Ht] Hf Hk t' Ht'. destruct (Hk _ _ Ht) as (t2 & Ht2 & H2). assert (t2 = t') as -> by congruence.
  specialize (Hf _ Ht). clear -Hf H2. induction H2; [constructor|]. apply Forall_cons in Hf as [Hf Hf']. constructor; [|auto].
  by eapply lookup_weaken.
Qed.

(** NULLs never conflict. *)
Lemma null_without_conflict name d tn t : filled tn name Null d → tables d !! tn = Some t → without_conflict [name] (rows t).
Proof.
  intros Hf Ht. specialize (Hf _ Ht). unfold without_conflict. replace (omap _ _) with (@nil (list value)); [constructor|].
  induction Hf as [|r rs Hr _ IH]; [done|]. cbn. rewrite Hr. exact IH.
Qed.

(** Schemas are compared by evaluation. *)
Ltac by_evaluation := apply (bool_decide_unpack _); vm_compute; exact I.

(** ** Frames *)

(** [d] and a part it says nothing about; where both speak, [d] counts. *)
Definition beside (d f : Db) : Db := mkDb (tables d ∪ tables f) (indexes d ∪ indexes f).

(** An operation that adds has nothing of that name beside it. *)
Definition apart (f : Db) (o : op) : Prop :=
  match o with
  | CreateTable name _ => tables f !! name = None
  | CreateIndex name _ _ _ => indexes f !! name = None
  | AddColumn _ _ _ => True
  | _ => False
  end.

Lemma lookup_beside_table d f n t : tables d !! n = Some t → tables (beside d f) !! n = Some t.
Proof. intros Ht. cbn. by apply lookup_union_Some_l. Qed.

Lemma effect_beside o d d' f : apart f o → effect o d = Some d' → effect o (beside d f) = Some (beside d' f).
Proof.
  intros Ha H. destruct o; try done; effect_case H; cbn [effect apart] in *.
  - rewrite decide_True by (cbn; split; [by apply lookup_union_None|done]).
    unfold beside, set_table; cbn. by rewrite insert_union_l.
  - rewrite (lookup_beside_table _ _ _ _ E). cbn. rewrite decide_True by (split_and!; [by apply lookup_union_None|done|done]).
    unfold beside; cbn. by rewrite insert_union_l.
  - rewrite (lookup_beside_table _ _ _ _ E). cbn. rewrite decide_True by done.
    unfold beside, set_table; cbn. by rewrite insert_union_l.
Qed.

Lemma effects_beside os d d' f : Forall (apart f) os → effects os d = Some d' → effects os (beside d f) = Some (beside d' f).
Proof.
  intros Hf. revert d. induction Hf as [|o os Ho _ IH]; cbn; intros d H; [by injection H as <-|].
  destruct (effect o d) as [d1|] eqn:E; [|done]. rewrite (effect_beside _ _ _ _ Ho E). cbn. auto.
Qed.

Lemma beside_no_db f : beside no_db f = f.
Proof. destruct f as [T I]. unfold beside, no_db. cbn. by rewrite !map_empty_union. Qed.

(** ** The revisions *)

(** The schema after the first [n] revisions *)
Definition schema_at (n : nat) : Db := default no_db (effects (concat (upgrade <$> take n versions)) no_db).

Definition at_revision (n : nat) (d : Db) : Prop := conforming d ∧ emptied d = schema_at n.

(** What the tables of [models] look like at the head, with their indexes *)
Definition model_schema : Db := default no_db (effects (concat (create_model <$> models)) no_db).

(** The tables and indexes of the service are not in use for something else. *)
Definition without_models (d : Db) : Prop :=
  Forall (λ m, missing d m) models ∧ Forall (λ i, indexes d !! i = None) (map_to_list (indexes model_schema)).*1.

(** An operation that only adds, with the service's names *)
Definition creates_models (o : op) : bool :=
  match o with
  | CreateTable n _ => bool_decide (n ∈ tablename <$> models)
  | CreateIndex n _ _ _ => bool_decide (n ∈ (map_to_list (indexes model_schema)).*1)
  | AddColumn _ _ _ => true
  | _ => false
  end.

Lemma creates_models_apart f os : without_models f → forallb creates_models os = true → Forall (apart f) os.
Proof.
  intros [Hm Hi] HF. apply Forall_forall. intros o Ho. eapply forallb_forall in HF; [|by apply list_elem_of_In].
  destruct o as [n ?|?|n ???|??|???|??]; cbn [creates_models apart] in *.
  - apply bool_decide_eq_true, list_elem_of_fmap in HF as (m & -> & Hin). by eapply Forall_forall in Hm.
  - discriminate HF.
  - apply bool_decide_eq_true in HF. by eapply Forall_forall in Hi.
  - discriminate HF.
  - exact I.
  - discriminate HF.
Qed.

(** Revisions that form one line from the first to the last *)
Fixpoint one_line (from : option string) (rs : list revision) : bool :=
  match rs with [] => true | r :: rs => bool_decide (down_revision r = from) && one_line (Some (rev_id r)) rs end.

Lemma revision_undone r d d' :
  r ∈ versions → conforming d → effects (upgrade r) d = Some d' → effects (downgrade r) d' = Some d.
Proof.
  intros Hr Hc H.
  assert (∃ os, mapM undo (upgrade r) = Some os ∧
    (r = revision_0001 ∨ downgrade r = reverse os)) as (os & Hu & [->|Hd]).
  { apply list_elem_of_lookup_1 in Hr as [n Hn].
    repeat (destruct n as [|n]; [injection Hn as <-; eexists; split; [reflexivity|(by left) || (by right)]|]). done. }
  2: { rewrite Hd. by eapply undo_effects. }
  injection Hu as <-. eapply undo_effects in H; [|done|reflexivity]. cbn [downgrade revision_0001]. unfold downgrade_0001.
  apply (drop_indexes_then_table ["ix_alerts_occurred_at_id"; "ix_alerts_rule_id"; "ix_alerts_dedup_key"] "alerts") in H.
  cbn [effects] in H |- *. destruct (effect _ d') as [d1|]; [|done]. cbn [mbind option_bind] in H |- *.
  by apply (drop_indexes_then_table ["ix_events_occurred_at_id"; "ix_events_event_id"] "events" []) in H.
Qed.

Lemma at_revision_table n d t s :
  at_revision n d → tables (schema_at n) !! t = Some s → ∃ t', tables d !! t = Some t' ∧ columns t' = columns s.
Proof. intros [_ He] Ht. rewrite <-He in Ht. apply lookup_emptied in Ht as (t' & Ht' & ->). eauto. Qed.

Lemma effects_cons o os d d' : effects (o :: os) d = Some d' → ∃ d1, effect o d = Some d1 ∧ effects os d1 = Some d'.
Proof. cbn [effects]. destruct (effect o d) as [d1|]; [eauto|done]. Qed.

Lemma added_column_table tn name c d d' : effect (AddColumn tn name c) d = Some d' → is_Some (tables d' !! tn).
Proof. intros H. effect_case H. cbn. rewrite lookup_insert_eq. eauto. Qed.

(** Two new columns, each indexed: both are filled in the end. *)
Lemma two_columns_filled t1 n1 c1 i1 f1 u1 t2 n2 c2 i2 f2 u2 d d' :
  conforming d →
  effects [AddColumn t1 n1 c1; CreateIndex i1 t1 f1 u1; AddColumn t2 n2 c2; CreateIndex i2 t2 f2 u2] d = Some d' →
  filled t1 n1 (added_value c1) d' ∧ filled t2 n2 (added_value c2) d'.
Proof.
  intros Hc (d1 & E1 & H)%effects_cons. assert (Hc1 := effect_conforming _ _ _ Hc E1).
  assert (Hk : keeps d1 d') by (eapply effects_keeps; [exact Hc1| |exact H]; reflexivity).
  apply effects_cons in H as (d2 & E2 & H). assert (Hc2 := effect_conforming _ _ _ Hc1 E2).
  apply effects_cons in H as (d3 & E3 & H). assert (Hc3 := effect_conforming _ _ _ Hc2 E3).
  split; (eapply filled_kept; [by eapply added_column_table|by eapply added_filled|]); [done|].
  eapply effects_keeps; [exact Hc3| |exact H]; reflexivity.
Qed.

Lemma revision_keeps r d d' : r ∈ versions → conforming d → effects (upgrade r) d = Some d' → keeps d d'.
Proof.
  intros Hr Hc Hd. apply list_elem_of_lookup_1 in Hr as [n Hr].
  repeat (destruct n as [|n]; [injection Hr as <-; eapply effects_keeps; [exact Hc| |exact Hd]; reflexivity|]). done.
Qed.

Lemma revision_safe r d : r ∈ versions → all_safe (upgrade r) d.
Proof.
  intros Hr. apply list_elem_of_lookup_1 in Hr as [n Hr].
  repeat (destruct n as [|n]; [injection Hr as <-|]); [..|done]; cbn [upgrade revision_0001 revision_0002 revision_0003 revision_0004].
  - cbn [all_safe upgrade_0001 data_safe]. repeat (split; [done|intros]). done.
  - split; [right; eauto|done].
  - cbn [all_safe upgrade_0003 data_safe]. repeat (split; [done|intros]). done.
  - split; [by left|]. intros d1 H1. split.
    { intros t Ht. eapply null_without_conflict; [by eapply added_filled in H1|done]. }
    intros d2 _. split; [by left|]. intros d3 H3. split; [|done].
    intros t Ht. eapply null_without_conflict; [by eapply added_filled in H3|done].
Qed.

Lemma revision_schema n r : versions !! n = Some r → effects (upgrade r) (schema_at n) = Some (schema_at (S n)).
Proof. intros Hr. repeat (destruct n as [|n]; [injection Hr as <-; by_evaluation|]). discriminate Hr. Qed.

(** One revision from the one before: it works, keeps the rows, fills what it
    adds and can be undone. *)
Lemma revision_works n r d :
  versions !! n = Some r → at_revision n d →
  ∃ d', effects (upgrade r) d = Some d' ∧ at_revision (S n) d' ∧ keeps d d' ∧ effects (downgrade r) d' = Some d ∧
    (n = 1%nat → filled "alerts" "notified" (BoolValue true) d') ∧
    (n = 3%nat → filled "events" "write_id" Null d' ∧ filled "alerts" "write_id" Null d').
Proof.
  intros Hr [Hc He]. assert (Hin : r ∈ versions) by by eapply list_elem_of_lookup_2.
  pose proof (revision_schema _ _ Hr) as Hs. rewrite <-He in Hs.
  destruct (effects_emptied _ _ _ Hs (revision_safe _ _ Hin)) as (d' & Hd' & He'). exists d'. split; [done|].
  split; [split; [by eapply effects_conforming|done]|]. split; [by eapply revision_keeps|].
  split; [by eapply revision_undone|]. clear He He' Hs Hin. split; intros ->; injection Hr as <-.
  - apply effects_cons in Hd' as (d1 & E & [= <-]). by apply added_filled in E.
  - by apply two_columns_filled in Hd'.
Qed.

(** What is run from revision [n] to revision [k], and back *)
Definition between (n k : nat) : list revision := drop n (take k versions).
Definition upgrade_between (n k : nat) : list op := concat (upgrade <$> between n k).
Definition downgrade_between (n k : nat) : list op := concat (downgrade <$> reverse (between n k)).

Lemma between_S n k r : (n ≤ k)%nat → versions !! k = Some r → between n (S k) = (between n k ++ [r])%list.
Proof.
  intros Hn Hr. unfold between. rewrite (take_S_r _ _ _ Hr), drop_app_le; [done|].
  apply lookup_lt_Some in Hr. rewrite length_take. lia.
Qed.

Lemma upgrade_between_S n k r :
  (n ≤ k)%nat → versions !! k = Some r → upgrade_between n (S k) = (upgrade_between n k ++ upgrade r)%list.
Proof.
  intros Hn Hr. unfold upgrade_between. rewrite (between_S _ _ _ Hn Hr), fmap_app, concat_app. cbn. by rewrite app_nil_r.
Qed.

Lemma downgrade_between_S n k r :
  (n ≤ k)%nat → versions !! k = Some r → downgrade_between n (S k) = (downgrade r ++ downgrade_between n k)%list.
Proof. intros Hn Hr. unfold downgrade_between. by rewrite (between_S _ _ _ Hn Hr), reverse_app. Qed.

Lemma has_table n tn d : (1 ≤ n ≤ 4)%nat → tn ∈ tablename <$> models → at_revision n d → is_Some (tables d !! tn).
Proof.
  intros Hn Ht Ha.
  assert (is_Some (tables (schema_at n) !! tn)) as [s Hs].
  { apply (bool_decide_unpack _). apply list_elem_of_lookup_1 in Ht as [i Hi].
    destruct i as [|[|i]]; [injection Hi as <-|injection Hi as <-|done];
    (do 5 (destruct n as [|n]; [lia || (vm_compute; exact I)|])); lia. }
  destruct (at_revision_table _ _ _ _ Ha Hs) as (t' & -> & _). eauto.
Qed.

(** What the rows hold in the columns added between two revisions *)
Definition additions (n k : nat) (d : Db) : Prop :=
  ((n ≤ 1 < k)%nat → filled "alerts" "notified" (BoolValue true) d) ∧
  ((n ≤ 3 < k)%nat → filled "events" "write_id" Null d ∧ filled "alerts" "write_id" Null d).

Lemma migration_works n m d :
  (n + m ≤ 4)%nat → at_revision n d →
  ∃ d', effects (upgrade_between n (n + m)) d = Some d' ∧ at_revision (n + m) d' ∧ keeps d d' ∧ additions n (n + m) d' ∧
    effects (downgrade_between n (n + m)) d' = Some d.
Proof.
  intros Hle Ha. induction m as [|m IH].
  { rewrite Nat.add_0_r. exists d. unfold upgrade_between, downgrade_between, between.
    rewrite drop_ge by (rewrite length_take; lia). cbn. split_and!; [done..|reflexivity|split; lia|done]. }
  destruct IH as (d1 & Hd1 & Ha1 & Hk1 & [Hn1 _] & Hb1); [lia|]. rewrite Nat.add_succ_r.
  destruct (lookup_lt_is_Some_2 versions (n + m)) as [r Hr]; [cbn; lia|].
  destruct (revision_works _ _ _ Hr Ha1) as (d2 & Hd2 & Ha2 & Hk2 & Hb2 & Hn2 & Hw2). exists d2.
  rewrite (upgrade_between_S _ _ r), (downgrade_between_S _ _ r), !effects_app, Hd1, Hb2 by (done || lia).
  split_and!; [done|done|by transitivity d1| |done].
  pose proof (λ tn H1 H2, has_table (n + m) tn d1 H1 H2 Ha1) as Ht. split.
  - intros [H1 H2]. destruct (decide ((n + m)%nat = 1%nat)); [auto|]. eapply filled_kept; [|apply Hn1; lia|done].
    apply Ht; [lia|]. cbn. set_solver.
  - intros [H1 H2]. assert ((n + m)%nat = 3%nat) by lia. auto.
Qed.

Lemma emptied_conforming d : conforming (emptied d) → map_Forall (λ _ t, Forall (λ r, dom r = dom (columns t)) (rows t)) (tables d) →
  conforming d.
Proof.
  intros [_ Hi] Hr. split; [done|]. intros k i (t & Ht & Hf)%Hi. apply lookup_emptied in Ht as (t' & Ht' & ->). eauto.
Qed.

Lemma schema_at_conforming n : (n ≤ 4)%nat → conforming (schema_at n).
Proof.
  induction n as [|n IH]; intros Hn; [exact no_db_conforming|].
  destruct (lookup_lt_is_Some_2 versions n) as [r Hr]; [cbn; lia|].
  eapply effects_conforming; [apply IH; lia|by apply revision_schema].
Qed.

Lemma at_revision_intro n d : (n ≤ 4)%nat → emptied d = schema_at n →
  map_Forall (λ _ t, Forall (λ r, dom r = dom (columns t)) (rows t)) (tables d) → at_revision n d.
Proof. intros Hn He Hr. split; [|done]. apply emptied_conforming; [|done]. rewrite He. by apply schema_at_conforming. Qed.

(** C37: a migration loses nothing, in either direction: whatever the database
    holds, upgrading it from any revision to any later one works, keeps every
    row of every table with the value of every column it had, has every alert
    from before revision 2 count as notified and gives every record from before
    revision 4 a NULL write id; and the downgrade that reverses it gives back
    exactly the database there was. *)
Theorem migrations_lose_nothing `{SchemaTool D} n k (d : D) :
  (n ≤ k ≤ 4)%nat → at_revision n (view d) →
  ∃ d', run_ops (upgrade_between n k) d = Some d' ∧ at_revision k (view d') ∧ keeps (view d) (view d') ∧
    additions n k (view d') ∧
    ∃ d0, run_ops (downgrade_between n k) d' = Some d0 ∧ view d0 = view d.
Proof.
  intros [Hn Hk] Ha. replace k with (n + (k - n))%nat by lia.
  destruct (migration_works n (k - n) (view d)) as (s & Hs & Has & Hks & Hadd & Hb); [lia|done|].
  rewrite <-run_ops_effects in Hs. apply fmap_Some in Hs as (d' & Hd' & ->). exists d'. do 4 (split; [done|]).
  rewrite <-run_ops_effects in Hb. apply fmap_Some in Hb as (d0 & Hd0 & Hv). eauto.
Qed.

(** A database at revision 3 with two events *)
Definition sample_event (id : Z) (event_id : string) : record :=
  list_to_map [("id", IntValue id); ("event_id", TextValue event_id); ("occurred_at", TimeValue 0);
    ("category", TextValue "network"); ("action", TextValue "a"); ("outcome", TextValue "success");
    ("severity", IntValue 1); ("host", TextValue "h"); ("source_ip", Null); ("message", TextValue "m");
    ("created_at", TimeValue 0)].
Definition sample_db : Db :=
  let s := schema_at 3 in
  mkDb (alter (λ t, mkTable (columns t) [sample_event 1 "e1"; sample_event 2 "e2"]) "events" (tables s)) (indexes s).

Lemma migrations_lose_nothing_witness :
  at_revision 3 sample_db ∧ ∃ d', run_ops (upgrade_between 3 4) sample_db = Some d' ∧ keeps sample_db d'.
Proof.
  assert (Ha : at_revision 3 sample_db).
  { apply at_revision_intro; [lia|by_evaluation|by_evaluation]. }
  split; [exact Ha|].
  destruct (migrations_lose_nothing 3 4 sample_db) as (d' & Hd & _ & Hk & _); [lia|exact Ha|].
  exists d'. split; [exact Hd|exact Hk].
Defined.

(** C38: the migrations and the models declare the same schema.  From any
    database without the service's tables and indexes, the four revisions,
    which form one line, and [create_all] end in the same database, which has
    the models' tables and indexes and otherwise what there was; on it
    [create_all] changes nothing, and the downgrades leave what there was when
    there was nothing. *)
Theorem migrations_match_the_models `{SchemaTool D} (d : D) :
  without_models (view d) →
  one_line None versions = true ∧
  ∃ d1 d2 d3, run_ops upgrade_head d = Some d1 ∧ create_all d = Some d2 ∧ create_all d1 = Some d3 ∧
    view d1 = beside model_schema (view d) ∧ view d2 = view d1 ∧ d3 = d1 ∧
    (view d = no_db → view <$> run_ops downgrade_base d1 = Some no_db).
Proof.
  intros Hw. split; [done|].
  assert (Heq : effects upgrade_head no_db = Some model_schema) by by_evaluation.
  assert (Heq' : effects (concat (create_model <$> models)) no_db = Some model_schema) by by_evaluation.
  assert (Hup : effects upgrade_head (view d) = Some (beside model_schema (view d))).
  { rewrite <-(beside_no_db (view d)) at 1. apply effects_beside; [|done]. apply creates_models_apart; [done|]. vm_compute. reflexivity. }
  assert (Hcr : effects (concat (create_model <$> models)) (view d) = Some (beside model_schema (view d))).
  { rewrite <-(beside_no_db (view d)) at 1. apply effects_beside; [|done]. apply creates_models_apart; [done|]. vm_compute. reflexivity. }
  rewrite <-run_ops_effects in Hup, Hcr. apply fmap_Some in Hup as (d1 & Hd1 & Hv1). apply fmap_Some in Hcr as (d2 & Hd2 & Hv2).
  exists d1, d2, d1. split; [done|]. split.
  { unfold create_all. by rewrite filter_all by apply Hw. }
  split.
  { unfold create_all. rewrite filter_none; [done|]. rewrite <-Hv1.
    assert (HF : Forall (λ m, is_Some (tables model_schema !! tablename m)) models) by (by_evaluation).
    eapply Forall_impl; [exact HF|]. intros m [t Ht] Hno. unfold missing in Hno. by rewrite (lookup_beside_table _ _ _ _ Ht) in Hno. }
  split; [done|]. split; [congruence|]. split; [done|]. intros Hno. rewrite run_ops_effects, <-Hv1, Hno. vm_compute. reflexivity.
Qed.

Lemma migrations_match_the_models_witness :
  without_models (view no_db) ∧ one_line None versions = true.
Proof.
  assert (Hw : without_models (view no_db)) by by_evaluation.
  split; [exact Hw|]. exact (proj1 (migrations_match_the_models no_db Hw)).
Defined.
