(* ===== verification/Scripts.v ===== *)
(** * The scripts ([scripts/])

    [generate_coverage_matrix.py]: the table of rules and frameworks.
    [benchmark.py]: the synthetic events, the median of repeated timings, and
    what the benchmarks check of the parts they drive; how long anything takes
    is a reading of the clock, and the printing of the numbers is left out.
    The em dash of two lines is outside the texts of the model and a
    parameter. *)

From S2P Require Import Prelude ODict PyText PyRe Events Rules Evaluator Engine Loader Dedup Queue Pipeline Sha256 Storage Settings Process AuthParse Normalizer Demo Cli.
Local Open Scope string_scope.
Local Open Scope Z_scope.

(** ** The coverage matrix *)

Section matrix.
Context `{RegexEngine} (em_dash : string).

(** [_attack_link] *)
Definition attack_link (technique : string) : string :=
  let path := str_replace "." "/" technique in
  "[" +:+ technique +:+ "](https://attack.mitre.org/techniques/" +:+ path +:+ "/)".

Definition or_else (text other : string) : string := if bool_decide (text = "") then other else text.

Definition matrix_row (r : Rule) : string :=
  let attack := str_join ", " (map attack_link (rule_attack r)) in
  let nist := str_join ", " (rule_nist_csf r) in
  let d3fend := or_else (str_join ", " (rule_d3fend r)) em_dash in
  "| `" +:+ rule_id r +:+ "` | " +:+ rule_title r +:+ " | " +:+ str_of_int (rule_severity r) +:+ " | " +:+ attack
  +:+ " | " +:+ nist +:+ " | " +:+ d3fend +:+ " |".

Definition matrix_header (n : Z) : list string :=
  ["# Detection coverage matrix";
   "";
   "<!-- Generated by scripts/generate_coverage_matrix.py " +:+ em_dash +:+ " do not edit by hand. -->";
   "";
   "**" +:+ str_of_int n +:+ " detection rules.** Every rule maps to MITRE ATT&CK and NIST CSF 2.0, "
   +:+ "and carries a positive and a negative test enforced by "
   +:+ "`tests/test_detection_rules.py` (the library cannot grow an untested rule).";
   "";
   "| Rule | Title | Sev | MITRE ATT&CK | NIST CSF 2.0 | D3FEND |";
   "| ---- | ----- | --- | ------------ | ------------ | ------ |"].

(** [render] *)
Definition render (dir : option (list Loader.file)) : result string :=
  rules ← load_rules dir;
  let rules := by_id rules in
  Ok (str_join NEWLINE (matrix_header (len rules) ++ map matrix_row rules ++ [""])%list).
End matrix.

(** ** Timings *)

(** [statistics.median] *)
Definition median (data : list Z) : result Q :=
  let data := merge_sort Z.le data in
  let n := length data in
  match data with
  | [] => Raise ValueError
  | _ => if Nat.odd n then Ok (inject_Z (data !!! (n / 2)%nat))
         else Ok (Qmake (data !!! (n / 2 - 1)%nat + data !!! (n / 2)%nat) 2)
  end.

Definition REPEATS : Z := 5.

(** [_median_seconds]: the clock's readings around each of the repetitions *)
Definition median_seconds (readings : list (Z * Z)) : result Q := median (map (λ r, r.2 - r.1) readings).

(** ** Synthetic events *)

(** The [meta] of [_event] *)
Definition event_meta (i : Z) (kind : string) : result (EventCategory * string) :=
  match od_get [("proc", (PROCESS, if i mod 2 =? 0 then "process_stopped" else "process_started"));
                ("net", (NETWORK, "network_connection_opened"));
                ("file", (FILE, "file_modified"));
                ("auth", (AUTHENTICATION, "ssh_login_failed"))] kind with
  | Some m => Ok m
  | None => Raise KeyError
  end.

(** [_event] at the instant [now] *)
Definition event (now i : Z) (kind : string) : result Event :=
  meta ← event_meta i kind;
  new_event (mkEvent (mkDatetime now (Some 0))
    (mkEventMeta (compute_id [PartStr kind; PartInt i]) EVENT (fst meta) (snd meta) SUCCESS 3)
    (mkHost "bench")
    (mkPeer (Some ("10.0." +:+ str_of_int (i mod 250) +:+ "." +:+ str_of_int (i mod 200)))
       (Some (40000 + i mod 1000)) (Some "alice"))
    (if String.eqb kind "net" then mkPeer (Some "93.184.216.34") (Some 443) None else no_peer)
    (if String.eqb kind "proc"
     then mkProcess (Some (1000 + i)) (Some 1) (Some "python3") (Some "/usr/bin/python3")
            (Some ("/usr/bin/python3 /opt/app/worker.py --job " +:+ str_of_int i +:+ " --verbose"))
     else no_process)
    (if String.eqb kind "file"
     then Some (mkFile ("/etc/app/conf.d/" +:+ str_of_int i +:+ ".conf") None (Some "0644") (mkFileHash None)) else None)
    ("synthetic " +:+ kind +:+ " event " +:+ str_of_int i)).

(** [_mixed_events]; [clock] is read for each event. *)
Definition kinds : list string := ["proc"; "proc"; "proc"; "proc"; "proc"; "proc"; "net"; "net"; "file"; "auth"].
Definition kind_of (i : Z) : string := kinds !!! Z.to_nat (i mod len kinds).

Fixpoint collect {A} (l : list (result A)) : result (list A) :=
  match l with [] => Ok [] | r :: l => a ← r; rest ← collect l; Ok (a :: rest) end.

Definition mixed_events (clock : Z → Z) (count : Z) : result (list Event) :=
  collect (map (λ i, event (clock i) i (kind_of i)) (seqZ 0 count)).

(** ** What the benchmarks drive *)

(** [run] of [bench_engine]: a fresh engine over the events *)
Definition bench_engine `{RegexEngine} (isoformat : Z → string) (rules : list Rule) (events : list Event)
  : result (list (list Detection) * DetectionEngine) :=
  evaluate_all isoformat events (new_engine rules DEFAULT_MAX_THRESHOLD_GROUPS).

(** [l[0:batch]], [l[batch:2*batch]], ... *)
Fixpoint batches {A} (fuel : nat) (batch : nat) (l : list A) : list (list A) :=
  match fuel with
  | O => []
  | S fuel => match l with [] => [] | _ => take batch l :: batches fuel batch (drop batch l) end
  end.

Section persist.
Context {TE TA : Type} `{SqlTable EventValues TE, SqlTable AlertValues TA}.

(** [per_event] and [batched] of [bench_persist]; [now] is the clock at the
    transactions. *)
Definition per_event (now : Z) (events : list Event) (db : Store TE TA) : Store TE TA :=
  foldl (λ db e, save_event now e db) db events.

Definition batched (now : Z) (pending : list (Pending Event)) (batch : nat) (db : Store TE TA) : Store TE TA :=
  foldl (λ db chunk, snd (save_batch now (inr <$> chunk) [] db)) db (batches (length pending) batch pending).

(** [pending = [Pending(next(ids), event) for event in events]] *)
Definition as_buffered (prefix : string) (events : list Event) : list (Pending Event) :=
  imap (λ i e, mkPending (nth_write_id prefix (Z.of_nat i)) e) events.
End persist.

(** [_Firehose.run] puts the events in turn; the stream of [bench_pipeline] *)
Definition COPIES : nat := 5.
Definition stream (unique : list Event) : list Event := concat (map (replicate COPIES) unique).

(** The pipeline [bench_pipeline] runs *)
Definition bench_pipeline : result (Pipeline Event DedupWindow) :=
  let s := default_settings TEST in
  launch (queue_maxsize s) (queue_backpressure s) (dedup_window_seconds s) (dedup_max_entries s) ["firehose"].

(** The check at the end of [run]: what the consumer saw *)
Definition expected_seen (unique : list Event) (x : system Event DedupWindow) : bool :=
  len (sys_dispatched x) =? len unique.

(** ** The benchmarks to run *)

Definition BENCHMARKS : list string := ["engine"; "fim"; "process"; "persist"; "pipeline"; "runtime"].

(** [main]: the names asked for, each one of [choices], or else all *)
Definition names_to_run (asked : list string) : list string :=
  match asked with [] => BENCHMARKS | _ => asked end.

(** ** The median *)

Lemma sorted_around (s : list Z) k y : StronglySorted Z.le s → s !! k = Some y →
  Forall (λ x, x ≤ y) (take (S k) s) ∧ Forall (λ x, y ≤ x) (drop k s).
Proof.
  intros Hs Hy. rewrite (take_S_r _ _ _ Hy), (drop_S _ _ _ Hy).
  rewrite <-(take_drop k s), (drop_S _ _ _ Hy) in Hs. split.
  - apply Forall_app. split; [|by repeat constructor]. apply Forall_forall. intros x Hx.
    eapply (StronglySorted_app_1_elem_of Z.le); [exact Hs|exact Hx|by left].
  - apply StronglySorted_app_1_r in Hs. apply StronglySorted_inv in Hs as [_ Hs]. by constructor.
Qed.

Definition inside (lo hi : Z) (s : list Z) : list Z := filter (λ x, lo ≤ x ≤ hi) s.

(** A value in the middle of a sorted list is within bounds that most values keep. *)
Lemma middle_within lo hi (s : list Z) k y :
  StronglySorted Z.le s → s !! k = Some y →
  (length s - S k < length (inside lo hi s))%nat → (k < length (inside lo hi s))%nat → lo ≤ y ≤ hi.
Proof.
  intros Hs Hy H1 H2. destruct (sorted_around _ _ _ Hs Hy) as [Ha Hb].
  assert (Hf : ∀ n, length (inside lo hi s) = (length (inside lo hi (take n s)) + length (inside lo hi (drop n s)))%nat).
  { intros n. unfold inside. by rewrite <-length_app, <-filter_app, take_drop. }
  split.
  - destruct (decide (lo ≤ y)) as [?|Hn]; [done|]. rewrite (Hf (S k)) in H1.
    unfold inside in H1. rewrite (filter_none _ (take (S k) s)) in H1 by (eapply Forall_impl; [exact Ha|]; cbn; lia).
    pose proof (Prelude.filter_length_le (λ x, lo ≤ x ≤ hi) (drop (S k) s)) as Hl. rewrite length_drop in Hl. cbn in H1. lia.
  - destruct (decide (y ≤ hi)) as [?|Hn]; [done|]. rewrite (Hf k) in H2.
    unfold inside in H2. rewrite (filter_none _ (drop k s)) in H2 by (eapply Forall_impl; [exact Hb|]; cbn; lia).
    pose proof (Prelude.filter_length_le (λ x, lo ≤ x ≤ hi) (take k s)) as Hl. rewrite length_take in Hl. cbn in H2. lia.
Qed.

Lemma half_odd n : Nat.odd n = true → n = (2 * (n / 2) + 1)%nat.
Proof. intros (m & ->)%Nat.odd_spec. rewrite Nat.mul_comm, Nat.div_add_l by lia. cbn. lia. Qed.

Lemma half_even n : Nat.odd n = false → n = (2 * (n / 2))%nat.
Proof.
  intros Ho. assert (He : Nat.even n = true) by (rewrite <-Nat.negb_odd, Ho; done). apply Nat.even_spec in He as (m & ->).
  rewrite Nat.mul_comm, Nat.div_mul by lia. lia.
Qed.

(** Noisy repetitions do not move the median: as long as more than half of the
    samples are within bounds, so is it. *)
Lemma median_ignores_outliers lo hi data :
  (length data < 2 * length (inside lo hi data))%nat →
  ∃ q, median data = Ok q ∧ (inject_Z lo <= q)%Q ∧ (q <= inject_Z hi)%Q.
Proof.
  intros Hc. unfold median. set (s := merge_sort Z.le data).
  assert (Hp : s ≡ₚ data) by apply merge_sort_Permutation.
  assert (Hs : StronglySorted Z.le s) by (apply Sorted_StronglySorted, Sorted_merge_sort, _; intros ???; lia).
  assert (Hi : inside lo hi s ≡ₚ inside lo hi data) by (unfold inside; by rewrite Hp).
  rewrite <-(Permutation_length Hp), <-(Permutation_length Hi) in Hc. clear Hi. clearbody s. clear Hp data.
  assert (Hlt : ∀ k, (k < length s)%nat → s !! k = Some (s !!! k)).
  { intros k Hk. by apply list_lookup_lookup_total_lt. }
  pose proof (λ k H, middle_within lo hi s k _ Hs (Hlt k H)) as Hm. cbv zeta in Hm.
  pose proof (Prelude.filter_length_le (λ x, lo ≤ x ≤ hi) s) as Hfl. fold (inside lo hi s) in Hfl.
  set (f := length (inside lo hi s)) in *. clearbody f.
  destruct (Nat.odd (length s)) eqn:Ho.
  - apply half_odd in Ho. pose proof (Hm (length s / 2)%nat) as H1.
    assert (lo ≤ s !!! (length s / 2)%nat ≤ hi) by (apply H1; lia).
    exists (inject_Z (s !!! (length s / 2)%nat)). split; [by destruct s|]. rewrite <-!Zle_Qle. lia.
  - apply half_even in Ho. pose proof (Hm (length s / 2)%nat) as H1. pose proof (Hm (length s / 2 - 1)%nat) as H2.
    destruct s as [|z s']; [cbn in *; lia|]. set (s := z :: s') in *.
    assert (length s ≠ 0%nat) by done.
    assert (lo ≤ s !!! (length s / 2)%nat ≤ hi) by (apply H1; lia).
    assert (lo ≤ s !!! (length s / 2 - 1)%nat ≤ hi) by (apply H2; lia).
    exists (Qmake (s !!! (length s / 2 - 1)%nat + s !!! (length s / 2)%nat) 2). split; [done|].
    unfold Qle. cbn [Qnum Qden inject_Z]. lia.
Qed.

(** ** The lines of the matrix *)

Lemma split_joined sep parts :
  parts ≠ [] → Forall (λ p, str_mem sep p = false) parts → str_split sep (str_join (String sep "") parts) = parts.
Proof.
  intros Hne Hp. induction Hp as [|p parts Hp Hps IH]; [done|]. destruct parts as [|p' parts]; [by apply str_split_single|].
  change (str_join (String sep "") (p :: p' :: parts)) with (p +:+ String sep (str_join (String sep "") (p' :: parts))).
  rewrite AuthParse.split_word by done. by rewrite IH.
Qed.

(** The generated document has one row per rule of the library, in strictly
    ascending order of ids, as long as no text of a rule has a line break. *)
Lemma matrix_has_every_rule `{RegexEngine} em_dash dir rules :
  load_rules dir = Ok rules →
  str_mem NL em_dash = false → Forall (λ r, str_mem NL (matrix_row em_dash r) = false) rules →
  ∃ text, render em_dash dir = Ok text ∧
    str_split NL text = (matrix_header em_dash (len rules) ++ map (matrix_row em_dash) (by_id rules) ++ [""])%list ∧
    by_id rules ≡ₚ rules ∧ Sorted (λ r1 r2, id_le r1 r2 ∧ rule_id r1 ≠ rule_id r2) (by_id rules).
Proof.
  intros Hl Hd Hr. unfold render. rewrite Hl. cbn [mbind result_bind]. eexists. split; [done|].
  pose proof (by_id_perm rules) as Hp.
  assert (Hlen : len (by_id rules) = len rules) by (unfold len; by rewrite (Permutation_length Hp)). rewrite Hlen. split; [|split; [done|]].
  - apply split_joined; [discriminate|]. apply Forall_app. split.
    + assert (Hn : str_mem NL (str_of_int (len rules)) = false) by (apply Process.int_no_char; [done|apply len_nonneg]).
      unfold matrix_header. repeat constructor; rewrite ?str_mem_app, ?Hn, ?Hd; reflexivity.
    + apply Forall_app. split; [|by repeat constructor]. apply List.Forall_map. eapply Permutation_Forall; [by symmetry|exact Hr].
  - apply sorted_strictly; [rewrite Hp; by eapply loaded_ids|apply by_id_sorted].
Qed.

(** ** The synthetic events *)

Lemma event_meta_known i kind : kind ∈ kinds → ∃ m, event_meta i kind = Ok m ∧ 1 ≤ strlen m.2 ≤ 200.
Proof.
  intros Hk. unfold kinds in Hk. rewrite !elem_of_cons, elem_of_nil in Hk.
  destruct_or? Hk; try done; subst kind; unfold event_meta; cbn; (eexists; split; [done|]); cbn; try (by vm_compute; split).
  all: destruct (i mod 2 =? 0); by vm_compute.
Qed.

Lemma kind_of_known i : kind_of i ∈ kinds.
Proof.
  unfold kind_of. apply list_elem_of_lookup_2 with (i := Z.to_nat (i mod len kinds)), list_lookup_lookup_total_lt.
  pose proof (Z.mod_pos_bound i (len kinds)). unfold len in *. cbn in *. lia.
Qed.

Lemma kind_length kind : kind ∈ kinds → strlen kind ≤ 4.
Proof.
  intros Hk. unfold kinds in Hk. rewrite !elem_of_cons, elem_of_nil in Hk.
  destruct_or? Hk; try done; subst kind; by vm_compute.
Qed.

(** The lengths of literal texts *)
Ltac literal_lengths :=
  repeat match goal with |- context [strlen (String ?c ?s)] =>
    let v := eval vm_compute in (strlen (String c s)) in change (strlen (String c s)) with v end.

(** Every synthetic event of a kind of the mix is a valid event, up to the
    largest process id. *)
Lemma event_valid now i kind :
  kind ∈ kinds → 0 ≤ i → 1000 + i ≤ MAX_PID →
  ∃ e, event now i kind = Ok e ∧ dedup_key e = compute_id [PartStr kind; PartInt i].
Proof.
  intros Hk Hi Hp. unfold event. destruct (event_meta_known i kind Hk) as ([cat action] & -> & Hm).
  cbn [mbind result_bind fst snd]. pose proof (kind_length kind Hk) as Hkl.
  pose proof (str_of_int_length 10 i ltac:(lia) ltac:(unfold MAX_PID in Hp; lia)) as Hl.
  pose proof (Z.mod_pos_bound i 1000 ltac:(lia)) as Hmod. unfold MAX_PID in Hp.
  match goal with |- context [new_event ?ev] => assert (valid_event ev = true) as Hv; [|unfold new_event; rewrite Hv; eexists; by split] end.
  unfold valid_event, valid_meta, valid_host, valid_peer. cbn [ev_timestamp ev_event ev_host ev_source ev_destination ev_process
    ev_file ev_message em_id em_action em_severity host_name peer_port dt_offset require_utc optionally].
  rewrite compute_id_format. unfold between. rewrite !andb_true_iff, !Z.leb_le. cbn [snd] in Hm.
  assert (Hn : ∀ a b, strlen (a +:+ b) = strlen a + strlen b) by apply Normalizer.strlen_app. split_and!; try done; try lia.
  - destruct (String.eqb kind "net"); [by vm_compute|done].
  - destruct (String.eqb kind "proc"); [|done]. unfold valid_process, between, MAX_PID.
    cbn [optionally proc_pid proc_ppid proc_command_line]. rewrite !andb_true_iff, !Z.leb_le, !Hn.
    set (n := strlen (str_of_int i)) in *. clearbody n. literal_lengths. lia.
  - destruct (String.eqb kind "file"); [|done]. unfold valid_file, between.
    cbn [optionally file_path file_size file_hash valid_hash fh_sha256]. rewrite !andb_true_iff, !Z.leb_le, !Hn.
    set (n := strlen (str_of_int i)) in *. clearbody n. literal_lengths. lia.
  - rewrite !Hn. literal_lengths. pose proof (strlen_nonneg kind). lia.
  - rewrite !Hn. literal_lengths. lia.
Qed.

Definition ids_of (count : Z) : list string := map (λ i, compute_id [PartStr (kind_of i); PartInt i]) (seqZ 0 count).

Lemma collect_ok {A B} (f : A → result B) (g : A → B → Prop) l :
  Forall (λ a, ∃ b, f a = Ok b ∧ g a b) l → ∃ bs, collect (map f l) = Ok bs ∧ Forall2 g l bs.
Proof.
  induction 1 as [|a l (b & Hb & Hg) _ (bs & Hbs & IH)]; [by exists []|]. exists (b :: bs). cbn. rewrite Hb. cbn.
  rewrite Hbs. by split; [|constructor].
Qed.

(** The mix is made, one event per number, under the ids of kind and number. *)
Lemma mixed_events_made clock count :
  0 ≤ count → 999 + count ≤ MAX_PID →
  ∃ es, mixed_events clock count = Ok es ∧ dedup_key <$> es = ids_of count ∧ len es = count.
Proof.
  intros Hc Hp. unfold mixed_events.
  destruct (collect_ok (λ i, event (clock i) i (kind_of i)) (λ i e, dedup_key e = compute_id [PartStr (kind_of i); PartInt i])
    (seqZ 0 count)) as (es & -> & Hes).
  { apply Forall_seqZ. intros i Hi. apply event_valid; [apply kind_of_known|lia|unfold MAX_PID in *; lia]. }
  exists es. split; [done|]. split.
  - unfold ids_of. induction Hes as [|i e l es He _ IH]; [done|]. cbn. by rewrite He, IH.
  - apply Forall2_length in Hes. unfold len. rewrite <-Hes, length_seqZ. lia.
Qed.

Lemma NoDup_image {A B} `{EqDecision B} (f : A → B) l :
  NoDup l → NoDup (map f l) ∨ ∃ a b, a ∈ l ∧ b ∈ l ∧ a ≠ b ∧ f a = f b.
Proof.
  induction 1 as [|a l Ha _ [IH|(x & y & Hx & Hy & Hne & Heq)]]; [left; constructor| |].
  - destruct (decide (f a ∈ map f l)) as [Hin|Hn]; [|by left; constructor].
    right. apply list_elem_of_fmap in Hin as (b & Heq & Hb). exists a, b. split_and!; [by left|by right|congruence|done].
  - right. exists x, y. split_and!; [by right|by right|done|done].
Qed.

(** The ids are distinct, or SHA-256 collides. *)
Lemma ids_distinct count :
  NoDup (ids_of count) ∨ ∃ m m', m ≠ m' ∧ sha256_hexdigest m = sha256_hexdigest m'.
Proof.
  destruct (NoDup_image (λ i, compute_id [PartStr (kind_of i); PartInt i]) _ (NoDup_seqZ 0 count))
    as [?|(i & j & [Hi _]%elem_of_seqZ & [Hj _]%elem_of_seqZ & Hne & Heq)]; [by left|right].
  assert (Hsep : ∀ n, 0 ≤ n → Forall (λ p, separator_free p = true) [PartStr (kind_of n); PartInt n]).
  { intros n Hn. constructor; [|constructor; [|constructor]].
    - pose proof (kind_of_known n) as Hk. unfold kinds in Hk. rewrite !elem_of_cons, elem_of_nil in Hk.
      by destruct_or? Hk; try rewrite Hk.
    - unfold separator_free. cbn [part_text]. by rewrite Process.int_no_char. }
  destruct (compute_id_collision _ _ Heq) as [Hcan|?]; [|done]. apply canonical_inj in Hcan; [|done|by apply Hsep..].
  injection Hcan as _ Hij. by apply pretty_Z_inj in Hij.
Qed.

(** ** What the benchmarks check *)

Local Open Scope list_scope.
Local Open Scope Z_scope.

Lemma concat_batches {A} fuel batch (l : list A) :
  (1 ≤ batch)%nat → (length l ≤ fuel)%nat → concat (batches fuel batch l) = l.
Proof.
  intros Hb. revert l. induction fuel as [|fuel IH]; intros l Hl; [by destruct l; cbn in *; [|lia]|].
  cbn. destruct l as [|x l]; [done|]. cbn [concat]. rewrite IH, take_drop; [done|]. rewrite length_drop. cbn in *. lia.
Qed.

Section persist_facts.
Context {TE TA : Type} `{SqlTable EventValues TE, SqlTable AlertValues TA}.

Definition contents (db : Store TE TA) : list EventValues := row_value <$> rows (event_rows db).

Lemma values_after {V} (old new : list (row V)) items :
  ((λ r, (row_write_id r, row_value r)) <$> new) = ((λ r, (row_write_id r, row_value r)) <$> old) ++ items →
  (row_value <$> new) = (row_value <$> old) ++ items.*2.
Proof. intros H1. apply (f_equal (fmap snd)) in H1. by rewrite fmap_app, <-!list_fmap_compose in H1. Qed.

Lemma per_event_contents now events (db : Store TE TA) :
  contents (per_event now events db) = contents db ++ map event_values events.
Proof.
  revert db. induction events as [|e events IH]; intros db; [by rewrite app_nil_r|]. cbn [per_event foldl].
  fold (per_event now events (save_event now e db)). rewrite IH. unfold contents, save_event. cbn [event_rows].
  rewrite (values_after (rows (event_rows db)) _ [row_of event_values (inl e)]); [by rewrite <-app_assoc|].
  apply insert_rows_fresh; [by intros w v [=]%list_elem_of_singleton|constructor].
Qed.

Lemma batched_contents now (chunks : list (list (Pending Event))) (db : Store TE TA) :
  NoDup (stored_ids (rows (event_rows db)) ++ (write_id <$> concat chunks)) →
  contents (foldl (λ db chunk, snd (save_batch now (inr <$> chunk) [] db)) db chunks)
  = contents db ++ map (λ p, event_values (record p)) (concat chunks).
Proof.
  revert db. induction chunks as [|chunk chunks IH]; intros db Hnd; [by rewrite app_nil_r|]. cbn [foldl concat].
  cbn [concat] in Hnd. rewrite fmap_app, app_assoc in Hnd. pose proof (proj1 (proj1 (NoDup_app _ _) Hnd)) as Hnd1.
  pose proof (pending_fresh event_values now chunk (event_rows db) Hnd1) as Hf. cbv zeta in Hf.
  rewrite IH.
  - unfold contents, save_batch. cbn [snd event_rows]. rewrite (values_after _ _ _ Hf), map_app, <-app_assoc.
    do 2 f_equal. by rewrite <-!list_fmap_compose.
  - unfold save_batch. cbn [snd event_rows].
    by rewrite stored_ids_contents, Hf, omap_app, <-stored_ids_contents, pending_ids.
Qed.
End persist_facts.

Lemma as_buffered_ids prefix events : NoDup (write_id <$> as_buffered prefix events).
Proof.
  unfold as_buffered. rewrite fmap_imap. apply NoDup_alt. intros i j w Hi Hj.
  apply list_lookup_imap_Some in Hi as (e & _ & Hi), Hj as (e' & _ & Hj). cbn in Hi, Hj.
  apply Nat2Z.inj. eapply (nth_write_id_inj prefix); [lia..|congruence].
Qed.

Lemma as_buffered_records prefix events : record <$> as_buffered prefix events = events.
Proof.
  unfold as_buffered. rewrite fmap_imap. apply list_eq. intros i. rewrite list_lookup_imap. by destruct (events !! i).
Qed.

(** The engine benchmark evaluates every event, over any rules that validate. *)
Lemma bench_engine_runs `{E : RegexEngine} iso rules events :
  Forall valid_rule rules →
  ∃ dss g, bench_engine iso rules events = Ok (dss, g) ∧ es_evaluations (engine_stats_of g) = len events.
Proof.
  intros Hv. unfold bench_engine.
  destruct (evaluate_all_ok iso rules DEFAULT_MAX_THRESHOLD_GROUPS events (new_engine rules DEFAULT_MAX_THRESHOLD_GROUPS))
    as (dss & g & Hall & _ & _ & He & _); [done|done|by apply new_engine_ok|].
  exists dss, g. split; [done|]. cbn in *. lia.
Qed.

(** The persistence benchmark compares two ways to the same rows: one commit
    per event, and batches of any size of the buffered events, write the same
    events in the same order. *)
Theorem bench_persist_writes_the_same `{SqlTable EventValues TE, SqlTable AlertValues TA} now prefix events batch (db : Store TE TA) :
  (1 ≤ batch)%nat → rows (event_rows db) = [] →
  contents (per_event now events db) = map event_values events ∧
  contents (batched now (as_buffered prefix events) batch db) = map event_values events.
Proof.
  intros Hb Hdb. assert (Hc : contents db = []) by (unfold contents; by rewrite Hdb). split.
  - by rewrite per_event_contents, Hc.
  - unfold batched. rewrite batched_contents, Hc; rewrite concat_batches by (done || lia).
    + cbn. rewrite <-(as_buffered_records prefix events) at 2. by rewrite map_map.
    + rewrite Hdb. apply as_buffered_ids.
Qed.

(** The pipeline benchmark's check holds: however producer and consumer
    interleave, once the whole stream was accepted and drained the consumer has
    seen as many events as there are unique ones, if the run fits in the dedup
    window. *)
Theorem bench_pipeline_sees_each_once clock count unique ls lo p x :
  0 ≤ count ≤ 100000 → mixed_events clock count = Ok unique → NoDup (ids_of count) →
  bench_pipeline = Ok p → nondecreasing (times ls) → Forall (λ t, lo ≤ t < lo + 60 * SECOND) (times ls) →
  (∀ e, Put e ∈ ls → e ∈ stream unique) →
  pl_run dedup_key ls (start p) = Ok x → sys_accepted x = stream unique → drained (sys_pl x) = true →
  expected_seen unique x = true.
Proof.
  intros Hcount Hes Hnd Hp Hs Hwin Hput Hrun Hacc Hdr.
  destruct (mixed_events_made clock count) as (es & Hes' & Hids & Hlen); [lia|unfold MAX_PID; lia|].
  rewrite Hes in Hes'. injection Hes' as <-. rewrite <-Hids in Hnd. unfold bench_pipeline in Hp.
  assert (Hin : ∀ e, e ∈ stream unique ↔ e ∈ unique).
  { intros e. unfold stream. rewrite (list_elem_of_In _ e), in_concat. split.
    - intros (l & Hl & He). apply in_map_iff in Hl as (e' & <- & He'). apply list_elem_of_In in He, He'.
      by apply elem_of_replicate in He as [-> _].
    - intros He%list_elem_of_In. exists (replicate COPIES e). split; [by apply in_map|].
      by apply list_elem_of_In, elem_of_replicate. }
  destruct (dispatched_exactly_once dedup_key _ _ _ _ _ p ls lo (dedup_key <$> unique) Hp Hs) as (x' & Hrun' & Hnd' & Hsame).
  - exact Hwin.
  - intros e He. apply list_elem_of_fmap_2, Hin, Hput, He.
  - unfold len in *. rewrite length_fmap. cbn [dedup_max_entries default_settings]. lia.
  - rewrite Hrun in Hrun'. injection Hrun' as <-.
    destruct (launch_inv _ _ _ _ _ _ Hp) as (_ & _ & _ & _ & _ & _ & Hok).
    destruct (pl_run_ok dedup_key _ _ ls [] _ (start p) (Hok dedup_key (default 0 (head (times ls))))) as (x'' & last & Hrun'' & Hsys & _);
      [rewrite app_nil_r; by apply nondecreasing_head|]. rewrite Hrun in Hrun''. injection Hrun'' as <-.
    assert (Htaken : taken x = stream unique).
    { rewrite <-Hacc. destruct Hsys as [_ Hf _ Hu _ _ _ _ _ _ _]. unfold drained, join_returns, q_join_returns in Hdr.
      apply Z.eqb_eq in Hdr. rewrite Hu in Hdr. unfold qsize, q_size in Hdr.
      pose proof (len_nonneg (option_list (sys_handling x))).
      destruct (q_items (_queue (pl_queue (sys_pl x)))) as [|e q] eqn:Hq; [|rewrite len_cons in Hdr; pose proof (len_nonneg q); lia].
      by rewrite Hf, app_nil_r. }
    unfold expected_seen. apply Z.eqb_eq. unfold len. f_equal.
    rewrite <-(length_fmap dedup_key), <-(length_fmap dedup_key unique). apply Permutation_length, NoDup_Permutation; [done..|].
    intros k. rewrite Hsame, Htaken. split; intros (e & -> & He)%list_elem_of_fmap; apply list_elem_of_fmap_2, Hin, He.
Qed.
