(* ===== verification/CollectorRun.v ===== *)
(** * The collectors' tasks ([run], [stop] and [stats] of [collectors/])

    The four [run] coroutines: a drain, a wait of a poll interval that a stop
    request ends early, and one more drain.  The drains are those of [Process],
    [Network], [Integrity] and [AuthTail]; what the i-th one sees when it starts
    at an instant, and how long it takes, are parameters.  [stop] of the
    integrity collector also sets the deadline of its scans.  Times are
    microseconds. *)

From S2P Require Import Prelude ODict PyText Events Normalizer Base Process Network Integrity AuthParse AuthTail Collector.
Local Open Scope Z_scope.

(** ** [run] *)

(** How a task went: the events it put on the queue, how it ended, its
    collector, and when *)
Record Run (C : Type) := mkRun { r_events : list Event; r_outcome : result unit; r_collector : C; r_finished : Z }.
Arguments mkRun {C} _ _ _ _.
Arguments r_events {C} _.
Arguments r_outcome {C} _.
Arguments r_collector {C} _.
Arguments r_finished {C} _.

Section run.
Context {C : Type}.
Context (drain : nat → Z → C → list Event * result unit * C) (took : nat → Z → Z).
Context (poll : Z) (requested : option Z).

Definition stopping (now : Z) : bool := match requested with Some at_ => at_ <=? now | None => false end.

(** The [i]-th drain, at [now], when it is the last *)
Definition final_drain (i : nat) (now : Z) (c : C) : Run C :=
  let '(events, outcome, c) := drain i now c in mkRun events outcome c (now + took i now).

Definition after (events : list Event) (r : Run C) : Run C :=
  mkRun (events ++ r_events r) (r_outcome r) (r_collector r) (r_finished r).

(** [run]; [None]: still polling after that many drains. *)
Fixpoint run (fuel : nat) (i : nat) (now : Z) (c : C) : option (Run C) :=
  match fuel with
  | O => None
  | S fuel =>
      if stopping now then Some (final_drain i now c)
      else
        match drain i now c with
        | (events, Raise e, c) => Some (mkRun events (Raise e) c (now + took i now))
        | (events, Ok _, c) =>
            match wait_stop (now + took i now) (Some poll) requested with
            | None => None
            | Some (true, woken) => Some (after events (final_drain (S i) woken c))
            | Some (false, woken) => r ← run fuel (S i) woken c; Some (after events r)
            end
        end
  end.
End run.

(** A drain that either ends with events or raises *)
Definition drain_of {E C} (step : E → (nat → Z) → C → result (list Event * C)) (sees : nat → Z → E)
    (clock : nat → Z → nat → Z) (i : nat) (now : Z) (c : C) : list Event * result unit * C :=
  match step (sees i now) (clock i now) c with
  | Ok (events, c) => (events, Ok tt, c)
  | Raise e => ([], Raise e, c)
  end.

(** ** The collectors *)

(** [ProcessCollector.run] *)
Definition process_run (local_hostname host : string) (decode : string → string) (max_procs : Z) sees clock :=
  run (drain_of (Process.drain_once local_hostname host decode max_procs) sees clock).

(** [NetworkCollector.run] *)
Definition network_run (local_hostname host : string) (track_connections : bool) (max_sockets : Z) sees clock :=
  run (drain_of (Network.drain_once local_hostname host track_connections max_sockets) sees clock).

(** [FileIntegrityCollector.stop] sets the deadline, which every check of a
    scan compares with its own instant; before the request there is none, and
    no instant before it is past the deadline. *)
Definition STOP_BUDGET : Z := 2 * SECOND.

Definition until_deadline (requested : option Z) (checked : nat → Z) (view : FileView) : FileView :=
  mkFileView (fv_time_ns view) (fv_root view) (fv_walk view)
    (λ n path, let v := fv_visit view n path in
       mkVisit (match requested with Some at_ => at_ + STOP_BUDGET <? checked n | None => false end) (v_lstat v) (v_open v)).

(** [FileIntegrityCollector.run] *)
Definition integrity_run (local_hostname : string) (w : Watched) sees clock :=
  run (drain_of (Integrity.drain_once local_hostname w) sees clock).

(** [AuthLogCollector.run]: whatever ends the loop, the log is closed. *)
Definition auth_run (local_hostname : string) (decode : string → string) (year : option Z) (tz : Z) (host_override : option string)
    (max_read : Z) (sees : nat → Z → FileSystem) (clock : nat → Z → nat → Z) (took : nat → Z → Z) (poll : Z)
    (requested : option Z) (fuel : nat) (i : nat) (now : Z) (c : AuthLog) : option (Run AuthLog) :=
  r ← run (λ i now, AuthTail.drain_once local_hostname decode year tz host_override (sees i now) max_read (clock i now))
        took poll requested fuel i now c;
  Some (mkRun (r_events r) (r_outcome r) (AuthTail.close (r_collector r)) (r_finished r)).

(** *** [stats] *)

Local Open Scope string_scope.

Definition process_stats (c : ProcessCollector) : list (string * Z) :=
  [("emitted", emitted (pc_watcher c)); ("tracked", len (baseline (pc_watcher c)));
   ("dead_lettered", dead_letters (w_normalizer (pc_watcher c)))].

Definition network_stats (c : NetworkCollector) : list (string * Z) :=
  [("emitted", emitted (nc_watcher c)); ("tracked", len (baseline (nc_watcher c)));
   ("dead_lettered", dead_letters (w_normalizer (nc_watcher c)))].

Definition integrity_stats (c : FileIntegrityCollector) : list (string * Z) :=
  [("emitted", emitted (ic_watcher c)); ("watched", len (baseline (ic_watcher c))); ("hashed", ic_hashed c);
   ("hash_reused", ic_reused c); ("dead_lettered", dead_letters (w_normalizer (ic_watcher c)))].

Definition auth_stats (c : AuthLog) : list (string * Z) :=
  [("parsed", al_parsed c); ("skipped", al_skipped c); ("position", al_pos c);
   ("dead_lettered", dead_letters (al_normalizer c))].

Local Close Scope string_scope.

(** ** Lemmas *)

(** *** A task asked to stop ends *)

Section ends.
Context {C : Type}.
Context (drain : nat → Z → C → list Event * result unit * C) (took : nat → Z → Z) (poll at_ : Z).
Hypothesis poll_pos : 0 < poll.
Hypothesis took_nonneg : ∀ i t, 0 ≤ took i t.

(** The drains of a task in order: the instants they start at *)
Inductive drains : nat → C → list Z → list Event → C → Prop :=
  | no_drain i c : drains i c [] [] c
  | one_drain i c t c1 ts events more c' :
      drain i t c = (events, Ok tt, c1) → drains (S i) c1 ts more c' → drains i c (t :: ts) (events ++ more) c'.

Definition enough (now : Z) : nat := S (S (Z.to_nat ((at_ - now) / poll))).

Lemma enough_later now t : now < at_ → now ≤ t → t + poll < at_ → (enough (t + poll) < enough now)%nat.
Proof.
  intros Ha Ht Hl. unfold enough. assert ((at_ - (t + poll)) / poll + 1 ≤ (at_ - now) / poll).
  { rewrite <-Z.div_add by lia. apply Z.div_le_mono; lia. }
  assert (0 ≤ (at_ - (t + poll)) / poll) by (apply Z.div_pos; lia). lia.
Qed.

(** It ends, with a last drain that starts when it is asked to stop or when the
    drain in progress then ends, unless a drain raised. *)
Lemma run_ends fuel i now c :
  (enough now ≤ fuel)%nat →
  ∃ r, run drain took poll (Some at_) fuel i now c = Some r ∧ now ≤ r_finished r ∧
    (r_outcome r = Ok tt → ∃ ts final, drains i c (ts ++ [final]) (r_events r) (r_collector r) ∧
       Forall (λ t, now ≤ t < at_) ts ∧ at_ ≤ final ∧ r_finished r = final + took (i + length ts) final ∧
       (final = Z.max now at_ ∨ ∃ j t, now ≤ t < at_ ∧ final = Z.max (t + took j t) at_)).
Proof using poll_pos took_nonneg.
  revert i now c. induction fuel as [|fuel IH]; intros i now c Hf; [unfold enough in Hf; lia|].
  pose proof (took_nonneg i now) as Htook. cbn [run]. unfold stopping.
  destruct (Z.leb_spec at_ now) as [Hstop|Hgo].
  - unfold final_drain. destruct (drain i now c) as [[events out] c'] eqn:Hd. eexists. split; [done|]. cbn.
    split; [lia|]. intros ->. exists [], now. split_and!; [by rewrite <-(app_nil_r events); econstructor; [|constructor]|constructor|done|by rewrite Nat.add_0_r|left; lia].
  - destruct (drain i now c) as [[events out] c1] eqn:Hd. destruct out as [[]|e].
    2:{ eexists. split; [done|]. cbn. split; [lia|done]. }
    cbn [wait_stop]. destruct (Z.leb_spec at_ (now + took i now + poll)) as [Hw|Hw].
    + pose proof (took_nonneg (S i) (Z.max (now + took i now) at_)) as Htook'. unfold final_drain.
      destruct (drain (S i) _ c1) as [[more out] c2] eqn:Hd2. eexists. split; [done|]. cbn. split; [lia|]. intros ->.
      exists [now], (Z.max (now + took i now) at_). split_and!; [|by repeat constructor; lia|lia|by rewrite Nat.add_1_r|].
      * cbn. econstructor; [done|]. rewrite <-(app_nil_r more). econstructor; [done|constructor].
      * right. exists i, now. split; [lia|done].
    + destruct (IH (S i) (now + took i now + poll) c1) as (r & Hr & Hle & Hok).
      { pose proof (enough_later now (now + took i now)). lia. }
      rewrite Hr. eexists. split; [done|]. cbn. split; [lia|]. intros Hout.
      destruct (Hok Hout) as (ts & final & Hds & Hall & Hfin & Hlast & Hcase).
      exists (now :: ts), final. split_and!; [by econstructor| |done|rewrite Hlast; do 2 f_equal; cbn; lia|].
      * constructor; [lia|]. eapply Forall_impl; [exact Hall|]. cbn. lia.
      * right. destruct Hcase as [->|(j & t & Ht & ->)].
        -- exists i, now. lia.
        -- exists j, t. lia.
Qed.
End ends.

(** *** What the drains of a task see *)

Section polls.
Context {E C : Type} (step : E → (nat → Z) → C → result (list Event * C)) (sees : nat → Z → E) (clock : nat → Z → nat → Z).

Fixpoint polls_at (i : nat) (ts : list Z) : list (E * (nat → Z)) :=
  match ts with [] => [] | t :: ts => (sees i t, clock i t) :: polls_at (S i) ts end.

Lemma drains_all i c ts events c' :
  drains (drain_of step sees clock) i c ts events c' → drain_all step (polls_at i ts) c = Ok (events, c').
Proof.
  induction 1 as [|i c t c1 ts events more c' Hd _ IH]; [done|]. cbn [polls_at drain_all]. unfold drain_of in Hd.
  destruct (step _ _ c) as [[es c2]|]; [|done]. injection Hd as <- <-. cbn. by rewrite IH.
Qed.

Lemma polls_at_fst i ts t : (polls_at i (ts ++ [t])).*1 = (polls_at i ts).*1 ++ [sees (i + length ts) t].
Proof.
  revert i. induction ts as [|t' ts IH]; intros i; [cbn; by rewrite Nat.add_0_r|]. cbn [app polls_at fmap list_fmap fst length].
  rewrite IH. cbn. by rewrite Nat.add_succ_r.
Qed.

Lemma polls_at_all (P : E → Prop) i ts : (∀ i t, P (sees i t)) → Forall (λ p, P p.1) (polls_at i ts).
Proof. intros HP. revert i. induction ts as [|t ts IH]; intros i; cbn; constructor; [apply HP|apply IH]. Qed.

(** A drain that cannot raise does not end its task. *)
Lemma run_never_raises took poll requested fuel i now c r :
  (∀ e now c, is_ok (step e now c) = true) →
  run (drain_of step sees clock) took poll requested fuel i now c = Some r → r_outcome r = Ok tt.
Proof.
  intros Hok. assert (Hd : ∀ i now c, (drain_of step sees clock i now c).1.2 = Ok tt).
  { intros j t d. unfold drain_of. specialize (Hok (sees j t) (clock j t) d). by destruct (step _ _ d) as [[]|]. }
  assert (Hfinal : ∀ i now c, r_outcome (final_drain (drain_of step sees clock) took i now c) = Ok tt).
  { intros j t d. unfold final_drain. specialize (Hd j t d). by destruct (drain_of _ _ _ _ _ _) as [[es out] c']. }
  revert i now c r. induction fuel as [|fuel IH]; intros i now c r Hr; [done|]. cbn [run] in Hr.
  destruct (stopping requested now); [injection Hr as <-; apply Hfinal|]. specialize (Hd i now c).
  destruct (drain_of _ _ _ _ _ _) as [[es out] c1]. cbn in Hd. subst out.
  destruct (wait_stop _ _ _) as [[[] woken]|]; [injection Hr as <-; apply Hfinal| |done].
  apply bind_Some in Hr as (r1 & Hr1 & [= <-]). cbn. by eapply IH.
Qed.
End polls.

(** *** Scans with a deadline *)

Section deadline.
Context (at_ : Z) (checked : nat → Z) (longest : Z).
Hypothesis next_check : ∀ n, checked n ≤ checked (S n) ≤ checked n + longest.

Abbreviation timed := (until_deadline (Some at_) checked).

(** Every file a scan visited was begun by the deadline. *)
Definition in_time (n0 n : nat) : Prop := (n0 ≤ n)%nat ∧ ∀ k, (n0 ≤ k < n)%nat → checked k ≤ at_ + STOP_BUDGET.

Lemma in_time_trans n0 n1 n2 : in_time n0 n1 → in_time n1 n2 → in_time n0 n2.
Proof.
  intros [H1 Ha] [H2 Hb]. split; [lia|]. intros k Hk. destruct (decide (k < n1)%nat); [apply Ha|apply Hb]; lia.
Qed.

Lemma in_time_refl n : in_time n n.
Proof. split; [done|]. intros k Hk. lia. Qed.

Lemma scan_paths_in_time max_hash_bytes max_files host_root view previous paths s :
  in_time (sc_visits s) (sc_visits (scan_of (scan_paths max_hash_bytes max_files host_root (timed view) previous paths s))).
Proof.
  revert s. induction paths as [|path paths IH]; intros s; cbn [scan_paths]; [apply in_time_refl|].
  cbn [until_deadline fv_visit]. cbn [v_late]. destruct (Z.ltb_spec (at_ + STOP_BUDGET) (checked (sc_visits s))) as [|Hle];
    [apply in_time_refl|]. destruct (max_files <=? _); [apply in_time_refl|].
  destruct (snapshot_file _ _ _ _) as [[state hashed] reused]. eapply in_time_trans; [|apply IH]. cbn [sc_visits].
  split; [lia|]. intros k Hk. by assert (k = sc_visits s) as -> by lia.
Qed.

Lemma scan_roots_in_time max_hash_bytes max_files host_root recursive view previous roots s :
  in_time (sc_visits s)
    (sc_visits (scan_of (scan_roots max_hash_bytes max_files host_root recursive (timed view) previous roots s))).
Proof.
  revert s. induction roots as [|root roots IH]; intros s; cbn [scan_roots]; [apply in_time_refl|].
  destruct (iter_files _ _ _ _) as [paths missing].
  pose proof (scan_paths_in_time max_hash_bytes max_files host_root view previous paths
    (mkScan (sc_snapshot s) (sc_visits s) (sc_hashed s) (sc_reused s) missing)) as Hp.
  destruct (scan_paths _ _ _ _ _ _ _) as [s1|s1|s1]; [|exact Hp|exact Hp]. eapply in_time_trans; [exact Hp|apply IH].
Qed.

(** A scan is over one visit after the deadline, or at its first check. *)
Lemma scan_ends_in_time w view c :
  checked (sc_visits (scan_of (scan w (timed view) c))) ≤ Z.max (checked 0) (at_ + STOP_BUDGET + longest).
Proof.
  pose proof (scan_roots_in_time (w_max_hash_bytes w) (w_max_files w) (w_host_root w) (w_recursive w) view
    (baseline (ic_watcher c)) (w_paths w) (mkScan [] 0 (ic_hashed c) (ic_reused c) (ic_missing c))) as [_ Ht].
  fold (scan w (timed view) c) in Ht. cbn [sc_visits] in Ht.
  destruct (sc_visits (scan_of (scan w (timed view) c))) as [|n]; [lia|].
  specialize (Ht n ltac:(lia)). pose proof (next_check n). lia.
Qed.
End deadline.

(** ** Properties *)

(** *** The process collector *)

Section process.
Context (local_hostname host : string) (decode : string → string) (max_procs : Z).
Context (sees : nat → Z → ProcFS) (clock : nat → Z → nat → Z) (took : nat → Z → Z).

Abbreviation seen := (view (appeared := Process.appeared host) (changed := Process.changed host) (gone := Process.gone host)).

(** A stop leaves nothing out: however the drains fall, a process collector
    asked to stop ends, by the request and the two longest drains; unless one
    raised, its last drain starts no earlier than the request, and whoever
    applies its events to the processes of its first drain knows which process
    instances that last drain found running. *)
Theorem process_run_tells_everything poll at_ start longest :
  0 < poll → start ≤ at_ → (∀ i t, 0 ≤ took i t ≤ longest) → (∀ i t, listed_once (sees i t)) →
  ∃ r, process_run local_hostname host decode max_procs sees clock took poll (Some at_) (enough poll at_ start) 0 start
         new_process_collector = Some r ∧
    (r_outcome r = Ok tt → at_ ≤ r_finished r ≤ at_ + 2 * longest ∧
       (dead_letters (w_normalizer (pc_watcher (r_collector r))) = 0 →
        ∃ last_index last_at first raws,
          at_ ≤ last_at ∧
          Forall2 (λ raw e, map_raw local_hostname raw = Ok e) raws (r_events r) ∧
          ∀ pid, (λ i, i.1.1) <$> foldl (flip tell_process) (seen first) raws !! pid
                 = snd <$> running max_procs (sees last_index last_at) pid)).
Proof.
  intros Hp Hs Ht Hall. unfold process_run.
  destruct (run_ends (drain_of (Process.drain_once local_hostname host decode max_procs) sees clock) took poll at_ Hp
    (λ i t, proj1 (Ht i t)) (enough poll at_ start) 0 start new_process_collector (Nat.le_refl _)) as (r & Hr & _ & Hok).
  exists r. split; [exact Hr|]. intros Hout. destruct (Hok Hout) as (ts & final & Hds & _ & Hfin & Hlast & Hcase).
  pose proof (Ht (0 + length ts)%nat final) as Htl. split.
  { destruct Hcase as [->|(j & t & Htt & ->)]; [lia|]. pose proof (Ht j t). lia. }
  intros Hdead. apply drains_all in Hds.
  destruct (polls_at sees clock 0 (ts ++ [final])) as [|[fs now] polls] eqn:Hpolls; [by destruct ts|].
  assert (Hgood : Forall (λ p, listed_once p.1) ((fs, now) :: polls)).
  { rewrite <-Hpolls. by apply polls_at_all. }
  destruct (@life_tells _ _ _ _ _ _ _ _ (process_telling host) local_hostname _ _
    (Process.drain_once local_hostname host decode max_procs) pc_watcher listed_once (λ _, false)
    (λ fs d, ∀ pid, instances d pid = running max_procs fs pid) (process_takes local_hostname host decode max_procs) _ new_process_collector
    (r_events r) (r_collector r) fs polls.*1 eq_refl Hgood Hds Hdead (complete_all ((fs, now) :: polls)))
    as (first & raws & Hfirst & Hlast' & Hk & Hraws & Htell & Hdrafted).
  exists (length ts), final, first, raws. split; [done|]. split; [done|]. intros pid.
  assert (foldl (flip tell_process) (seen first) raws = seen (baseline (pc_watcher (r_collector r)))) as -> by exact Htell.
  assert (Hsee : default fs (last polls.*1) = sees (length ts) final).
  { pose proof (polls_at_fst sees clock 0 ts final) as Hf. rewrite Hpolls in Hf. cbn [fmap list_fmap fst] in Hf.
    apply (f_equal last) in Hf. rewrite last_snoc, last_cons in Hf. by destruct (last polls.*1); injection Hf as <-. }
  rewrite Hsee in Hlast'. rewrite view_lookup, <-Hlast'. unfold instances.
  by destruct (od_get (baseline (pc_watcher (r_collector r))) pid).
Qed.
End process.

(** *** The integrity collector *)

Section integrity.
Context (local_hostname : string) (w : Watched) (at_ : Z).
(** What the i-th scan meets when it starts at an instant, when it makes its
    checks (from that instant on), and how long its events take to be queued *)
Context (files : nat → Z → FileView) (clock : nat → Z → nat → Z) (check : nat → Z → nat → Z) (queued : nat → Z → Z).

Definition scanned (i : nat) (now : Z) : FileView := until_deadline (Some at_) (λ n, now + check i now n) (files i now).

Definition scan_took (i : nat) (now : Z) : Z :=
  check i now (sc_visits (scan_of (bare_scan w (scanned i now)))) + queued i now.

(** C34: an integrity collector asked to stop ends on time and tells what it
    knows: its task ends by the request, the scan budget, and twice the longest
    visit of a file and the longest queueing of events, however many files there
    are and however long a whole scan of them takes; it never raises; and its
    events, applied to the files of its first complete scan, give the watched
    files of its last complete one, a scan cut short by the deadline counting
    for nothing. *)
Theorem integrity_run_stops_on_time poll start longest queueing :
  0 < poll → start ≤ at_ → 0 ≤ longest →
  (∀ i t, 0 ≤ check i t 0 ≤ longest) → (∀ i t n, check i t n ≤ check i t (S n) ≤ check i t n + longest) →
  (∀ i t, 0 ≤ queued i t ≤ queueing) → (∀ i t, paths_fit w (scanned i t)) →
  ∃ r, integrity_run local_hostname w scanned clock scan_took poll (Some at_) (enough poll at_ start) 0 start new_integrity = Some r ∧
    r_outcome r = Ok tt ∧ at_ ≤ r_finished r ≤ at_ + STOP_BUDGET + 2 * (longest + queueing) ∧
    ∃ ts last_at, at_ ≤ last_at ∧ Forall (λ t, start ≤ t < at_) ts ∧
      (dead_letters (w_normalizer (ic_watcher (r_collector r))) = 0 →
       ∀ first rest, complete (cut_short w) (polls_at scanned clock 0 (ts ++ [last_at])) = first :: rest →
       ∃ s0 raws, bare_all s0 = found w first ∧
         Forall2 (λ raw e, map_raw local_hostname raw = Ok e) raws (r_events r) ∧
         ∀ path, foldl (flip tell_file) (view (appeared := Integrity.appeared (w_host w)) (changed := Integrity.changed (w_host w))
                     (gone := vanished (w_host w)) s0) raws !! path
                 = (λ s, octal_mode (fs_mode s)) <$> od_get (found w (default first (last rest))) path).
Proof.
  intros Hp Hs Hl H0 Hn Hq Hfit. unfold integrity_run.
  assert (Hmono : ∀ i t n, 0 ≤ check i t n).
  { intros i t n. induction n as [|n IH]; [apply H0|]. specialize (Hn i t n). lia. }
  assert (Hend : ∀ i t, t + scan_took i t ≤ Z.max (t + longest) (at_ + STOP_BUDGET + longest) + queueing).
  { intros i t. unfold scan_took. pose proof (scan_ends_in_time at_ (λ n, t + check i t n) longest) as He. cbv beta in He.
    specialize (He (λ n, ltac:(pose proof (Hn i t n); lia)) w (files i t) new_integrity).
    fold (scanned i t) in He. fold (bare_scan w (scanned i t)) in He. specialize (H0 i t). specialize (Hq i t). lia. }
  assert (Htook : ∀ i t, 0 ≤ scan_took i t).
  { intros i t. unfold scan_took. pose proof (Hq i t). pose proof (Hmono i t (sc_visits (scan_of (bare_scan w (scanned i t))))). lia. }
  destruct (run_ends (drain_of (Integrity.drain_once local_hostname w) scanned clock) scan_took poll at_ Hp Htook
    (enough poll at_ start) 0 start new_integrity (Nat.le_refl _)) as (r & Hr & _ & Hok).
  assert (Hout : r_outcome r = Ok tt).
  { eapply run_never_raises; [|exact Hr]. intros e now c. unfold Integrity.drain_once.
    by destruct (scan w e c); [destruct (take_snapshot _ _ _ _ _)..|]. }
  exists r. split; [exact Hr|]. split; [done|].
  destruct (Hok Hout) as (ts & final & Hds & Hts & Hfin & Hlast & Hcase). split.
  { pose proof (Hend (0 + length ts)%nat final). pose proof (Htook (0 + length ts)%nat final). unfold STOP_BUDGET, SECOND in *.
    pose proof (Hq 0%nat start). assert (final ≤ at_ + 2000000 + longest + queueing); [|lia].
    destruct Hcase as [->|(j & t & Htt & ->)]; [lia|]. pose proof (Hend j t). lia. }
  exists ts, final. split; [done|]. split; [exact Hts|]. intros Hdead first rest Hcomplete. apply drains_all in Hds.
  destruct (@life_tells _ _ _ _ _ _ _ _ (integrity_telling (w_host w)) local_hostname _ _ (Integrity.drain_once local_hostname w)
    ic_watcher (paths_fit w) (cut_short w) (λ v d, bare_all d = found w v) (integrity_takes local_hostname w) _ new_integrity
    (r_events r) (r_collector r) first rest eq_refl (polls_at_all _ clock _ 0 _ Hfit) Hds Hdead Hcomplete)
    as (s0 & raws & Hfirst & Hlast' & _ & Hraws & Htell & Hdrafted).
  exists s0, raws. split; [done|]. split; [done|]. intros path.
  assert (Htold : foldl (flip tell_file) (view (appeared := Integrity.appeared (w_host w)) (changed := Integrity.changed (w_host w))
    (gone := vanished (w_host w)) s0) raws = view (baseline (ic_watcher (r_collector r)))) by exact Htell.
  rewrite Htold, view_lookup, <-Hlast', bare_all_get. by destruct (od_get (baseline (ic_watcher (r_collector r))) path).
Qed.
End integrity.

(** *** The auth-log collector *)

(** However its task ends, the log is closed, and where it was read up to is
    kept for the next task. *)
Lemma auth_run_closes local_hostname decode year tz host_override max_read sees clock took poll requested fuel i now c r :
  auth_run local_hostname decode year tz host_override max_read sees clock took poll requested fuel i now c = Some r →
  al_handle (r_collector r) = None ∧
  ∃ r0, run (λ i now, AuthTail.drain_once local_hostname decode year tz host_override (sees i now) max_read (clock i now))
          took poll requested fuel i now c = Some r0 ∧
    al_pos (r_collector r) = al_pos (r_collector r0) ∧ al_buf (r_collector r) = al_buf (r_collector r0) ∧
    r_events r = r_events r0 ∧ r_outcome r = r_outcome r0.
Proof. unfold auth_run. intros (r0 & Hr0 & [= <-])%bind_Some. split; [done|]. exists r0. by split_and!. Qed.

(** *** A task polls as the contract says *)

Lemma run_polls {C} (drain : nat → Z → C → list Event * result unit * C) took poll requested fuel i now c r :
  run drain (λ i _, took i) poll requested fuel i now c = Some r → r_outcome r = Ok tt →
  ∃ ts, poll_loop fuel poll requested took i now = Some ts ∧ drains drain i c ts (r_events r) (r_collector r).
Proof.
  revert i now c r. induction fuel as [|fuel IH]; intros i now c r Hr Hout; [done|]. cbn [run poll_loop] in *.
  assert (Hlast : ∀ i t c, r_outcome (final_drain drain (λ i _, took i) i t c) = Ok tt →
    drains drain i c [t] (r_events (final_drain drain (λ i _, took i) i t c)) (r_collector (final_drain drain (λ i _, took i) i t c))).
  { intros j t d. unfold final_drain. destruct (drain j t d) as [[es out] d'] eqn:Hd. cbn. intros ->.
    rewrite <-(app_nil_r es). econstructor; [done|constructor]. }
  unfold stopping in Hr. destruct (match requested with Some at_ => at_ <=? now | None => false end).
  { injection Hr as <-. exists [now]. split; [done|]. by apply Hlast. }
  destruct (drain i now c) as [[es out] c1] eqn:Hd. destruct out as [[]|e]; [|by injection Hr as <-].
  destruct (wait_stop _ _ _) as [[[] woken]|]; [| |done].
  - injection Hr as <-. exists [now; woken]. split; [done|]. cbn in Hout |- *. econstructor; [done|]. by apply Hlast.
  - apply bind_Some in Hr as (r1 & Hr1 & [= <-]). cbn in Hout. destruct (IH _ _ _ _ Hr1 Hout) as (ts & -> & Hds).
    exists (now :: ts). split; [done|]. cbn. by econstructor.
Qed.

(** ** Witness *)

Definition example_files (_ : nat) (_ : Z) : FileView := before_change 5.

(** A scan that checks every 2 ms *)
Definition example_checks (_ : nat) (_ : Z) (n : nat) : Z := 2000 * Z.of_nat n.

Lemma example_fits (late : nat → bool) :
  paths_fit example_watched (mkFileView 5 (λ _, Some (example_stat 420 1000)) (λ _, [])
    (λ n _, mkVisit (late n) (Some (example_stat 420 1000)) (Some (mkOpenFile (Some (example_stat 420 1000)) (Some [97]))))).
Proof. vm_compute. destruct (late 0%nat); repeat constructor; discriminate. Qed.

Lemma integrity_run_stops_on_time_witness :
  let sees := scanned 3000 example_files example_checks in
  ∃ r, integrity_run "h" example_watched sees (λ _ _ _, 0)
         (scan_took example_watched 3000 example_files example_checks (λ _ _, 0)) 1000 (Some 3000) (enough 1000 3000 0) 0 0
         new_integrity = Some r ∧
    3000 ≤ r_finished r ≤ 3000 + STOP_BUDGET + 2 * 2000.
Proof.
  intros sees.
  destruct (integrity_run_stops_on_time "h" example_watched 3000 example_files (λ _ _ _, 0) example_checks (λ _ _, 0) 1000 0 2000 0)
    as (r & Hr & _ & Hf & _).
  - lia.
  - lia.
  - lia.
  - intros i t. unfold example_checks. lia.
  - intros i t n. unfold example_checks. lia.
  - intros i t. lia.
  - intros i t. exact (example_fits (λ n, 3000 + STOP_BUDGET <? t + example_checks i t n)).
  - exists r. split; [exact Hr|lia].
Defined.
