(* ===== verification/Columns.v ===== *)
(** * What is stored fits its columns

    The widths and kinds the schema declares ([storage/models.py]) against what
    the pipeline produces: the values [_event_values] and [_alert_values] give a
    row, under their column names.  PostgreSQL refuses a text longer than its
    column; nothing the normalizer and the engine make is. *)

From S2P Require Import Prelude ODict PyText Sha256 PyRe Events Dedup Normalizer Rules Engine Alerting Storage Migrations.
Local Open Scope string_scope.
Local Open Scope Z_scope.

(** ** Rows *)

Definition optional_text (t : option string) : value := match t with Some s => TextValue s | None => Null end.

(** [_row(_, _event_values)] with the defaults of the other columns; [now] is
    the instant of insertion. *)
Definition event_record (now : Z) (item : option string * EventValues) : Migrations.record :=
  let v := item.2 in
  list_to_map [
    ("event_id", TextValue (ev_event_id v));
    ("occurred_at", TimeValue (dt_instant (ev_occurred_at v)));
    ("category", TextValue (ev_category v));
    ("action", TextValue (ev_action v));
    ("outcome", TextValue (ev_outcome v));
    ("severity", IntValue (ev_severity v));
    ("host", TextValue (ev_host_name v));
    ("source_ip", optional_text (ev_source_ip v));
    ("message", TextValue (ev_message_text v));
    ("created_at", TimeValue now);
    ("write_id", optional_text item.1)].

(** [_row(_, _alert_values)] *)
Definition alert_record (now : Z) (item : option string * AlertValues) : Migrations.record :=
  let v := item.2 in
  list_to_map [
    ("dedup_key", TextValue (av_dedup_key v));
    ("rule_id", TextValue (av_rule_id v));
    ("severity", IntValue (av_severity v));
    ("attack", TextValue (av_attack v));
    ("nist_csf", TextValue (av_nist_csf v));
    ("event_id", TextValue (av_event_id v));
    ("host", TextValue (av_host v));
    ("occurred_at", TimeValue (dt_instant (av_occurred_at v)));
    ("summary", TextValue (av_summary v));
    ("notified", BoolValue (av_notified v));
    ("created_at", TimeValue now);
    ("write_id", optional_text item.1)].

(** What a column takes *)
Definition fits (c : column) (v : value) : bool :=
  match col_type c, v with
  | _, Null => nullable c
  | INTEGER, IntValue n => Events.between (- 2 ^ 31) (2 ^ 31 - 1) n
  | VARCHAR n, TextValue s => strlen s <=? n
  | TEXT, TextValue _ => true
  | BOOLEAN, BoolValue _ => true
  | TIMESTAMPTZ, TimeValue _ => true
  | _, _ => false
  end.

(** A row to insert: every column but the key, which the database assigns *)
Definition insertable_into (m : model) (r : Migrations.record) : bool :=
  bool_decide (dom r = list_to_set (attribute <$> filter (λ a, key a = false) (attributes m)))
    && forallb (λ a, key a || match r !! attribute a with Some v => fits (mapped_column a).2 v | None => false end) (attributes m).

(** ** The longest text a pattern matches *)

(** How much a pattern takes at most; [None]: no bound *)
Fixpoint most (r : re) : option nat :=
  match r with
  | Eps | WordEnd | Eol => Some 0%nat
  | Cls _ => Some 1%nat
  | Seq a b => n ← most a; m ← most b; Some (n + m)%nat
  | Alt a b => n ← most a; m ← most b; Some (Nat.max n m)
  | Rep _ _ (Some hi) a => n ← most a; Some (hi * n)%nat
  | Rep _ _ None _ => None
  | Group _ a => most a
  end.

(** A whole text, for a pattern that ends in [$] *)
Fixpoint longest_text (r : re) : option nat :=
  match r with
  | Seq a b => n ← most a; m ← longest_text b; Some (n + m)%nat
  | Eol => Some 1%nat
  | _ => None
  end.

Lemma rep_takes {R} (one_more : string → captures → (string → captures → option R) → option R) greedy k n :
  (∀ s g k x, one_more s g k = Some x → ∃ s' g', (String.length s ≤ n + String.length s')%nat ∧ k s' g' = Some x) →
  ∀ fuel lo hi s g x, rep_loop one_more greedy k fuel lo (Some hi) s g = Some x →
  ∃ s' g', (String.length s ≤ hi * n + String.length s')%nat ∧ k s' g' = Some x.
Proof.
  intros Ho. induction fuel as [|fuel IH]; intros lo hi s g x Hr; cbn [rep_loop] in Hr.
  - exists s, g. split; [lia|]. destruct hi, lo, greedy; cbn in Hr; try done; by destruct (k s g).
  - set (stop := match lo with O => k s g | _ => None end) in Hr.
    assert (Hstop : stop = Some x → ∃ s' g', (String.length s ≤ hi * n + String.length s')%nat ∧ k s' g' = Some x).
    { intros Hs. exists s, g. split; [lia|]. subst stop. by destruct lo. }
    destruct hi as [|hi]; [apply Hstop; by destruct greedy, stop|].
    match type of Hr with context [one_more s g ?k0] => set (one := one_more s g k0) in Hr; assert (Hone : one = Some x →
      ∃ s' g', (String.length s ≤ S hi * n + String.length s')%nat ∧ k s' g' = Some x) end.
    { intros H1. apply Ho in H1 as (s1 & g1 & Hl1 & H1). destruct (_ <? _)%nat; [|done].
      cbn [mbind option_bind] in H1. rewrite Nat.sub_0_r in H1 || idtac.
      apply IH in H1 as (s' & g' & Hl & Hk). exists s', g'. split; [|done]. cbn in Hl. rewrite ?Nat.sub_0_r in Hl. lia. }
    destruct greedy; [destruct one|destruct stop]; naive_solver.
Qed.

Lemma run_takes {R} r n s g (k : string → captures → option R) x :
  most r = Some n → run_re r s g k = Some x →
  ∃ s' g', (String.length s ≤ n + String.length s')%nat ∧ k s' g' = Some x.
Proof.
  revert n s g k x. induction r as [|P|a IHa b IHb|a IHa b IHb|greedy lo hi a IHa|name a IHa| |]; intros n s g k x Hn Hr;
    cbn [most run_re] in Hn, Hr.
  - injection Hn as <-. exists s, g. split; [lia|done].
  - injection Hn as <-. destruct s as [|c s]; [done|]. destruct (P c); [|done]. exists s, g. split; [cbn; lia|done].
  - apply bind_Some in Hn as (na & Hna & Hn). apply bind_Some in Hn as (nb & Hnb & [= <-]).
    apply (IHa _ _ _ _ _ Hna) in Hr as (s1 & g1 & Hl1 & Hr). apply (IHb _ _ _ _ _ Hnb) in Hr as (s2 & g2 & Hl2 & Hr).
    exists s2, g2. split; [lia|done].
  - apply bind_Some in Hn as (na & Hna & Hn). apply bind_Some in Hn as (nb & Hnb & [= <-]).
    destruct (run_re a s g k) as [y|] eqn:Ha.
    + injection Hr as ->. apply (IHa _ _ _ _ _ Hna) in Ha as (s1 & g1 & Hl & Hk). exists s1, g1. split; [lia|done].
    + apply (IHb _ _ _ _ _ Hnb) in Hr as (s1 & g1 & Hl & Hk). exists s1, g1. split; [lia|done].
  - destruct hi as [hi|]; [|done]. apply bind_Some in Hn as (na & Hna & [= <-]).
    eapply rep_takes; [|exact Hr]. intros s1 g1 k1 x1. by apply IHa.
  - apply (IHa _ _ _ _ _ Hn) in Hr as (s1 & g1 & Hl & Hk). eexists s1, _. split; [lia|exact Hk].
  - injection Hn as <-. destruct (word_follows s); [done|]. exists s, g. split; [lia|done].
  - injection Hn as <-. destruct (at_end s); [|done]. exists s, g. split; [lia|done].
Qed.

Lemma matched_length r n s : longest_text r = Some n → re_matches r s = true → strlen s ≤ Z.of_nat n.
Proof.
  unfold re_matches, re_match. intros Hn Hr.
  assert (Hg : ∀ g (k : string → captures → option captures) x, run_re r s g k = Some x → (String.length s ≤ n)%nat).
  { clear Hr. revert n s Hn. induction r as [| |a _ b IHb| | | | |]; intros n s Hn g k x Hr; cbn [longest_text run_re] in Hn, Hr; try done.
    - apply bind_Some in Hn as (na & Hna & Hn). apply bind_Some in Hn as (nb & Hnb & [= <-]).
      apply (run_takes _ _ _ _ _ _ Hna) in Hr as (s1 & g1 & Hl & Hr). apply (IHb _ _ Hnb) in Hr. lia.
    - injection Hn as <-. destruct (at_end s) eqn:He; [|done]. destruct s as [|c [|d s]]; [cbn; lia|cbn; lia|done]. }
  destruct (run_re _ _ _ _) as [g|] eqn:Hm; [|done]. apply Hg in Hm. unfold strlen. lia.
Qed.

(** Ids joined with commas *)
Lemma joined_length n m l :
  0 ≤ n → Forall (λ s, strlen s ≤ n) l → len l ≤ m → strlen (str_join "," l) ≤ m * (n + 1).
Proof.
  intros Hn Hl. revert m. induction Hl as [|s l Hs Hl IH]; intros m Hm; [rewrite len_nil in Hm; change (strlen (str_join "," [])) with 0; nia|].
  rewrite len_cons in Hm. destruct l as [|s' l].
  - cbn [str_join]. rewrite len_nil in Hm. nia.
  - change (str_join "," (s :: s' :: l)) with (s +:+ "," +:+ str_join "," (s' :: l)).
    rewrite !Normalizer.strlen_app. change (strlen ",") with 1. specialize (IH (m - 1)). nia.
Qed.

Lemma ids_length (r : Rule) : is_ok (validate_ids r) = true →
  Forall (λ s, strlen s ≤ 10) (rule_attack r) ∧ Forall (λ s, strlen s ≤ 9) (rule_nist_csf r).
Proof.
  unfold validate_ids. destruct (raise_if _ _); [|done]. cbn [mbind result_bind].
  destruct (check_all (rule_attack r) ATTACK_RE) as [[]|] eqn:Ha; [|done]. cbn [mbind result_bind].
  destruct (check_all (rule_nist_csf r) NIST_RE) as [[]|] eqn:Hn; [|done]. intros _.
  unfold check_all in *. rewrite check_each_ok in Ha, Hn. split.
  - eapply Forall_impl; [exact Ha|]. cbn. intros s Hs. apply raise_if_ok, negb_false_iff in Hs.
    exact (matched_length ATTACK_RE 10 s eq_refl Hs).
  - eapply Forall_impl; [exact Hn|]. cbn. intros s Hs. apply raise_if_ok, negb_false_iff in Hs.
    exact (matched_length NIST_RE 9 s eq_refl Hs).
Qed.

(** ** Rows out of items *)

Lemma items_get (l : list (string * value)) k v :
  NoDup l.*1 → od_get l k = Some v → (list_to_map l : Migrations.record) !! k = Some v.
Proof.
  intros Hnd Hk. apply elem_of_list_to_map_1; [done|]. by apply od_get_elem_of.
Qed.

Lemma items_insertable m (l : list (string * value)) :
  NoDup l.*1 → (list_to_set l.*1 : gset string) = list_to_set (attribute <$> filter (λ a, key a = false) (attributes m)) →
  Forall (λ a, key a = true ∨ ∃ v, od_get l (attribute a) = Some v ∧ fits (mapped_column a).2 v = true) (attributes m) →
  insertable_into m (list_to_map l) = true.
Proof.
  intros Hnd Hdom Hall. unfold insertable_into. apply andb_true_iff. split.
  - apply bool_decide_eq_true. by rewrite dom_list_to_map_L.
  - apply forallb_forall. intros a Ha%list_elem_of_In. eapply Forall_forall in Hall as [->|(v & Hv & Hf)]; [done| |done].
    rewrite (items_get _ _ _ Hnd Hv), Hf. apply orb_true_r.
Qed.

Ltac each_column m :=
  unfold m; cbn [attributes];
  repeat lazymatch goal with
  | |- Forall _ [] => apply Forall_nil_2
  | |- Forall _ (_ :: _) => apply Forall_cons_2; [first [left; reflexivity|right; eexists; split; [reflexivity|]]|]
  end; cbn [fits mapped_column mapped_type optional plain with_index snd col_type nullable]; try reflexivity.

(** What an event has to satisfy to be stored *)
Definition storable (e : Event) : Prop :=
  valid_event e = true ∧ ∀ ip, peer_ip (ev_source e) = Some ip → strlen ip ≤ 64.

Definition fitting_id (w : option string) : Prop := ∀ s, w = Some s → strlen s ≤ 32.

Lemma optional_fits n pk d (t : option string) :
  (∀ s, t = Some s → strlen s ≤ n) → fits (mkColumn (VARCHAR n) true pk d) (optional_text t) = true.
Proof. intros Ht. destruct t as [s|]; [|done]. cbn. apply Z.leb_le. by apply Ht. Qed.

(** The bounds [valid_event] puts on what is stored *)
Lemma event_bounds e : valid_event e = true →
  strlen (em_id (ev_event e)) = 64 ∧ strlen (em_action (ev_event e)) ≤ 200 ∧
  0 ≤ em_severity (ev_event e) ≤ 7 ∧ strlen (host_name (ev_host e)) ≤ 253.
Proof.
  unfold valid_event, valid_meta, valid_host, check_id_format.
  rewrite !andb_true_iff, !Normalizer.between_iff, Z.eqb_eq. lia.
Qed.

Lemma short_words n l s : forallb (λ s, strlen s <=? n) l = true → s ∈ l → strlen s ≤ n.
Proof. rewrite forallb_forall. intros Hl Hs%list_elem_of_In. by apply Z.leb_le, Hl. Qed.

Lemma event_insertable now w e :
  storable e → fitting_id w → insertable_into Migrations.EventRow (event_record now (w, event_values e)) = true.
Proof.
  intros [(Hid & Ha & Hs & Hh)%event_bounds Hip] Hw.
  apply items_insertable; [by_evaluation|by_evaluation|].
  each_column Migrations.EventRow; cbn [snd event_values ev_event_id ev_action ev_host_name ev_severity ev_source_ip ev_category ev_outcome];
    first [exact (optional_fits 64 false None _ Hip) | exact (optional_fits 32 false None _ Hw) | by apply Z.leb_le; lia | by apply Normalizer.between_iff; lia | by destruct (em_category _)
          | by destruct (em_outcome _)].
Qed.

(** What a rule and an event have to satisfy for the detection to be stored *)
Lemma rule_bounds r : validate_rule r = Ok r →
  strlen (rule_id r) ≤ 64 ∧ 0 ≤ rule_severity r ≤ 7 ∧
  strlen (str_join "," (rule_attack r)) ≤ 256 ∧ strlen (str_join "," (rule_nist_csf r)) ≤ 256.
Proof.
  unfold validate_rule, valid_rule_fields. intros Hr. destruct (_ && _) eqn:Hv in Hr; [|done]. clear Hr.
  apply andb_true_iff in Hv as [Hf Hi]. rewrite !andb_true_iff, !Normalizer.between_iff in Hf.
  assert (Hids : is_ok (validate_ids r) = true) by by destruct (validate_ids r).
  apply ids_length in Hids as [Ha Hn].
  pose proof (joined_length 10 16 (rule_attack r) ltac:(lia) Ha). pose proof (joined_length 9 16 (rule_nist_csf r) ltac:(lia) Hn).
  lia.
Qed.

(** An alert as the engine's detections and the manager's marks make it *)
Lemma alert_insertable now w r e complete al :
  validate_rule r = Ok r → valid_event e = true → fitting_id w →
  (∃ b s, al = with_notified b (with_summary s (from_detection (Engine.build r e complete)))) →
  insertable_into Migrations.AlertRow (alert_record now (w, alert_values al)) = true.
Proof.
  intros (Hid & Hs & Hat & Hn)%rule_bounds (He & _ & _ & Hh)%event_bounds Hw (b & s & ->).
  apply items_insertable; [by_evaluation|by_evaluation|].
  each_column Migrations.AlertRow;
    cbn [snd alert_values av_dedup_key av_rule_id av_severity av_attack av_nist_csf av_event_id av_host with_notified
      with_summary from_detection al_dedup_key al_rule_id al_severity al_attack al_nist_csf al_event_id al_host Engine.build
      det_rule_id det_event_id det_severity det_attack det_nist_csf det_host];
    first [exact (optional_fits 32 false None _ Hw)
          | by apply Z.leb_le; rewrite ?Normalizer.strlen_app; change (strlen "|") with 1; lia
          | by apply Normalizer.between_iff; lia].
Qed.

(** What the manager hands on for a detection *)
Lemma processed_alert {W} `{DuplicateFilter W} seen now d (m : AlertManager W) al m' :
  process seen now d m = Ok (Some al, m') → ∃ b s, al = with_notified b (with_summary s (from_detection d)).
Proof.
  unfold process. case_match; [done|]. destruct (df_seen _ _ _) as [[dup w]|]; [|done]. cbn [mbind result_bind].
  destruct dup; [done|]. destruct (is_throttled _ _ _) as [[] hits]; [intros [= <- _]; by exists false, (det_message d)|].
  destruct (pop_count _ _) as [n counts]. intros [= <- _].
  exists true, (if n =? 0 then det_message d else det_message d +:+ withheld_note n). by case_match.
Qed.

(** The ids the buffer gives *)
Lemma write_id_fits prefix n :
  strlen prefix = 16 → 0 ≤ n < 2 ^ 64 → fitting_id (Some (nth_write_id prefix n)).
Proof.
  intros Hp Hn s [= <-]. unfold nth_write_id. rewrite Normalizer.strlen_app, Hp.
  unfold strlen at 1. rewrite (proj1 (hex_word_shape _ _)). unfold hex_width.
  assert (Z.log2 n < 64) by (destruct (decide (n = 0)) as [->|]; [done|]; apply Z.log2_lt_pow2; lia).
  assert (Z.log2 n / 4 + 1 ≤ 16) by (apply Z.lt_succ_r; change (Z.succ 16) with (16 + 1); pose proof (Z.div_lt_upper_bound (Z.log2 n) 4 16); lia).
  lia.
Qed.

(** What the normalizer makes *)
Lemma mapped_is_storable local_hostname raw e :
  valid_raw raw = true → map_raw local_hostname raw = Ok e → storable e.
Proof.
  intros Hv Hm. destruct raw as [r|r|r|r]; cbn [map_raw valid_raw] in Hm, Hv; revert Hm;
    unfold map_auth, map_process, map_file, map_network, new_event.
  - destruct (outcome_of _); [|done]. cbn [mbind result_bind]. case_match eqn:He; [|done]. intros [= <-].
    split; [exact He|]. intros ip [= <-].
    unfold valid_raw_auth in Hv. rewrite !andb_true_iff, !Normalizer.text_iff in Hv. lia.
  - case_match eqn:He; [|done]. intros [= <-]. by split.
  - case_match eqn:He; [|done]. intros [= <-]. by split.
  - case_match eqn:He; [|done]. intros [= <-]. split; [exact He|]. intros ip [= <-].
    unfold valid_raw_network in Hv. rewrite !andb_true_iff, !Normalizer.text_iff in Hv. lia.
Qed.

(** ** Properties *)

(** C36: everything the service stores fits the table it goes into: an event
    normalized from a valid observation, and an alert the manager makes of its
    detection by a valid rule, give a row with exactly the columns of the model
    (the key apart), each value of its column's kind and within its width, under
    any of the first 2^64 write ids of a writer. *)
Theorem stored_records_fit {W} `{DuplicateFilter W} local_hostname raw e prefix n now :
  valid_raw raw = true → map_raw local_hostname raw = Ok e →
  strlen prefix = 16 → 0 ≤ n < 2 ^ 64 →
  insertable_into Migrations.EventRow (event_record now (Some (nth_write_id prefix n), event_values e)) = true ∧
  ∀ r complete seen clock (m : AlertManager W) al m',
    validate_rule r = Ok r → process seen clock (Engine.build r e complete) m = Ok (Some al, m') →
    insertable_into Migrations.AlertRow (alert_record now (Some (nth_write_id prefix n), alert_values al)) = true.
Proof.
  intros Hv Hm Hp Hn. pose proof (mapped_is_storable _ _ _ Hv Hm) as He. pose proof (write_id_fits _ _ Hp Hn) as Hw.
  split; [by apply event_insertable|]. intros r complete seen clock m al m' Hr Hal%processed_alert.
  by eapply alert_insertable; [exact Hr|apply He|..].
Qed.

(** ** Witnesses *)

Definition example_rule : Rule :=
  Engine.example_rule "shell" (on_field "event.action" EQUALS (VScalar (SStr "process_started"))).

Lemma stored_records_fit_witness :
  ∃ e, map_raw "h" (RawProcess (example_process "sh")) = Ok e ∧
    insertable_into Migrations.EventRow (event_record 7 (Some (nth_write_id "0123456789abcdef" 5), event_values e)) = true ∧
    ∃ al m', process 0 0 (Engine.build example_rule e true) example_manager = Ok (Some al, m') ∧
      insertable_into Migrations.AlertRow
        (alert_record 7 (Some (nth_write_id "0123456789abcdef" 5), alert_values al)) = true.
Proof.
  assert (Hn : 0 ≤ 5 < 2 ^ 64) by lia.
  destruct (map_raw_ok "h" (RawProcess (example_process "sh")) eq_refl I) as (e & He & _).
  destruct (stored_records_fit (W := DedupWindow) "h" (RawProcess (example_process "sh")) e "0123456789abcdef" 5 7
    eq_refl He eq_refl Hn) as [Hev Hal].
  exists e. split; [exact He|]. split; [exact Hev|].
  destruct (process 0 0 (Engine.build example_rule e true) example_manager) as [[[al|] m']|x] eqn:Hpr; [..|].
  - exists al, m'. split; [done|]. exact (Hal example_rule _ _ _ _ _ _ eq_refl Hpr).
  - by cbv in Hpr.
  - by cbv in Hpr.
Defined.
